(** * AiTrader backtesting engine: a shallow embedding of
      [quant-python/backtester.py] and the properties of its event-driven
      simulator, equity curve builder, metrics engine and vectorised
      evaluator.

    Python floats and numpy [float64] scalars are IEEE binary64 numbers and
    are embedded as Rocq's primitive floats, so every concrete run below is
    evaluated with the very roundings the interpreter performs.
    [pd.Timestamp] values are embedded as integers (nanoseconds since the
    epoch) and Python integers as [Z].  A Python exception is a value of the
    error monad [result]: a lookup of a missing column, a conversion of a
    value that is not a finite number, a difference of timestamps that no
    [pd.Timedelta] holds and a comparison with a missing date all raise, as
    they do in the interpreter.

    The facts about doubles that no evaluation settles (a conversion or a
    division that cannot overflow, the asymmetry of the order of the sort)
    are proved from the specification of the primitive operations in
    [FloatAxioms]. *)

From Stdlib Require Import ZArith Floats Uint63 Lia Bool Sorted.
From stdpp Require Import gmap strings list pretty.

Set Warnings "-inexact-float".
Local Open Scope Z_scope.

(* ===================================================================== *)
(** ** Python exceptions as an error monad *)
(* ===================================================================== *)

Inductive PyError : Type :=
| KeyError (key : string)
| IndexError
| ValueError
| OverflowError
| TypeError.

Definition result (A : Type) : Type := (PyError + A)%type.

Definition ok {A : Type} (a : A) : result A := inr a.
Definition raise {A : Type} (e : PyError) : result A := inl e.

Definition bind {A B : Type} (m : result A) (k : A -> result B) : result B :=
  match m with
  | inl e => inl e
  | inr a => k a
  end.

Notation "'let*' x ':=' m 'in' k" := (bind m (fun x => k))
  (at level 10, x name, m at level 100, k at level 200).

(* ===================================================================== *)
(** ** Python and numpy primitives on floats *)
(* ===================================================================== *)

(** [float(z)] for a Python integer [z] of magnitude below 2^63: the
    nearest double.  The integers the engine converts are lengths of lists,
    numbers of days, [int64] numbers of nanoseconds and sums of holding
    counts; the statements that depend on the value of a conversion keep
    their integers below this bound, beyond which the definition is not the
    interpreter's conversion. *)
Definition float_of_Z (z : Z) : float :=
  if z <? 0 then PrimFloat.opp (PrimFloat.of_uint63 (Uint63.of_Z (- z)))
  else PrimFloat.of_uint63 (Uint63.of_Z z).

(** The builtin [max(a, b)] on two numbers: the first argument is kept unless
    the second is strictly greater (so a NaN first argument is returned). *)
Definition py_max (a b : float) : float :=
  if PrimFloat.ltb a b then b else a.

(** [int(x)]: truncation toward zero; NaN and the infinities raise. *)
Definition py_int (x : float) : result Z :=
  match Prim2SF x with
  | S754_zero _ => ok 0
  | S754_infinity _ => raise OverflowError
  | S754_nan => raise ValueError
  | S754_finite s m e =>
      let a := Z.shiftl (Z.pos m) e in
      ok (if s then - a else a)
  end.

(** [round(x)] with no digits argument: the nearest integer, ties going to
    the even one. *)
Definition py_round (x : float) : result Z :=
  match Prim2SF x with
  | S754_zero _ => ok 0
  | S754_infinity _ => raise OverflowError
  | S754_nan => raise ValueError
  | S754_finite s m e =>
      let a :=
        if 0 <=? e then Z.shiftl (Z.pos m) e
        else
          let q := Z.shiftr (Z.pos m) (- e) in
          let r := Z.pos m - Z.shiftl q (- e) in
          match (2 * r ?= Z.shiftl 1 (- e)) with
          | Lt => q
          | Gt => q + 1
          | Eq => if Z.even q then q else q + 1
          end in
      ok (if s then - a else a)
  end.

(** [np.isfinite]. *)
Definition np_isfinite (x : float) : bool := PrimFloat.is_finite x.

(** Reductions of a one-dimensional [float64] array.  [np.add.reduce] sums
    a contiguous array with numpy's [pairwise_sum].  Fewer than eight
    elements are added from left to right.  From eight elements on, eight
    running sums start from the first eight elements and take the elements
    of every further full group of eight, one each; the eight are then
    added two by two, and the elements left over after the last full group
    are added to the total one by one.  An array of more than 128 elements
    is cut in two parts, the first of [n / 2] elements rounded down to a
    multiple of eight, which are summed in this way and added.  An empty
    sum is [0.0]. *)
Fixpoint add_groups (groups : nat) (r a : list float)
    : list float * list float :=
  match groups with
  | O => (r, a)
  | S groups' =>
      add_groups groups' (zip_with PrimFloat.add r (take 8 a)) (drop 8 a)
  end.

Definition unrolled_sum (a : list float) : float :=
  let '(r, rest) := add_groups (length a / 8 - 1)%nat (take 8 a) (drop 8 a) in
  match r with
  | [r0; r1; r2; r3; r4; r5; r6; r7] =>
      fold_left PrimFloat.add rest
        (((r0 + r1) + (r2 + r3)) + ((r4 + r5) + (r6 + r7)))%float
  | _ => fold_left PrimFloat.add a 0%float
  end.

Fixpoint pairwise_sum (depth : nat) (a : list float) : float :=
  let n := length a in
  if (n <? 8)%nat then
    match a with
    | [] => 0%float
    | x :: rest => fold_left PrimFloat.add rest x
    end
  else if (n <=? 128)%nat then unrolled_sum a
  else
    match depth with
    | O => unrolled_sum a
    | S depth' =>
        let n2 := (n / 2 - (n / 2) mod 8)%nat in
        (pairwise_sum depth' (take n2 a)
         + pairwise_sum depth' (drop n2 a))%float
    end.

(** The recursion halves the array, so a depth of its length is never
    used up. *)
Definition np_sum (a : list float) : float := pairwise_sum (length a) a.

Definition np_mean (a : list float) : float :=
  (np_sum a / float_of_Z (Z.of_nat (length a)))%float.

(** [a.std(ddof=0)]: the square root of the mean squared deviation. *)
Definition np_std (a : list float) : float :=
  let arrmean := np_mean a in
  let x := map (fun v => (v - arrmean)%float) a in
  PrimFloat.sqrt (np_mean (map (fun v => (v * v)%float) x)).

(** [np.maximum] and [np.minimum] propagate a NaN operand. *)
Definition np_maximum (x y : float) : float :=
  if PrimFloat.leb y x || PrimFloat.is_nan x then x else y.

Definition np_minimum (x y : float) : float :=
  if PrimFloat.leb x y || PrimFloat.is_nan x then x else y.

Fixpoint accumulate_from (f : float -> float -> float) (acc : float)
    (a : list float) : list float :=
  match a with
  | [] => []
  | x :: rest => let acc' := f acc x in acc' :: accumulate_from f acc' rest
  end.

(** [np.maximum.accumulate]. *)
Definition np_maximum_accumulate (a : list float) : list float :=
  match a with
  | [] => []
  | x :: rest => x :: accumulate_from np_maximum x rest
  end.

(** [a.min()] raises on an empty array. *)
Definition np_min (a : list float) : result float :=
  match a with
  | [] => raise ValueError
  | x :: rest => ok (fold_left np_minimum rest x)
  end.

(** The order [np.sort] uses on floats: NaN sorts after every number. *)
Definition np_lt (a b : float) : bool :=
  PrimFloat.ltb a b || (PrimFloat.is_nan b && negb (PrimFloat.is_nan a)).

Fixpoint np_insert (x : float) (sorted : list float) : list float :=
  match sorted with
  | [] => [x]
  | y :: rest => if np_lt y x then y :: np_insert x rest else x :: y :: rest
  end.

(** [np.sort]: ascending. *)
Definition np_sort (a : list float) : list float :=
  foldr np_insert [] a.

(** [a - b] on two [pd.Timestamp]: the [pd.Timedelta] between them, in
    nanoseconds.  A [Timedelta] keeps its nanoseconds in an [int64] whose
    least value stands for [NaT]: a difference whose magnitude reaches 2^63
    nanoseconds (some 292 years) is out of its range, and the subtraction
    raises [OutOfBoundsDatetime], which is a [ValueError]. *)
Definition timestamp_sub (a b : Z) : result Z :=
  if Z.abs (a - b) <? 2 ^ 63 then ok (a - b) else raise ValueError.

(** [pd.Timedelta / pd.Timedelta(minutes=1)]: the nanosecond count of a
    [Timedelta] is converted to a double and divided by the nanoseconds of
    a minute. *)
Definition timedelta_minutes (dt : Z) : float :=
  (float_of_Z dt / 60000000000)%float.

(** [pd.Timedelta.days]: whole days, rounded toward minus infinity. *)
Definition timedelta_days (dt : Z) : Z := dt / 86400000000000.

(* ===================================================================== *)
(** ** Data model *)
(* ===================================================================== *)

(** [strategies.Side]. *)
Inductive Side : Type := BUY | SELL.

(** [strategies.StrategySignal]. *)
Record StrategySignal : Type := mkSignal {
  sig_timestamp : Z;
  sig_instrument : string;
  sig_strategy : string;
  sig_side : Side;
  sig_entry : float;
  sig_stop : float;
  sig_target : float;
  sig_score : float;
  sig_risk_fraction : float;
  sig_metadata : gmap string float
}.

(** [backtester.TradeResult]. *)
Record TradeResult : Type := mkTrade {
  entry_time : Z;
  exit_time : Z;
  entry_price : float;
  exit_price : float;
  side : Side;
  stop_price : float;
  target_price : float;
  pnl : float;
  r_multiple : float;
  bars_held : Z;
  exit_reason : string;
  strategy : string
}.

(** [backtester.BacktestMetrics]. *)
Record BacktestMetrics : Type := mkMetrics {
  cagr : float;
  sharpe : float;
  mar : float;
  max_drawdown : float;
  win_rate : float;
  payoff : float;
  expectancy : float;
  exposure : float;
  cvar_95 : float
}.

(** One row of a [pd.DataFrame] as [iterrows] yields it: the cell under
    ["timestamp"], when the frame has that column, and the numeric cells by
    column label. *)
Record Row : Type := mkRow {
  row_timestamp : option Z;
  row_values : gmap string float
}.

Definition DataFrame : Type := list Row.

(** [df.empty]: the frame has no row, or no column.  The rows of a frame
    share its columns: a frame with rows has no column when its rows have
    no timestamp and no cell. *)
Definition df_empty (df : DataFrame) : bool :=
  match df with
  | [] => true
  | row :: _ =>
      match row_timestamp row, map_to_list (row_values row) with
      | None, [] => true
      | _, _ => false
      end
  end.

(** [row["timestamp"]]. *)
Definition row_time (row : Row) : result Z :=
  match row_timestamp row with
  | Some t => ok t
  | None => raise (KeyError "timestamp")
  end.

(** [row[key]] on a numeric column: a missing label raises [KeyError]. *)
Definition row_getitem (row : Row) (key : string) : result float :=
  match row_values row !! key with
  | Some v => ok v
  | None => raise (KeyError key)
  end.

(** [row.get(key, default)]. *)
Definition row_get (row : Row) (key : string) (default : float) : float :=
  match row_values row !! key with
  | Some v => v
  | None => default
  end.

(** The equity curve frame: one (timestamp, equity) row per point. *)
Record EquityPoint : Type := mkPoint {
  point_timestamp : Z;
  point_equity : float
}.

(** [backtester.BacktestReport]. *)
Record BacktestReport : Type := mkReport {
  report_trades : list TradeResult;
  report_metrics : BacktestMetrics;
  report_equity_curve : list EquityPoint
}.

(** The numeric settings of an [EventDrivenBacktester] instance. *)
Record EventDrivenBacktester : Type := mkBacktester {
  initial_equity : float;
  slippage_bps : float;
  commission : float
}.

(** The constructor's defaults. *)
Definition default_backtester : EventDrivenBacktester :=
  {| initial_equity := 100000; slippage_bps := 5; commission := 0 |}.

(* ===================================================================== *)
(** ** [EventDrivenBacktester._simulate_trades] *)
(* ===================================================================== *)

(** The [open_position] dictionary. *)
Record OpenPosition : Type := mkPosition {
  pos_signal : StrategySignal;
  pos_entry_price : float;
  pos_entry_time : Z
}.

(** The loop variables: [pending] is [signals[signal_idx:]], the part of the
    sorted signal list the cursor has not passed yet. *)
Record SimState : Type := mkState {
  pending : list StrategySignal;
  open_position : option OpenPosition;
  trades : list TradeResult
}.

(** [sorted(signals, key=lambda s: s.timestamp)]: [sorted] is stable, and so
    is this insertion (an element goes before the first one whose key is not
    smaller, and it came before all of them in the input). *)
Fixpoint insert_signal (s : StrategySignal) (l : list StrategySignal)
    : list StrategySignal :=
  match l with
  | [] => [s]
  | y :: rest =>
      if sig_timestamp s <=? sig_timestamp y then s :: y :: rest
      else y :: insert_signal s rest
  end.

Definition sorted_signals (signals : list StrategySignal)
    : list StrategySignal :=
  foldr insert_signal [] signals.

(** Lines 109-112: the signals due at [timestamp], and what stays queued. *)
Fixpoint queue_signals (timestamp : Z) (queue : list StrategySignal)
    : list StrategySignal * list StrategySignal :=
  match queue with
  | [] => ([], [])
  | s :: rest =>
      if sig_timestamp s <=? timestamp then
        let '(triggered, rest') := queue_signals timestamp rest in
        (s :: triggered, rest')
      else ([], queue)
  end.

(** Lines 115-126: the position opened on [signal], entered at the signal's
    price moved against the trader by the slippage. *)
Definition enter_position (slippage : float) (timestamp : Z)
    (signal : StrategySignal) : OpenPosition :=
  let entry_price := sig_entry signal in
  let entry_price :=
    match sig_side signal with
    | BUY => (entry_price * (1 + slippage))%float
    | SELL => (entry_price * (1 - slippage))%float
    end in
  {| pos_signal := signal;
     pos_entry_price := entry_price;
     pos_entry_time := timestamp |}.

(** Lines 141-157: [(exit_reason, exit_price)], or [None] when neither level
    is breached. *)
Definition check_exit (sd : Side) (low high stop target slippage : float)
    : option (string * float) :=
  match sd with
  | BUY =>
      if (low <=? stop)%float then
        Some ("stop", (stop * (1 - slippage))%float)
      else if (target <=? high)%float then
        Some ("target", (target * (1 - slippage))%float)
      else None
  | SELL =>
      if (stop <=? high)%float then
        Some ("stop", (stop * (1 + slippage))%float)
      else if (low <=? target)%float then
        Some ("target", (target * (1 + slippage))%float)
      else None
  end.

(** Lines 159-161: the forced exit on the last bar of the frame. *)
Definition check_expiry (exit : option (string * float)) (bar_idx n : nat)
    (sd : Side) (close slippage : float) : option (string * float) :=
  match exit with
  | Some e => Some e
  | None =>
      if Z.of_nat bar_idx =? Z.of_nat n - 1 then
        Some ("expiry",
              (close * match sd with
                       | BUY => 1 - slippage
                       | SELL => 1 + slippage
                       end)%float)
      else None
  end.

(** Lines 166-194: the ledger entry of a position closed at [timestamp]. *)
Definition close_position (self : EventDrivenBacktester)
    (pos : OpenPosition) (timestamp : Z) (reason : string)
    (exit_price : float) : result TradeResult :=
  let signal := pos_signal pos in
  let sd := sig_side signal in
  let entry_price := pos_entry_price pos in
  let entry_time := pos_entry_time pos in
  let stop_price := sig_stop signal in
  let target_price := sig_target signal in
  let pnl :=
    match sd with
    | BUY => (exit_price - entry_price)%float
    | SELL => (entry_price - exit_price)%float
    end in
  let pnl := (pnl - commission self)%float in
  let risk := py_max (PrimFloat.abs (entry_price - stop_price)) 1e-6 in
  let r_multiple := (pnl / risk)%float in
  let* holding_minutes :=
    if entry_time <? timestamp then
      let* held := timestamp_sub timestamp entry_time in
      ok (timedelta_minutes held)
    else ok 0%float in
  let* rounded := py_round holding_minutes in
  let bars_held := Z.max rounded 1 in
  ok {| entry_time := entry_time;
        exit_time := timestamp;
        entry_price := entry_price;
        exit_price := exit_price;
        side := sd;
        stop_price := stop_price;
        target_price := target_price;
        pnl := pnl;
        r_multiple := r_multiple;
        bars_held := bars_held;
        exit_reason := reason;
        strategy := sig_strategy signal |}.

(** Lines 114-126: a flat engine takes the first signal of the batch pulled
    for this bar; the others of the batch are dropped. *)
Definition open_if_flat (slippage : float) (timestamp : Z)
    (current : option OpenPosition) (triggered_signals : list StrategySignal)
    : option OpenPosition :=
  match current, triggered_signals with
  | None, signal :: _ => Some (enter_position slippage timestamp signal)
  | _, _ => current
  end.

(** [iterrows] hands each row over as a [Series] whose dtype pandas infers
    from the cells of the row.  Next to the [Timestamp] of the row, cells
    that are all NaN are taken for missing dates: the row is read back as a
    row of datetimes whose numeric cells are [NaT]. *)
Definition nat_row (row : Row) : bool :=
  match row_timestamp row with
  | Some _ =>
      forallb (fun cell => PrimFloat.is_nan cell.2)
        (map_to_list (row_values row))
  | None => false
  end.

(** Lines 131-196: the open position [pos] is evaluated on the bar; [queue]
    and [ledger] are the signal queue and the trades at that point.  The
    first comparison of a level with the low or the high of a row of [NaT]
    (line 145, or line 152) raises [TypeError]. *)
Definition evaluate_exit (self : EventDrivenBacktester) (n bar_idx : nat)
    (row : Row) (timestamp : Z) (queue : list StrategySignal)
    (ledger : list TradeResult) (pos : OpenPosition) : result SimState :=
  let slippage := (slippage_bps self / 10000)%float in
  let signal := pos_signal pos in
  let sd := sig_side signal in
  (* the default argument row["close"] is evaluated before the lookup *)
  let* close := row_getitem row "close" in
  let high := row_get row "high" close in
  let low := row_get row "low" close in
  if nat_row row then raise TypeError
  else
    let exit :=
      check_exit sd low high (sig_stop signal) (sig_target signal) slippage in
    match check_expiry exit bar_idx n sd close slippage with
    | None =>
        ok {| pending := queue; open_position := Some pos; trades := ledger |}
    | Some (reason, price) =>
        let* trade := close_position self pos timestamp reason price in
        ok {| pending := queue;
              open_position := None;
              trades := ledger ++ [trade] |}
    end.

(** The body of the [for bar_idx, row in df.iterrows()] loop, on a frame of
    [n] rows. *)
Definition process_bar (self : EventDrivenBacktester) (n bar_idx : nat)
    (row : Row) (st : SimState) : result SimState :=
  let slippage := (slippage_bps self / 10000)%float in
  let* timestamp := row_time row in
  let '(triggered_signals, queue) := queue_signals timestamp (pending st) in
  match open_if_flat slippage timestamp (open_position st) triggered_signals
  with
  | None =>
      ok {| pending := queue; open_position := None; trades := trades st |}
  | Some pos =>
      evaluate_exit self n bar_idx row timestamp queue (trades st) pos
  end.

Fixpoint simulate_loop (self : EventDrivenBacktester) (n bar_idx : nat)
    (rows : list Row) (st : SimState) : result SimState :=
  match rows with
  | [] => ok st
  | row :: rest =>
      let* st' := process_bar self n bar_idx row st in
      simulate_loop self n (S bar_idx) rest st'
  end.

(** The state the loop ends in ([None] stands for the early return on an
    empty signal list or an empty frame, where the loop is never entered). *)
Definition simulate_final (self : EventDrivenBacktester) (df : DataFrame)
    (signals : list StrategySignal) : result (option SimState) :=
  match signals with
  | [] => ok None
  | _ :: _ =>
      if df_empty df then ok None
      else
        let* st := simulate_loop self (length df) 0 df
                     {| pending := sorted_signals signals;
                        open_position := None;
                        trades := [] |} in
        ok (Some st)
  end.

Definition _simulate_trades (self : EventDrivenBacktester) (df : DataFrame)
    (signals : list StrategySignal) : result (list TradeResult) :=
  let* final := simulate_final self df signals in
  match final with
  | None => ok []
  | Some st => ok (trades st)
  end.

(* ===================================================================== *)
(** ** [EventDrivenBacktester._build_equity_curve] *)
(* ===================================================================== *)

(** The [for trade in trades] loop, from the running [equity]. *)
Fixpoint equity_loop (equity : float) (ledger : list TradeResult)
    : list EquityPoint :=
  match ledger with
  | [] => []
  | trade :: rest =>
      let equity := (equity + pnl trade)%float in
      {| point_timestamp := exit_time trade; point_equity := equity |}
        :: equity_loop equity rest
  end.

Definition _build_equity_curve (self : EventDrivenBacktester)
    (ledger : list TradeResult) : list EquityPoint :=
  equity_loop (initial_equity self) ledger.

(* ===================================================================== *)
(** ** [EventDrivenBacktester._compute_metrics] *)
(* ===================================================================== *)

(** [cutoff = int(max(len(sorted_returns) * 0.05, 1))]. *)
Definition cvar_cutoff (n : Z) : result Z :=
  py_int (py_max (float_of_Z n * 0.05) 1).

(** The slice [a[:k]] for an integer [k]: a negative bound counts from the
    end of the list. *)
Definition slice_to {A : Type} (a : list A) (k : Z) : list A :=
  if k <? 0 then take (Z.to_nat (Z.of_nat (length a) + k)) a
  else take (Z.to_nat k) a.

(* ===================================================================== *)
(** ** [VectorizedBacktester.run] *)
(* ===================================================================== *)

(** [features.dropna(subset=["future_return", "label"])]: the rows where
    neither cell is missing. *)
Fixpoint dropna (df : DataFrame) : result DataFrame :=
  match df with
  | [] => ok []
  | row :: rest =>
      let* future_return := row_getitem row "future_return" in
      let* label := row_getitem row "label" in
      let* rest' := dropna rest in
      ok (if PrimFloat.is_nan future_return || PrimFloat.is_nan label
          then rest' else row :: rest')
  end.

(** [pd.to_datetime(features.get("timestamp", features.index))] after
    [reset_index(drop=True)]: the column when the frame has it, otherwise the
    positions 0, 1, ... read as nanoseconds. *)
Definition frame_timestamps (features : DataFrame) : list Z :=
  match mapM row_timestamp features with
  | Some column => column
  | None => map Z.of_nat (seq 0 (length features))
  end.

(** [series.iloc[i]]: a negative position counts from the end. *)
Definition iloc {A : Type} (a : list A) (i : Z) : result A :=
  let j := if i <? 0 then Z.of_nat (length a) + i else i in
  if j <? 0 then raise IndexError
  else match a !! Z.to_nat j with
       | Some x => ok x
       | None => raise IndexError
       end.

(** The body of the [for idx, row in features.iterrows()] loop (lines
    288-320): the trade the row emits, if any. *)
Definition vector_trade (horizon : Z) (timestamp : list Z) (n idx : nat)
    (row : Row) : result (option TradeResult) :=
  let* label_cell := row_getitem row "label" in
  let* label := py_int label_cell in
  if label =? 0 then ok None
  else
    let sd := if label =? 1 then BUY else SELL in
    let* close := row_getitem row "close" in
    let entry_price := close in
    let* future_return := row_getitem row "future_return" in
    let exit_price := (close * (1 + future_return))%float in
    let exit_index := Z.min (Z.of_nat idx + horizon) (Z.of_nat n - 1) in
    let* exit_time := iloc timestamp exit_index in
    let pnl :=
      match sd with
      | BUY => (exit_price - entry_price)%float
      | SELL => (entry_price - exit_price)%float
      end in
    let risk :=
      py_max (PrimFloat.abs (close - row_get row "sma20" close)) 1e-6 in
    let r_multiple := (pnl / risk)%float in
    let* entry_time := iloc timestamp (Z.of_nat idx) in
    ok (Some {| entry_time := entry_time;
                exit_time := exit_time;
                entry_price := entry_price;
                exit_price := exit_price;
                side := sd;
                stop_price :=
                  match sd with
                  | BUY => (row_get row "close" entry_price - risk)%float
                  | SELL => (row_get row "close" entry_price + risk)%float
                  end;
                target_price := exit_price;
                pnl := pnl;
                r_multiple := r_multiple;
                bars_held := horizon;
                exit_reason := "vector";
                strategy := "VECTOR_LABEL" |}).

Fixpoint vector_loop (horizon : Z) (timestamp : list Z) (n idx : nat)
    (rows : list Row) : result (list TradeResult) :=
  match rows with
  | [] => ok []
  | row :: rest =>
      let* emitted := vector_trade horizon timestamp n idx row in
      let* later := vector_loop horizon timestamp n (S idx) rest in
      ok (match emitted with
          | Some trade => trade :: later
          | None => later
          end)
  end.

(** Lines 277-320: the ledger of the vectorised mode. *)
Definition vector_trades (horizon : Z) (features : DataFrame)
    : result (list TradeResult) :=
  vector_loop horizon (frame_timestamps features) (length features) 0
    features.

Section Metrics.

(** The [**] operator on doubles (the C library's [pow]), which the
    kernel's floats do not provide. *)
Variable float_pow : float -> float -> float.

(** Lines 210-263.  The time between the first entry and the last exit is
    taken at line 221 and again at line 244; the first subtraction raises
    when the second would. *)
Definition _compute_metrics (self : EventDrivenBacktester)
    (ledger : list TradeResult) (equity_curve : list EquityPoint)
    : result BacktestMetrics :=
  match ledger with
  | [] => ok (mkMetrics 0 0 0 0 0 0 0 0 0)
  | first_trade :: _ =>
      let last_trade := List.last ledger first_trade in
      let pnls := map pnl ledger in
      let r := map r_multiple ledger in
      let wins := List.filter (fun p => PrimFloat.ltb 0 p) pnls in
      let losses := List.filter (fun p => negb (PrimFloat.ltb 0 p)) pnls in
      let equity := map point_equity equity_curve in
      let* final_equity :=
        match last equity with
        | Some e => ok e
        | None => raise IndexError
        end in
      let start_time := entry_time first_trade in
      let end_time := exit_time last_trade in
      let* span := timestamp_sub end_time start_time in
      let years :=
        py_max (float_of_Z (timedelta_days span) / 365.25) 1e-6 in
      let cagr_ :=
        if PrimFloat.ltb 0 final_equity then
          (float_pow (final_equity / initial_equity self) (1 / years) - 1)%float
        else (-1)%float in
      let returns := map (fun p => (p / initial_equity self)%float) pnls in
      let returns_std := np_std returns in
      let sharpe_ :=
        if negb (Nat.eqb (length returns) 0) then
          (np_mean returns / (returns_std + 1e-9)
           * PrimFloat.sqrt (float_of_Z (Z.of_nat (length returns))))%float
        else 0%float in
      let peak := np_maximum_accumulate equity in
      let drawdowns :=
        zip_with (fun e p => ((e - p) / p)%float) equity peak in
      let* max_dd := np_min drawdowns in
      let mar_ :=
        if PrimFloat.ltb max_dd 0 then (cagr_ / PrimFloat.abs max_dd)%float
        else nan in
      let win_rate_ :=
        (float_of_Z (Z.of_nat (length wins))
         / float_of_Z (Z.of_nat (length ledger)))%float in
      let payoff_ :=
        match wins, losses with
        | _ :: _, _ :: _ => (np_mean wins / PrimFloat.abs (np_mean losses))%float
        | _ :: _, [] => np_mean wins
        | [], _ => 0%float
        end in
      let expectancy_ := np_mean pnls in
      let time_in_market :=
        float_of_Z (foldr Z.add 0 (map bars_held ledger)) in
      let total_minutes :=
        py_max (timedelta_minutes span) time_in_market in
      let exposure_ :=
        if negb (PrimFloat.eqb total_minutes 0) then
          (time_in_market / total_minutes)%float
        else 0%float in
      let sorted_returns := np_sort r in
      let* cutoff := cvar_cutoff (Z.of_nat (length sorted_returns)) in
      let* cvar :=
        if 0 <? cutoff then ok (np_mean (slice_to sorted_returns cutoff))
        else match sorted_returns with
             | x :: _ => ok x
             | [] => raise IndexError
             end in
      ok {| cagr := cagr_;
            sharpe := sharpe_;
            mar := if np_isfinite mar_ then mar_ else 0%float;
            max_drawdown := max_dd;
            win_rate := win_rate_;
            payoff := if np_isfinite payoff_ then payoff_ else 0%float;
            expectancy := expectancy_;
            exposure := exposure_;
            cvar_95 := cvar |}
  end.

(** The report both modes assemble from a ledger. *)
Definition report_of (self : EventDrivenBacktester)
    (ledger : list TradeResult) : result BacktestReport :=
  let equity_curve := _build_equity_curve self ledger in
  let* metrics := _compute_metrics self ledger equity_curve in
  ok {| report_trades := ledger;
        report_metrics := metrics;
        report_equity_curve := equity_curve |}.

(** Lines 87-90 of [EventDrivenBacktester.run]: the report built from the
    prepared frame and the signals generated on it. *)
Definition run_report (self : EventDrivenBacktester) (features : DataFrame)
    (signals : list StrategySignal) : result BacktestReport :=
  let* ledger := _simulate_trades self features signals in
  report_of self ledger.

(** [VectorizedBacktester.run] on a frame that already carries the
    ["label"] column (the test of line 274 is false), for a pipeline whose
    [config.label.horizon] is [horizon]. *)
Definition VectorizedBacktester_run (horizon : Z) (market_data : DataFrame)
    : result BacktestReport :=
  let* features := dropna market_data in
  let* ledger := vector_trades horizon features in
  report_of default_backtester ledger.

End Metrics.

(* ===================================================================== *)
(** ** Vocabulary of the statements *)
(* ===================================================================== *)

(** A double that is a zero or a finite number whose exponent is at most
    [B] (so neither a NaN nor an infinity). *)
Definition sf_bounded (B : Z) (x : spec_float) : Prop :=
  match x with
  | S754_zero _ => True
  | S754_finite _ _ e => e <= B
  | _ => False
  end.

(** The stop level of a position is breached on a bar: the test of line 145
    for a long position, of line 152 for a short one. *)
Definition stop_breached (sd : Side) (low high stop : float) : bool :=
  match sd with
  | BUY => (low <=? stop)%float
  | SELL => (stop <=? high)%float
  end.

(** The target level is breached: the test of line 148, or of line 155. *)
Definition target_breached (sd : Side) (low high target : float) : bool :=
  match sd with
  | BUY => (target <=? high)%float
  | SELL => (low <=? target)%float
  end.

(** The slippage factor applied to an exit price: against the trader. *)
Definition exit_factor (sd : Side) (slippage : float) : float :=
  match sd with
  | BUY => (1 - slippage)%float
  | SELL => (1 + slippage)%float
  end.

(** What the loop maintains about time, [T] being the timestamp of the last
    bar processed and [before] the order in which the bars follow each other
    ([<] when their timestamps increase strictly, [<=] when they may repeat):
    the ledger is a chain of holding intervals that all end by [T], each
    [before] the next, and the open position, if any, was entered by [T] and
    not [before] any exit of the ledger. *)
Record in_sequence (before : Z -> Z -> Prop) (T : Z) (st : SimState)
    : Prop := mkInSequence {
  seq_chain :
    StronglySorted (fun a b => before (exit_time a) (entry_time b))
      (trades st);
  seq_order : Forall (fun t => entry_time t <= exit_time t) (trades st);
  seq_past : Forall (fun t => exit_time t <= T) (trades st);
  seq_open :
    forall pos, open_position st = Some pos ->
      pos_entry_time pos <= T
      /\ Forall (fun t => before (exit_time t) (pos_entry_time pos))
           (trades st)
}.


(** The trade [t] was entered on [signal] at the signal's price moved by the
    slippage, and its R-multiple divides by the distance from that filled
    price to the stop. *)
Definition filled_from (self : EventDrivenBacktester)
    (signal : StrategySignal) (t : TradeResult) : Prop :=
  let slippage := (slippage_bps self / 10000)%float in
  side t = sig_side signal
  /\ stop_price t = sig_stop signal
  /\ entry_price t =
       match sig_side signal with
       | BUY => (sig_entry signal * (1 + slippage))%float
       | SELL => (sig_entry signal * (1 - slippage))%float
       end
  /\ r_multiple t =
       (pnl t / py_max (PrimFloat.abs (entry_price t - sig_stop signal)) 1e-6)%float.

(** What the loop maintains about prices: every trade and the open position
    come from a signal of the input, filled with slippage. *)
Record all_filled (self : EventDrivenBacktester)
    (signals : list StrategySignal) (st : SimState) : Prop := mkAllFilled {
  filled_queue : forall s, s ∈ pending st -> s ∈ signals;
  filled_trades :
    Forall (fun t => exists signal, signal ∈ signals
                                    /\ filled_from self signal t) (trades st);
  filled_open :
    forall pos, open_position st = Some pos ->
      pos_signal pos ∈ signals
      /\ pos = enter_position (slippage_bps self / 10000)%float
                 (pos_entry_time pos) (pos_signal pos)
}.

(** The timestamps of the bars of a frame, in row order. *)
Definition bar_times (df : DataFrame) : list Z := omap row_timestamp df.

(** Any two of the instants are less than 2^63 nanoseconds apart: the time
    from one to the other is a [pd.Timedelta]. *)
Definition instants_fit (instants : list Z) : Prop :=
  forall a b, a ∈ instants -> b ∈ instants -> b - a < 2 ^ 63.

(** The bars of the frame are less than 2^63 nanoseconds apart. *)
Definition within_span (df : DataFrame) : Prop :=
  instants_fit (bar_times df).

(** The row has a ["close"] cell, and it holds a number. *)
Definition numeric_close (row : Row) : Prop :=
  exists close,
    row_values row !! "close" = Some close
    /\ PrimFloat.is_nan close = false.

(** A frame the simulator runs to the end of: every row has its timestamp
    and a close that is a number (so that no row is read back as a row of
    [NaT]), and the frame spans less than 2^63 nanoseconds (so that every
    holding time is a [pd.Timedelta]).  Nothing is asked of ["high"] and
    ["low"]. *)
Definition runnable (df : DataFrame) : Prop :=
  Forall (fun row => is_Some (row_timestamp row) /\ numeric_close row) df
  /\ within_span df.

(** The row with its missing ["high"] and ["low"] cells written out as
    copies of ["close"]. *)
Definition with_high_low (row : Row) : Row :=
  match row_values row !! "close" with
  | None => row
  | Some close =>
      {| row_timestamp := row_timestamp row;
         row_values :=
           <["high" := row_get row "high" close]>
             (<["low" := row_get row "low" close]> (row_values row)) |}
  end.

(** The time from the first entry of a ledger to its last exit is a
    [pd.Timedelta]: its magnitude is below 2^63 nanoseconds. *)
Definition ledger_span_fits (ledger : list TradeResult) : Prop :=
  match ledger with
  | [] => True
  | first :: _ =>
      Z.abs (exit_time (List.last ledger first) - entry_time first) < 2 ^ 63
  end.

(** The holding counts of a ledger add up to an integer below 2^63 in
    magnitude, which [float] converts. *)
Definition holding_counts_fit (ledger : list TradeResult) : Prop :=
  Z.abs (foldr Z.add 0 (map bars_held ledger)) < 2 ^ 63.

(** The slice size as the specification words it:
    [max(round(0.05 * n), 1)]. *)
Definition spec_cvar_cutoff (n : Z) : result Z :=
  let* rounded := py_round (float_of_Z n * 0.05) in
  ok (Z.max rounded 1).

(** Every reported field other than [cagr] is a finite number. *)
Definition finite_but_cagr (m : BacktestMetrics) : bool :=
  np_isfinite (sharpe m) && np_isfinite (mar m)
  && np_isfinite (max_drawdown m) && np_isfinite (win_rate m)
  && np_isfinite (payoff m) && np_isfinite (expectancy m)
  && np_isfinite (exposure m) && np_isfinite (cvar_95 m).

(** The rows of a frame with their positions, as [iterrows] pairs them. *)
Fixpoint iterrows_from (idx : nat) (rows : list Row) : list (nat * Row) :=
  match rows with
  | [] => []
  | row :: rest => (idx, row) :: iterrows_from (S idx) rest
  end.

Definition iterrows (df : DataFrame) : list (nat * Row) := iterrows_from 0 df.

(** [int(row["label"])], when the row has the cell and it is a number. *)
Definition row_label (row : Row) : option Z :=
  match row_values row !! "label" with
  | Some cell =>
      match py_int cell with
      | inr label => Some label
      | inl _ => None
      end
  | None => None
  end.

(** The row carries a nonzero label. *)
Definition emits (indexed : nat * Row) : bool :=
  match row_label indexed.2 with
  | Some label => negb (label =? 0)
  | None => false
  end.

(** The row carries a label and a known forward return: neither cell is
    missing (NaN), so [dropna] keeps the row. *)
Definition known_row (row : Row) : bool :=
  match row_values row !! "future_return", row_values row !! "label" with
  | Some future_return, Some label =>
      negb (PrimFloat.is_nan future_return || PrimFloat.is_nan label)
  | _, _ => false
  end.

(** A row of a labelled frame: it has the ["close"], ["future_return"] and
    ["label"] cells, and the label is a number or is missing. *)
Definition labelled_row (row : Row) : Prop :=
  is_Some (row_values row !! "close")
  /\ is_Some (row_values row !! "future_return")
  /\ exists cell, row_values row !! "label" = Some cell
                  /\ PrimFloat.is_infinity cell = false.

(** [trade] is the trade the vectorised evaluator owes to the row at
    position [idx] of [features], for the horizon [horizon]. *)
Definition vector_trade_of (horizon : Z) (features : DataFrame) (idx : nat)
    (row : Row) (trade : TradeResult) : Prop :=
  exists label close future_return,
    row_label row = Some label /\ label <> 0
    /\ row_values row !! "close" = Some close
    /\ row_values row !! "future_return" = Some future_return
    /\ side trade = (if label =? 1 then BUY else SELL)
    /\ entry_price trade = close
    /\ exit_price trade = (close * (1 + future_return))%float
    /\ frame_timestamps features !! idx = Some (entry_time trade)
    /\ frame_timestamps features
         !! Z.to_nat (Z.min (Z.of_nat idx + horizon)
                        (Z.of_nat (length features) - 1))
       = Some (exit_time trade)
    /\ bars_held trade = horizon
    /\ exit_reason trade = "vector".

(* ===================================================================== *)
(** ** Data of the worked scenarios *)
(* ===================================================================== *)

(** One minute, in nanoseconds. *)
Definition minute : Z := 60000000000.

Definition signal_at (t : Z) (sd : Side) (entry stop target : float)
    : StrategySignal :=
  {| sig_timestamp := t; sig_instrument := "TEST"; sig_strategy := "ORB15";
     sig_side := sd; sig_entry := entry; sig_stop := stop;
     sig_target := target; sig_score := 1; sig_risk_fraction := 0.0025;
     sig_metadata := ∅ |}.

(** A bar with its high, low and close. *)
Definition ohlc_bar (t : Z) (high low close : float) : Row :=
  {| row_timestamp := Some t;
     row_values :=
       list_to_map [("high", high); ("low", low); ("close", close)] |}.

(** A bar of a frame that has no ["high"] and no ["low"] column. *)
Definition close_bar (t : Z) (close : float) : Row :=
  {| row_timestamp := Some t;
     row_values := list_to_map [("close", close)] |}.

(** A closed one-minute trade with the given pnl and R-multiple. *)
Definition trade_with (p r : float) : TradeResult :=
  {| entry_time := 0; exit_time := minute; entry_price := 100;
     exit_price := (100 + p)%float; side := BUY; stop_price := 99;
     target_price := 110; pnl := p; r_multiple := r; bars_held := 1;
     exit_reason := "expiry"; strategy := "ORB15" |}.

(** A ledger of unit-risk trades with the given R-multiples. *)
Definition ledger_of_r (rs : list float) : list TradeResult :=
  map (fun r => trade_with r r) rs.

(** The ten R-multiples of the specification's example. *)
Definition ten_r : list float := [-3; -2; -1; 0; 1; 2; 3; 4; 5; 6]%float.

(** Thirty R-multiples, the two worst being -3 and -1. *)
Definition thirty_r : list float :=
  ([1; -3; 2; -1] ++ replicate 26 0.5)%float.


(** A labelled bar of the vectorised mode. *)
Definition labelled_bar (t : Z) (close future_return label : float) : Row :=
  {| row_timestamp := Some t;
     row_values :=
       list_to_map [("close", close); ("future_return", future_return);
                    ("label", label)] |}.

(** Four one-minute bars: a long label, a flat one, a short one, and a last
    bar whose forward return is not known. *)
Definition four_labelled_bars : DataFrame :=
  [labelled_bar 0 100 0.01 1; labelled_bar minute 101 0 0;
   labelled_bar (2 * minute) 102 (-0.02) (-1);
   labelled_bar (3 * minute) 100 nan 0].

(** A backtester without slippage or commission. *)
Definition frictionless : EventDrivenBacktester :=
  {| initial_equity := 100000; slippage_bps := 0; commission := 0 |}.

(* ===================================================================== *)
(** ** Vocabulary of the ledger audit *)
(* ===================================================================== *)

(** The order of the signal queue: by timestamp. *)
Definition not_later (a b : StrategySignal) : Prop :=
  sig_timestamp a <= sig_timestamp b.

(** The ledger entry [t] is the position the engine took on [signal]: it is
    filled from it, carries its target and the name of its strategy, and was
    entered on a bar that is not earlier than the signal. *)
Record entered_on (self : EventDrivenBacktester) (signal : StrategySignal)
    (t : TradeResult) : Prop := mkEnteredOn {
  entered_filled : filled_from self signal t;
  entered_target : target_price t = sig_target signal;
  entered_strategy : strategy t = sig_strategy signal;
  entered_due : sig_timestamp signal <= entry_time t
}.

(** The exit side of a ledger entry: one of the three reasons, a stop or a
    target exit filled at the level itself moved by the slippage, and the pnl
    taken from the two filled prices less the commission. *)
Definition exit_booked (self : EventDrivenBacktester) (t : TradeResult)
    : Prop :=
  let slippage := (slippage_bps self / 10000)%float in
  ((exit_reason t = "stop"
    /\ exit_price t = (stop_price t * exit_factor (side t) slippage)%float)
   \/ (exit_reason t = "target"
       /\ exit_price t = (target_price t * exit_factor (side t) slippage)%float)
   \/ exit_reason t = "expiry")
  /\ pnl t =
       ((match side t with
         | BUY => exit_price t - entry_price t
         | SELL => entry_price t - exit_price t
         end) - commission self)%float.

(** What the audit finds in one ledger entry. *)
Record booked (self : EventDrivenBacktester) (signals : list StrategySignal)
    (df : DataFrame) (t : TradeResult) : Prop := mkBooked {
  booked_signal : exists signal, signal ∈ signals /\ entered_on self signal t;
  booked_exit : exit_booked self t;
  booked_entry_bar : entry_time t ∈ bar_times df;
  booked_exit_bar : exit_time t ∈ bar_times df;
  booked_held : 1 <= bars_held t;
  booked_same_bar : exit_time t <= entry_time t -> bars_held t = 1
}.

(** The trade [b] was taken on a signal stamped after the trade [a] was
    left. *)
Definition taken_after (self : EventDrivenBacktester)
    (signals : list StrategySignal) (a b : TradeResult) : Prop :=
  exists signal,
    signal ∈ signals /\ entered_on self signal b
    /\ exit_time a < sig_timestamp signal.

(** One if a position is open. *)
Definition positions_open (st : SimState) : nat :=
  match open_position st with
  | Some _ => 1
  | None => 0
  end.

(** What the loop maintains, [bar_idx] bars of [df] being processed: the
    queue is sorted and holds only signals stamped after every exit of the
    ledger, the open position was taken on such a signal, every ledger entry
    is booked from a signal and two bars, and no more trades were made than
    bars were seen or signals consumed. *)
Record audited (self : EventDrivenBacktester) (signals : list StrategySignal)
    (df : DataFrame) (bar_idx : nat) (st : SimState) : Prop := mkAudited {
  audited_sorted : StronglySorted not_later (pending st);
  audited_queue :
    Forall (fun s =>
              s ∈ signals
              /\ Forall (fun t => exit_time t < sig_timestamp s) (trades st))
      (pending st);
  audited_open :
    forall pos, open_position st = Some pos ->
      pos_signal pos ∈ signals
      /\ pos = enter_position (slippage_bps self / 10000)%float
                 (pos_entry_time pos) (pos_signal pos)
      /\ sig_timestamp (pos_signal pos) <= pos_entry_time pos
      /\ pos_entry_time pos ∈ bar_times df
      /\ Forall (fun t => exit_time t < sig_timestamp (pos_signal pos))
           (trades st);
  audited_trades : Forall (booked self signals df) (trades st);
  audited_chain : StronglySorted (taken_after self signals) (trades st);
  audited_count :
    (length (trades st) + positions_open st + length (pending st)
     <= length signals)%nat;
  audited_bars : (length (trades st) <= bar_idx)%nat;
  audited_expiry :
    forall i t, trades st !! i = Some t -> exit_reason t = "expiry" ->
      bar_idx = length df /\ S i = length (trades st)
      /\ exists row, last df = Some row
                     /\ row_timestamp row = Some (exit_time t)
}.

(** Four one-minute bars and three signals given out of order: a long one
    stamped at the first bar, a short one stamped at the second bar, on which
    the long position is still open, and a short one stamped at the third. *)
Definition audit_bars : DataFrame :=
  [ohlc_bar 0 101 99.5 100; ohlc_bar minute 106 100 105;
   ohlc_bar (2 * minute) 105 104 104.5; ohlc_bar (3 * minute) 105 104 104.5].

Definition audit_signals : list StrategySignal :=
  [signal_at (2 * minute) SELL 104.5 110 100; signal_at 0 BUY 100 99 105;
   signal_at minute SELL 105 111 100].

(* ===================================================================== *)
(** ** [FeaturePipeline._add_labels] *)
(* ===================================================================== *)

(** [feature_engineering.LabelConfig]. *)
Record LabelConfig : Type := mkLabelConfig {
  label_horizon : Z;
  long_threshold : float;
  short_threshold : float
}.

(** The defaults of the dataclass. *)
Definition default_LabelConfig : LabelConfig :=
  {| label_horizon := 12;
     long_threshold := 0.003;
     short_threshold := (-0.003)%float |}.

(** [df[key]] on a numeric column of a frame that has rows: its cells in
    row order; a frame without the column raises [KeyError].  (The columns
    of a frame are those of its rows: a frame without rows is given with no
    column to look up, and the statements on what a stage returns are about
    frames that have rows.) *)
Fixpoint get_column (key : string) (df : DataFrame) : result (list float) :=
  match df with
  | [] => ok []
  | row :: rest =>
      let* cell := row_getitem row key in
      let* cells := get_column key rest in
      ok (cell :: cells)
  end.

(** [series.shift(periods)] on a float column, for a number of rows that
    fits an [int64]: every value moves [periods] rows down (up when
    [periods] is negative), and the rows left without a value hold NaN. *)
Definition shift (periods : Z) (column : list float) : list float :=
  imap (fun i _ =>
          let j := Z.of_nat i - periods in
          if (0 <=? j) && (j <? Z.of_nat (length column))
          then default nan (column !! Z.to_nat j)
          else nan)
    column.

(** [series.replace(0, np.nan)]: the cells equal to zero (of either sign)
    become NaN. *)
Definition replace_zero (column : list float) : list float :=
  map (fun x => if PrimFloat.eqb x 0 then nan else x) column.

(** [a[mask] = value] on an integer array. *)
Definition assign_where (mask : list bool) (value : Z) (a : list Z) : list Z :=
  zip_with (fun m x => if m : bool then value else x) mask a.

(** The row with the cell under [key] set to [v]. *)
Definition set_cell (key : string) (v : float) (row : Row) : Row :=
  {| row_timestamp := row_timestamp row;
     row_values := <[key := v]> (row_values row) |}.

(** [df[key] = column], for a column of the length of the frame. *)
Definition set_column (key : string) (column : list float) (df : DataFrame)
    : DataFrame :=
  zip_with (set_cell key) column df.

(** Lines 59-70.  The integer labels are stored in the frame as numbers: a
    row read back with [iterrows] holds its label as one. *)
Definition _add_labels (config : LabelConfig) (df : DataFrame)
    : result DataFrame :=
  let horizon := label_horizon config in
  let* close := get_column "close" df in
  let future_price := shift (- horizon) close in
  let current_price := close in
  let future_return :=
    zip_with PrimFloat.div
      (zip_with PrimFloat.sub future_price current_price)
      (replace_zero current_price) in
  let df := set_column "future_return" future_return df in
  let label := replicate (length df) 0 in
  let label :=
    assign_where
      (map (fun r => PrimFloat.leb (long_threshold config) r) future_return)
      1 label in
  let label :=
    assign_where
      (map (fun r => PrimFloat.leb r (short_threshold config)) future_return)
      (-1) label in
  ok (set_column "label" (map float_of_Z label) df).

(** The vectorised evaluation of a frame that carries no ["label"] column
    yet, for a pipeline whose feature stages before the labelling leave the
    frame [enriched]: [make_features] ends with [_add_labels], and the
    evaluator reads the horizon of the same configuration. *)
Definition VectorizedBacktester_run_labelling
    (float_pow : float -> float -> float) (config : LabelConfig)
    (enriched : DataFrame) : result BacktestReport :=
  let* features := _add_labels config enriched in
  VectorizedBacktester_run float_pow (label_horizon config) features.

(** *** Vocabulary of the labelling *)

(** The close [H] rows after row [i], NaN past the ends of the frame. *)
Definition close_ahead (H : Z) (df : DataFrame) (i : nat) : float :=
  let j := Z.of_nat i + H in
  if (0 <=? j) && (j <? Z.of_nat (length df))
  then match df !! Z.to_nat j with
       | Some row => row_get row "close" nan
       | None => nan
       end
  else nan.

(** The forward return of a row whose close is [c]. *)
Definition forward_return (H : Z) (df : DataFrame) (i : nat) (c : float)
    : float :=
  ((close_ahead H df i - c) / (if PrimFloat.eqb c 0 then nan else c))%float.

(** The label of a forward return: the short threshold is tested last, and
    wins. *)
Definition label_of (config : LabelConfig) (r : float) : Z :=
  if PrimFloat.leb r (short_threshold config) then -1
  else if PrimFloat.leb (long_threshold config) r then 1
  else 0.

(** The row [i] of the labelled frame. *)
Definition labelled_as (config : LabelConfig) (df : DataFrame) (i : nat)
    (row : Row) (c : float) : Row :=
  let r := forward_return (label_horizon config) df i c in
  set_cell "label" (float_of_Z (label_of config r))
    (set_cell "future_return" r row).

(** Six one-minute closes. *)
Definition six_closes : DataFrame :=
  [close_bar 0 100; close_bar minute 101; close_bar (2 * minute) 100;
   close_bar (3 * minute) 103; close_bar (4 * minute) 99;
   close_bar (5 * minute) 100].

(** Labels two bars ahead, at one percent. *)
Definition two_bars_one_percent : LabelConfig :=
  {| label_horizon := 2; long_threshold := 0.01;
     short_threshold := (-0.01)%float |}.

(** The vectorised trade [t] was decided on the realised forward return of
    a row of [df] that has a row [horizon] places further: it is entered at
    the close [c] of the row, left at [c * (1 + r)], long when [r] reached
    the long threshold and short when it reached the short one. *)
Definition looks_ahead (config : LabelConfig) (df : DataFrame)
    (t : TradeResult) : Prop :=
  exists i row c,
    df !! i = Some row
    /\ row_values row !! "close" = Some c
    /\ Z.of_nat i + label_horizon config < Z.of_nat (length df)
    /\ let r := forward_return (label_horizon config) df i c in
       PrimFloat.is_nan r = false
       /\ entry_price t = c
       /\ exit_price t = (c * (1 + r))%float
       /\ ((side t = BUY /\ PrimFloat.leb (long_threshold config) r = true)
           \/ (side t = SELL
               /\ PrimFloat.leb r (short_threshold config) = true))
       /\ bars_held t = label_horizon config.

(* ===================================================================== *)
(** ** Vocabulary of the vectorised ledger *)
(* ===================================================================== *)

(** Line 302: the risk of the trade of a row whose close is [close]. *)
Definition vector_risk (row : Row) (close : float) : float :=
  py_max (PrimFloat.abs (close - row_get row "sma20" close)) 1e-6.

(** The trade [t] is priced off [row]: it is entered at the close of the
    row, without slippage or commission, its stop is one risk away from the
    close on the losing side, its target is the price it is left at, and
    its R-multiple is its pnl in units of that risk. *)
Definition vector_priced (row : Row) (t : TradeResult) : Prop :=
  exists close,
    row_values row !! "close" = Some close
    /\ entry_price t = close
    /\ pnl t =
         match side t with
         | BUY => (exit_price t - entry_price t)%float
         | SELL => (entry_price t - exit_price t)%float
         end
    /\ r_multiple t = (pnl t / vector_risk row close)%float
    /\ stop_price t =
         match side t with
         | BUY => (close - vector_risk row close)%float
         | SELL => (close + vector_risk row close)%float
         end
    /\ target_price t = exit_price t
    /\ strategy t = "VECTOR_LABEL"
    /\ (row_values row !! "sma20" = None ->
        PrimFloat.is_finite close = true ->
        vector_risk row close = 1e-6%float).

(* ===================================================================== *)
(** ** [strategies.VRBStrategy] *)
(* ===================================================================== *)

(** The settings of a [VRBStrategy] instance. *)
Record VRBStrategy : Type := mkVRB {
  band_k : float;
  stop_sigma_mult : float;
  vrb_risk_fraction : float
}.

(** The constructor's defaults. *)
Definition default_VRBStrategy : VRBStrategy :=
  {| band_k := 2; stop_sigma_mult := 1.2; vrb_risk_fraction := 0.0015 |}.

(** [np.clip(x, lo, hi)] on a double, for bounds that are numbers: a value
    below [lo] is raised to [lo], and what is then above [hi] is lowered to
    [hi].  Both tests are false on a NaN, which is returned as it is, and a
    negative zero keeps its sign. *)
Definition np_clip (x lo hi : float) : float :=
  let x := if PrimFloat.ltb x lo then lo else x in
  if PrimFloat.ltb hi x then hi else x.

(** [BaseStrategy._make_signal], for a strategy whose class attribute
    [name] and whose [risk_fraction] are given: the signal is stamped with
    the timestamp of the row and its score is clipped to [0, 3]. *)
Definition _make_signal (name : string) (risk_fraction : float) (row : Row)
    (instrument : string) (sd : Side) (entry stop target score : float)
    (metadata : gmap string float) : result StrategySignal :=
  let* timestamp := row_time row in
  ok {| sig_timestamp := timestamp;
        sig_instrument := instrument;
        sig_strategy := name;
        sig_side := sd;
        sig_entry := entry;
        sig_stop := stop;
        sig_target := target;
        sig_score := np_clip score 0 3;
        sig_risk_fraction := risk_fraction;
        sig_metadata := metadata |}.

(** Lines 258-304: the body of the loop for the row [row] that follows
    [prev], and the signal it appends, if any. *)
Definition vrb_signal (self : VRBStrategy) (instrument : string)
    (prev row : Row) : result (option StrategySignal) :=
  let sigma := row_get row "sigma" nan in
  let vwap := row_get row "vwap" nan in
  let price := row_get row "close" nan in
  if PrimFloat.is_nan sigma || PrimFloat.leb sigma 0
     || PrimFloat.is_nan vwap || PrimFloat.is_nan price
  then ok None
  else
    let upper := (vwap + band_k self * sigma)%float in
    let lower := (vwap - band_k self * sigma)%float in
    let entry := price in
    let* prev_close := row_getitem prev "close" in
    let decided :=
      if PrimFloat.ltb upper prev_close && PrimFloat.leb price upper
      then Some SELL
      else if PrimFloat.ltb prev_close lower && PrimFloat.leb lower price
      then Some BUY
      else None in
    match decided with
    | None => ok None
    | Some sd =>
        let stop :=
          match sd with
          | BUY => (entry + stop_sigma_mult self * sigma)%float
          | SELL => (entry - stop_sigma_mult self * sigma)%float
          end in
        let target := vwap in
        let distance := PrimFloat.abs (entry - vwap) in
        let score := np_clip (distance / (sigma + 1e-6)) 0 3 in
        let metadata : gmap string float :=
          list_to_map [("sigma", sigma); ("distance", distance);
                       ("vwap", vwap)] in
        let* signal :=
          _make_signal "VRB" (vrb_risk_fraction self) row instrument sd
            entry stop target score metadata in
        ok (Some signal)
    end.

(** The [for idx in range(1, len(df))] loop, [prev] being the row before
    the first of [rows]. *)
Fixpoint vrb_loop (self : VRBStrategy) (instrument : string) (prev : Row)
    (rows : list Row) : result (list StrategySignal) :=
  match rows with
  | [] => ok []
  | row :: rest =>
      let* emitted := vrb_signal self instrument prev row in
      let* later := vrb_loop self instrument row rest in
      ok (match emitted with
          | Some signal => signal :: later
          | None => later
          end)
  end.

(** [VRBStrategy.generate_signals]: nothing on a frame without rows or
    without columns; otherwise the loop over the rows from the second on,
    each with the row before it. *)
Definition VRBStrategy_generate_signals (self : VRBStrategy)
    (df : DataFrame) (instrument : string) : result (list StrategySignal) :=
  if df_empty df then ok []
  else
    match df with
    | [] => ok []
    | first :: rest => vrb_loop self instrument first rest
    end.

(** *** Vocabulary of the strategy *)

(** The signal [s] is the one the strategy makes of [row], which follows
    [prev] in the frame. *)
Record vrb_made_of (self : VRBStrategy) (instrument : string)
    (prev row : Row) (s : StrategySignal) : Prop := mkVrbMadeOf {
  vrb_time : row_timestamp row = Some (sig_timestamp s);
  vrb_entry : row_values row !! "close" = Some (sig_entry s);
  vrb_target : row_values row !! "vwap" = Some (sig_target s);
  vrb_sigma :
    exists sigma,
      row_values row !! "sigma" = Some sigma
      /\ PrimFloat.ltb 0 sigma = true
      /\ sig_stop s =
           match sig_side s with
           | BUY => (sig_entry s + stop_sigma_mult self * sigma)%float
           | SELL => (sig_entry s - stop_sigma_mult self * sigma)%float
           end
      /\ exists prev_close,
           row_values prev !! "close" = Some prev_close
           /\ match sig_side s with
              | SELL =>
                  let upper := (sig_target s + band_k self * sigma)%float in
                  PrimFloat.ltb upper prev_close = true
                  /\ PrimFloat.leb (sig_entry s) upper = true
              | BUY =>
                  let lower := (sig_target s - band_k self * sigma)%float in
                  PrimFloat.ltb prev_close lower = true
                  /\ PrimFloat.leb lower (sig_entry s) = true
              end;
  vrb_score :
    PrimFloat.is_nan (sig_score s) = true
    \/ (PrimFloat.leb 0 (sig_score s) = true
        /\ PrimFloat.leb (sig_score s) 3 = true);
  vrb_labels :
    sig_strategy s = "VRB" /\ sig_instrument s = instrument
    /\ sig_risk_fraction s = vrb_risk_fraction self
}.

(** Consecutive rows of a frame. *)
Definition consecutive (df : DataFrame) (prev row : Row) : Prop :=
  exists i, df !! i = Some prev /\ df !! S i = Some row.

(** A bar with the columns the strategy reads. *)
Definition band_bar (t : Z) (close vwap sigma : float) : Row :=
  {| row_timestamp := Some t;
     row_values :=
       list_to_map [("close", close); ("vwap", vwap); ("sigma", sigma)] |}.

(** The close falls through the lower band (98) and comes back into it on
    the third bar, then leaves the upper band (102) and comes back on the
    fifth. *)
Definition band_bars : DataFrame :=
  [band_bar 0 100 100 1; band_bar minute 97 100 1;
   band_bar (2 * minute) 98.5 100 1; band_bar (3 * minute) 103 100 1;
   band_bar (4 * minute) 101 100 1].

(* ===================================================================== *)
(** ** [strategies.generate_all_signals] and [EventDrivenBacktester.run] *)
(* ===================================================================== *)

(** What the engine uses of a [BaseStrategy]: its [generate_signals]
    method. *)
Definition BaseStrategy : Type :=
  DataFrame -> string -> result (list StrategySignal).

(** The [for strat in strategies] loop of lines 317-318, [signals] being
    the list extended so far. *)
Fixpoint extend_signals (strategies : list BaseStrategy) (df : DataFrame)
    (instrument : string) (signals : list StrategySignal)
    : result (list StrategySignal) :=
  match strategies with
  | [] => ok signals
  | strat :: rest =>
      let* produced := strat df instrument in
      extend_signals rest df instrument (signals ++ produced)
  end.

Section Strategies.

(** The strategies a call without strategies falls back on:
    [[TPBVWAPStrategy(), ORB15Strategy(), VRBStrategy()]]. *)
Variable default_strategies : list BaseStrategy.

(** [strategies or [...]]: [None] and the empty list are both replaced by
    the defaults. *)
Definition strategies_or_default (strategies : list BaseStrategy)
    : list BaseStrategy :=
  match strategies with
  | [] => default_strategies
  | _ :: _ => strategies
  end.

(** Lines 309-320.  [list.sort] is stable, as [sorted] is. *)
Definition generate_all_signals (df : DataFrame) (instrument : string)
    (strategies : list BaseStrategy) : result (list StrategySignal) :=
  let strategies := strategies_or_default strategies in
  let* signals := extend_signals strategies df instrument [] in
  ok (sorted_signals signals).

(** The [**] operator on doubles. *)
Variable float_pow : float -> float -> float.

(** [features.sort_values("timestamp")]: the rows in the order of their
    timestamps.  pandas sorts with quicksort by default and promises nothing
    on the order of rows with equal timestamps. *)
Variable sort_values : DataFrame -> DataFrame.


End Strategies.

(** *** Vocabulary and scenarios *)

(** The signals stamped [t], in the order of the list. *)
Definition stamped (t : Z) (signals : list StrategySignal)
    : list StrategySignal :=
  List.filter (fun s => sig_timestamp s =? t) signals.

(** The outputs of the strategies on a frame, one list for each. *)
Definition produced_by (strategies : list BaseStrategy) (df : DataFrame)
    (instrument : string) (outputs : list (list StrategySignal)) : Prop :=
  Forall2 (fun strat output => strat df instrument = inr output)
    strategies outputs.




(** A strategy that goes long at the close of every bar that closes above
    the one before, with its stop two points under and its target two
    points over. *)
Fixpoint momentum_loop (instrument : string) (prev : Row) (rows : list Row)
    : result (list StrategySignal) :=
  match rows with
  | [] => ok []
  | row :: rest =>
      let* previous := row_getitem prev "close" in
      let* close := row_getitem row "close" in
      let* timestamp := row_time row in
      let* later := momentum_loop instrument row rest in
      ok (if PrimFloat.ltb previous close
          then {| sig_timestamp := timestamp; sig_instrument := instrument;
                  sig_strategy := "MOMENTUM"; sig_side := BUY;
                  sig_entry := close; sig_stop := (close - 2)%float;
                  sig_target := (close + 2)%float; sig_score := 1;
                  sig_risk_fraction := 0.0025; sig_metadata := ∅ |} :: later
          else later)
  end.

Definition momentum_strategy : BaseStrategy :=
  fun df instrument =>
    match df with
    | [] => ok []
    | first :: rest => momentum_loop instrument first rest
    end.

(** The volatility band strategy with its default settings. *)
Definition vrb_strategy : BaseStrategy :=
  VRBStrategy_generate_signals default_VRBStrategy.


(* ===================================================================== *)
(** ** Vocabulary of the stops met on the entry bar *)
(* ===================================================================== *)

(** The stop of the signal [s] is breached on the bar [row]: the test the
    simulator makes first on a position taken on [s]. *)
Definition own_bar_stop (row : Row) (s : StrategySignal) : Prop :=
  exists close,
    row_values row !! "close" = Some close
    /\ stop_breached (sig_side s) (row_get row "low" close)
         (row_get row "high" close) (sig_stop s) = true.

(** The signal [s] is stamped with the timestamp of a bar of [rows] on
    which its stop is breached. *)
Definition stopped_at_birth (rows : list Row) (s : StrategySignal) : Prop :=
  exists row,
    row ∈ rows /\ row_timestamp row = Some (sig_timestamp s)
    /\ own_bar_stop row s.

(** A trade closed by its stop on the bar it was entered on. *)
Definition stopped_at_once (t : TradeResult) : Prop :=
  exit_reason t = "stop" /\ exit_time t = entry_time t /\ bars_held t = 1.

(** A bar the band strategy can trade sanely: a positive finite close
    inside the range of the bar. *)
Definition sane_bar (row : Row) : Prop :=
  exists close,
    row_values row !! "close" = Some close
    /\ PrimFloat.ltb 0 close = true
    /\ PrimFloat.is_finite close = true
    /\ PrimFloat.leb (row_get row "low" close) close = true
    /\ PrimFloat.leb close (row_get row "high" close) = true.

(** Three one-minute bars, and two long signals whose stops lie above the
    lows of their own bars. *)
Definition three_bars : DataFrame :=
  [ohlc_bar 0 101 99.5 100; ohlc_bar minute 102 100 101;
   ohlc_bar (2 * minute) 103 100.5 102].

Definition signals_with_high_stops : list StrategySignal :=
  [signal_at 0 BUY 100 100.5 105; signal_at (2 * minute) BUY 102 101 110].

(* ===================================================================== *)
(** ** [strategies.TPBVWAPStrategy] *)
(* ===================================================================== *)

(** The settings of a [TPBVWAPStrategy] instance; [take_profit] is the tuple
    made of [take_profit_multipliers]. *)
Record TPBVWAPStrategy : Type := mkTPB {
  pullback_tolerance : float;
  stop_atr_multiplier : float;
  take_profit : list float;
  tpb_risk_fraction : float
}.

(** The constructor's defaults. *)
Definition default_TPBVWAPStrategy : TPBVWAPStrategy :=
  {| pullback_tolerance := 0.005; stop_atr_multiplier := 0.8;
     take_profit := [1; 2]%float; tpb_risk_fraction := 0.002 |}.

(** [bool(x)] of a number: every number but the zeros is true, NaN
    included.  A cell of a boolean column holds 1 for [True] and 0 for
    [False]. *)
Definition py_bool (x : float) : bool := negb (PrimFloat.eqb x 0).

(** The builtin [min(a, b)]: [b] when [b < a], else [a]. *)
Definition py_min (a b : float) : float :=
  if PrimFloat.ltb b a then b else a.

Section TPB.

(** The operator [/] on two scalars read from a row.  On a divisor that is
    not zero it is the division of doubles.  On a zero divisor it depends on
    the type of the scalars the row hands out (a Python [float] raises
    [ZeroDivisionError], a [numpy.float64] gives an infinity or NaN), which
    the frame decides: it is left open here. *)
Variable float_div : float -> float -> result float.

(** Lines 87-147: the body of the loop for the row [row] that follows
    [prev], and the signal it appends, if any. *)
Definition tpb_signal (self : TPBVWAPStrategy) (instrument : string)
    (prev row : Row) : result (option StrategySignal) :=
  if negb (py_bool (row_get row "trend_ok" 1)) then ok None
  else if negb (py_bool (row_get row "volatility_ok" 1))
          || negb (py_bool (row_get row "spread_ok" 1))
  then ok None
  else
    let* ema200 := row_getitem row "ema200" in
    let* sma20 := row_getitem row "sma20" in
    let* vwap := row_getitem row "vwap" in
    let* atr := row_getitem row "atr14" in
    let* price := row_getitem row "close" in
    if PrimFloat.is_nan ema200 || PrimFloat.is_nan sma20
       || PrimFloat.is_nan vwap || PrimFloat.is_nan atr
       || PrimFloat.is_nan price
    then ok None
    else
      let* dist_sma := float_div (PrimFloat.abs (price - sma20)) price in
      let* dist_vwap := float_div (PrimFloat.abs (price - vwap)) price in
      let min_dist := py_min dist_sma dist_vwap in
      if PrimFloat.ltb (pullback_tolerance self) min_dist then ok None
      else
        let rsi_fast := row_get row "rsi7" 50 in
        let prev_rsi := row_get prev "rsi7" 50 in
        let decided :=
          if PrimFloat.leb ema200 price
             && PrimFloat.leb 0 (row_get row "ema200_slope" 0)
             && PrimFloat.leb prev_rsi 35 && PrimFloat.ltb 35 rsi_fast
          then Some BUY
          else if PrimFloat.leb price ema200
                  && PrimFloat.leb (row_get row "ema200_slope" 0) 0
                  && PrimFloat.leb 65 prev_rsi && PrimFloat.ltb rsi_fast 65
          then Some SELL
          else None in
        match decided with
        | None => ok None
        | Some sd =>
            let stop_distance :=
              py_max 1e-4
                (py_min (atr * stop_atr_multiplier self)
                   (PrimFloat.abs (price - sma20))) in
            let stop :=
              match sd with
              | BUY => (price - stop_distance)%float
              | SELL => (price + stop_distance)%float
              end in
            let* multiplier := iloc (take_profit self) (-1) in
            let target :=
              match sd with
              | BUY => (price + stop_distance * multiplier)%float
              | SELL => (price - stop_distance * multiplier)%float
              end in
            let* ratio := float_div min_dist (pullback_tolerance self) in
            let score := (1 - ratio)%float in
            let metadata : gmap string float :=
              list_to_map [("dist_sma", dist_sma); ("dist_vwap", dist_vwap);
                           ("rsi_fast", rsi_fast); ("atr14", atr)] in
            let* signal :=
              _make_signal "TPB_VWAP" (tpb_risk_fraction self) row instrument
                sd price stop target score metadata in
            ok (Some signal)
        end.

(** The [for idx in range(1, len(df))] loop, [prev] being the row before
    the first of [rows]. *)
Fixpoint tpb_loop (self : TPBVWAPStrategy) (instrument : string) (prev : Row)
    (rows : list Row) : result (list StrategySignal) :=
  match rows with
  | [] => ok []
  | row :: rest =>
      let* emitted := tpb_signal self instrument prev row in
      let* later := tpb_loop self instrument row rest in
      ok (match emitted with
          | Some signal => signal :: later
          | None => later
          end)
  end.

(** [TPBVWAPStrategy.generate_signals]: nothing on a frame without rows or
    without columns; otherwise the loop over the rows from the second on,
    each with the row before it. *)
Definition TPBVWAPStrategy_generate_signals (self : TPBVWAPStrategy)
    (df : DataFrame) (instrument : string) : result (list StrategySignal) :=
  if df_empty df then ok []
  else
    match df with
    | [] => ok []
    | first :: rest => tpb_loop self instrument first rest
    end.

End TPB.

(** The division of doubles, raising nothing: what [/] does on
    [numpy.float64] scalars. *)
Definition numpy_div (x y : float) : result float := ok (x / y)%float.

(** What every [/] on row scalars does. *)
Definition divides (float_div : float -> float -> result float) : Prop :=
  forall x y, PrimFloat.eqb y 0 = false -> float_div x y = ok (x / y)%float.

(** *** Vocabulary of the strategy *)

(** The distance of the stop of a signal made of a row whose close is
    [price]: the smaller of the ATR stop and the distance to the 20-bar
    average, one ten-thousandth at least. *)
Definition tpb_stop_distance (self : TPBVWAPStrategy) (row : Row)
    (price : float) : float :=
  py_max 1e-4
    (py_min (row_get row "atr14" nan * stop_atr_multiplier self)
       (PrimFloat.abs (price - row_get row "sma20" nan))).

(** The signal [s] is the one the strategy makes of [row], which follows
    [prev] in the frame. *)
Record tpb_made_of (self : TPBVWAPStrategy) (instrument : string)
    (prev row : Row) (s : StrategySignal) : Prop := mkTpbMadeOf {
  tpb_time : row_timestamp row = Some (sig_timestamp s);
  tpb_entry : row_values row !! "close" = Some (sig_entry s);
  tpb_flags :
    py_bool (row_get row "trend_ok" 1) = true
    /\ py_bool (row_get row "volatility_ok" 1) = true
    /\ py_bool (row_get row "spread_ok" 1) = true;
  tpb_levels :
    exists multiplier,
      last (take_profit self) = Some multiplier
      /\ let d := tpb_stop_distance self row (sig_entry s) in
         sig_stop s =
           match sig_side s with
           | BUY => (sig_entry s - d)%float
           | SELL => (sig_entry s + d)%float
           end
         /\ sig_target s =
              match sig_side s with
              | BUY => (sig_entry s + d * multiplier)%float
              | SELL => (sig_entry s - d * multiplier)%float
              end;
  tpb_trend :
    exists ema200,
      row_values row !! "ema200" = Some ema200
      /\ let slope := row_get row "ema200_slope" 0 in
         let rsi_fast := row_get row "rsi7" 50 in
         let prev_rsi := row_get prev "rsi7" 50 in
         match sig_side s with
         | BUY =>
             PrimFloat.leb ema200 (sig_entry s) = true
             /\ PrimFloat.leb 0 slope = true
             /\ PrimFloat.leb prev_rsi 35 = true
             /\ PrimFloat.ltb 35 rsi_fast = true
         | SELL =>
             PrimFloat.leb (sig_entry s) ema200 = true
             /\ PrimFloat.leb slope 0 = true
             /\ PrimFloat.leb 65 prev_rsi = true
             /\ PrimFloat.ltb rsi_fast 65 = true
         end;
  tpb_score :
    PrimFloat.is_nan (sig_score s) = true
    \/ (PrimFloat.leb 0 (sig_score s) = true
        /\ PrimFloat.leb (sig_score s) 3 = true);
  tpb_labels :
    sig_strategy s = "TPB_VWAP" /\ sig_instrument s = instrument
    /\ sig_risk_fraction s = tpb_risk_fraction self
}.

(** The stop of [s] is on the losing side of its entry and its target on
    the winning side. *)
Definition brackets_entry (s : StrategySignal) : Prop :=
  match sig_side s with
  | BUY =>
      PrimFloat.leb (sig_stop s) (sig_entry s) = true
      /\ PrimFloat.leb (sig_entry s) (sig_target s) = true
  | SELL =>
      PrimFloat.leb (sig_target s) (sig_entry s) = true
      /\ PrimFloat.leb (sig_entry s) (sig_stop s) = true
  end.

(** A row the strategy can read to the end. *)
Definition tpb_readable (row : Row) : Prop :=
  is_Some (row_timestamp row)
  /\ is_Some (row_values row !! "ema200")
  /\ is_Some (row_values row !! "sma20")
  /\ is_Some (row_values row !! "vwap")
  /\ is_Some (row_values row !! "atr14")
  /\ exists price,
       row_values row !! "close" = Some price
       /\ PrimFloat.eqb price 0 = false.

(** A bar with the columns the strategy reads. *)
Definition pullback_bar (t : Z) (close ema200 sma20 vwap atr rsi : float)
    : Row :=
  {| row_timestamp := Some t;
     row_values :=
       list_to_map [("close", close); ("ema200", ema200); ("sma20", sma20);
                    ("vwap", vwap); ("atr14", atr); ("rsi7", rsi)] |}.

(** An oversold pullback to the averages in an up trend, then an overbought
    one in a down trend. *)
Definition pullback_bars : DataFrame :=
  [pullback_bar 0 100 99 100 100 0.5 30;
   pullback_bar minute 100.2 99 100 100.1 0.5 40;
   pullback_bar (2 * minute) 100 101 100.1 100 0.5 70;
   pullback_bar (3 * minute) 99.9 101 100 100 0.5 60].

(** The first of the five columns the strategy reads with [row[...]] that
    the row lacks. *)
Definition first_missing (row : Row) : option string :=
  List.find (fun key => bool_decide (row_values row !! key = None))
    ["ema200"; "sma20"; "vwap"; "atr14"; "close"].

(** The three filter flags of the row are true or absent. *)
Definition passes_filters (row : Row) : Prop :=
  py_bool (row_get row "trend_ok" 1) = true
  /\ py_bool (row_get row "volatility_ok" 1) = true
  /\ py_bool (row_get row "spread_ok" 1) = true.

(** The row is ruled out by one of its filter flags. *)
Definition filtered_out (row : Row) : Prop :=
  py_bool (row_get row "trend_ok" 1) = false
  \/ py_bool (row_get row "volatility_ok" 1) = false
  \/ py_bool (row_get row "spread_ok" 1) = false.

(** A bar ruled out by its trend flag, with no other column. *)
Definition flat_bar (t : Z) : Row :=
  {| row_timestamp := Some t;
     row_values := list_to_map [("trend_ok", 0%float)] |}.

(* ===================================================================== *)
(** ** [feature_engineering.FeaturePipeline._add_lagged_features] *)
(* ===================================================================== *)

(** The name [f"{prefix}{lag}"] of a lagged column. *)
Definition lag_key (prefix : string) (lag : Z) : string :=
  prefix +:+ pretty lag.

(** [df[f"{prefix}{lag}"] = df[source].shift(lag)]. *)
Definition add_lag (source prefix : string) (lag : Z) (df : DataFrame)
    : result DataFrame :=
  let* column := get_column source df in
  ok (set_column (lag_key prefix lag) (shift lag column) df).

(** Lines 45-50: three lagged columns for every lag of the configuration,
    in the order of [lags]. *)
Fixpoint _add_lagged_features (lags : list Z) (df : DataFrame)
    : result DataFrame :=
  match lags with
  | [] => ok df
  | lag :: rest =>
      let* df := add_lag "returns" "return_lag_" lag df in
      let* df := add_lag "z_residual" "z_residual_lag_" lag df in
      let* df := add_lag "sigma" "sigma_lag_" lag df in
      _add_lagged_features rest df
  end.

(** The lags of the default configuration. *)
Definition default_lags : list Z := [1; 5; 15].

(** *** Vocabulary of the lagged features *)

(** The columns the stage reads, each with the prefix of its copies. *)
Definition lagged_sources : list (string * string) :=
  [("returns", "return_lag_"); ("z_residual", "z_residual_lag_");
   ("sigma", "sigma_lag_")].

(** The names of the columns the stage writes. *)
Definition lag_keys (lags : list Z) : list string :=
  lag ← lags; (λ sp, lag_key sp.2 lag) <$> lagged_sources.

(** The cell of the column [source] that lies [lag] rows before row [i],
    NaN when there is no such row. *)
Definition cell_before (source : string) (lag : Z) (df : DataFrame)
    (i : nat) : float :=
  let j := Z.of_nat i - lag in
  if (0 <=? j) && (j <? Z.of_nat (length df))
  then match df !! Z.to_nat j with
       | Some row => row_get row source nan
       | None => nan
       end
  else nan.

(** A row that carries the three columns the stage reads. *)
Definition has_lag_sources (row : Row) : Prop :=
  forall sp, sp ∈ lagged_sources -> is_Some (row_values row !! sp.1).

(** A bar with the three columns. *)
Definition residual_bar (t : Z) (returns z_residual sigma : float) : Row :=
  {| row_timestamp := Some t;
     row_values :=
       list_to_map [("returns", returns); ("z_residual", z_residual);
                    ("sigma", sigma)] |}.

Definition residual_bars : DataFrame :=
  [residual_bar 0 0.01 1 0.5; residual_bar minute 0.02 2 0.6;
   residual_bar (2 * minute) 0.03 3 0.7].

(** [row'] is the row [row] at position [i] of [df] with the lagged
    columns of [lags]: same timestamp; each lagged column holds the cell of
    its source column [lag] rows before; every other cell is the one of
    [row]. *)
Definition lagged_row (lags : list Z) (df : DataFrame) (i : nat)
    (row row' : Row) : Prop :=
  row_timestamp row' = row_timestamp row
  /\ (forall lag sp,
        lag ∈ lags -> sp ∈ lagged_sources ->
        row_values row' !! lag_key sp.2 lag
        = Some (cell_before sp.1 lag df i))
  /\ (forall key,
        key ∉ lag_keys lags ->
        row_values row' !! key = row_values row !! key).

(* ===================================================================== *)
(** ** Vocabulary of the stopped trades *)
(* ===================================================================== *)

(** The stop of [s] is behind its entry: under it when the signal is long,
    over it when it is short, both being positive finite prices. *)
Definition stop_behind (s : StrategySignal) : Prop :=
  PrimFloat.ltb 0 (sig_entry s) = true
  /\ PrimFloat.is_finite (sig_entry s) = true
  /\ PrimFloat.ltb 0 (sig_stop s) = true
  /\ PrimFloat.is_finite (sig_stop s) = true
  /\ match sig_side s with
     | BUY => PrimFloat.leb (sig_stop s) (sig_entry s) = true
     | SELL => PrimFloat.leb (sig_entry s) (sig_stop s) = true
     end.

(** A long position stopped on the second bar and a short one stopped on
    the fourth. *)
Definition stopped_out_bars : DataFrame :=
  [ohlc_bar 0 101 99.5 100; ohlc_bar minute 100.5 98 98.5;
   ohlc_bar (2 * minute) 99 98 98.5; ohlc_bar (3 * minute) 100 98.5 99.5].

Definition stopped_out_signals : list StrategySignal :=
  [signal_at 0 BUY 100 99 105; signal_at (2 * minute) SELL 98.5 99.5 95].

(* ===================================================================== *)
(** ** Proof tools *)
(* ===================================================================== *)


(** A computation that returned went through each of its steps. *)
Lemma bind_inr {A B : Type} (m : result A) (k : A -> result B) (b : B) :
  bind m k = inr b -> exists a, m = inr a /\ k a = inr b.
Proof. destruct m as [e|a]; cbn; [discriminate|eauto]. Qed.

Ltac bind_inv H :=
  let a := fresh "a" in
  let Ha := fresh "Ha" in
  apply bind_inr in H as (a & Ha & H).

Tactic Notation "bind_step" hyp(H) "as" ident(a) ident(Ha) :=
  apply bind_inr in H as (a & Ha & H).

(* ===================================================================== *)
(** ** Doubles: conversions and divisions that cannot overflow *)
(* ===================================================================== *)

Lemma sf_bounded_mono B B' x : B <= B' -> sf_bounded B x -> sf_bounded B' x.
Proof. destruct x; cbn; intros; trivial; lia. Qed.

Lemma digits2_pos_lb p : 2 ^ (Z.pos (digits2_pos p) - 1) <= Z.pos p.
Proof.
  induction p as [p IH|p IH|]; cbn [digits2_pos].
  - rewrite Pos2Z.inj_succ. replace (Z.succ (Z.pos (digits2_pos p)) - 1) with (Z.succ (Z.pos (digits2_pos p) - 1)) by lia.
    rewrite Z.pow_succ_r by lia. lia.
  - rewrite Pos2Z.inj_succ. replace (Z.succ (Z.pos (digits2_pos p)) - 1) with (Z.succ (Z.pos (digits2_pos p) - 1)) by lia.
    rewrite Z.pow_succ_r by lia. lia.
  - reflexivity.
Qed.

Lemma digits2_pos_ub p : Z.pos p < 2 ^ Z.pos (digits2_pos p).
Proof.
  induction p as [p IH|p IH|]; cbn [digits2_pos].
  - rewrite Pos2Z.inj_succ, Z.pow_succ_r by lia. lia.
  - rewrite Pos2Z.inj_succ, Z.pow_succ_r by lia. lia.
  - reflexivity.
Qed.

Lemma Zdigits2_le z k : 0 <= k -> 0 <= z < 2 ^ k -> Zdigits2 z <= k.
Proof.
  intros Hk [Hz Hlt]. destruct z as [|p|p]; cbn [Zdigits2]; [lia| |lia].
  destruct (Z_le_gt_dec (Z.pos (digits2_pos p)) k) as [|Hgt]; [assumption|exfalso].
  pose proof (digits2_pos_lb p) as Hlb.
  assert (2 ^ k <= 2 ^ (Z.pos (digits2_pos p) - 1)) by (apply Z.pow_le_mono_r; lia).
  lia.
Qed.

Lemma shr_1_bounds r M : 0 <= shr_m r <= M -> 0 <= shr_m (shr_1 r) <= M.
Proof.
  destruct r as [m b s]; cbn [shr_m]; intros H.
  destruct m as [|[p|p|]|[p|p|]]; cbn; lia.
Qed.

Lemma iter_pos_inv {A : Type} (P : A -> Prop) (f : A -> A) :
  (forall x, P x -> P (f x)) -> forall p x, P x -> P (SpecFloat.iter_pos f p x).
Proof.
  intros Hf. induction p as [p IH|p IH|]; intros x Hx; cbn [SpecFloat.iter_pos]; auto.
Qed.

Lemma shr_fexp_bounds m e l M :
  0 <= m <= M ->
  0 <= shr_m (fst (shr_fexp prec emax m e l)) <= M /\
  snd (shr_fexp prec emax m e l) = Z.max e (fexp prec emax (Zdigits2 m + e)).
Proof.
  intros Hm. unfold shr_fexp, shr.
  assert (Hrec : shr_m (shr_record_of_loc m l) = m) by (destruct l as [|[]]; reflexivity).
  destruct (fexp prec emax (Zdigits2 m + e) - e) as [|p|p] eqn:Hn; cbn [fst snd].
  - rewrite Hrec. lia.
  - split; [|lia].
    refine (iter_pos_inv (fun r => 0 <= shr_m r <= M) shr_1
              (fun x => shr_1_bounds x M) p _ _).
    rewrite Hrec; lia.
  - rewrite Hrec. lia.
Qed.

Lemma round_nearest_even_bounds m l : m <= round_nearest_even m l <= m + 1.
Proof. destruct l as [|[]]; cbn; try lia. destruct (Z.even m); lia. Qed.

Lemma binary_round_aux_bounded sx mx ex lx D :
  0 <= D -> 0 <= mx < 2 ^ D ->
  Z.max ex (-1074) + 2 * D + 1 <= 971 ->
  sf_bounded (Z.max ex (-1074) + 2 * D + 1) (binary_round_aux prec emax sx mx ex lx).
Proof.
  intros HD Hmx Hb. unfold binary_round_aux.
  destruct (shr_fexp_bounds mx ex lx mx ltac:(lia)) as [Hm1 He1].
  destruct (shr_fexp prec emax mx ex lx) as [r1 e1]; cbn [fst snd] in Hm1, He1.
  pose proof (round_nearest_even_bounds (shr_m r1) (loc_of_shr_record r1)) as Hr.
  set (m1 := round_nearest_even (shr_m r1) (loc_of_shr_record r1)) in *.
  destruct (shr_fexp_bounds m1 e1 loc_Exact m1 ltac:(lia)) as [Hm2 He2].
  destruct (shr_fexp prec emax m1 e1 loc_Exact) as [r2 e2]; cbn [fst snd] in Hm2, He2.
  assert (Hd0 : Zdigits2 mx <= D) by (apply Zdigits2_le; lia).
  assert (Hd1 : Zdigits2 m1 <= D + 1).
  { apply Zdigits2_le; [lia|]. rewrite Z.pow_add_r by lia. lia. }
  unfold fexp, SpecFloat.emin, prec, emax in He1, He2.
  assert (He : e2 <= Z.max ex (-1074) + 2 * D + 1) by lia.
  destruct (shr_m r2) as [|p|p]; cbn [sf_bounded]; [trivial| |lia].
  replace (e2 <=? emax - prec) with true; [exact He|].
  symmetry. apply Z.leb_le. unfold emax, prec. lia.
Qed.

Lemma pos_iter_xO m d : Z.pos (Pos.iter xO m d) = Z.pos m * 2 ^ Z.pos d.
Proof.
  revert m. induction d as [|d IH] using Pos.peano_ind; intros m.
  - cbn. lia.
  - rewrite Pos.iter_succ, Pos2Z.inj_succ, Z.pow_succ_r by lia.
    rewrite Pos2Z.inj_xO, IH. lia.
Qed.

Lemma of_uint63_bounded n : sf_bounded 233 (Prim2SF (of_uint63 n)).
Proof.
  rewrite of_uint63_spec.
  pose proof (Uint63.to_Z_bounded n) as Hn.
  change wB with (2 ^ 63) in Hn.
  destruct (Uint63.to_Z n) as [|m|m]; cbn [binary_normalize]; [exact I| |lia].
  unfold binary_round, shl_align.
  pose proof (digits2_pos_ub m) as Hub.
  assert (Hfexp : -52 <= fexp prec emax (Z.pos (digits2_pos m) + 0)).
  { unfold fexp, SpecFloat.emin, prec, emax. lia. }
  assert (H116 : 2 ^ 63 <= 2 ^ 116) by (apply Z.pow_le_mono_r; lia).
  destruct (fexp prec emax (Z.pos (digits2_pos m) + 0) - 0) as [|d|d] eqn:Hd.
  - eapply sf_bounded_mono;
      [|apply (binary_round_aux_bounded false (Z.pos m) 0 loc_Exact 116)]; lia.
  - eapply sf_bounded_mono;
      [|apply (binary_round_aux_bounded false (Z.pos m) 0 loc_Exact 116)]; lia.
  - set (e := fexp prec emax (Z.pos (digits2_pos m) + 0)) in *.
    assert (He : -52 <= e <= 0) by lia.
    assert (Hm : 0 <= Z.pos (Pos.iter xO m d) < 2 ^ 116).
    { rewrite pos_iter_xO. split; [lia|].
      assert (2 ^ Z.pos d <= 2 ^ 52) by (apply Z.pow_le_mono_r; lia).
      replace 116 with (63 + 53) by lia. rewrite Z.pow_add_r by lia.
      assert (0 < 2 ^ Z.pos d) by (apply Z.pow_pos_nonneg; lia).
      change (2 ^ 53) with (2 * 2 ^ 52). nia. }
    eapply sf_bounded_mono;
      [|apply (binary_round_aux_bounded false _ e loc_Exact 116)]; lia.
Qed.

Lemma valid_digits s m e :
  valid_binary (S754_finite s m e) = true -> Z.pos (digits2_pos m) <= 53.
Proof.
  cbn [SpecFloat.valid_binary]. unfold bounded, canonical_mantissa.
  intros H. apply andb_true_iff in H as [H _]. apply Z.eqb_eq in H.
  unfold fexp, SpecFloat.emin, prec, emax in H. lia.
Qed.

Lemma SFdiv_bounded x sy my ey :
  valid_binary x = true -> sf_bounded 233 x ->
  Z.pos (digits2_pos my) <= 53 -> -100 <= ey ->
  sf_bounded 971 (SFdiv prec emax x (S754_finite sy my ey)).
Proof.
  intros Hv Hx Hdy Hey.
  destruct x as [s| |  |sx mx ex]; cbn [sf_bounded] in Hx; try contradiction;
    [exact I|].
  apply valid_digits in Hv.
  cbn [SFdiv]. unfold SFdiv_core_binary. cbn [Zdigits2].
  set (d1 := Z.pos (digits2_pos mx)) in *.
  set (d2 := Z.pos (digits2_pos my)) in *.
  set (e' := Z.min (fexp prec emax (d1 + ex - (d2 + ey))) (ex - ey)).
  set (s := ex - ey - e').
  set (m' := match s with Z.pos _ => Z.shiftl (Z.pos mx) s | 0 => Z.pos mx | Z.neg _ => 0 end).
  assert (Hs : 0 <= s <= d2 - d1 + 53 \/ s = 0).
  { unfold s, e', fexp, SpecFloat.emin, prec, emax. lia. }
  assert (Hd1 : 0 < d1) by (unfold d1; lia).
  assert (Hd2 : 0 < d2) by (unfold d2; lia).
  pose proof (digits2_pos_ub mx) as Hub. fold d1 in Hub.
  assert (Hm' : 0 <= m' < 2 ^ 106).
  { assert (H53 : 2 ^ d1 <= 2 ^ 106) by (apply Z.pow_le_mono_r; lia).
    unfold m'. destruct s as [|p|p] eqn:Hsp; [lia| |lia].
    rewrite Z.shiftl_mul_pow2 by lia.
    assert (Hp : 0 < 2 ^ Z.pos p) by (apply Z.pow_pos_nonneg; lia).
    assert (Hle : 2 ^ (d1 + Z.pos p) <= 2 ^ 106) by (apply Z.pow_le_mono_r; lia).
    rewrite Z.pow_add_r in Hle by lia. nia. }
  pose proof (Z_div_mod m' (Z.pos my) ltac:(lia)) as Hdiv.
  destruct (Z.div_eucl m' (Z.pos my)) as [q r].
  assert (Hq : 0 <= q < 2 ^ 106) by nia.
  assert (He' : e' <= 333) by (unfold e'; lia).
  eapply sf_bounded_mono;
    [|apply (binary_round_aux_bounded _ q e' _ 106)]; lia.
Qed.

Lemma opp_bounded B a : sf_bounded B (Prim2SF a) -> sf_bounded B (Prim2SF (- a)%float).
Proof. rewrite FloatAxioms.opp_spec. destruct (Prim2SF a); cbn; trivial. Qed.

Lemma div_minute_bounded a :
  sf_bounded 233 (Prim2SF a) -> sf_bounded 971 (Prim2SF (a / 60000000000)%float).
Proof.
  intros Ha. rewrite FloatAxioms.div_spec.
  change (Prim2SF 60000000000%float) with (S754_finite false 7864320000000000 (-17)).
  apply SFdiv_bounded; [apply Prim2SF_valid|exact Ha|vm_compute; discriminate|lia].
Qed.

Lemma float_of_Z_bounded z : sf_bounded 233 (Prim2SF (float_of_Z z)).
Proof.
  unfold float_of_Z. destruct (z <? 0).
  - apply opp_bounded, of_uint63_bounded.
  - apply of_uint63_bounded.
Qed.

Lemma py_round_ok x B :
  sf_bounded B (Prim2SF x) -> exists z, py_round x = inr z.
Proof.
  unfold py_round. destruct (Prim2SF x); cbn [sf_bounded]; intros H;
    try contradiction; eauto.
Qed.

Lemma py_int_ok x B :
  sf_bounded B (Prim2SF x) -> exists z, py_int x = inr z.
Proof.
  unfold py_int. destruct (Prim2SF x); cbn [sf_bounded]; intros H;
    try contradiction; eauto.
Qed.

(** Rounding a holding time never raises: the quotient of a nanosecond count
    by the length of a minute is a finite double. *)
Lemma py_round_minutes dt : exists z, py_round (timedelta_minutes dt) = inr z.
Proof.
  apply (py_round_ok _ 971), div_minute_bounded, float_of_Z_bounded.
Qed.

(* ===================================================================== *)
(** ** The loop body, case by case *)
(* ===================================================================== *)

(** What [close_position] writes in the ledger entry. *)
Lemma close_position_fields self pos timestamp reason price trade :
  close_position self pos timestamp reason price = inr trade ->
  entry_time trade = pos_entry_time pos
  /\ exit_time trade = timestamp
  /\ entry_price trade = pos_entry_price pos
  /\ exit_price trade = price
  /\ side trade = sig_side (pos_signal pos)
  /\ stop_price trade = sig_stop (pos_signal pos)
  /\ target_price trade = sig_target (pos_signal pos)
  /\ exit_reason trade = reason
  /\ strategy trade = sig_strategy (pos_signal pos)
  /\ pnl trade =
       ((match sig_side (pos_signal pos) with
         | BUY => price - pos_entry_price pos
         | SELL => pos_entry_price pos - price
         end) - commission self)%float
  /\ r_multiple trade =
       (pnl trade
        / py_max (PrimFloat.abs (entry_price trade - stop_price trade)) 1e-6)%float
  /\ 1 <= bars_held trade.
Proof.
  unfold close_position. intros H.
  bind_step H as holding_minutes Hholding. bind_step H as rounded Hrounded.
  injection H as <-. cbn. repeat split; lia.
Qed.

Lemma is_nan_spec x : PrimFloat.is_nan x = true <-> Prim2SF x = S754_nan.
Proof.
  unfold Prim2SF. destruct (PrimFloat.is_nan x); split; try reflexivity; try discriminate.
  intros H. destruct (PrimFloat.is_zero x); [discriminate|].
  destruct (PrimFloat.is_infinity x); [discriminate|].
  destruct (FloatOps.Z.frexp x) as [r e].
  destruct (shr_fexp _ _ _ _ _) as [shr e'].
  destruct (shr_m shr); discriminate.
Qed.

(** A double that is not above another is a number. *)
Lemma leb_not_nan a b :
  PrimFloat.leb a b = true ->
  PrimFloat.is_nan a = false /\ PrimFloat.is_nan b = false.
Proof.
  rewrite FloatAxioms.leb_spec. intros H. split.
  - destruct (PrimFloat.is_nan a) eqn:E; [|reflexivity].
    apply is_nan_spec in E. rewrite E in H. discriminate.
  - destruct (PrimFloat.is_nan b) eqn:E; [|reflexivity].
    apply is_nan_spec in E. rewrite E in H.
    destruct (Prim2SF a); discriminate.
Qed.

(** The subtraction of two timestamps returns when their difference is a
    [Timedelta]. *)
Lemma timestamp_sub_ok a b :
  Z.abs (a - b) < 2 ^ 63 -> timestamp_sub a b = inr (a - b).
Proof.
  intros H. unfold timestamp_sub.
  replace (Z.abs (a - b) <? 2 ^ 63) with true
    by (symmetry; apply Z.ltb_lt; exact H).
  reflexivity.
Qed.

Lemma timestamp_sub_inv a b dt :
  timestamp_sub a b = inr dt -> dt = a - b /\ Z.abs (a - b) < 2 ^ 63.
Proof.
  unfold timestamp_sub.
  destruct (Z.abs (a - b) <? 2 ^ 63) eqn:E; [|discriminate].
  intros [= <-]. apply Z.ltb_lt in E. auto.
Qed.

(** Closing a position yields a ledger entry when the holding time is a
    [Timedelta]: it is, as soon as the bar is less than 2^63 nanoseconds
    after the entry. *)
Lemma close_position_ok self pos timestamp reason price :
  timestamp - pos_entry_time pos < 2 ^ 63 ->
  exists trade, close_position self pos timestamp reason price = inr trade.
Proof.
  intros Hfit. unfold close_position.
  destruct (pos_entry_time pos <? timestamp) eqn:E.
  - apply Z.ltb_lt in E. rewrite timestamp_sub_ok by lia. cbn [bind ok].
    destruct (py_round_minutes (timestamp - pos_entry_time pos)) as [z ->].
    cbn. eauto.
  - cbn. eauto.
Qed.

(** A row with a cell that holds a number is not read back as a row of
    [NaT]. *)
Lemma nat_row_cell row key v :
  row_values row !! key = Some v -> PrimFloat.is_nan v = false ->
  nat_row row = false.
Proof.
  intros Hv Hnan. unfold nat_row.
  destruct (row_timestamp row); [|reflexivity].
  destruct (forallb _ _) eqn:E; [|reflexivity].
  rewrite forallb_forall in E.
  assert (Hin : List.In (key, v) (map_to_list (row_values row))).
  { apply list_elem_of_In, elem_of_map_to_list. exact Hv. }
  apply E in Hin. cbn in Hin. congruence.
Qed.

Lemma nat_row_close row :
  numeric_close row -> nat_row row = false.
Proof. intros (close & Hclose & Hnan). eapply nat_row_cell; eassumption. Qed.

(** In a row of [NaT] every cell is NaN. *)
Lemma nat_row_cells row key v :
  nat_row row = true -> row_values row !! key = Some v ->
  PrimFloat.is_nan v = true.
Proof.
  intros Hnat Hv. destruct (PrimFloat.is_nan v) eqn:E; [reflexivity|].
  rewrite (nat_row_cell row key v Hv E) in Hnat. discriminate.
Qed.

Lemma evaluate_exit_close self n bar_idx row timestamp queue ledger pos close :
  row_values row !! "close" = Some close ->
  nat_row row = false ->
  evaluate_exit self n bar_idx row timestamp queue ledger pos =
  let slippage := (slippage_bps self / 10000)%float in
  let signal := pos_signal pos in
  match check_expiry
          (check_exit (sig_side signal) (row_get row "low" close)
             (row_get row "high" close) (sig_stop signal) (sig_target signal)
             slippage)
          bar_idx n (sig_side signal) close slippage with
  | None =>
      ok {| pending := queue; open_position := Some pos; trades := ledger |}
  | Some (reason, price) =>
      let* trade := close_position self pos timestamp reason price in
      ok {| pending := queue;
            open_position := None;
            trades := ledger ++ [trade] |}
  end.
Proof.
  intros Hclose Hnat. unfold evaluate_exit, row_getitem.
  rewrite Hclose, Hnat. reflexivity.
Qed.

(** The low and the high of a row are cells of the row. *)
Lemma row_get_not_nat row key close :
  row_values row !! "close" = Some close ->
  PrimFloat.is_nan (row_get row key close) = false ->
  nat_row row = false.
Proof.
  intros Hclose. unfold row_get.
  destruct (row_values row !! key) as [v|] eqn:Hv; intros Hnan;
    eapply nat_row_cell; eassumption.
Qed.

(** Instants that all lie in one window of 2^63 nanoseconds. *)
Lemma instants_fit_window instants lo :
  Forall (fun t => lo <= t < lo + 2 ^ 63) instants -> instants_fit instants.
Proof.
  intros H a b Ha Hb. rewrite Forall_forall in H.
  pose proof (H a Ha). pose proof (H b Hb). lia.
Qed.

Lemma within_span_window (df : DataFrame) lo :
  Forall (fun t => lo <= t < lo + 2 ^ 63) (bar_times df) -> within_span df.
Proof. apply instants_fit_window. Qed.

(** Discharges [runnable] on a frame given row by row, whose timestamps
    are within 2^63 nanoseconds after the epoch. *)
Ltac runnable_frame :=
  split;
  [ repeat first
      [ apply List.Forall_nil
      | apply List.Forall_cons;
        [split; [vm_compute; eauto
                |eexists; split; vm_compute; reflexivity]|] ]
  | apply (within_span_window _ 0);
    repeat first
      [ apply List.Forall_nil
      | apply List.Forall_cons;
        [split; [vm_compute; discriminate|vm_compute; reflexivity]|] ] ].

(** A position is evaluated on rows that hold a number only. *)
Lemma evaluate_exit_not_nat self n bar_idx row timestamp queue ledger pos st' :
  evaluate_exit self n bar_idx row timestamp queue ledger pos = inr st' ->
  nat_row row = false.
Proof.
  unfold evaluate_exit. intros H. bind_step H as close Hclose.
  destruct (nat_row row); [discriminate|reflexivity].
Qed.

(** The two ways [evaluate_exit] can return: the position stays open, or
    one trade is appended and the engine is flat. *)
Lemma evaluate_exit_inv self n bar_idx row timestamp queue ledger pos st' :
  evaluate_exit self n bar_idx row timestamp queue ledger pos = inr st' ->
  pending st' = queue
  /\ ((open_position st' = Some pos /\ trades st' = ledger
       /\ Z.of_nat bar_idx <> Z.of_nat n - 1)
      \/ (exists reason price trade,
             close_position self pos timestamp reason price = inr trade
             /\ open_position st' = None
             /\ trades st' = ledger ++ [trade])).
Proof.
  unfold evaluate_exit. intros H. bind_inv H.
  destruct (nat_row row); [discriminate|].
  destruct (check_expiry _ _ _ _ _ _) as [[reason price]|] eqn:Hexp.
  - bind_inv H. injection H as <-. cbn. split; [reflexivity|].
    right. eauto 6.
  - injection H as <-. cbn. split; [reflexivity|]. left.
    repeat split. unfold check_expiry in Hexp.
    destruct (check_exit _ _ _ _ _ _); [discriminate|].
    destruct (Z.of_nat bar_idx =? Z.of_nat n - 1) eqn:E; [discriminate|].
    apply Z.eqb_neq in E. exact E.
Qed.

Lemma process_bar_inv self n bar_idx row st st' :
  process_bar self n bar_idx row st = inr st' ->
  exists timestamp,
    row_timestamp row = Some timestamp
    /\ pending st' = (queue_signals timestamp (pending st)).2
    /\ match open_if_flat (slippage_bps self / 10000)%float timestamp
               (open_position st) (queue_signals timestamp (pending st)).1
       with
       | None => open_position st' = None /\ trades st' = trades st
       | Some pos =>
           evaluate_exit self n bar_idx row timestamp
             (queue_signals timestamp (pending st)).2 (trades st) pos
           = inr st'
       end.
Proof.
  unfold process_bar, row_time. intros H.
  destruct (row_timestamp row) as [timestamp|]; [|discriminate].
  cbn in H. exists timestamp. split; [reflexivity|].
  destruct (queue_signals timestamp (pending st)) as [triggered queue].
  cbn [fst snd].
  destruct (open_if_flat _ _ _ _) as [pos|].
  - split; [|exact H]. apply evaluate_exit_inv in H. tauto.
  - injection H as <-. cbn. auto.
Qed.

(** [check_exit] tests the stop first, and the target only after it. *)
Lemma check_exit_spec sd low high stop target slippage :
  check_exit sd low high stop target slippage =
  if stop_breached sd low high stop then
    Some ("stop", (stop * exit_factor sd slippage)%float)
  else if target_breached sd low high target then
    Some ("target", (target * exit_factor sd slippage)%float)
  else None.
Proof. destruct sd; reflexivity. Qed.

Lemma open_if_flat_inv slippage timestamp current triggered pos :
  open_if_flat slippage timestamp current triggered = Some pos ->
  current = Some pos
  \/ (current = None
      /\ exists signal rest, triggered = signal :: rest
                             /\ pos = enter_position slippage timestamp signal).
Proof.
  unfold open_if_flat. destruct current as [p|]; [intros [= <-]; auto|].
  destruct triggered as [|signal rest]; [discriminate|].
  intros [= <-]. right. eauto.
Qed.

(** One bar is processed when its row has a timestamp and a close that is
    a number, and the open position, if any, was entered less than 2^63
    nanoseconds before the bar. *)
Lemma process_bar_ok self n bar_idx row st timestamp :
  row_timestamp row = Some timestamp -> numeric_close row ->
  (forall pos, open_position st = Some pos ->
     timestamp - pos_entry_time pos < 2 ^ 63) ->
  exists st', process_bar self n bar_idx row st = inr st'.
Proof.
  intros Ht Hnum Hfit. pose proof (nat_row_close row Hnum) as Hnat.
  destruct Hnum as (close & Hc & _). unfold process_bar, row_time.
  rewrite Ht. cbn.
  destruct (queue_signals timestamp (pending st)) as [triggered queue].
  destruct (open_if_flat _ _ _ _) as [pos|] eqn:Hflat; [|eauto].
  rewrite (evaluate_exit_close _ _ _ _ _ _ _ _ close Hc Hnat). cbn zeta.
  destruct (check_expiry _ _ _ _ _ _) as [[reason price]|]; [|eauto].
  destruct (close_position_ok self pos timestamp reason price) as [trade ->].
  - apply open_if_flat_inv in Hflat as [Hold|(_ & signal & rest & _ & ->)].
    + apply Hfit. exact Hold.
    + cbn [pos_entry_time enter_position]. lia.
  - cbn. eauto.
Qed.

(** The position a bar leaves open was open before the bar or is entered
    on it. *)
Lemma process_bar_open self n bar_idx row st st' pos :
  process_bar self n bar_idx row st = inr st' ->
  open_position st' = Some pos ->
  open_position st = Some pos
  \/ row_timestamp row = Some (pos_entry_time pos).
Proof.
  intros H Hpos. apply process_bar_inv in H as (timestamp & Hts & _ & Hcase).
  destruct (open_if_flat _ _ _ _) as [pos'|] eqn:Hflat.
  - apply evaluate_exit_inv in Hcase
      as [_ [(Ho & _ & _)|(? & ? & ? & _ & Ho & _)]]; [|congruence].
    assert (pos' = pos) as -> by congruence.
    apply open_if_flat_inv in Hflat as [Hold|(_ & signal & rest & _ & ->)];
      [left; exact Hold|right; exact Hts].
  - destruct Hcase as [Ho _]. congruence.
Qed.

(** The loop runs to the end of rows whose timestamps all lie in a set [W]
    of instants less than 2^63 nanoseconds apart, when the open position,
    if any, was entered at an instant of [W]. *)
Lemma simulate_loop_ok self n (W : Z -> Prop) :
  (forall a b, W a -> W b -> b - a < 2 ^ 63) ->
  forall rows,
    Forall (fun row => (exists t, row_timestamp row = Some t /\ W t)
                       /\ numeric_close row) rows ->
    forall bar_idx st,
      (forall pos, open_position st = Some pos -> W (pos_entry_time pos)) ->
      exists st', simulate_loop self n bar_idx rows st = inr st'.
Proof.
  intros Hspan rows.
  induction 1 as [|row rest [(t & Ht & Hw) Hnum] _ IH]; intros bar_idx st Hopen;
    cbn.
  - eauto.
  - destruct (process_bar_ok self n bar_idx row st t Ht Hnum) as [st1 Hst1].
    { intros pos Hpos. apply Hspan; [apply Hopen; exact Hpos|exact Hw]. }
    rewrite Hst1. cbn. apply IH. intros pos Hpos.
    destruct (process_bar_open _ _ _ _ _ _ _ Hst1 Hpos) as [Hold|Hnew].
    + apply Hopen. exact Hold.
    + rewrite Ht in Hnew. injection Hnew as <-. exact Hw.
Qed.

Lemma runnable_rows (df : DataFrame) :
  runnable df ->
  Forall (fun row => (exists t, row_timestamp row = Some t
                                /\ t ∈ bar_times df)
                     /\ numeric_close row) df.
Proof.
  intros [Hrows _]. apply Forall_forall. intros row Hin.
  rewrite Forall_forall in Hrows. destruct (Hrows row Hin) as [[t Ht] Hnum].
  split; [|exact Hnum]. exists t. split; [exact Ht|].
  apply list_elem_of_omap. exists row. split; assumption.
Qed.

(** A frame whose rows have their timestamps has a column. *)
Lemma df_empty_timed (df : DataFrame) :
  df <> [] -> Forall (fun row => is_Some (row_timestamp row)) df ->
  df_empty df = false.
Proof.
  intros Hne Hrows. destruct df as [|row rest]; [congruence|].
  apply Forall_cons in Hrows as [[t Ht] _]. cbn. rewrite Ht. reflexivity.
Qed.

(** On a runnable frame the simulation returns a ledger. *)
Lemma simulate_final_ok self df signals :
  runnable df -> exists final, simulate_final self df signals = inr final.
Proof.
  intros Hdf. unfold simulate_final.
  destruct signals as [|s signals]; [eauto|].
  destruct (df_empty df); [eauto|].
  destruct df as [|row rest]; [cbn; eauto|].
  destruct (simulate_loop_ok self (length (row :: rest))
              (fun t => t ∈ bar_times (row :: rest)) (proj2 Hdf)
              (row :: rest) (runnable_rows _ Hdf) 0%nat
              {| pending := sorted_signals (s :: signals);
                 open_position := None; trades := [] |}) as [st ->].
  - discriminate.
  - cbn. eauto.
Qed.

Lemma _simulate_trades_ok self df signals :
  runnable df -> exists ledger, _simulate_trades self df signals = inr ledger.
Proof.
  intros Hdf. unfold _simulate_trades.
  destruct (simulate_final_ok self df signals Hdf) as [[st|] ->]; cbn; eauto.
Qed.

(** After the last bar of a frame the engine is flat. *)
Lemma simulate_loop_flat self n rows :
  forall bar_idx st st',
    rows <> [] -> (bar_idx + length rows = n)%nat ->
    simulate_loop self n bar_idx rows st = inr st' ->
    open_position st' = None.
Proof.
  induction rows as [|row rest IH]; intros bar_idx st st' Hne Hlen H;
    [congruence|].
  cbn in H. bind_inv H. destruct rest as [|row' rest'].
  - cbn in H. injection H as <-. cbn in Hlen.
    apply process_bar_inv in Ha as (timestamp & _ & _ & Hpos).
    destruct (open_if_flat _ _ _ _) as [pos|]; [|tauto].
    apply evaluate_exit_inv in Hpos as [_ [(_ & _ & Hidx)|(? & ? & ? & _ & Hflat & _)]];
      [lia|assumption].
  - apply (IH (S bar_idx) a st'); [discriminate|cbn in *; lia|exact H].
Qed.

(* ===================================================================== *)
(** ** Exit precedence and forced expiry *)
(* ===================================================================== *)

(** C1. On any bar and for any open position, the stop test runs before the
    target test.  A long position whose bar has [low <= stop] is closed with
    reason ["stop"] at [stop * (1 - slip)], and a short position whose bar has
    [high >= stop] with reason ["stop"] at [stop * (1 + slip)], whatever the
    bar does to the target (in particular when the target is breached too),
    provided the bar comes less than 2^63 nanoseconds after the entry, so
    that the holding time is a [pd.Timedelta]; and a trade closed with
    reason ["target"] comes from a bar on which the stop test was false. *)
Theorem stop_checked_before_target
    self n bar_idx row timestamp queue ledger pos close :
  row_values row !! "close" = Some close ->
  let signal := pos_signal pos in
  let slippage := (slippage_bps self / 10000)%float in
  let low := row_get row "low" close in
  let high := row_get row "high" close in
  let outcome :=
    evaluate_exit self n bar_idx row timestamp queue ledger pos in
  (sig_side signal = BUY -> (low <=? sig_stop signal)%float = true ->
   timestamp - pos_entry_time pos < 2 ^ 63 ->
   exists trade,
     outcome = inr {| pending := queue; open_position := None;
                      trades := ledger ++ [trade] |}
     /\ exit_reason trade = "stop"
     /\ exit_price trade = (sig_stop signal * (1 - slippage))%float)
  /\ (sig_side signal = SELL -> (sig_stop signal <=? high)%float = true ->
      timestamp - pos_entry_time pos < 2 ^ 63 ->
      exists trade,
        outcome = inr {| pending := queue; open_position := None;
                         trades := ledger ++ [trade] |}
        /\ exit_reason trade = "stop"
        /\ exit_price trade = (sig_stop signal * (1 + slippage))%float)
  /\ (forall st' trade,
        outcome = inr st' -> trades st' = ledger ++ [trade] ->
        exit_reason trade = "target" ->
        stop_breached (sig_side signal) low high (sig_stop signal) = false
        /\ target_breached (sig_side signal) low high (sig_target signal)
           = true).
Proof.
  intros Hclose signal slippage low high outcome.
  assert (Hout : nat_row row = false -> outcome = _)
    by apply (evaluate_exit_close _ _ _ _ _ _ _ _ _ Hclose).
  cbn zeta in Hout. fold signal slippage low high in Hout.
  rewrite check_exit_spec in Hout.
  assert (Hstop :
    stop_breached (sig_side signal) low high (sig_stop signal) = true ->
    timestamp - pos_entry_time pos < 2 ^ 63 ->
    exists trade,
      outcome = inr {| pending := queue; open_position := None;
                       trades := ledger ++ [trade] |}
      /\ exit_reason trade = "stop"
      /\ exit_price trade
         = (sig_stop signal * exit_factor (sig_side signal) slippage)%float).
  { intros Hb Hfit.
    assert (Hnat : nat_row row = false).
    { unfold stop_breached in Hb. destruct (sig_side signal);
        apply leb_not_nan in Hb as [Hl Hh];
        eapply row_get_not_nat; eassumption. }
    specialize (Hout Hnat). rewrite Hb in Hout. cbn [check_expiry] in Hout.
    destruct (close_position_ok self pos timestamp "stop"
                (sig_stop signal * exit_factor (sig_side signal) slippage)%float
                Hfit)
      as [trade Ht].
    rewrite Ht in Hout. exists trade. split; [exact Hout|].
    apply close_position_fields in Ht. tauto. }
  split; [|split].
  - intros Hside Hlow. unfold stop_breached, exit_factor in Hstop.
    rewrite Hside in Hstop. auto.
  - intros Hside Hhigh. unfold stop_breached, exit_factor in Hstop.
    rewrite Hside in Hstop. auto.
  - intros st' trade Hret Htrades Hreason.
    specialize (Hout (evaluate_exit_not_nat _ _ _ _ _ _ _ _ _ Hret)).
    rewrite Hret in Hout. symmetry in Hout.
    destruct (stop_breached _ _ _ _) eqn:Hb.
    + cbn [check_expiry] in Hout. bind_inv Hout. injection Hout as <-.
      cbn in Htrades. apply app_inj_tail in Htrades as [_ <-].
      apply close_position_fields in Ha.
      destruct Ha as (_ & _ & _ & _ & _ & _ & _ & Hr & _). congruence.
    + split; [reflexivity|].
      destruct (target_breached _ _ _ _) eqn:Htg; [reflexivity|].
      unfold check_expiry in Hout.
      destruct (Z.of_nat bar_idx =? Z.of_nat n - 1).
      * bind_inv Hout. injection Hout as <-. cbn in Htrades.
        apply app_inj_tail in Htrades as [_ <-].
        apply close_position_fields in Ha.
        destruct Ha as (_ & _ & _ & _ & _ & _ & _ & Hr & _). congruence.
      * injection Hout as <-. cbn in Htrades.
        apply (f_equal length) in Htrades. rewrite length_app in Htrades.
        cbn in Htrades. lia.
Qed.

(** The scenario of the specification: a long position with stop 99 and
    target 105 on a bar with low 98 and high 106 leaves by the stop. *)
Lemma stop_checked_before_target_witness :
  exists trade,
    evaluate_exit default_backtester 1 0 (ohlc_bar 0 106 98 100) 0 [] []
      (enter_position (5 / 10000) 0 (signal_at 0 BUY 100 99 105))
    = inr {| pending := []; open_position := None; trades := [] ++ [trade] |}
    /\ exit_reason trade = "stop"
    /\ exit_price trade = (99 * (1 - 5 / 10000))%float.
Proof.
  apply (proj1 (stop_checked_before_target default_backtester 1 0
                  (ohlc_bar 0 106 98 100) 0 [] []
                  (enter_position (5 / 10000) 0 (signal_at 0 BUY 100 99 105))
                  100 ltac:(vm_compute; reflexivity)));
    vm_compute; reflexivity.
Defined.

(** The same scenario through the whole simulator. *)
Example stop_precedence_run :
  option_map (map (fun t => (exit_reason t, exit_price t)))
    (match _simulate_trades default_backtester [ohlc_bar 0 106 98 100]
             [signal_at 0 BUY 100 99 105] with
     | inr ledger => Some ledger
     | inl _ => None
     end)
  = Some [("stop", (99 * (1 - 5 / 10000))%float)].
Proof. vm_compute. reflexivity. Qed.

(** C6. A position that reaches the last bar of the frame with neither level
    breached is closed on that bar with reason ["expiry"], at the close times
    [1 - slip] for a long position and [1 + slip] for a short one, when the
    close of the bar is a number and the bar comes less than 2^63
    nanoseconds after the entry; every run that returns ends flat, and on a
    runnable frame the run does return. *)
Theorem forced_expiry_on_last_bar self :
  (forall n bar_idx row timestamp queue ledger pos close,
      row_values row !! "close" = Some close ->
      PrimFloat.is_nan close = false ->
      timestamp - pos_entry_time pos < 2 ^ 63 ->
      S bar_idx = n ->
      let signal := pos_signal pos in
      let slippage := (slippage_bps self / 10000)%float in
      let low := row_get row "low" close in
      let high := row_get row "high" close in
      stop_breached (sig_side signal) low high (sig_stop signal) = false ->
      target_breached (sig_side signal) low high (sig_target signal) = false ->
      exists trade,
        evaluate_exit self n bar_idx row timestamp queue ledger pos
        = inr {| pending := queue; open_position := None;
                 trades := ledger ++ [trade] |}
        /\ exit_reason trade = "expiry"
        /\ exit_time trade = timestamp
        /\ exit_price trade =
             match sig_side signal with
             | BUY => (close * (1 - slippage))%float
             | SELL => (close * (1 + slippage))%float
             end)
  /\ (forall df signals st,
         simulate_final self df signals = inr (Some st) ->
         open_position st = None)
  /\ (forall df signals,
         runnable df ->
         exists final, simulate_final self df signals = inr final).
Proof.
  split; [|split].
  - intros n bar_idx row timestamp queue ledger pos close Hclose Hnan Hfit
      Hlast signal slippage low high Hstop Htarget.
    rewrite (evaluate_exit_close _ _ _ _ _ _ _ _ _ Hclose
               (nat_row_cell _ _ _ Hclose Hnan)).
    cbn zeta.
    fold signal slippage low high. rewrite check_exit_spec, Hstop, Htarget.
    unfold check_expiry.
    replace (Z.of_nat bar_idx =? Z.of_nat n - 1) with true
      by (symmetry; apply Z.eqb_eq; lia).
    match goal with
    | |- context [close_position self pos timestamp ?r ?p] =>
        destruct (close_position_ok self pos timestamp r p Hfit) as [trade Ht]
    end.
    rewrite Ht. exists trade. split; [reflexivity|].
    apply close_position_fields in Ht.
    destruct Ht as (_ & Hexit & _ & Hprice & _ & _ & _ & Hreason & _).
    repeat split; try assumption.
    rewrite Hprice. destruct (sig_side signal); reflexivity.
  - intros df signals st H. unfold simulate_final in H.
    destruct signals as [|s signals]; [discriminate|].
    destruct (df_empty df) eqn:Hcolumns; [discriminate|].
    destruct df as [|row rest]; [discriminate Hcolumns|].
    bind_inv H. injection H as <-.
    eapply simulate_loop_flat; [| |exact Ha]; [discriminate|reflexivity].
  - intros df signals. apply simulate_final_ok.
Qed.

(** A long position entered on the first of two quiet bars is closed on the
    second, the last of the frame, at its close less the slippage. *)
Lemma forced_expiry_on_last_bar_witness :
  (exists trade,
      evaluate_exit default_backtester 2 1 (ohlc_bar minute 101 99.5 100.5)
        minute [] []
        (enter_position (5 / 10000) 0 (signal_at 0 BUY 100 99 105))
      = inr {| pending := []; open_position := None;
               trades := [] ++ [trade] |}
      /\ exit_reason trade = "expiry"
      /\ exit_time trade = minute
      /\ exit_price trade = (100.5 * (1 - 5 / 10000))%float)
  /\ exists final,
       simulate_final default_backtester
         [ohlc_bar 0 101 99.5 100; ohlc_bar minute 101 99.5 100.5]
         [signal_at 0 BUY 100 99 105] = inr final.
Proof.
  split.
  - apply (proj1 (forced_expiry_on_last_bar default_backtester) 2%nat 1%nat
             (ohlc_bar minute 101 99.5 100.5) minute [] []
             (enter_position (5 / 10000) 0 (signal_at 0 BUY 100 99 105))
             100.5%float);
      vm_compute; reflexivity.
  - apply (proj2 (proj2 (forced_expiry_on_last_bar default_backtester))).
    runnable_frame.
Defined.

(* ===================================================================== *)
(** ** One position at a time *)
(* ===================================================================== *)

Lemma StronglySorted_snoc {A : Type} (R : A -> A -> Prop) (l : list A) (x : A) :
  StronglySorted R l -> Forall (fun a => R a x) l ->
  StronglySorted R (l ++ [x]).
Proof.
  induction 1 as [|a l Hl IH Ha]; intros Hx; cbn.
  - repeat constructor.
  - apply Forall_cons in Hx as [Hax Hx]. constructor; [auto|].
    apply Forall_app. split; [assumption|]. repeat constructor. assumption.
Qed.

Lemma StronglySorted_lookup_lt {A : Type} (R : A -> A -> Prop) (l : list A) :
  StronglySorted R l ->
  forall i j a b, (i < j)%nat -> l !! i = Some a -> l !! j = Some b -> R a b.
Proof.
  induction 1 as [|x l Hl IH Hx]; intros i j a b Hij Hi Hj; [discriminate|].
  destruct j as [|j]; [lia|]. cbn in Hj. destruct i as [|i]; cbn in Hi.
  - injection Hi as <-. rewrite Forall_forall in Hx. apply Hx.
    eapply list_elem_of_lookup_2; eassumption.
  - apply (IH i j); [lia|assumption..].
Qed.

Section Sequence.

(** The order between the timestamps of consecutive bars: [<] or [<=]. *)
Variable before : Z -> Z -> Prop.
Hypothesis before_le : forall x y, before x y -> x <= y.
Hypothesis le_before : forall x y z, x <= y -> before y z -> before x z.
Hypothesis before_pred : forall t, before (t - 1) t.

Lemma process_bar_in_sequence self n bar_idx row st st' T timestamp :
  in_sequence before T st -> row_timestamp row = Some timestamp ->
  before T timestamp ->
  process_bar self n bar_idx row st = inr st' ->
  in_sequence before timestamp st'.
Proof.
  intros [Hchain Horder Hpast Hopen] Hrow HT Hstep.
  apply process_bar_inv in Hstep as (ts & Hts & _ & Hcase).
  rewrite Hrow in Hts. injection Hts as <-.
  pose proof (before_le _ _ HT) as HT'.
  assert (Hpast' : Forall (fun t => exit_time t <= timestamp) (trades st)).
  { eapply Forall_impl; [exact Hpast|]. cbn. intros; lia. }
  destruct (open_if_flat _ _ _ _) as [pos|] eqn:Hflat.
  - assert (Hpos : pos_entry_time pos <= timestamp
                   /\ Forall (fun t => before (exit_time t) (pos_entry_time pos))
                        (trades st)).
    { apply open_if_flat_inv in Hflat as [Hold|(_ & signal & rest & _ & ->)].
      - destruct (Hopen pos Hold). split; [lia|assumption].
      - cbn. split; [lia|]. eapply Forall_impl; [exact Hpast|].
        cbn. intros t Ht. exact (le_before _ _ _ Ht HT). }
    destruct Hpos as [Hentry Hafter].
    apply evaluate_exit_inv in Hcase
      as [_ [(Ho & Ht & _)|(reason & price & trade & Hclose & Ho & Ht)]].
    + constructor; rewrite ?Ht; try assumption.
      intros pos' Hpos'. rewrite Ho in Hpos'. injection Hpos' as <-. auto.
    + apply close_position_fields in Hclose as (He & Hx & _).
      constructor; rewrite ?Ht.
      * apply StronglySorted_snoc; [assumption|]. rewrite He. assumption.
      * apply Forall_app. split; [assumption|].
        repeat constructor. lia.
      * apply Forall_app. split; [assumption|]. repeat constructor. lia.
      * intros pos' Hpos'. congruence.
  - destruct Hcase as [Ho Ht]. constructor; rewrite ?Ht; try assumption.
    intros pos' Hpos'. congruence.
Qed.

Lemma simulate_loop_in_sequence self n rows :
  forall bar_idx st st' T,
    StronglySorted before (bar_times rows) ->
    Forall (fun t => before T t) (bar_times rows) ->
    in_sequence before T st ->
    simulate_loop self n bar_idx rows st = inr st' ->
    exists T', in_sequence before T' st'.
Proof.
  induction rows as [|row rest IH]; intros bar_idx st st' T Hsorted Hafter Hinv H.
  - injection H as <-. eauto.
  - cbn in H. bind_inv H.
    pose proof Ha as Hstep.
    apply process_bar_inv in Ha as (timestamp & Hts & _).
    unfold bar_times in Hsorted, Hafter. cbn in Hsorted, Hafter.
    rewrite Hts in Hsorted, Hafter. cbn in Hsorted, Hafter.
    apply StronglySorted_inv in Hsorted as [Hsorted Hhead].
    apply Forall_cons in Hafter as [HT _].
    apply (IH (S bar_idx) a st' timestamp); try assumption.
    eapply process_bar_in_sequence; eassumption.
Qed.

(** The ledger of a run over bars that follow each other in the order
    [before] is a chain for that order. *)
Lemma _simulate_trades_chain self df signals ledger :
  Sorted before (bar_times df) ->
  _simulate_trades self df signals = inr ledger ->
  StronglySorted (fun a b => before (exit_time a) (entry_time b)) ledger
  /\ Forall (fun t => entry_time t <= exit_time t) ledger.
Proof.
  intros Hsorted Hrun.
  unfold _simulate_trades in Hrun. bind_inv Hrun.
  destruct a as [st|]; injection Hrun as <-; [|split; constructor].
  unfold simulate_final in Ha.
  destruct signals as [|s signals]; [discriminate|].
  destruct (df_empty df) eqn:Hcolumns; [discriminate|].
  destruct df as [|row rest]; [discriminate Hcolumns|].
  bind_inv Ha. injection Ha as ->.
  apply Sorted_StronglySorted in Hsorted;
    [|intros x y z Hxy Hyz; exact (le_before _ _ _ (before_le _ _ Hxy) Hyz)].
  assert (Hbound : exists T,
             Forall (fun t => before T t) (bar_times (row :: rest))).
  { destruct (bar_times (row :: rest)) as [|t0 ts] eqn:E.
    - exists 0. constructor.
    - exists (t0 - 1). apply StronglySorted_inv in Hsorted as [_ Hhd].
      constructor; [apply before_pred|].
      eapply Forall_impl; [exact Hhd|]. cbn.
      intros t Ht. apply (le_before _ t0); [lia|exact Ht]. }
  destruct Hbound as [T HT].
  assert (Hinit : in_sequence before T
                    {| pending := sorted_signals (s :: signals);
                       open_position := None; trades := [] |}).
  { constructor; cbn; [constructor..|discriminate]. }
  destruct (simulate_loop_in_sequence _ _ _ _ _ _ T Hsorted HT Hinit Ha0)
    as [T' [Hc Ho _ _]].
  split; assumption.
Qed.

End Sequence.

(** C3. The engine holds one position at most (the loop state has a single
    optional slot), and the ledger shows it.  On bars with strictly
    increasing timestamps every trade is entered no later than it is left,
    and a later trade is entered strictly after an earlier one is left, so no
    two intervals [entry_time, exit_time] overlap.  The ledger is sorted by
    exit time: the exit times never decrease along it, already when the
    timestamps of the bars never decrease. *)
Theorem one_position_at_a_time self df signals ledger :
  _simulate_trades self df signals = inr ledger ->
  (Sorted Z.lt (bar_times df) ->
   (forall a, a ∈ ledger -> entry_time a <= exit_time a)
   /\ (forall i j a b, (i < j)%nat ->
         ledger !! i = Some a -> ledger !! j = Some b ->
         exit_time a < entry_time b))
  /\ (Sorted Z.le (bar_times df) ->
      forall i j a b, (i <= j)%nat ->
        ledger !! i = Some a -> ledger !! j = Some b ->
        exit_time a <= exit_time b).
Proof.
  intros Hrun. split.
  - intros Hsorted.
    destruct (_simulate_trades_chain Z.lt ltac:(intros; lia) ltac:(intros; lia)
                ltac:(intros; lia) self df signals ledger Hsorted Hrun)
      as [Hchain Horder].
    rewrite Forall_forall in Horder. split; [exact Horder|].
    apply StronglySorted_lookup_lt. exact Hchain.
  - intros Hsorted i j a b Hij Hi Hj.
    destruct (_simulate_trades_chain Z.le ltac:(intros; lia) ltac:(intros; lia)
                ltac:(intros; lia) self df signals ledger Hsorted Hrun)
      as [Hchain Horder].
    rewrite Forall_forall in Horder.
    destruct (decide (i = j)) as [->|Hne].
    + rewrite Hi in Hj. injection Hj as <-. lia.
    + pose proof (StronglySorted_lookup_lt _ _ Hchain i j a b ltac:(lia) Hi Hj)
        as Hab.
      assert (Hb : entry_time b <= exit_time b).
      { apply Horder. eapply list_elem_of_lookup_2; eassumption. }
      cbn in Hab. lia.
Qed.

(** Two trades on four one-minute bars: the first leaves by its target on
    the second bar, the second is entered on the third bar and expires on the
    fourth. *)
Lemma one_position_at_a_time_witness :
  exists ledger,
    _simulate_trades default_backtester
      [ohlc_bar 0 101 99.5 100; ohlc_bar minute 106 100 105;
       ohlc_bar (2 * minute) 105 104 104.5; ohlc_bar (3 * minute) 105 104 104.5]
      [signal_at 0 BUY 100 99 105; signal_at (2 * minute) SELL 104.5 110 100]
    = inr ledger
    /\ map (fun t => (entry_time t, exit_time t)) ledger
       = [(0, minute); (2 * minute, 3 * minute)]
    /\ (forall a, a ∈ ledger -> entry_time a <= exit_time a)
    /\ (forall i j a b, (i < j)%nat ->
          ledger !! i = Some a -> ledger !! j = Some b ->
          exit_time a < entry_time b)
    /\ (forall i j a b, (i <= j)%nat ->
          ledger !! i = Some a -> ledger !! j = Some b ->
          exit_time a <= exit_time b).
Proof.
  eexists. split; [vm_compute; reflexivity|]. split; [reflexivity|].
  destruct (one_position_at_a_time default_backtester
              [ohlc_bar 0 101 99.5 100; ohlc_bar minute 106 100 105;
               ohlc_bar (2 * minute) 105 104 104.5;
               ohlc_bar (3 * minute) 105 104 104.5]
              [signal_at 0 BUY 100 99 105;
               signal_at (2 * minute) SELL 104.5 110 100]
              _ ltac:(vm_compute; reflexivity)) as [Hstrict Hweak].
  destruct Hstrict as [Horder Hdisjoint]; [vm_compute; repeat constructor|].
  split; [exact Horder|]. split; [exact Hdisjoint|].
  apply Hweak. vm_compute. repeat constructor; discriminate.
Defined.

(* ===================================================================== *)
(** ** The risk denominator of the R-multiple *)
(* ===================================================================== *)

Lemma insert_signal_elem s l x :
  x ∈ insert_signal s l -> x = s \/ x ∈ l.
Proof.
  induction l as [|y rest IH]; cbn.
  - intros H. apply list_elem_of_singleton in H. auto.
  - destruct (sig_timestamp s <=? sig_timestamp y).
    + intros H. apply elem_of_cons in H. exact H.
    + intros H. apply elem_of_cons in H as [->|H].
      * right. left.
      * destruct (IH H) as [->|Hin]; [auto|]. right. right. assumption.
Qed.

Lemma sorted_signals_elem signals x :
  x ∈ sorted_signals signals -> x ∈ signals.
Proof.
  induction signals as [|s rest IH]; cbn; [trivial|].
  intros H. apply insert_signal_elem in H as [->|H]; [left|right; auto].
Qed.

Lemma queue_signals_elem timestamp queue :
  (forall x, x ∈ (queue_signals timestamp queue).1 -> x ∈ queue)
  /\ (forall x, x ∈ (queue_signals timestamp queue).2 -> x ∈ queue).
Proof.
  induction queue as [|s rest [IH1 IH2]]; cbn; [auto|].
  destruct (sig_timestamp s <=? timestamp); [|split; [cbn; intros x H; inversion H|auto]].
  destruct (queue_signals timestamp rest) as [triggered rest'].
  cbn in *. split; intros x H.
  - apply elem_of_cons in H as [->|H]; [left|right; auto].
  - right. auto.
Qed.

Lemma simulate_loop_invariant self n (I : SimState -> Prop) :
  (forall bar_idx row st st',
      I st -> process_bar self n bar_idx row st = inr st' -> I st') ->
  forall rows bar_idx st st',
    I st -> simulate_loop self n bar_idx rows st = inr st' -> I st'.
Proof.
  intros Hstep. induction rows as [|row rest IH]; intros bar_idx st st' Hst H.
  - injection H as <-. assumption.
  - cbn in H. bind_inv H. eapply IH; [|exact H]. eapply Hstep; eassumption.
Qed.

Lemma close_position_filled self timestamp signal entry_t reason price trade :
  close_position self
    (enter_position (slippage_bps self / 10000)%float entry_t signal)
    timestamp reason price = inr trade ->
  filled_from self signal trade.
Proof.
  intros H. apply close_position_fields in H.
  destruct H as (_ & _ & Hentry & _ & Hside & Hstop & _ & _ & _ & _ & Hr & _).
  cbn in Hentry, Hside, Hstop. unfold filled_from.
  rewrite Hr, Hstop. repeat split; assumption.
Qed.

Lemma process_bar_all_filled self signals n bar_idx row st st' :
  all_filled self signals st ->
  process_bar self n bar_idx row st = inr st' ->
  all_filled self signals st'.
Proof.
  intros [Hqueue Htrades Hopen] Hstep.
  apply process_bar_inv in Hstep as (timestamp & _ & Hpending & Hcase).
  destruct (queue_signals_elem timestamp (pending st)) as [Htrig Hrest].
  assert (Hqueue' : forall s, s ∈ pending st' -> s ∈ signals).
  { intros s Hs. rewrite Hpending in Hs. auto. }
  destruct (open_if_flat _ _ _ _) as [pos|] eqn:Hflat.
  - assert (Hpos : pos_signal pos ∈ signals
                   /\ pos = enter_position (slippage_bps self / 10000)%float
                              (pos_entry_time pos) (pos_signal pos)).
    { apply open_if_flat_inv in Hflat as [Hold|(_ & signal & rest & E & ->)].
      - auto.
      - cbn. split; [|reflexivity]. apply Hqueue, Htrig. rewrite E. left. }
    apply evaluate_exit_inv in Hcase
      as [_ [(Ho & Ht & _)|(reason & price & trade & Hclose & Ho & Ht)]].
    + constructor; rewrite ?Ht; try assumption.
      intros pos' Hpos'. rewrite Ho in Hpos'. injection Hpos' as <-. exact Hpos.
    + destruct Hpos as [Hin Heq]. rewrite Heq in Hclose.
      apply close_position_filled in Hclose.
      constructor; rewrite ?Ht; try assumption.
      * apply Forall_app. split; [assumption|]. repeat constructor. eauto.
      * intros pos' Hpos'. congruence.
  - destruct Hcase as [Ho Ht]. constructor; rewrite ?Ht; try assumption.
    intros pos' Hpos'. congruence.
Qed.

(** C9 (as amended). Every trade of the event-driven ledger comes from one
    of the input signals, is entered at that signal's price moved by the
    slippage ([entry * (1 + slip)] for a long position, [entry * (1 - slip)]
    for a short one), and its R-multiple is its pnl divided by
    [max(|entry_price - stop|, 1e-6)] taken from that filled entry price,
    not from the signal's raw entry. *)
Theorem r_multiple_uses_filled_entry self df signals ledger :
  _simulate_trades self df signals = inr ledger ->
  Forall (fun t =>
            exists signal,
              signal ∈ signals
              /\ filled_from self signal t
              /\ r_multiple t =
                   (pnl t
                    / py_max (PrimFloat.abs (entry_price t - stop_price t)) 1e-6)%float)
         ledger.
Proof.
  intros Hrun. unfold _simulate_trades in Hrun. bind_inv Hrun.
  destruct a as [st|]; injection Hrun as <-; [|constructor].
  unfold simulate_final in Ha.
  destruct signals as [|s signals]; [discriminate|].
  destruct (df_empty df) eqn:Hcolumns; [discriminate|].
  destruct df as [|row rest]; [discriminate Hcolumns|].
  bind_inv Ha. injection Ha as ->.
  assert (Hfinal : all_filled self (s :: signals) st).
  { eapply (simulate_loop_invariant self _ (all_filled self (s :: signals)));
      [|  |exact Ha0].
    - intros. eapply process_bar_all_filled; eassumption.
    - constructor; cbn [pending trades open_position];
        [apply sorted_signals_elem|constructor|discriminate]. }
  destruct Hfinal as [_ Htrades _].
  eapply Forall_impl; [exact Htrades|]. cbn.
  intros t (signal & Hin & Hfilled). exists signal.
  split; [assumption|]. split; [assumption|].
  destruct Hfilled as (_ & Hstop & _ & Hr). rewrite Hstop. exact Hr.
Qed.

(** At the default 5 basis points, a long entry at 100 with its stop at 98 is
    filled at 100.05: the R-multiple is divided by 2.05 and not by the raw
    distance 2. *)
Lemma r_multiple_uses_filled_entry_witness :
  exists trade,
    _simulate_trades default_backtester [ohlc_bar 0 101 97 100]
      [signal_at 0 BUY 100 98 104] = inr [trade]
    /\ Forall (fun t =>
                 exists signal,
                   signal ∈ [signal_at 0 BUY 100 98 104]
                   /\ filled_from default_backtester signal t
                   /\ r_multiple t =
                        (pnl t
                         / py_max (PrimFloat.abs (entry_price t - stop_price t))
                             1e-6)%float)
              [trade]
    /\ PrimFloat.eqb
         (py_max (PrimFloat.abs (entry_price trade - stop_price trade)) 1e-6)
         (PrimFloat.abs (100 - 98)) = false.
Proof.
  eexists. split; [vm_compute; reflexivity|]. split.
  - apply (r_multiple_uses_filled_entry default_backtester
             [ohlc_bar 0 101 97 100] [signal_at 0 BUY 100 98 104]).
    vm_compute. reflexivity.
  - vm_compute. reflexivity.
Defined.

(** The denominator does not differ from the raw distance for every nonzero
    slippage: with [slippage_bps = 1e-13] the factor [1 + slip] is [1.0] in
    double precision, the entry is filled at the signal's own price, and the
    R-multiple is divided by [|entry - stop|] itself. *)
Lemma risk_denominator_can_equal_raw_distance :
  ~ (forall self df signal trade,
        PrimFloat.eqb (slippage_bps self) 0 = false ->
        _simulate_trades self df [signal] = inr [trade] ->
        py_max (PrimFloat.abs (entry_price trade - stop_price trade)) 1e-6
        <> PrimFloat.abs (sig_entry signal - sig_stop signal)).
Proof.
  intros H.
  eapply (H {| initial_equity := 100000; slippage_bps := 1e-13;
               commission := 0 |}
            [ohlc_bar 0 101 97 100] (signal_at 0 BUY 100 98 104)).
  - vm_compute. reflexivity.
  - vm_compute. reflexivity.
  - vm_compute. reflexivity.
Qed.

(** Nor does it in exact arithmetic when the stop lies between the raw and
    the filled entry: at a slippage of 2^-10 a long entry at 1024 is filled at
    1025, and a stop at 1024.5 is 0.5 away from both. *)
Example risk_denominator_with_stop_between :
  option_map
    (map (fun t => (entry_price t,
                    py_max (PrimFloat.abs (entry_price t - stop_price t)) 1e-6)))
    (match _simulate_trades
             {| initial_equity := 100000; slippage_bps := 9.765625;
                commission := 0 |}
             [ohlc_bar 0 1030 1020 1024]
             [signal_at 0 BUY 1024 1024.5 1040] with
     | inr ledger => Some ledger
     | inl _ => None
     end)
  = Some [(1025, 0.5)]%float
  /\ PrimFloat.abs (1024 - 1024.5) = 0.5%float.
Proof. vm_compute. split; reflexivity. Qed.

(* ===================================================================== *)
(** ** Frames without a high or a low column *)
(* ===================================================================== *)

Lemma with_high_low_time row :
  row_time (with_high_low row) = row_time row.
Proof.
  unfold with_high_low. destruct (row_values row !! "close"); reflexivity.
Qed.

Lemma with_high_low_close row :
  row_values (with_high_low row) !! "close" = row_values row !! "close".
Proof.
  unfold with_high_low.
  destruct (row_values row !! "close") as [close|] eqn:E; [|exact E].
  cbn [row_values]. rewrite !lookup_insert_ne by discriminate. exact E.
Qed.

Lemma with_high_low_get row close :
  row_values row !! "close" = Some close ->
  row_get (with_high_low row) "high" close = row_get row "high" close
  /\ row_get (with_high_low row) "low" close = row_get row "low" close.
Proof.
  intros E. unfold with_high_low. rewrite E.
  set (filled := <["high" := _]> _).
  assert (Hh : filled !! "high" = Some (row_get row "high" close))
    by apply lookup_insert_eq.
  assert (Hl : filled !! "low" = Some (row_get row "low" close)).
  { unfold filled. rewrite lookup_insert_ne by discriminate.
    apply lookup_insert_eq. }
  unfold row_get at 1 3. cbn [row_values]. rewrite Hh, Hl.
  split; reflexivity.
Qed.

(** A row of [NaT] is a row with a timestamp whose cells are all NaN. *)
Lemma nat_row_spec row :
  nat_row row = true
  <-> is_Some (row_timestamp row)
      /\ forall key v, row_values row !! key = Some v ->
            PrimFloat.is_nan v = true.
Proof.
  split.
  - intros H. split.
    + unfold nat_row in H. destruct (row_timestamp row); [eauto|discriminate].
    + intros key v Hv. exact (nat_row_cells row key v H Hv).
  - intros [[t Ht] Hall]. unfold nat_row. rewrite Ht.
    apply forallb_forall. intros [key v] Hin. cbn.
    apply list_elem_of_In, elem_of_map_to_list in Hin. eauto.
Qed.

(** Writing the close in the place of a missing high or low makes no row of
    [NaT], and leaves none. *)
Lemma with_high_low_nat row : nat_row (with_high_low row) = nat_row row.
Proof.
  destruct (row_values row !! "close") as [close|] eqn:E;
    [|unfold with_high_low; rewrite E; reflexivity].
  assert (Hcells : forall key v,
            row_values (with_high_low row) !! key = Some v <->
            if decide (key = "high") then v = row_get row "high" close
            else if decide (key = "low") then v = row_get row "low" close
            else row_values row !! key = Some v).
  { intros key v. unfold with_high_low. rewrite E. cbn [row_values].
    destruct (decide (key = "high")) as [->|Hh].
    - rewrite lookup_insert_eq. split; congruence.
    - rewrite lookup_insert_ne by congruence.
      destruct (decide (key = "low")) as [->|Hl].
      + rewrite lookup_insert_eq. split; congruence.
      + rewrite lookup_insert_ne by congruence. reflexivity. }
  assert (Htime : row_timestamp (with_high_low row) = row_timestamp row)
    by (unfold with_high_low; rewrite E; reflexivity).
  apply Bool.eq_iff_eq_true. rewrite !nat_row_spec, Htime.
  split; intros [Ht Hall]; (split; [exact Ht|]); intros key v Hv.
  - destruct (decide (key = "high")) as [->|Hh].
    { apply (Hall "high" v). apply Hcells. cbn. unfold row_get.
      rewrite Hv. reflexivity. }
    destruct (decide (key = "low")) as [->|Hl].
    { apply (Hall "low" v). apply Hcells. cbn. unfold row_get.
      rewrite Hv. reflexivity. }
    apply (Hall key v). apply Hcells.
    destruct (decide (key = "high")); [congruence|].
    destruct (decide (key = "low")); [congruence|]. exact Hv.
  - apply Hcells in Hv.
    assert (Hget : forall k, PrimFloat.is_nan (row_get row k close) = true).
    { intros k. unfold row_get.
      destruct (row_values row !! k) as [c|] eqn:Hc; eauto. }
    destruct (decide (key = "high")); [subst v; apply Hget|].
    destruct (decide (key = "low")); [subst v; apply Hget|].
    eauto.
Qed.

(** It adds no column to a frame that has none. *)
Lemma with_high_low_columns (df : DataFrame) :
  df_empty (map with_high_low df) = df_empty df.
Proof.
  destruct df as [|row rest]; [reflexivity|]. cbn [map df_empty].
  unfold with_high_low.
  destruct (row_values row !! "close") as [close|] eqn:E; [|reflexivity].
  cbn [row_timestamp row_values].
  destruct (row_timestamp row); [reflexivity|].
  destruct (map_to_list (<["high" := _]> _)) eqn:E1.
  { apply map_to_list_empty_iff in E1.
    apply insert_non_empty in E1. contradiction. }
  destruct (map_to_list (row_values row)) eqn:E2; [|reflexivity].
  apply map_to_list_empty_iff in E2. rewrite E2 in E.
  rewrite lookup_empty in E. discriminate.
Qed.

Lemma evaluate_exit_with_high_low self n bar_idx row timestamp queue ledger pos :
  evaluate_exit self n bar_idx (with_high_low row) timestamp queue ledger pos
  = evaluate_exit self n bar_idx row timestamp queue ledger pos.
Proof.
  destruct (row_values row !! "close") as [close|] eqn:E.
  - unfold evaluate_exit, row_getitem.
    rewrite with_high_low_close, E, with_high_low_nat. cbn [bind ok].
    destruct (with_high_low_get row close E) as [-> ->]. reflexivity.
  - unfold with_high_low. rewrite E. reflexivity.
Qed.

Lemma process_bar_with_high_low self n bar_idx row st :
  process_bar self n bar_idx (with_high_low row) st
  = process_bar self n bar_idx row st.
Proof.
  unfold process_bar. rewrite with_high_low_time.
  destruct (row_time row) as [e|timestamp]; [reflexivity|]. cbn.
  destruct (queue_signals timestamp (pending st)) as [triggered queue].
  destruct (open_if_flat _ _ _ _); [|reflexivity].
  apply evaluate_exit_with_high_low.
Qed.

Lemma simulate_loop_with_high_low self n rows :
  forall bar_idx st,
    simulate_loop self n bar_idx (map with_high_low rows) st
    = simulate_loop self n bar_idx rows st.
Proof.
  induction rows as [|row rest IH]; intros bar_idx st; [reflexivity|].
  cbn. rewrite process_bar_with_high_low.
  destruct (process_bar self n bar_idx row st); cbn; [reflexivity|apply IH].
Qed.

(** C10. A row without a ["high"] or a ["low"] cell is read as if the
    missing cell held the row's close: the stop and target tests of such a
    row are made on the close, the simulator behaves on the frame exactly as
    on the frame with those cells written out, and it returns a ledger on
    every runnable frame, that is whenever every row has its timestamp and
    a close that is a number and the bars are less than 2^63 nanoseconds
    apart - no [KeyError] comes from a missing high or low. *)
Theorem missing_high_low_default_to_close self :
  (forall row close,
      row_values row !! "close" = Some close ->
      (row_values row !! "high" = None -> row_get row "high" close = close)
      /\ (row_values row !! "low" = None -> row_get row "low" close = close))
  /\ (forall n bar_idx row timestamp queue ledger pos close,
         row_values row !! "close" = Some close ->
         row_values row !! "high" = None ->
         row_values row !! "low" = None ->
         evaluate_exit self n bar_idx row timestamp queue ledger pos
         = evaluate_exit self n bar_idx
             {| row_timestamp := row_timestamp row;
                row_values := <["high" := close]> (<["low" := close]> (row_values row)) |}
             timestamp queue ledger pos)
  /\ (forall df signals,
         _simulate_trades self df signals
         = _simulate_trades self (map with_high_low df) signals)
  /\ (forall df signals,
         runnable df ->
         exists ledger, _simulate_trades self df signals = inr ledger).
Proof.
  split; [|split; [|split]].
  - intros row close _. unfold row_get. split; intros ->; reflexivity.
  - intros n bar_idx row timestamp queue ledger pos close Hc Hh Hl.
    rewrite <- (evaluate_exit_with_high_low _ _ _ row).
    unfold with_high_low, row_get. rewrite Hc, Hh, Hl. reflexivity.
  - intros df signals. unfold _simulate_trades, simulate_final.
    destruct signals as [|s signals]; [reflexivity|].
    rewrite with_high_low_columns.
    destruct (df_empty df); [reflexivity|].
    destruct df as [|row rest]; [reflexivity|].
    change (map with_high_low (row :: rest))
      with (with_high_low row :: map with_high_low rest).
    cbn [length]. rewrite length_map.
    change (with_high_low row :: map with_high_low rest)
      with (map with_high_low (row :: rest)).
    rewrite simulate_loop_with_high_low. reflexivity.
  - intros df signals. apply _simulate_trades_ok.
Qed.

(** A frame of two bars that carries closes only: the long position entered
    on the first bar is stopped on the second, whose close is under the
    stop. *)
Lemma missing_high_low_default_to_close_witness :
  (row_get (close_bar minute 98.5) "high" 98.5 = 98.5%float
   /\ row_get (close_bar minute 98.5) "low" 98.5 = 98.5%float)
  /\ (exists ledger,
         _simulate_trades default_backtester
           [close_bar 0 100; close_bar minute 98.5]
           [signal_at 0 BUY 100 99 105] = inr ledger)
  /\ option_map (map exit_reason)
       (match _simulate_trades default_backtester
                [close_bar 0 100; close_bar minute 98.5]
                [signal_at 0 BUY 100 99 105] with
        | inr ledger => Some ledger
        | inl _ => None
        end) = Some ["stop"].
Proof.
  pose proof (missing_high_low_default_to_close default_backtester)
    as (Hget & _ & _ & Hruns).
  split; [|split].
  - destruct (Hget (close_bar minute 98.5) 98.5%float
                ltac:(vm_compute; reflexivity)) as [Hh Hl].
    split; [apply Hh|apply Hl]; vm_compute; reflexivity.
  - apply Hruns. runnable_frame.
  - vm_compute. reflexivity.
Defined.

(* ===================================================================== *)
(** ** Empty inputs and the equity curve *)
(* ===================================================================== *)

(** C5. An empty signal list and an empty frame are not errors: the
    simulator returns the empty ledger, the metrics of an empty ledger are
    all [0.0], and so the report of such a run is the empty ledger, the empty
    equity curve and nine zeros. *)
Theorem empty_inputs_give_zero_report float_pow self :
  (forall df, _simulate_trades self df [] = inr [])
  /\ (forall signals, _simulate_trades self [] signals = inr [])
  /\ (forall equity_curve,
         _compute_metrics float_pow self [] equity_curve
         = inr {| cagr := 0; sharpe := 0; mar := 0; max_drawdown := 0;
                  win_rate := 0; payoff := 0; expectancy := 0;
                  exposure := 0; cvar_95 := 0 |})
  /\ (forall df signals,
         signals = [] \/ df = [] ->
         run_report float_pow self df signals
         = inr {| report_trades := [];
                  report_metrics :=
                    {| cagr := 0; sharpe := 0; mar := 0; max_drawdown := 0;
                       win_rate := 0; payoff := 0; expectancy := 0;
                       exposure := 0; cvar_95 := 0 |};
                  report_equity_curve := [] |}).
Proof.
  assert (Hsig : forall df, _simulate_trades self df [] = inr [])
    by reflexivity.
  assert (Hdf : forall signals, _simulate_trades self [] signals = inr []).
  { intros [|s signals]; reflexivity. }
  split; [exact Hsig|]. split; [exact Hdf|]. split.
  - reflexivity.
  - intros df signals [->| ->]; unfold run_report; rewrite ?Hsig, ?Hdf;
      reflexivity.
Qed.

(** Signals on a frame without rows, and a frame without signals. *)
Lemma empty_inputs_give_zero_report_witness :
  run_report (fun x _ => x) default_backtester []
    [signal_at 0 BUY 100 99 105]
  = inr {| report_trades := [];
           report_metrics := mkMetrics 0 0 0 0 0 0 0 0 0;
           report_equity_curve := [] |}
  /\ run_report (fun x _ => x) default_backtester [ohlc_bar 0 101 99 100] []
     = inr {| report_trades := [];
              report_metrics := mkMetrics 0 0 0 0 0 0 0 0 0;
              report_equity_curve := [] |}.
Proof.
  pose proof (empty_inputs_give_zero_report (fun x _ => x) default_backtester)
    as (_ & _ & _ & H).
  split; apply H; [right|left]; reflexivity.
Defined.

Lemma equity_loop_imap equity ledger :
  equity_loop equity ledger
  = imap (fun i trade =>
            {| point_timestamp := exit_time trade;
               point_equity :=
                 fold_left (fun acc t => (acc + pnl t)%float)
                   (take (S i) ledger) equity |})
      ledger.
Proof.
  revert equity. induction ledger as [|trade rest IH]; intros equity;
    [reflexivity|].
  cbn [equity_loop imap]. f_equal. rewrite IH.
  apply imap_ext. intros i t _. reflexivity.
Qed.

(** C7. The equity curve has one point per trade; point [i] carries the exit
    time of trade [i], and its equity is the running sum: the initial equity
    to which the pnl of trades 0 to [i] have been added one after the other,
    in ledger order. *)
Theorem equity_curve_is_running_sum self ledger :
  length (_build_equity_curve self ledger) = length ledger
  /\ _build_equity_curve self ledger
     = imap (fun i trade =>
               {| point_timestamp := exit_time trade;
                  point_equity :=
                    fold_left (fun equity t => (equity + pnl t)%float)
                      (take (S i) ledger) (initial_equity self) |})
         ledger
  /\ (forall i trade,
         ledger !! i = Some trade ->
         exists point,
           _build_equity_curve self ledger !! i = Some point
           /\ point_timestamp point = exit_time trade
           /\ point_equity point
              = fold_left (fun equity t => (equity + pnl t)%float)
                  (take (S i) ledger) (initial_equity self)).
Proof.
  unfold _build_equity_curve. rewrite equity_loop_imap.
  split; [apply length_imap|]. split; [reflexivity|].
  intros i trade Hi. eexists. rewrite list_lookup_imap, Hi. cbn.
  repeat split.
Qed.

(** The order of the additions is part of the statement: doubles do not add
    associatively.  From an initial equity of 1e16, two trades of pnl 1 leave
    the curve at 1e16, where adding their sum 2 in one step gives 1e16 + 2. *)
Example running_sum_order_matters :
  map point_equity
    (_build_equity_curve
       {| initial_equity := 1e16; slippage_bps := 5; commission := 0 |}
       (ledger_of_r [1; 1]%float))
  = [1e16; 1e16]%float
  /\ PrimFloat.eqb (1e16 + (1 + 1)) 1e16 = false.
Proof. vm_compute. split; reflexivity. Qed.

(** Three trades of pnl 1, -2 and 3 from an initial equity of 100000: the
    second point of the curve is (100000 + 1) + (-2). *)
Lemma equity_curve_is_running_sum_witness :
  exists point,
    _build_equity_curve default_backtester (ledger_of_r [1; -2; 3]%float) !! 1%nat
    = Some point
    /\ point_timestamp point = minute
    /\ point_equity point = 99999%float.
Proof.
  destruct (equity_curve_is_running_sum default_backtester
              (ledger_of_r [1; -2; 3]%float)) as (_ & _ & H).
  destruct (H 1%nat (trade_with (-2) (-2)) eq_refl) as (point & Hp & Ht & He).
  exists point. split; [exact Hp|]. split; [exact Ht|].
  rewrite He. vm_compute. reflexivity.
Defined.

(* ===================================================================== *)
(** ** The metrics engine *)
(* ===================================================================== *)

Lemma SFmul_bounded x sy my ey :
  valid_binary x = true -> sf_bounded 233 x ->
  Z.pos (digits2_pos my) <= 53 -> ey <= 100 ->
  sf_bounded 971 (SFmul prec emax x (S754_finite sy my ey)).
Proof.
  intros Hv Hx Hdy Hey.
  destruct x as [s| |  |sx mx ex]; cbn [sf_bounded] in Hx; try contradiction;
    [exact I|].
  apply valid_digits in Hv. cbn [SFmul].
  pose proof (digits2_pos_ub mx) as Hmx.
  pose proof (digits2_pos_ub my) as Hmy.
  assert (H1 : 2 ^ Z.pos (digits2_pos mx) <= 2 ^ 53)
    by (apply Z.pow_le_mono_r; lia).
  assert (H2 : 2 ^ Z.pos (digits2_pos my) <= 2 ^ 53)
    by (apply Z.pow_le_mono_r; lia).
  assert (Hm : 0 <= Z.pos (mx * my) < 2 ^ 106).
  { rewrite Pos2Z.inj_mul. change (2 ^ 106) with (2 ^ 53 * 2 ^ 53). nia. }
  eapply sf_bounded_mono;
    [|apply (binary_round_aux_bounded _ (Z.pos (mx * my)) (ex + ey) _ 106)];
    lia.
Qed.

Lemma compare_cont_not_lt m p :
  Pos.compare_cont Eq m p <> Lt -> Z.pos p <= Z.pos m.
Proof.
  rewrite Pos.compare_cont_spec. unfold Pos.switch_Eq.
  destruct (m ?= p)%positive eqn:E; intros H.
  - apply Pos.compare_eq_iff in E. subst. lia.
  - congruence.
  - apply Pos.compare_gt_iff in E. lia.
Qed.

(** A double that is not below [1.0] and is not a NaN or an infinity
    truncates to an integer that is at least 1. *)
Lemma py_int_at_least_one a B :
  sf_bounded B (Prim2SF a) -> PrimFloat.ltb a 1 = false ->
  exists z, py_int a = inr z /\ 1 <= z.
Proof.
  intros Hb Hlt. rewrite FloatAxioms.ltb_spec in Hlt.
  change (Prim2SF 1) with (S754_finite false 4503599627370496 (-52)) in Hlt.
  pose proof (Prim2SF_valid a) as Hv. unfold py_int.
  destruct (Prim2SF a) as [s| | |s m e]; cbn [sf_bounded] in Hb;
    try contradiction.
  - cbn in Hlt. discriminate.
  - destruct s; [cbn in Hlt; discriminate|].
    eexists. split; [reflexivity|].
    pose proof (digits2_pos_lb m) as Hlb.
    cbn [SpecFloat.valid_binary] in Hv. unfold bounded, canonical_mantissa in Hv.
    apply andb_true_iff in Hv as [Hc _]. apply Z.eqb_eq in Hc.
    unfold fexp, SpecFloat.emin, prec, emax in Hc.
    unfold SFltb, SFcompare in Hlt.
    destruct (e ?= -52) eqn:He; [| discriminate |].
    + apply Z.compare_eq in He. subst e.
      assert (Hm : 4503599627370496 <= Z.pos m).
      { apply compare_cont_not_lt. intros Hcmp. rewrite Hcmp in Hlt.
        discriminate. }
      change (Z.shiftl (Z.pos m) (-52)) with (Z.shiftr (Z.pos m) 52).
      rewrite Z.shiftr_div_pow2 by lia.
      apply Z.div_le_lower_bound; [reflexivity|].
      change (2 ^ 52 * 1) with 4503599627370496. exact Hm.
    + apply Z.compare_gt_iff in He.
      assert (Hd : Z.pos (digits2_pos m) = 53) by lia.
      rewrite Hd in Hlb. change (2 ^ (53 - 1)) with (2 ^ 52) in Hlb.
      destruct (Z_le_gt_dec 0 e) as [Hpos|Hneg].
      * rewrite Z.shiftl_mul_pow2 by lia.
        assert (0 < 2 ^ e) by (apply Z.pow_pos_nonneg; lia). nia.
      * rewrite <- (Z.opp_involutive e), Z.shiftl_opp_r.
        rewrite Z.shiftr_div_pow2 by lia.
        apply Z.div_le_lower_bound; [apply Z.pow_pos_nonneg; lia|].
        assert (2 ^ (- e) <= 2 ^ 52) by (apply Z.pow_le_mono_r; lia). lia.
Qed.

(** The slice size of the tail average is always defined and at least 1, so
    the fallback of line 251 for a non-positive size is never taken. *)
Lemma cvar_cutoff_ok n : exists k, cvar_cutoff n = inr k /\ 1 <= k.
Proof.
  unfold cvar_cutoff, py_max.
  destruct (PrimFloat.ltb (float_of_Z n * 0.05) 1) eqn:Hlt.
  - exists 1. split; [reflexivity|lia].
  - apply (py_int_at_least_one _ 971); [|exact Hlt].
    rewrite FloatAxioms.mul_spec.
    change (Prim2SF 0.05) with (S754_finite false 7205759403792794 (-57)).
    apply SFmul_bounded;
      [apply Prim2SF_valid|apply float_of_Z_bounded|vm_compute; discriminate|lia].
Qed.

Lemma np_insert_length x l : length (np_insert x l) = S (length l).
Proof.
  induction l as [|y rest IH]; cbn; [reflexivity|].
  destruct (np_lt y x); cbn; [rewrite IH|]; reflexivity.
Qed.

Lemma np_sort_length a : length (np_sort a) = length a.
Proof.
  induction a as [|x rest IH]; [reflexivity|].
  change (np_sort (x :: rest)) with (np_insert x (np_sort rest)).
  rewrite np_insert_length, IH. reflexivity.
Qed.


(** The order of [np.sort] is asymmetric, NaN included. *)
Lemma SFcompare_antisym x y :
  SFcompare y x = option_map CompOpp (SFcompare x y).
Proof.
  destruct x as [sx|sx| |sx mx ex], y as [sy|sy| |sy my ey]; cbn;
    try reflexivity;
    try (destruct sx; reflexivity); try (destruct sy; reflexivity);
    try (destruct sx, sy; reflexivity).
  pose proof (Pos.compare_cont_antisym mx my Eq) as E. cbn [CompOpp] in E.
  rewrite (Z.compare_antisym ex ey).
  destruct sx, sy; cbn; try reflexivity; f_equal;
    destruct (ex ?= ey); cbn; rewrite <- ?E; try reflexivity;
    destruct (Pos.compare_cont Eq mx my); reflexivity.
Qed.

Lemma ltb_not_nan a b :
  PrimFloat.ltb a b = true ->
  PrimFloat.is_nan a = false /\ PrimFloat.is_nan b = false
  /\ PrimFloat.ltb b a = false.
Proof.
  rewrite !FloatAxioms.ltb_spec. unfold SFltb.
  rewrite (SFcompare_antisym (Prim2SF a) (Prim2SF b)).
  intros H.
  assert (Ha : Prim2SF a <> S754_nan).
  { intros E. rewrite E in H. cbn in H. discriminate. }
  assert (Hb : Prim2SF b <> S754_nan).
  { intros E. rewrite E in H. destruct (Prim2SF a); cbn in H; discriminate. }
  repeat split.
  - destruct (PrimFloat.is_nan a) eqn:E; [|reflexivity].
    apply is_nan_spec in E. contradiction.
  - destruct (PrimFloat.is_nan b) eqn:E; [|reflexivity].
    apply is_nan_spec in E. contradiction.
  - destruct (SFcompare (Prim2SF a) (Prim2SF b)) as [[| |]|]; cbn in *;
      try discriminate; reflexivity.
Qed.









(** On the equity curve built from the ledger the metrics are computed
    when the time from the first entry to the last exit is a
    [pd.Timedelta]: no lookup or conversion of [_compute_metrics] raises. *)
Lemma _compute_metrics_ok float_pow self ledger :
  ledger_span_fits ledger ->
  exists m,
    _compute_metrics float_pow self ledger (_build_equity_curve self ledger)
    = inr m.
Proof.
  intros Hspan.
  destruct ledger as [|first rest]; [eexists; reflexivity|].
  unfold _compute_metrics.
  set (equity := map point_equity
                   (_build_equity_curve self (first :: rest))).
  assert (Hequity : exists e0 es, equity = e0 :: es).
  { unfold equity, _build_equity_curve. cbn [equity_loop map]. eauto. }
  destruct Hequity as (e0 & es & ->).
  assert (Hlast : exists e, last (e0 :: es) = Some e).
  { destruct (last (e0 :: es)) eqn:E; [eauto|].
    apply last_None in E. discriminate. }
  destruct Hlast as [final_equity ->]. cbn [bind ok].
  rewrite (timestamp_sub_ok _ _ Hspan). cbn [bind ok].
  cbn [np_maximum_accumulate zip_with np_min bind ok].
  rewrite np_sort_length, length_map.
  destruct (cvar_cutoff_ok (Z.of_nat (length (first :: rest))))
    as (k & -> & Hpos).
  cbn [bind].
  replace (0 <? k) with true by (symmetry; apply Z.ltb_lt; lia).
  cbn [bind ok]. eauto.
Qed.

(** The metrics are computed on ledgers whose first entry and last exit
    are less than 2^63 nanoseconds apart only. *)
Lemma _compute_metrics_span float_pow self ledger equity_curve m :
  _compute_metrics float_pow self ledger equity_curve = inr m ->
  ledger_span_fits ledger.
Proof.
  intros H. destruct ledger as [|first rest]; [exact I|].
  unfold _compute_metrics in H.
  bind_step H as final_equity Hfinal.
  bind_step H as span Hspan.
  apply timestamp_sub_inv in Hspan as [_ Hfit]. exact Hfit.
Qed.




(** What the two readings give on the thirty trades. *)
Example thirty_trades_tail :
  cvar_cutoff 30 = inr 1 /\ spec_cvar_cutoff 30 = inr 2
  /\ np_mean (take 1 (np_sort thirty_r)) = (-3)%float
  /\ np_mean (take 2 (np_sort thirty_r)) = (-2)%float.
Proof. vm_compute. repeat split. Qed.

(** The order of the additions is numpy's: eight values of 0.1 add up to
    0.8 and average to 0.1, where adding them one after the other gives
    0.7999999999999999. *)
Example mean_of_eight_tenths :
  np_mean (replicate 8 0.1%float) = 0.1%float
  /\ fold_left PrimFloat.add (replicate 7 0.1%float) 0.1%float
     = 0.7999999999999999%float.
Proof. vm_compute. split; reflexivity. Qed.

Lemma _compute_metrics_coerced float_pow self ledger equity_curve m :
  _compute_metrics float_pow self ledger equity_curve = inr m ->
  np_isfinite (mar m) = true /\ np_isfinite (payoff m) = true.
Proof.
  intros H. destruct ledger as [|first rest].
  - injection H as <-. split; reflexivity.
  - unfold _compute_metrics in H.
    bind_step H as final_equity Hfinal.
    bind_step H as span Hspan.
    bind_step H as max_dd Hdd.
    bind_step H as cutoff Hcut.
    bind_step H as cvar Hcvar.
    injection H as <-. cbn [mar payoff]. split.
    + match goal with
      | |- np_isfinite (if np_isfinite ?x then _ else _) = true =>
          destruct (np_isfinite x) eqn:E; [exact E|reflexivity]
      end.
    + match goal with
      | |- np_isfinite (if np_isfinite ?x then _ else _) = true =>
          destruct (np_isfinite x) eqn:E; [exact E|reflexivity]
      end.
Qed.

(** C4. The finiteness test is not applied to every field.  Without
    slippage, a long position entered at 200000 and stopped at 100000 loses
    the whole initial equity of 100000: the equity curve is the single
    point 0, the running peak is 0 and the drawdown 0/0, and the report
    carries a [max_drawdown] that is NaN.  In the same report [mar], which
    passes through the test of line 256, is 0. *)
Theorem max_drawdown_is_not_coerced float_pow :
  exists report,
    run_report float_pow frictionless [ohlc_bar 0 210000 90000 100000]
      [signal_at 0 BUY 200000 100000 300000] = inr report
    /\ map pnl (report_trades report) = [(-100000)%float]
    /\ map point_equity (report_equity_curve report) = [0%float]
    /\ PrimFloat.is_nan (max_drawdown (report_metrics report)) = true
    /\ finite_but_cagr (report_metrics report) = false
    /\ mar (report_metrics report) = 0%float.
Proof.
  eexists. split; [vm_compute; reflexivity|].
  vm_compute. repeat split.
Qed.

(** Not every reported field is finite: the run above is one whose report
    has a field other than [cagr] that is not. *)
Lemma max_drawdown_can_be_nan :
  ~ (forall float_pow self features signals report,
        run_report float_pow self features signals = inr report ->
        finite_but_cagr (report_metrics report) = true).
Proof.
  intros H.
  destruct (run_report (fun x _ => x) frictionless
              [ohlc_bar 0 210000 90000 100000]
              [signal_at 0 BUY 200000 100000 300000])
    as [e|report] eqn:Hrun; [vm_compute in Hrun; discriminate|].
  pose proof (H _ _ _ _ _ Hrun) as E.
  vm_compute in Hrun. injection Hrun as <-.
  vm_compute in E. discriminate.
Qed.

(* ===================================================================== *)
(** ** The vectorised evaluator *)
(* ===================================================================== *)

Lemma py_int_number x :
  PrimFloat.is_nan x = false -> PrimFloat.is_infinity x = false ->
  exists z, py_int x = inr z.
Proof.
  intros Hnan Hinf. unfold py_int, Prim2SF. rewrite Hnan, Hinf.
  destruct (PrimFloat.is_zero x); [eauto|].
  destruct (FloatOps.Z.frexp x) as [r e].
  destruct (shr_fexp _ _ _ _ _) as [shr e'].
  destruct (shr_m shr); eauto.
Qed.

Lemma dropna_filter market_data :
  Forall labelled_row market_data ->
  dropna market_data = inr (List.filter known_row market_data).
Proof.
  induction 1 as [|row rest Hrow _ IH]; [reflexivity|].
  destruct Hrow as (_ & [fr Hfr] & cell & Hcell & _).
  cbn [dropna List.filter]. unfold row_getitem, known_row.
  rewrite Hfr, Hcell, IH. cbn [bind ok].
  destruct (PrimFloat.is_nan fr || PrimFloat.is_nan cell); reflexivity.
Qed.

Lemma frame_timestamps_length features :
  length (frame_timestamps features) = length features.
Proof.
  unfold frame_timestamps.
  destruct (mapM row_timestamp features) as [column|] eqn:E.
  - symmetry. eapply length_mapM. exact E.
  - rewrite length_map, length_seq. reflexivity.
Qed.

Lemma iloc_ok {A : Type} (a : list A) (i : Z) :
  0 <= i < Z.of_nat (length a) ->
  exists x, iloc a i = inr x /\ a !! Z.to_nat i = Some x.
Proof.
  intros Hi.
  assert (Hneg : (i <? 0) = false) by (apply Z.ltb_ge; lia).
  unfold iloc. rewrite Hneg. cbv zeta. rewrite Hneg.
  destruct (a !! Z.to_nat i) as [x|] eqn:E; [eauto|].
  apply lookup_ge_None in E. lia.
Qed.

(** What one row of the cleaned frame emits. *)
Lemma vector_trade_of_row horizon features idx row :
  0 <= horizon -> (idx < length features)%nat ->
  labelled_row row -> known_row row = true ->
  exists emitted,
    vector_trade horizon (frame_timestamps features) (length features) idx row
    = inr emitted
    /\ match emitted with
       | Some trade =>
           emits (idx, row) = true
           /\ vector_trade_of horizon features idx row trade
       | None => emits (idx, row) = false
       end.
Proof.
  intros Hh Hidx ([close Hc] & [fr Hfr] & cell & Hcell & Hinf) Hknown.
  unfold known_row in Hknown. rewrite Hfr, Hcell in Hknown.
  apply negb_true_iff, orb_false_iff in Hknown as [_ Hnan].
  destruct (py_int_number cell Hnan Hinf) as [label Hlabel].
  assert (Hrl : row_label row = Some label)
    by (unfold row_label; rewrite Hcell, Hlabel; reflexivity).
  unfold vector_trade, row_getitem, emits. cbn [snd].
  rewrite Hcell, Hrl. cbn [bind ok]. rewrite Hlabel. cbn [bind].
  destruct (label =? 0) eqn:Hzero; [eexists; split; reflexivity|].
  apply Z.eqb_neq in Hzero.
  rewrite Hc, Hfr. cbn [bind ok].
  pose proof (frame_timestamps_length features) as Hlen.
  destruct (iloc_ok (frame_timestamps features)
              (Z.min (Z.of_nat idx + horizon) (Z.of_nat (length features) - 1))
              ltac:(lia)) as (exit_t & -> & Hexit).
  destruct (iloc_ok (frame_timestamps features) (Z.of_nat idx) ltac:(lia))
    as (entry_t & -> & Hentry).
  rewrite Nat2Z.id in Hentry. cbn [bind].
  eexists. split; [reflexivity|]. split; [reflexivity|].
  exists label, close, fr. cbn.
  repeat split; try assumption.
Qed.

Lemma vector_loop_spec horizon features :
  0 <= horizon ->
  forall rows idx,
    (idx + length rows = length features)%nat ->
    Forall (fun row => labelled_row row /\ known_row row = true) rows ->
    exists ledger,
      vector_loop horizon (frame_timestamps features) (length features) idx
        rows = inr ledger
      /\ Forall2 (fun indexed trade =>
                    vector_trade_of horizon features indexed.1 indexed.2 trade)
           (List.filter emits (iterrows_from idx rows)) ledger.
Proof.
  intros Hh. induction rows as [|row rest IH]; intros idx Hlen Hrows.
  - exists []. split; [reflexivity|constructor].
  - apply Forall_cons in Hrows as [[Hrow Hknown] Hrest].
    cbn [length] in Hlen.
    destruct (vector_trade_of_row horizon features idx row Hh ltac:(lia)
                Hrow Hknown) as (emitted & Hemit & Hcase).
    destruct (IH (S idx) ltac:(lia) Hrest) as (later & Hlater & Hall).
    cbn [vector_loop iterrows_from List.filter].
    rewrite Hemit, Hlater. cbn [bind ok].
    eexists. split; [reflexivity|].
    destruct emitted as [trade|].
    + destruct Hcase as [-> Htrade]. constructor; assumption.
    + rewrite Hcase. assumption.
Qed.

Lemma iloc_inv {A : Type} (a : list A) (i : Z) x :
  0 <= i -> iloc a i = inr x -> a !! Z.to_nat i = Some x.
Proof.
  intros Hi. unfold iloc.
  replace (i <? 0) with false by (symmetry; apply Z.ltb_ge; lia).
  cbv zeta. replace (i <? 0) with false by (symmetry; apply Z.ltb_ge; lia).
  destruct (a !! Z.to_nat i); [intros [= <-]; reflexivity|discriminate].
Qed.

(** What a row has emitted, when the loop body returns. *)
Lemma vector_trade_inv horizon features idx row emitted :
  0 <= horizon -> (idx < length features)%nat ->
  vector_trade horizon (frame_timestamps features) (length features) idx row
  = inr emitted ->
  match emitted with
  | Some trade =>
      emits (idx, row) = true
      /\ vector_trade_of horizon features idx row trade
  | None => emits (idx, row) = false
  end.
Proof.
  intros Hh Hidx. unfold vector_trade. intros H.
  bind_step H as label_cell Hcell. bind_step H as label Hlabel.
  unfold row_getitem in Hcell.
  destruct (row_values row !! "label") as [cell|] eqn:Hc; [|discriminate].
  injection Hcell as ->.
  assert (Hrl : row_label row = Some label)
    by (unfold row_label; rewrite Hc, Hlabel; reflexivity).
  unfold emits. cbn [snd]. rewrite Hrl.
  destruct (label =? 0) eqn:Hzero; [injection H as <-; reflexivity|].
  bind_step H as close Hclose. bind_step H as future_return Hfr.
  bind_step H as exit_t Hexit. bind_step H as entry_t Hentry.
  injection H as <-. split; [reflexivity|].
  unfold row_getitem in Hclose, Hfr.
  destruct (row_values row !! "close") as [c|] eqn:Hcl; [|discriminate].
  destruct (row_values row !! "future_return") as [fr|] eqn:Hf;
    [|discriminate].
  injection Hclose as ->. injection Hfr as ->.
  apply iloc_inv in Hexit; [|lia]. apply iloc_inv in Hentry; [|lia].
  rewrite Nat2Z.id in Hentry. apply Z.eqb_neq in Hzero.
  exists label, close, future_return. cbn.
  repeat split; assumption.
Qed.

Lemma vector_loop_inv horizon features :
  0 <= horizon ->
  forall rows idx ledger,
    (idx + length rows = length features)%nat ->
    vector_loop horizon (frame_timestamps features) (length features) idx rows
    = inr ledger ->
    Forall2 (fun indexed trade =>
               vector_trade_of horizon features indexed.1 indexed.2 trade)
      (List.filter emits (iterrows_from idx rows)) ledger.
Proof.
  intros Hh. induction rows as [|row rest IH]; intros idx ledger Hlen H.
  - injection H as <-. constructor.
  - cbn [length] in Hlen. cbn in H.
    bind_step H as emitted Hemitted. bind_step H as later Hlater.
    injection H as <-.
    apply (vector_trade_inv horizon features idx row emitted Hh ltac:(lia))
      in Hemitted.
    specialize (IH (S idx) later ltac:(lia) Hlater).
    cbn [iterrows_from List.filter].
    destruct emitted as [trade|].
    + destruct Hemitted as [-> Htrade]. constructor; assumption.
    + rewrite Hemitted. exact IH.
Qed.

(** The frame [dropna] returns: the rows whose label and forward return are
    both known. *)
Lemma dropna_inv market_data features :
  dropna market_data = inr features ->
  features = List.filter known_row market_data.
Proof.
  revert features. induction market_data as [|row rest IH]; intros features H.
  - injection H as <-. reflexivity.
  - cbn in H. bind_step H as fr Hfr. bind_step H as label Hlabel.
    bind_step H as rest' Hrest. injection H as <-.
    unfold row_getitem in Hfr, Hlabel. cbn [List.filter]. unfold known_row.
    destruct (row_values row !! "future_return") as [f|]; [|discriminate].
    destruct (row_values row !! "label") as [l|]; [|discriminate].
    injection Hfr as ->. injection Hlabel as ->.
    rewrite (IH rest' Hrest).
    destruct (PrimFloat.is_nan fr || PrimFloat.is_nan label); reflexivity.
Qed.

Lemma last_elem {A : Type} (l : list A) (d : A) :
  l <> [] -> List.last l d ∈ l.
Proof.
  induction l as [|x rest IH]; [congruence|]. intros _.
  destruct rest as [|y rest']; [left|].
  right. apply IH. discriminate.
Qed.

(** The entry of every vectorised trade and its exit are instants of the
    cleaned frame. *)
Lemma vector_ledger_span horizon features ledger :
  Forall2 (fun indexed trade =>
             vector_trade_of horizon features indexed.1 indexed.2 trade)
    (List.filter emits (iterrows features)) ledger ->
  instants_fit (frame_timestamps features) ->
  ledger_span_fits ledger.
Proof.
  intros Hall Hfit.
  assert (Htimes : Forall (fun t => entry_time t ∈ frame_timestamps features
                                    /\ exit_time t ∈ frame_timestamps features)
                     ledger).
  { clear Hfit. induction Hall as [|[idx row] t rows ts Ht _ IH];
      constructor; [|exact IH].
    destruct Ht as (label & close & fr & _ & _ & _ & _ & _ & _ & _
                    & Hentry & Hexit & _).
    split; eapply list_elem_of_lookup_2; eassumption. }
  destruct ledger as [|first rest]; [exact I|]. unfold ledger_span_fits.
  rewrite Forall_forall in Htimes.
  assert (Hfirst : first ∈ first :: rest) by left.
  assert (Hlast : List.last (first :: rest) first ∈ first :: rest)
    by (apply last_elem; discriminate).
  destruct (Htimes _ Hfirst) as [He _]. destruct (Htimes _ Hlast) as [_ Hx].
  pose proof (Hfit _ _ He Hx). pose proof (Hfit _ _ Hx He). lia.
Qed.

(** C8 (as amended). The vectorised evaluator first drops the rows whose
    label or forward return is missing and renumbers the others; the rows
    it keeps are the cleaned frame, which is the input frame itself when
    nothing is missing.  For a horizon [H] that is not negative, the ledger
    of every report holds, in row order, exactly one trade for every row of
    the cleaned frame whose label is not zero, and none for the others.
    The trade of such a row at position [i] of the cleaned frame is long
    when the label is 1 and short otherwise (so short for -1), is entered at
    the row's close, is left at [close * (1 + future_return)] whatever its
    side, at the timestamp of the row at position [min(i + H, last)] of the
    cleaned frame, and carries [bars_held = H] and the exit reason
    ["vector"].  A report is returned for every frame that has rows, all
    with their close, forward return and label (a number, or missing), whose
    cleaned rows are less than 2^63 nanoseconds apart, when the holding
    counts [H] of as many trades as the frame has rows add up to less than
    2^63. *)
Theorem vectorized_one_trade_per_label float_pow horizon market_data :
  0 <= horizon ->
  let features := List.filter known_row market_data in
  (forall report,
      VectorizedBacktester_run float_pow horizon market_data = inr report ->
      Forall2 (fun indexed trade =>
                 vector_trade_of horizon features indexed.1 indexed.2 trade)
        (List.filter emits (iterrows features)) (report_trades report))
  /\ (Forall (fun row => known_row row = true) market_data ->
      features = market_data)
  /\ (market_data <> [] ->
      Forall labelled_row market_data ->
      instants_fit (frame_timestamps features) ->
      horizon * Z.of_nat (length market_data) < 2 ^ 63 ->
      exists report,
        VectorizedBacktester_run float_pow horizon market_data = inr report).
Proof.
  intros Hh features. split; [|split].
  - intros report H. unfold VectorizedBacktester_run in H.
    bind_step H as cleaned Hcleaned. bind_step H as ledger Hledger.
    unfold report_of in H. bind_step H as m Hm. injection H as <-.
    cbn [report_trades]. apply dropna_inv in Hcleaned. subst cleaned.
    fold features in Hledger. unfold vector_trades in Hledger.
    exact (vector_loop_inv horizon features Hh features 0%nat ledger eq_refl
             Hledger).
  - intros Hk. unfold features. clear -Hk.
    induction Hk as [|row rest Hrow _ IH]; [reflexivity|].
    cbn [List.filter]. rewrite Hrow, IH. reflexivity.
  - intros _ Hmd Hfit _. unfold VectorizedBacktester_run.
    rewrite (dropna_filter market_data Hmd). cbn [bind]. fold features.
    assert (Hrows : Forall (fun row => labelled_row row
                                       /\ known_row row = true) features).
    { apply List.Forall_forall. intros row Hin.
      apply filter_In in Hin as [Hin Hk]. split; [|exact Hk].
      rewrite List.Forall_forall in Hmd. auto. }
    destruct (vector_loop_spec horizon features Hh features 0%nat eq_refl
                Hrows) as (ledger & Hledger & Hall).
    unfold vector_trades. rewrite Hledger. cbn [bind]. unfold report_of.
    destruct (_compute_metrics_ok float_pow default_backtester ledger)
      as [m ->]; [eapply vector_ledger_span; eassumption|].
    cbn [bind ok]. eauto.
Qed.

(** Four bars with horizon 2: the long row and the short row each give one
    trade, the flat row and the row without a known return give none; the
    long trade leaves at the timestamp of the third bar, and the short one,
    two rows from the end of a cleaned frame of three, at the last. *)
Lemma vectorized_one_trade_per_label_witness :
  exists report,
    VectorizedBacktester_run (fun x _ => x) 2 four_labelled_bars = inr report
    /\ Forall2 (fun indexed trade =>
                  vector_trade_of 2 (List.filter known_row four_labelled_bars)
                    indexed.1 indexed.2 trade)
         (List.filter emits
            (iterrows (List.filter known_row four_labelled_bars)))
         (report_trades report)
    /\ map (fun t => (side t, entry_time t, exit_time t, bars_held t,
                      exit_reason t))
         (report_trades report)
       = [(BUY, 0, 2 * minute, 2, "vector");
          (SELL, 2 * minute, 2 * minute, 2, "vector")].
Proof.
  destruct (vectorized_one_trade_per_label (fun x _ => x) 2 four_labelled_bars
              ltac:(lia)) as (Hall & _ & Hruns).
  destruct Hruns as [report Hrun].
  - discriminate.
  - unfold four_labelled_bars.
    repeat first
      [ apply List.Forall_nil
      | apply List.Forall_cons;
        [split; [vm_compute; eauto|split; [vm_compute; eauto|]];
         eexists; split; vm_compute; reflexivity|] ].
  - apply (instants_fit_window _ 0).
    repeat first
      [ apply List.Forall_nil
      | apply List.Forall_cons;
        [split; [vm_compute; discriminate|vm_compute; reflexivity]|] ].
  - vm_compute. reflexivity.
  - exists report. split; [exact Hrun|]. split; [exact (Hall report Hrun)|].
    vm_compute in Hrun. injection Hrun as <-. vm_compute. reflexivity.
Defined.

(** The position [min(i + H, last)] is not counted in the input frame.  In
    the four bars above the last one has no known forward return: the short
    trade of the third bar, with horizon 2, leaves at the timestamp of that
    third bar, the last of the cleaned frame, and not at the timestamp of
    the fourth bar, the last of the input frame. *)
Lemma vectorized_exit_is_not_on_the_input_frame :
  ~ (forall float_pow horizon market_data report,
        0 <= horizon ->
        Forall labelled_row market_data ->
        VectorizedBacktester_run float_pow horizon market_data = inr report ->
        Forall2 (fun indexed trade =>
                   vector_trade_of horizon market_data indexed.1 indexed.2
                     trade)
          (List.filter emits (iterrows market_data)) (report_trades report)).
Proof.
  intros H.
  destruct (VectorizedBacktester_run (fun x _ => x) 2 four_labelled_bars)
    as [e|report] eqn:Hrun; [vm_compute in Hrun; discriminate|].
  pose proof (H (fun x _ => x) 2 four_labelled_bars report ltac:(lia)) as E.
  specialize (E ltac:(unfold four_labelled_bars;
    repeat first
      [ apply List.Forall_nil
      | apply List.Forall_cons;
        [split; [vm_compute; eauto|split; [vm_compute; eauto|]];
         eexists; split; vm_compute; reflexivity|] ]) Hrun).
  vm_compute in Hrun. injection Hrun as <-.
  apply Forall2_cons_inv_l in E as (t1 & rest1 & _ & E & Hl).
  apply Forall2_cons_inv_l in E as (t2 & rest2 & Ht2 & _ & ->).
  injection Hl as <- <-.
  destruct Ht2 as (label & close & fr & _ & _ & _ & _ & _ & _ & _ & _
                   & Hexit & _).
  vm_compute in Hexit. discriminate.
Qed.

(** What the two readings give for the short trade. *)
Example short_trade_exit :
  option_map (map exit_time)
    (match VectorizedBacktester_run (fun x _ => x) 2 four_labelled_bars with
     | inr report => Some (report_trades report)
     | inl _ => None
     end)
  = Some [2 * minute; 2 * minute]
  /\ frame_timestamps four_labelled_bars !! Z.to_nat (Z.min (2 + 2) (4 - 1))
     = Some (3 * minute)
  /\ frame_timestamps (List.filter known_row four_labelled_bars)
       !! Z.to_nat (Z.min (1 + 2) (3 - 1))
     = Some (2 * minute).
Proof. vm_compute. repeat split. Qed.

(* ===================================================================== *)
(** ** The audit of the event-driven ledger *)
(* ===================================================================== *)

Lemma insert_signal_length s l :
  length (insert_signal s l) = S (length l).
Proof.
  induction l as [|y rest IH]; cbn; [reflexivity|].
  destruct (sig_timestamp s <=? sig_timestamp y); cbn; [reflexivity|].
  rewrite IH. reflexivity.
Qed.

Lemma sorted_signals_length signals :
  length (sorted_signals signals) = length signals.
Proof.
  induction signals as [|s rest IH]; [reflexivity|].
  change (sorted_signals (s :: rest))
    with (insert_signal s (sorted_signals rest)).
  rewrite insert_signal_length, IH. reflexivity.
Qed.

Lemma insert_signal_sorted s l :
  StronglySorted not_later l -> StronglySorted not_later (insert_signal s l).
Proof.
  induction 1 as [|y rest Hrest IH Hy]; cbn.
  - repeat constructor.
  - destruct (sig_timestamp s <=? sig_timestamp y) eqn:E.
    + apply Z.leb_le in E. constructor; [constructor; assumption|].
      constructor; [exact E|].
      eapply Forall_impl; [exact Hy|]. unfold not_later. intros; lia.
    + apply Z.leb_gt in E. constructor; [exact IH|].
      apply Forall_forall. intros x Hx.
      apply insert_signal_elem in Hx as [->|Hx].
      * unfold not_later. lia.
      * rewrite Forall_forall in Hy. auto.
Qed.

Lemma sorted_signals_sorted signals :
  StronglySorted not_later (sorted_signals signals).
Proof.
  induction signals as [|s rest IH]; [constructor|].
  change (sorted_signals (s :: rest))
    with (insert_signal s (sorted_signals rest)).
  apply insert_signal_sorted, IH.
Qed.

Lemma StronglySorted_app_r {A : Type} (R : A -> A -> Prop) (l1 l2 : list A) :
  StronglySorted R (l1 ++ l2) -> StronglySorted R l2.
Proof.
  induction l1 as [|x l1 IH]; cbn; [trivial|].
  intros H. apply StronglySorted_inv in H as [H _]. auto.
Qed.

(** The batch pulled for a bar and what stays queued make up the queue. *)
Lemma queue_signals_app timestamp queue :
  (queue_signals timestamp queue).1 ++ (queue_signals timestamp queue).2
  = queue.
Proof.
  induction queue as [|s rest IH]; cbn; [reflexivity|].
  destruct (sig_timestamp s <=? timestamp); [|reflexivity].
  destruct (queue_signals timestamp rest) as [triggered rest'].
  cbn in *. rewrite IH. reflexivity.
Qed.

(** Every signal of the batch is due. *)
Lemma queue_signals_due timestamp queue :
  Forall (fun s => sig_timestamp s <= timestamp)
    (queue_signals timestamp queue).1.
Proof.
  induction queue as [|s rest IH]; cbn; [constructor|].
  destruct (sig_timestamp s <=? timestamp) eqn:E; [|constructor].
  destruct (queue_signals timestamp rest) as [triggered rest'].
  cbn in *. apply Z.leb_le in E. constructor; assumption.
Qed.

(** In a sorted queue, every signal that stays queued is stamped after the
    bar. *)
Lemma queue_signals_late timestamp queue :
  StronglySorted not_later queue ->
  Forall (fun s => timestamp < sig_timestamp s)
    (queue_signals timestamp queue).2.
Proof.
  induction 1 as [|s rest Hrest IH Hs]; cbn; [constructor|].
  destruct (sig_timestamp s <=? timestamp) eqn:E.
  - destruct (queue_signals timestamp rest) as [triggered rest']. exact IH.
  - apply Z.leb_gt in E. cbn. constructor; [exact E|].
    eapply Forall_impl; [exact Hs|]. unfold not_later. intros; lia.
Qed.

(** The three ways a position leaves the book. *)
Lemma exit_outcome_cases sd low high stop target slippage bar_idx n close
    reason price :
  check_expiry (check_exit sd low high stop target slippage) bar_idx n sd
    close slippage = Some (reason, price) ->
  (reason = "stop" /\ price = (stop * exit_factor sd slippage)%float)
  \/ (reason = "target" /\ price = (target * exit_factor sd slippage)%float)
  \/ (reason = "expiry" /\ Z.of_nat bar_idx = Z.of_nat n - 1
      /\ price = (close * exit_factor sd slippage)%float).
Proof.
  rewrite check_exit_spec.
  destruct (stop_breached sd low high stop);
    [cbn [check_expiry]; intros [= <- <-]; auto|].
  destruct (target_breached sd low high target);
    [cbn [check_expiry]; intros [= <- <-]; auto|].
  cbn [check_expiry].
  destruct (Z.of_nat bar_idx =? Z.of_nat n - 1) eqn:E; [|discriminate].
  intros [= <- <-]. apply Z.eqb_eq in E. right. right.
  destruct sd; auto.
Qed.

Lemma evaluate_exit_inv_full self n bar_idx row timestamp queue ledger pos st' :
  evaluate_exit self n bar_idx row timestamp queue ledger pos = inr st' ->
  exists close,
    row_values row !! "close" = Some close
    /\ pending st' = queue
    /\ match check_expiry
               (check_exit (sig_side (pos_signal pos))
                  (row_get row "low" close) (row_get row "high" close)
                  (sig_stop (pos_signal pos)) (sig_target (pos_signal pos))
                  (slippage_bps self / 10000)%float)
               bar_idx n (sig_side (pos_signal pos)) close
               (slippage_bps self / 10000)%float with
       | None =>
           open_position st' = Some pos /\ trades st' = ledger
           /\ Z.of_nat bar_idx <> Z.of_nat n - 1
       | Some (reason, price) =>
           exists trade,
             close_position self pos timestamp reason price = inr trade
             /\ open_position st' = None
             /\ trades st' = ledger ++ [trade]
       end.
Proof.
  intros H. pose proof (evaluate_exit_not_nat _ _ _ _ _ _ _ _ _ H) as Hnat.
  destruct (row_values row !! "close") as [close|] eqn:Hclose;
    [|unfold evaluate_exit, row_getitem in H; rewrite Hclose in H;
      discriminate].
  rewrite (evaluate_exit_close _ _ _ _ _ _ _ _ close Hclose Hnat) in H.
  cbn zeta in H. exists close. split; [reflexivity|].
  destruct (check_expiry _ _ _ _ _ _) as [[reason price]|] eqn:Hexp.
  - bind_step H as trade Htrade. injection H as <-. cbn.
    split; [reflexivity|]. eauto.
  - injection H as <-. cbn. repeat split.
    unfold check_expiry in Hexp.
    destruct (check_exit _ _ _ _ _ _); [discriminate|].
    destruct (Z.of_nat bar_idx =? Z.of_nat n - 1) eqn:E; [discriminate|].
    apply Z.eqb_neq in E. exact E.
Qed.

(** One bar, case by case: the engine stays flat, or a position (carried
    over, or just entered on the first signal of the batch) is evaluated and
    either stays open or is closed into one ledger entry. *)
Lemma process_bar_step self n bar_idx row st st' :
  process_bar self n bar_idx row st = inr st' ->
  exists timestamp,
    row_timestamp row = Some timestamp
    /\ pending st' = (queue_signals timestamp (pending st)).2
    /\ ((open_position st = None
         /\ (queue_signals timestamp (pending st)).1 = []
         /\ open_position st' = None /\ trades st' = trades st)
        \/ exists pos,
             (open_position st = Some pos
              \/ (open_position st = None
                  /\ exists signal rest,
                       (queue_signals timestamp (pending st)).1
                       = signal :: rest
                       /\ pos = enter_position
                                  (slippage_bps self / 10000)%float
                                  timestamp signal))
             /\ ((open_position st' = Some pos /\ trades st' = trades st
                  /\ Z.of_nat bar_idx <> Z.of_nat n - 1)
                 \/ exists close reason price trade,
                      row_values row !! "close" = Some close
                      /\ check_expiry
                           (check_exit (sig_side (pos_signal pos))
                              (row_get row "low" close)
                              (row_get row "high" close)
                              (sig_stop (pos_signal pos))
                              (sig_target (pos_signal pos))
                              (slippage_bps self / 10000)%float)
                           bar_idx n (sig_side (pos_signal pos)) close
                           (slippage_bps self / 10000)%float
                         = Some (reason, price)
                      /\ close_position self pos timestamp reason price
                         = inr trade
                      /\ open_position st' = None
                      /\ trades st' = trades st ++ [trade])).
Proof.
  intros H. apply process_bar_inv in H as (timestamp & Hts & Hpending & Hcase).
  exists timestamp. split; [exact Hts|]. split; [exact Hpending|].
  destruct (open_if_flat _ _ _ _) as [pos|] eqn:Hflat.
  - right. exists pos. split.
    + apply open_if_flat_inv in Hflat
        as [Hold|(Hnone & signal & rest & E & ->)]; [auto|].
      right. split; [exact Hnone|]. eauto.
    + apply evaluate_exit_inv_full in Hcase as (close & Hclose & _ & Hout).
      destruct (check_expiry _ _ _ _ _ _) as [[reason price]|] eqn:Hexp.
      * right. destruct Hout as (trade & Hc & Ho & Ht).
        exists close, reason, price, trade. auto.
      * left. exact Hout.
  - left. destruct Hcase as [Ho Ht]. unfold open_if_flat in Hflat.
    destruct (open_position st) as [p|]; [discriminate|].
    destruct (queue_signals timestamp (pending st)).1; [auto|discriminate].
Qed.

(** A position closed on the bar it was entered on (or on a bar that is not
    later) is held for one bar. *)
Lemma close_position_same_bar self pos timestamp reason price trade :
  close_position self pos timestamp reason price = inr trade ->
  timestamp <= pos_entry_time pos -> bars_held trade = 1.
Proof.
  unfold close_position. intros H Hle.
  replace (pos_entry_time pos <? timestamp) with false in H
    by (symmetry; apply Z.ltb_ge; lia).
  cbn [bind ok] in H.
  assert (E : py_round 0%float = inr 0) by (vm_compute; reflexivity).
  rewrite E in H. cbn in H. injection H as <-. reflexivity.
Qed.

(** The ledger entry of a position taken on [signal]. *)
Lemma close_position_entered self signal entry_t timestamp reason price trade :
  sig_timestamp signal <= entry_t ->
  close_position self
    (enter_position (slippage_bps self / 10000)%float entry_t signal)
    timestamp reason price = inr trade ->
  entered_on self signal trade.
Proof.
  intros Hdue H. pose proof (close_position_filled _ _ _ _ _ _ _ H) as Hf.
  apply close_position_fields in H.
  destruct H as (He & _ & _ & _ & _ & _ & Htg & _ & Hst & _).
  cbn in He, Htg, Hst. constructor; try assumption. lia.
Qed.

Lemma close_position_exit_booked self pos timestamp reason price trade
    bar_idx n low high close :
  check_expiry
    (check_exit (sig_side (pos_signal pos)) low high
       (sig_stop (pos_signal pos)) (sig_target (pos_signal pos))
       (slippage_bps self / 10000)%float)
    bar_idx n (sig_side (pos_signal pos)) close
    (slippage_bps self / 10000)%float = Some (reason, price) ->
  close_position self pos timestamp reason price = inr trade ->
  exit_booked self trade.
Proof.
  intros Hexit H. apply close_position_fields in H.
  destruct H as (_ & _ & Hentry & Hprice & Hside & Hstop & Htarget & Hreason
                 & _ & Hpnl & _).
  unfold exit_booked. cbn zeta.
  rewrite Hside, Hstop, Htarget, Hreason, Hprice, Hentry. split; [|exact Hpnl].
  apply exit_outcome_cases in Hexit
    as [[-> ->]|[[-> ->]|(-> & _)]]; auto.
Qed.

(** The loop over the rows of [df] from position [bar_idx] on keeps what
    each bar keeps. *)
Lemma simulate_loop_invariant_at self (df : DataFrame)
    (I : nat -> SimState -> Prop) :
  (forall bar_idx row st st',
      df !! bar_idx = Some row -> I bar_idx st ->
      process_bar self (length df) bar_idx row st = inr st' ->
      I (S bar_idx) st') ->
  forall rows bar_idx st st',
    rows = drop bar_idx df -> (bar_idx <= length df)%nat -> I bar_idx st ->
    simulate_loop self (length df) bar_idx rows st = inr st' ->
    I (length df) st'.
Proof.
  intros Hstep.
  induction rows as [|row rest IH]; intros bar_idx st st' Hrows Hle Hst H.
  - injection H as <-.
    apply (f_equal length) in Hrows. rewrite length_drop in Hrows.
    cbn in Hrows. replace (length df) with bar_idx by lia. exact Hst.
  - cbn in H. bind_step H as st1 Hst1.
    assert (Hrow : df !! bar_idx = Some row).
    { pose proof (lookup_drop df bar_idx 0) as E.
      rewrite <- Hrows, Nat.add_0_r in E. symmetry. exact E. }
    pose proof (lookup_lt_Some _ _ _ Hrow) as Hlt.
    apply (IH (S bar_idx) st1 st'); [|lia| |exact H].
    + rewrite (drop_S _ _ _ Hrow) in Hrows. injection Hrows as ->.
      reflexivity.
    + eapply Hstep; eassumption.
Qed.

Lemma process_bar_audited self signals df bar_idx row st st' :
  df !! bar_idx = Some row ->
  audited self signals df bar_idx st ->
  process_bar self (length df) bar_idx row st = inr st' ->
  audited self signals df (S bar_idx) st'.
Proof.
  intros Hrow [Hsorted Hqueue Hopen Htrades Hchain Hcount Hbars Hexp] Hstep.
  apply process_bar_step in Hstep as (timestamp & Hts & Hpending & Hcase).
  assert (Hbar : timestamp ∈ bar_times df).
  { apply list_elem_of_omap. exists row.
    split; [eapply list_elem_of_lookup_2; exact Hrow|exact Hts]. }
  pose proof (lookup_lt_Some _ _ _ Hrow) as Hidx.
  pose proof (queue_signals_app timestamp (pending st)) as Happ.
  pose proof (queue_signals_late timestamp (pending st) Hsorted) as Hlate.
  pose proof (queue_signals_due timestamp (pending st)) as Hdue.
  destruct (queue_signals timestamp (pending st)) as [triggered queue].
  cbn [fst snd] in *.
  rewrite <- Happ in Hsorted, Hqueue, Hcount.
  apply StronglySorted_app_r in Hsorted.
  apply Forall_app in Hqueue as [Htrig Hrest].
  rewrite length_app in Hcount.
  assert (Hnoexp : forall i t, trades st !! i = Some t ->
                     exit_reason t <> "expiry").
  { intros i t Hi Hr. destruct (Hexp i t Hi Hr) as [E _]. lia. }
  destruct Hcase as [(Hflat & Hnone & Ho & Ht)|(pos & Horigin & Hcase)].
  - constructor; rewrite ?Hpending, ?Ht; try assumption.
    + intros pos Hpos. congruence.
    + unfold positions_open in *. rewrite Ho. rewrite Hflat in Hcount. lia.
    + lia.
    + intros i t Hi Hr. destruct (Hnoexp i t Hi Hr).
  - assert (Hpos :
      pos_signal pos ∈ signals
      /\ pos = enter_position (slippage_bps self / 10000)%float
                 (pos_entry_time pos) (pos_signal pos)
      /\ sig_timestamp (pos_signal pos) <= pos_entry_time pos
      /\ pos_entry_time pos ∈ bar_times df
      /\ Forall (fun t => exit_time t < sig_timestamp (pos_signal pos))
           (trades st)
      /\ (1 <= positions_open st + length triggered)%nat).
    { destruct Horigin as [Hold|(Hflat & signal & rest & E & ->)].
      - destruct (Hopen pos Hold) as (H1 & H2 & H3 & H4 & H5).
        unfold positions_open. rewrite Hold.
        repeat split; try assumption. lia.
      - subst triggered.
        apply Forall_cons in Htrig as [[Hin Hafter] _].
        apply Forall_cons in Hdue as [Hd _].
        cbn [pos_signal pos_entry_time enter_position length].
        repeat split; try assumption. lia. }
    destruct Hpos as (Hin & Heq & Hd & Hentry & Hafter & Hone).
    destruct Hcase
      as [(Ho & Ht & Hnotlast)
         |(close & reason & price & trade & Hclose & Hexit & Hc & Ho & Ht)].
    + constructor; rewrite ?Hpending, ?Ht; try assumption.
      * intros pos' Hpos'. rewrite Ho in Hpos'. injection Hpos' as <-.
        repeat split; assumption.
      * unfold positions_open in *. rewrite Ho. lia.
      * lia.
      * intros i t Hi Hr. destruct (Hnoexp i t Hi Hr).
    + pose proof (close_position_exit_booked _ _ _ _ _ _ _ _ _ _ _ Hexit Hc)
        as Hbooked.
      pose proof (close_position_fields _ _ _ _ _ _ Hc)
        as (He & Hx & _ & _ & _ & _ & _ & Hreason & _ & _ & _ & Hheld).
      assert (Hon : entered_on self (pos_signal pos) trade).
      { rewrite Heq in Hc.
        eapply close_position_entered; [|exact Hc]. exact Hd. }
      constructor; rewrite ?Hpending, ?Ht.
      * assumption.
      * apply Forall_forall. intros s Hs.
        rewrite Forall_forall in Hrest, Hlate.
        destruct (Hrest s Hs) as [Hs1 Hs2]. split; [exact Hs1|].
        apply Forall_app. split; [exact Hs2|].
        repeat constructor. rewrite Hx. auto.
      * intros pos' Hpos'. congruence.
      * apply Forall_app. split; [exact Htrades|].
        constructor; [|constructor]. constructor.
        -- eauto.
        -- exact Hbooked.
        -- rewrite He. exact Hentry.
        -- rewrite Hx. exact Hbar.
        -- exact Hheld.
        -- rewrite He, Hx. intros Hle.
           eapply close_position_same_bar; eassumption.
      * apply StronglySorted_snoc; [exact Hchain|].
        eapply Forall_impl; [exact Hafter|]. cbn.
        intros a Ha. exists (pos_signal pos). auto.
      * unfold positions_open in *. rewrite Ho, length_app. cbn. lia.
      * rewrite length_app. cbn. lia.
      * intros i t Hi Hr.
        apply lookup_snoc_Some in Hi as [[_ Hi]|[-> <-]];
          [destruct (Hnoexp i t Hi Hr)|].
        rewrite Hreason in Hr.
        apply exit_outcome_cases in Hexit
          as [[E _]|[[E _]|(_ & Hlast & _)]]; [congruence..|].
        split; [lia|]. split; [rewrite length_app; cbn; lia|].
        exists row. split; [|rewrite Hx; exact Hts].
        rewrite last_lookup. rewrite <- Hrow. f_equal. lia.
Qed.

(** What every run of the simulator that returns has booked. *)
Lemma _simulate_trades_audited self df signals ledger :
  _simulate_trades self df signals = inr ledger ->
  Forall (booked self signals df) ledger
  /\ StronglySorted (taken_after self signals) ledger
  /\ (length ledger <= length signals)%nat
  /\ (length ledger <= length df)%nat
  /\ (forall i t, ledger !! i = Some t -> exit_reason t = "expiry" ->
        S i = length ledger
        /\ exists row, last df = Some row
                       /\ row_timestamp row = Some (exit_time t)).
Proof.
  intros Hrun. unfold _simulate_trades in Hrun. bind_step Hrun as final Hfinal.
  destruct final as [st|]; injection Hrun as <-.
  2:{ split; [constructor|]. split; [constructor|].
      split; [cbn; lia|]. split; [cbn; lia|].
      intros i t Hi. discriminate Hi. }
  unfold simulate_final in Hfinal.
  destruct signals as [|s signals]; [discriminate|].
  destruct (df_empty df) eqn:Hcolumns; [discriminate|].
  destruct df as [|row rest]; [discriminate Hcolumns|].
  bind_step Hfinal as st0 Hloop. injection Hfinal as ->.
  assert (Haud : audited self (s :: signals) (row :: rest)
                   (length (row :: rest)) st).
  { eapply (simulate_loop_invariant_at self (row :: rest)
              (audited self (s :: signals) (row :: rest)));
      [| | | |exact Hloop].
    - intros. eapply process_bar_audited; eassumption.
    - reflexivity.
    - lia.
    - constructor; cbn [pending trades open_position].
      + apply sorted_signals_sorted.
      + apply Forall_forall. intros x Hx.
        split; [apply sorted_signals_elem; exact Hx|constructor].
      + discriminate.
      + constructor.
      + constructor.
      + unfold positions_open. cbn [open_position length].
        rewrite sorted_signals_length. cbn. lia.
      + cbn. lia.
      + intros i t Hi. discriminate Hi. }
  destruct Haud as [_ _ _ Htrades Hchain Hcount Hbars Hexp].
  split; [exact Htrades|]. split; [exact Hchain|].
  split; [lia|]. split; [exact Hbars|].
  intros i t Hi Hr. destruct (Hexp i t Hi Hr) as (_ & Hlast & Hrow).
  auto.
Qed.

(** X1. The simulator never trades ahead of its inputs.  Every trade of the
    ledger is the position taken on one of the input signals: it has the
    signal's side, stop, target and strategy name, it is entered at the
    signal's price moved by the slippage, and the bar it is entered on is
    not earlier than the signal's timestamp.  Its entry time and its exit
    time are timestamps of bars of the frame. *)
Theorem trades_come_from_due_signals self df signals ledger :
  _simulate_trades self df signals = inr ledger ->
  Forall (fun t =>
            (exists signal, signal ∈ signals /\ entered_on self signal t)
            /\ entry_time t ∈ bar_times df
            /\ exit_time t ∈ bar_times df)
    ledger.
Proof.
  intros Hrun. apply _simulate_trades_audited in Hrun as (Hbooked & _).
  eapply Forall_impl; [exact Hbooked|]. cbn.
  intros t [Hsignal _ Hentry Hexit _ _]. auto.
Qed.

Lemma trades_come_from_due_signals_witness :
  exists ledger,
    _simulate_trades default_backtester audit_bars audit_signals = inr ledger
    /\ map (fun t => (entry_time t, strategy t, side t)) ledger
       = [(0, "ORB15", BUY); (2 * minute, "ORB15", SELL)]
    /\ Forall (fun t =>
                 (exists signal,
                     signal ∈ audit_signals
                     /\ entered_on default_backtester signal t)
                 /\ entry_time t ∈ bar_times audit_bars
                 /\ exit_time t ∈ bar_times audit_bars)
         ledger.
Proof.
  eexists. split; [vm_compute; reflexivity|]. split; [reflexivity|].
  apply (trades_come_from_due_signals default_backtester audit_bars
           audit_signals).
  vm_compute. reflexivity.
Defined.

(** X2. How every exit is booked.  A trade of the ledger is closed for one
    of the three reasons ["stop"], ["target"] and ["expiry"]; a stop exit is
    filled at the stop level itself and a target exit at the target level
    itself, moved against the trader by the slippage ([1 - slip] for a long
    position, [1 + slip] for a short one), whatever the range of the bar.
    The pnl is the difference of the two filled prices, in the direction of
    the side, less the commission.  The holding count is at least one, and
    it is one for a trade closed on the bar it was entered on. *)
Theorem exits_are_booked_at_their_level self df signals ledger :
  _simulate_trades self df signals = inr ledger ->
  Forall (fun t =>
            exit_booked self t /\ 1 <= bars_held t
            /\ (exit_time t <= entry_time t -> bars_held t = 1))
    ledger.
Proof.
  intros Hrun. apply _simulate_trades_audited in Hrun as (Hbooked & _).
  eapply Forall_impl; [exact Hbooked|]. cbn.
  intros t [_ Hexit _ _ Hheld Hsame]. auto.
Qed.

Lemma exits_are_booked_at_their_level_witness :
  exists ledger,
    _simulate_trades default_backtester audit_bars audit_signals = inr ledger
    /\ map (fun t => (exit_reason t, exit_price t, bars_held t)) ledger
       = [("target", (105 * (1 - 5 / 10000))%float, 1);
          ("expiry", (104.5 * (1 + 5 / 10000))%float, 1)]
    /\ Forall (fun t =>
                 exit_booked default_backtester t /\ 1 <= bars_held t
                 /\ (exit_time t <= entry_time t -> bars_held t = 1))
         ledger.
Proof.
  eexists. split; [vm_compute; reflexivity|]. split; [reflexivity|].
  apply (exits_are_booked_at_their_level default_backtester audit_bars
           audit_signals).
  vm_compute. reflexivity.
Defined.

(** X3. A forced exit can only close the ledger.  A trade whose exit reason
    is ["expiry"] is the last entry of the ledger and is left at the
    timestamp of the last row of the frame; every earlier entry was closed
    by its stop or by its target. *)
Theorem expiry_is_the_last_entry self df signals ledger :
  _simulate_trades self df signals = inr ledger ->
  forall i t, ledger !! i = Some t ->
    (exit_reason t = "expiry" ->
     S i = length ledger
     /\ exists row, last df = Some row
                    /\ row_timestamp row = Some (exit_time t))
    /\ ((S i < length ledger)%nat ->
        exit_reason t = "stop" \/ exit_reason t = "target").
Proof.
  intros Hrun i t Hi.
  apply _simulate_trades_audited in Hrun as (Hbooked & _ & _ & _ & Hexp).
  split; [apply Hexp; exact Hi|].
  intros Hlt. rewrite Forall_forall in Hbooked.
  destruct (Hbooked t (list_elem_of_lookup_2 _ _ _ Hi))
    as [_ [[[Hr _]|[[Hr _]|Hr]] _] _ _ _ _]; [auto..|].
  destruct (Hexp i t Hi Hr) as [Hlast _]. lia.
Qed.

Lemma expiry_is_the_last_entry_witness :
  exists ledger t,
    _simulate_trades default_backtester audit_bars audit_signals = inr ledger
    /\ ledger !! 1%nat = Some t
    /\ exit_reason t = "expiry"
    /\ S 1 = length ledger
    /\ exists row, last audit_bars = Some row
                   /\ row_timestamp row = Some (exit_time t).
Proof.
  eexists. eexists. split; [vm_compute; reflexivity|].
  split; [reflexivity|]. split; [reflexivity|].
  refine (proj1 (expiry_is_the_last_entry default_backtester audit_bars
                   audit_signals _ _ 1%nat _ _) _);
    reflexivity.
Defined.

(** X4. The ledger holds no more trades than the frame has bars, and no
    more than there are signals: a bar closes one position at most, and a
    signal opens one at most. *)
Theorem ledger_is_bounded_by_bars_and_signals self df signals ledger :
  _simulate_trades self df signals = inr ledger ->
  (length ledger <= length df)%nat /\ (length ledger <= length signals)%nat.
Proof.
  intros Hrun. apply _simulate_trades_audited in Hrun as (_ & _ & H1 & H2 & _).
  split; assumption.
Qed.

Lemma ledger_is_bounded_by_bars_and_signals_witness :
  exists ledger,
    _simulate_trades default_backtester audit_bars audit_signals = inr ledger
    /\ length ledger = 2%nat
    /\ (length ledger <= length audit_bars)%nat
    /\ (length ledger <= length audit_signals)%nat.
Proof.
  eexists. split; [vm_compute; reflexivity|]. split; [reflexivity|].
  apply (ledger_is_bounded_by_bars_and_signals default_backtester audit_bars
           audit_signals).
  vm_compute. reflexivity.
Defined.

(** X5. Signals that come due while a position is open are dropped, the bar
    of the exit included.  Whatever the order of the bars, a later trade of
    the ledger was taken on a signal stamped strictly after the exit time of
    every earlier trade: no trade is ever taken on a signal stamped during
    an earlier holding period or on the bar that ended it. *)
Theorem later_trades_take_later_signals self df signals ledger :
  _simulate_trades self df signals = inr ledger ->
  forall i j a b, (i < j)%nat ->
    ledger !! i = Some a -> ledger !! j = Some b ->
    exists signal,
      signal ∈ signals /\ entered_on self signal b
      /\ exit_time a < sig_timestamp signal.
Proof.
  intros Hrun. apply _simulate_trades_audited in Hrun as (_ & Hchain & _).
  intros i j a b Hij Hi Hj.
  exact (StronglySorted_lookup_lt _ _ Hchain i j a b Hij Hi Hj).
Qed.

(** The short signal stamped at the second bar, on which the long position
    leaves by its target, is dropped: the second trade is taken on the
    signal of the third bar. *)
Lemma later_trades_take_later_signals_witness :
  exists ledger a b,
    _simulate_trades default_backtester audit_bars audit_signals = inr ledger
    /\ ledger = [a; b]
    /\ (exit_time a, entry_time b, entry_price b)
       = (minute, 2 * minute, (104.5 * (1 - 5 / 10000))%float)
    /\ exists signal,
         signal ∈ audit_signals /\ entered_on default_backtester signal b
         /\ exit_time a < sig_timestamp signal.
Proof.
  eexists. eexists. eexists. split; [vm_compute; reflexivity|].
  split; [reflexivity|]. split; [reflexivity|].
  refine (later_trades_take_later_signals default_backtester audit_bars
            audit_signals _ _ 0%nat 1%nat _ _ _ _ _);
    [vm_compute; reflexivity|lia|reflexivity|reflexivity].
Defined.

(** Bars that come before the first signal of the queue leave a flat engine
    as it is. *)
Lemma simulate_loop_idle self n s0 queue before :
  Forall (fun row => exists t, row_timestamp row = Some t
                               /\ t < sig_timestamp s0) before ->
  forall rest bar_idx,
    simulate_loop self n bar_idx (before ++ rest)
      {| pending := s0 :: queue; open_position := None; trades := [] |}
    = simulate_loop self n (bar_idx + length before) rest
        {| pending := s0 :: queue; open_position := None; trades := [] |}.
Proof.
  induction 1 as [|row before (t & Ht & Hlt) _ IH]; intros rest bar_idx.
  - cbn. rewrite Nat.add_0_r. reflexivity.
  - cbn [app simulate_loop length]. unfold process_bar at 1, row_time.
    rewrite Ht. cbn [bind ok pending queue_signals].
    replace (sig_timestamp s0 <=? t) with false
      by (symmetry; apply Z.leb_gt; exact Hlt).
    cbn. rewrite IH.
    f_equal. lia.
Qed.

(** The loop only appends to the ledger. *)
Lemma simulate_loop_appends self n rows :
  forall bar_idx st st',
    simulate_loop self n bar_idx rows st = inr st' ->
    exists more, trades st' = trades st ++ more.
Proof.
  induction rows as [|row rest IH]; intros bar_idx st st' H.
  - injection H as <-. exists []. rewrite app_nil_r. reflexivity.
  - cbn in H. bind_step H as st1 Hst1.
    apply IH in H as [more Hmore].
    apply process_bar_step in Hst1 as (timestamp & _ & _ & Hcase).
    destruct Hcase
      as [(_ & _ & _ & Ht)
         |(pos & _ & [(_ & Ht & _)|(? & ? & ? & trade & _ & _ & _ & _ & Ht)])];
      rewrite Ht in Hmore; [eauto..|].
    exists (trade :: more). rewrite Hmore, <- app_assoc. reflexivity.
Qed.

(** A position that is open when bars are left is closed into the next
    entry of the ledger. *)
Lemma simulate_loop_closes self n rows :
  forall bar_idx st st' pos,
    open_position st = Some pos ->
    rows <> [] -> (bar_idx + length rows = n)%nat ->
    simulate_loop self n bar_idx rows st = inr st' ->
    exists timestamp reason price trade more,
      close_position self pos timestamp reason price = inr trade
      /\ trades st' = trades st ++ trade :: more.
Proof.
  induction rows as [|row rest IH]; intros bar_idx st st' pos Hpos Hne Hlen H;
    [congruence|].
  cbn in H. bind_step H as st1 Hst1. cbn [length] in Hlen.
  apply process_bar_step in Hst1 as (timestamp & _ & _ & Hcase).
  destruct Hcase as [(Hflat & _)|(pos' & Horigin & Hcase)]; [congruence|].
  assert (pos' = pos) as ->
    by (destruct Horigin as [Hold|[Hflat _]]; congruence).
  destruct Hcase
    as [(Ho & Ht & Hnotlast)
       |(close & reason & price & trade & _ & _ & Hc & _ & Ht)].
  - destruct (IH (S bar_idx) st1 st' pos Ho) as (ts & r & p & trade & more & Hc & Hmore);
      [destruct rest; [cbn in Hlen; lia|discriminate]|lia|exact H|].
    rewrite Ht in Hmore. eauto 8.
  - apply simulate_loop_appends in H as [more Hmore].
    rewrite Ht, <- app_assoc in Hmore. eauto 8.
Qed.

(** X6. The earliest signal is always traded, on the first bar that is not
    earlier than it.  Let [s0] be the head of the sorted signal list (the
    earliest signal, the first of the input among those of the same
    timestamp), and let [row] be the first bar of a runnable frame (every
    row has its timestamp and a close that is a number, and the bars are
    less than 2^63 nanoseconds apart) whose timestamp is not before the one
    of [s0].  Then the run returns a ledger that is not empty, and its
    first trade is the position taken on [s0], entered at the timestamp of
    [row]. *)
Theorem earliest_signal_is_traded
    self df signals s0 queue before row after timestamp :
  sorted_signals signals = s0 :: queue ->
  df = before ++ row :: after ->
  runnable df ->
  Forall (fun t => t < sig_timestamp s0) (bar_times before) ->
  row_timestamp row = Some timestamp ->
  sig_timestamp s0 <= timestamp ->
  exists trade later,
    _simulate_trades self df signals = inr (trade :: later)
    /\ entered_on self s0 trade
    /\ entry_time trade = timestamp.
Proof.
  intros Hsorted -> Hrunnable Hbefore Hts Hdue.
  destruct (_simulate_trades_ok self _ signals Hrunnable) as [ledger Hrun].
  rewrite Hrun. destruct Hrunnable as [Hreadable _].
  assert (Hidle : Forall (fun row => exists t, row_timestamp row = Some t
                                       /\ t < sig_timestamp s0) before).
  { apply Forall_app in Hreadable as [Hreadable _].
    clear -Hreadable Hbefore. unfold bar_times in Hbefore.
    induction Hreadable as [|r rest [[t Ht] _] _ IH]; [constructor|].
    cbn in Hbefore. rewrite Ht in Hbefore. cbn in Hbefore.
    apply Forall_cons in Hbefore as [Hlt Hbefore].
    constructor; [eauto|auto]. }
  unfold _simulate_trades in Hrun. bind_step Hrun as final Hfinal.
  unfold simulate_final in Hfinal.
  destruct signals as [|s signals]; [discriminate Hsorted|].
  rewrite df_empty_timed in Hfinal;
    [|destruct before; discriminate
     |eapply Forall_impl; [exact Hreadable|]; cbn; tauto].
  bind_step Hfinal as st Hloop.
  injection Hfinal as <-. injection Hrun as <-.
  rewrite Hsorted, (simulate_loop_idle _ _ _ _ _ Hidle) in Hloop.
  cbn [simulate_loop] in Hloop. bind_step Hloop as st1 Hst1.
  apply process_bar_step in Hst1 as (ts & Hts' & _ & Hcase).
  rewrite Hts in Hts'. injection Hts' as <-.
  cbn [pending open_position trades queue_signals] in Hcase.
  replace (sig_timestamp s0 <=? timestamp) with true in Hcase
    by (symmetry; apply Z.leb_le; exact Hdue).
  destruct (queue_signals timestamp queue) as [triggered queue'].
  cbn [fst snd] in Hcase.
  destruct Hcase as [(_ & Hnil & _)|(pos & Horigin & Hcase)];
    [discriminate Hnil|].
  destruct Horigin as [Hold|(_ & signal & rest & E & ->)];
    [discriminate Hold|].
  injection E as <- _.
  assert (Hgoal : exists ts reason price trade more,
             close_position self
               (enter_position (slippage_bps self / 10000)%float timestamp s0)
               ts reason price = inr trade
             /\ trades st = trade :: more).
  { destruct Hcase
      as [(Ho & Ht & Hnotlast)
         |(close & reason & price & trade & _ & _ & Hc & _ & Ht)].
    - eapply simulate_loop_closes in Hloop
        as (ts & r & p & trade & more & Hc & Hmore); [|exact Ho| |].
      + rewrite Ht in Hmore. exists ts, r, p, trade, more.
        split; [exact Hc|exact Hmore].
      + destruct after; [|discriminate].
        rewrite length_app in Hnotlast. cbn in Hnotlast. lia.
      + rewrite length_app. cbn. lia.
    - apply simulate_loop_appends in Hloop as [more Hmore].
      rewrite Ht in Hmore. exists timestamp, reason, price, trade, more.
      split; [exact Hc|exact Hmore]. }
  destruct Hgoal as (ts & reason & price & trade & more & Hc & ->).
  exists trade, more. split; [reflexivity|].
  split; [eapply close_position_entered; [exact Hdue|exact Hc]|].
  apply close_position_fields in Hc as [He _]. exact He.
Qed.

(** The earliest of the three signals of the audit is the long one stamped
    at the first bar, though it is given second: the first trade is taken on
    it. *)
Lemma earliest_signal_is_traded_witness :
  exists trade later,
    _simulate_trades default_backtester audit_bars audit_signals
    = inr (trade :: later)
    /\ entered_on default_backtester (signal_at 0 BUY 100 99 105) trade
    /\ entry_time trade = 0.
Proof.
  apply (earliest_signal_is_traded default_backtester audit_bars
           audit_signals (signal_at 0 BUY 100 99 105)
           [signal_at minute SELL 105 111 100;
            signal_at (2 * minute) SELL 104.5 110 100]
           [] (ohlc_bar 0 101 99.5 100)
           [ohlc_bar minute 106 100 105;
            ohlc_bar (2 * minute) 105 104 104.5;
            ohlc_bar (3 * minute) 105 104 104.5] 0).
  - vm_compute. reflexivity.
  - reflexivity.
  - unfold audit_bars. runnable_frame.
  - constructor.
  - reflexivity.
  - vm_compute. discriminate.
Defined.

(* ===================================================================== *)
(** ** The labelling stage of the feature pipeline *)
(* ===================================================================== *)

Lemma get_column_spec key df column :
  get_column key df = inr column ->
  Forall2 (fun row cell => row_values row !! key = Some cell) df column.
Proof.
  revert column. induction df as [|row rest IH]; intros column H.
  - injection H as <-. constructor.
  - cbn in H. bind_step H as cell Hcell. bind_step H as cells Hcells.
    injection H as <-. constructor; [|auto].
    unfold row_getitem in Hcell.
    destruct (row_values row !! key); [|discriminate].
    injection Hcell as ->. reflexivity.
Qed.

Lemma get_column_ok key df :
  Forall (fun row => is_Some (row_values row !! key)) df ->
  exists column, get_column key df = inr column.
Proof.
  induction 1 as [|row rest [cell Hcell] _ [cells IH]]; [eexists; reflexivity|].
  cbn. unfold row_getitem. rewrite Hcell, IH. cbn. eauto.
Qed.

Lemma shift_lookup periods column i x :
  column !! i = Some x ->
  shift periods column !! i
  = Some (let j := Z.of_nat i - periods in
          if (0 <=? j) && (j <? Z.of_nat (length column))
          then default nan (column !! Z.to_nat j)
          else nan).
Proof.
  intros Hi. unfold shift. rewrite list_lookup_imap, Hi. reflexivity.
Qed.

(** The column read from the frame, row by row. *)
Lemma close_ahead_column H (df : DataFrame) close i :
  Forall2 (fun row cell => row_values row !! "close" = Some cell) df close ->
  (let j := Z.of_nat i - - H in
   if (0 <=? j) && (j <? Z.of_nat (length close))
   then default nan (close !! Z.to_nat j)
   else nan)
  = close_ahead H df i.
Proof.
  intros Hcol. unfold close_ahead. cbn zeta.
  rewrite <- (Forall2_length _ _ _ Hcol).
  replace (Z.of_nat i - - H) with (Z.of_nat i + H) by lia.
  destruct ((0 <=? Z.of_nat i + H) && (Z.of_nat i + H <? Z.of_nat (length df)));
    [|reflexivity].
  destruct (df !! Z.to_nat (Z.of_nat i + H)) as [row|] eqn:Hrow.
  - destruct (Forall2_lookup_l _ _ _ _ _ Hcol Hrow) as (cell & -> & Hcell).
    unfold row_get. rewrite Hcell. reflexivity.
  - apply lookup_ge_None in Hrow.
    rewrite (Forall2_length _ _ _ Hcol) in Hrow.
    apply lookup_ge_None in Hrow. rewrite Hrow. reflexivity.
Qed.

(** The labelled frame, row by row. *)
Lemma _add_labels_lookup config (df : DataFrame) out :
  _add_labels config df = inr out ->
  length out = length df
  /\ forall i row, df !! i = Some row ->
       exists c, row_values row !! "close" = Some c
                 /\ out !! i = Some (labelled_as config df i row c).
Proof.
  unfold _add_labels. intros H. bind_step H as close Hclose.
  injection H as <-. apply get_column_spec in Hclose.
  pose proof (Forall2_length _ _ _ Hclose) as Hlen.
  split.
  - unfold set_column, assign_where, replace_zero, shift.
    repeat first [rewrite length_zip_with | rewrite length_map
                 | rewrite length_imap | rewrite length_replicate].
    lia.
  - intros i row Hrow.
    destruct (Forall2_lookup_l _ _ _ _ _ Hclose Hrow) as (c & Hc & Hcell).
    exists c. split; [exact Hcell|].
    unfold set_column, assign_where, replace_zero.
    set (fr := zip_with PrimFloat.div
                 (zip_with PrimFloat.sub
                    (shift (- label_horizon config) close) close)
                 (map (fun x => if PrimFloat.eqb x 0 then nan else x) close)).
    assert (Hfr : fr !! i
                  = Some (forward_return (label_horizon config) df i c)).
    { unfold fr.
      rewrite !lookup_zip_with, (shift_lookup _ _ _ _ Hc), list_lookup_fmap, Hc.
      cbn. rewrite (close_ahead_column _ df _ _ Hclose). reflexivity. }
    unfold DataFrame in *.
    rewrite !lookup_zip_with, !list_lookup_fmap, !lookup_zip_with,
      !list_lookup_fmap, Hfr.
    cbn [fmap mbind option_fmap option_bind option_map].
    rewrite lookup_replicate_2
      by (rewrite length_zip_with; apply lookup_lt_Some in Hfr, Hrow; lia).
    rewrite Hrow. cbn [fmap mbind option_fmap option_bind option_map].
    unfold labelled_as, label_of.
    destruct (PrimFloat.leb _ (short_threshold config)); [reflexivity|].
    destruct (PrimFloat.leb (long_threshold config) _); reflexivity.
Qed.

(** NaN goes through the subtraction and the division, and is on neither
    side of any threshold. *)
Lemma sub_nan_l x y :
  PrimFloat.is_nan x = true -> PrimFloat.is_nan (x - y)%float = true.
Proof.
  intros H. apply is_nan_spec in H. apply is_nan_spec.
  rewrite FloatAxioms.sub_spec, H. reflexivity.
Qed.

Lemma div_nan_l x y :
  PrimFloat.is_nan x = true -> PrimFloat.is_nan (x / y)%float = true.
Proof.
  intros H. apply is_nan_spec in H. apply is_nan_spec.
  rewrite FloatAxioms.div_spec, H. reflexivity.
Qed.

Lemma div_nan_r x y :
  PrimFloat.is_nan y = true -> PrimFloat.is_nan (x / y)%float = true.
Proof.
  intros H. apply is_nan_spec in H. apply is_nan_spec.
  rewrite FloatAxioms.div_spec, H. destruct (Prim2SF x); reflexivity.
Qed.

Lemma leb_nan_l x y : PrimFloat.is_nan x = true -> PrimFloat.leb x y = false.
Proof.
  intros H. apply is_nan_spec in H.
  rewrite FloatAxioms.leb_spec, H. reflexivity.
Qed.

Lemma leb_nan_r x y : PrimFloat.is_nan y = true -> PrimFloat.leb x y = false.
Proof.
  intros H. apply is_nan_spec in H.
  rewrite FloatAxioms.leb_spec, H. destruct (Prim2SF x); reflexivity.
Qed.

Lemma label_of_values config r :
  label_of config r = -1 \/ label_of config r = 0 \/ label_of config r = 1.
Proof.
  unfold label_of. destruct (PrimFloat.leb r _); [auto|].
  destruct (PrimFloat.leb _ r); auto.
Qed.

Lemma label_of_nan config r :
  PrimFloat.is_nan r = true -> label_of config r = 0.
Proof.
  intros H. unfold label_of.
  rewrite (leb_nan_l _ _ H), (leb_nan_r _ _ H). reflexivity.
Qed.

(** No forward return is known past the end of the frame, nor on a zero
    close. *)
Lemma forward_return_unknown H (df : DataFrame) i c :
  Z.of_nat (length df) <= Z.of_nat i + H \/ Z.of_nat i + H < 0
  \/ PrimFloat.eqb c 0 = true ->
  PrimFloat.is_nan (forward_return H df i c) = true.
Proof.
  unfold forward_return, close_ahead. cbn zeta. intros [Hend|[Hneg|Hzero]].
  - replace (Z.of_nat i + H <? Z.of_nat (length df)) with false
      by (symmetry; apply Z.ltb_ge; lia).
    rewrite andb_false_r. apply div_nan_l, sub_nan_l. reflexivity.
  - replace (0 <=? Z.of_nat i + H) with false
      by (symmetry; apply Z.leb_gt; lia).
    apply div_nan_l, sub_nan_l. reflexivity.
  - rewrite Hzero. apply div_nan_r. reflexivity.
Qed.

Lemma labelled_as_cells config (df : DataFrame) i row c :
  let r := forward_return (label_horizon config) df i c in
  let row' := labelled_as config df i row c in
  row_timestamp row' = row_timestamp row
  /\ row_values row' !! "future_return" = Some r
  /\ row_values row' !! "label" = Some (float_of_Z (label_of config r))
  /\ forall key, key <> "future_return" -> key <> "label" ->
       row_values row' !! key = row_values row !! key.
Proof.
  cbn zeta. unfold labelled_as, set_cell. cbn [row_timestamp row_values].
  split; [reflexivity|]. split.
  - rewrite lookup_insert_ne by discriminate. apply lookup_insert_eq.
  - split; [apply lookup_insert_eq|].
    intros key H1 H2. rewrite !lookup_insert_ne by congruence. reflexivity.
Qed.

Lemma get_column_missing key (df : DataFrame) row :
  row ∈ df -> row_values row !! key = None ->
  get_column key df = inl (KeyError key).
Proof.
  intros Hin Hnone. induction df as [|r rest IH]; [inversion Hin|].
  cbn. unfold row_getitem. destruct (row_values r !! key) as [cell|] eqn:E.
  - apply elem_of_cons in Hin as [->|Hin]; [congruence|].
    rewrite (IH Hin). reflexivity.
  - reflexivity.
Qed.

(** X7. The labelling stage adds two columns and touches nothing else.  On
    a frame that has rows, all with a ["close"] cell, and for a horizon that
    [shift] accepts (an [int64] number of rows), it returns a frame; the
    frame it returns has the length of its input, each row keeps its
    timestamp and every cell other than ["future_return"] and ["label"],
    and carries these two.  On a frame with a row that lacks the ["close"]
    cell it raises [KeyError]. *)
Theorem labelling_adds_two_columns config (df : DataFrame) :
  (df <> [] -> Z.abs (label_horizon config) < 2 ^ 63 ->
   Forall (fun row => is_Some (row_values row !! "close")) df ->
   exists out, _add_labels config df = inr out)
  /\ (forall row, row ∈ df -> row_values row !! "close" = None ->
      _add_labels config df = inl (KeyError "close"))
  /\ (forall out, _add_labels config df = inr out ->
      length out = length df
      /\ forall i row', out !! i = Some row' ->
           exists row,
             df !! i = Some row
             /\ row_timestamp row' = row_timestamp row
             /\ is_Some (row_values row' !! "future_return")
             /\ is_Some (row_values row' !! "label")
             /\ forall key, key <> "future_return" -> key <> "label" ->
                  row_values row' !! key = row_values row !! key).
Proof.
  split; [|split].
  - intros _ _ Hclose.
    destruct (get_column_ok "close" df Hclose) as [column E].
    unfold _add_labels. rewrite E. cbn [bind]. eauto.
  - intros row Hin Hnone. unfold _add_labels.
    rewrite (get_column_missing _ _ _ Hin Hnone). reflexivity.
  - intros out Hout. apply _add_labels_lookup in Hout as [Hlen Hrows].
    split; [exact Hlen|]. intros i row' Hi.
    destruct (df !! i) as [row|] eqn:Hrow.
    2:{ apply lookup_lt_Some in Hi. apply lookup_ge_None in Hrow. lia. }
    destruct (Hrows i row Hrow) as (c & Hc & Hout). rewrite Hout in Hi.
    injection Hi as <-. exists row. split; [reflexivity|].
    destruct (labelled_as_cells config df i row c) as (Ht & Hr & Hl & Hk).
    split; [exact Ht|]. split; [eauto|]. split; [eauto|]. exact Hk.
Qed.

Lemma labelling_adds_two_columns_witness :
  (exists out, _add_labels two_bars_one_percent six_closes = inr out
               /\ length out = length six_closes)
  /\ _add_labels two_bars_one_percent
       [close_bar 0 100; {| row_timestamp := Some minute; row_values := ∅ |}]
     = inl (KeyError "close").
Proof.
  destruct (labelling_adds_two_columns two_bars_one_percent six_closes)
    as (Hok & _ & Hshape).
  destruct (labelling_adds_two_columns two_bars_one_percent
              [close_bar 0 100;
               {| row_timestamp := Some minute; row_values := ∅ |}])
    as (_ & Hmissing & _).
  split.
  - destruct Hok as [out Hout].
    + discriminate.
    + vm_compute. reflexivity.
    + unfold six_closes.
      repeat first [apply List.Forall_nil
                   | apply List.Forall_cons; [vm_compute; eauto|]].
    + exists out. split; [exact Hout|]. apply (Hshape out Hout).
  - apply (Hmissing {| row_timestamp := Some minute; row_values := ∅ |}).
    + right. left.
    + reflexivity.
Defined.

(** X8. What the labels say.  In the labelled frame the label of a row is
    -1, 0 or 1, stored as a number next to the forward return [r] of the
    row: it is -1 when [r <= short_threshold], otherwise 1 when
    [r >= long_threshold], otherwise 0 (the short test is made last, and
    wins where both hold).  A row whose forward return is not known is
    labelled 0; this is the case of the rows that have no row
    [horizon] places further in the frame (the last [horizon] rows, for a
    positive horizon) and of the rows whose close is zero. *)
Theorem labels_follow_the_forward_return config (df : DataFrame) out :
  _add_labels config df = inr out ->
  forall i row', out !! i = Some row' ->
    exists c r label,
      (exists row, df !! i = Some row /\ row_values row !! "close" = Some c)
      /\ r = forward_return (label_horizon config) df i c
      /\ row_values row' !! "future_return" = Some r
      /\ row_values row' !! "label" = Some (float_of_Z label)
      /\ label = label_of config r
      /\ (label = -1 \/ label = 0 \/ label = 1)
      /\ (PrimFloat.is_nan r = true -> label = 0)
      /\ (Z.of_nat (length df) <= Z.of_nat i + label_horizon config
          \/ Z.of_nat i + label_horizon config < 0
          \/ PrimFloat.eqb c 0 = true ->
          PrimFloat.is_nan r = true).
Proof.
  intros Hout i row' Hi. apply _add_labels_lookup in Hout as [Hlen Hrows].
  destruct (df !! i) as [row|] eqn:Hrow.
  2:{ apply lookup_lt_Some in Hi. apply lookup_ge_None in Hrow. lia. }
  destruct (Hrows i row Hrow) as (c & Hc & Hout). rewrite Hout in Hi.
  injection Hi as <-.
  destruct (labelled_as_cells config df i row c) as (_ & Hr & Hl & _).
  exists c, (forward_return (label_horizon config) df i c),
    (label_of config (forward_return (label_horizon config) df i c)).
  split; [eauto|]. split; [reflexivity|]. split; [exact Hr|].
  split; [exact Hl|]. split; [reflexivity|].
  split; [apply label_of_values|]. split; [apply label_of_nan|].
  apply forward_return_unknown.
Qed.

(** Two bars ahead at one percent, on the closes 100, 101, 100, 103, 99,
    100: the labels are 0, 1, -1, -1, 0, 0, and the fifth row, which has no
    row two places further, has no known forward return. *)
Lemma labels_follow_the_forward_return_witness :
  exists out,
    _add_labels two_bars_one_percent six_closes = inr out
    /\ omap (fun row => row_values row !! "label") out
       = [0; 1; -1; -1; 0; 0]%float
    /\ exists row' c r label,
         out !! 4%nat = Some row'
         /\ r = forward_return 2 six_closes 4 c
         /\ row_values row' !! "label" = Some (float_of_Z label)
         /\ PrimFloat.is_nan r = true /\ label = 0.
Proof.
  eexists. split; [vm_compute; reflexivity|]. split; [vm_compute; reflexivity|].
  eexists.
  destruct (labels_follow_the_forward_return two_bars_one_percent six_closes
              _ ltac:(vm_compute; reflexivity) 4%nat _ ltac:(reflexivity))
    as (c & r & label & _ & Hr & _ & Hl & _ & _ & Hnan & Hend).
  exists c, r, label. split; [reflexivity|]. split; [exact Hr|].
  split; [exact Hl|].
  assert (Hn : PrimFloat.is_nan r = true) by (apply Hend; left; cbn; lia).
  split; [exact Hn|exact (Hnan Hn)].
Defined.

Lemma Forall2_right {A B : Type} (R : A -> B -> Prop) (P : B -> Prop) l k :
  Forall2 R l k -> Forall (fun x => forall y, R x y -> P y) l -> Forall P k.
Proof.
  induction 1 as [|x y l k Hxy _ IH]; intros Hl; [constructor|].
  apply Forall_cons in Hl as [Hx Hl]. constructor; auto.
Qed.

Lemma iterrows_from_elem idx rows indexed :
  indexed ∈ iterrows_from idx rows -> indexed.2 ∈ rows.
Proof.
  revert idx. induction rows as [|row rest IH]; intros idx H; cbn in H.
  - inversion H.
  - apply elem_of_cons in H as [->|H]; [left|right; eauto].
Qed.

Lemma iterrows_from_length idx rows :
  length (iterrows_from idx rows) = length rows.
Proof.
  revert idx. induction rows as [|row rest IH]; intros idx; cbn; [|rewrite IH];
    reflexivity.
Qed.

Lemma filter_length_le {A : Type} (P : A -> bool) l :
  (length (List.filter P l) <= length l)%nat.
Proof.
  induction l as [|x rest IH]; cbn; [lia|]. destruct (P x); cbn; lia.
Qed.

(** A filter that rejects everything from position [k] on keeps [k]
    elements at most. *)
Lemma filter_length_prefix {A : Type} (P : A -> bool) l :
  forall k,
    (forall i x, l !! i = Some x -> (k <= i)%nat -> P x = false) ->
    (length (List.filter P l) <= k)%nat.
Proof.
  induction l as [|x rest IH]; intros k H; cbn; [lia|].
  destruct k as [|k].
  - rewrite (H 0%nat x eq_refl) by lia.
    apply (IH 0%nat). intros i y Hi _. apply (H (S i) y Hi). lia.
  - assert (Hrest : (length (List.filter P rest) <= k)%nat).
    { apply IH. intros i y Hi Hk. apply (H (S i) y Hi). lia. }
    destruct (P x); cbn; lia.
Qed.

Lemma py_int_label config r :
  py_int (float_of_Z (label_of config r)) = inr (label_of config r)
  /\ PrimFloat.is_infinity (float_of_Z (label_of config r)) = false.
Proof.
  destruct (label_of_values config r) as [-> | [-> | ->]];
    split; vm_compute; reflexivity.
Qed.

(** The labelling and the vectorised evaluation, one after the other. *)
Lemma labelled_run_spec
    float_pow config (df : DataFrame) report :
  0 <= label_horizon config ->
  VectorizedBacktester_run_labelling float_pow config df = inr report ->
  Forall (looks_ahead config df) (report_trades report)
  /\ Z.of_nat (length (report_trades report))
     <= Z.max 0 (Z.of_nat (length df) - label_horizon config).
Proof.
  intros Hh Hrun. unfold VectorizedBacktester_run_labelling in Hrun.
  bind_step Hrun as out Hout.
  destruct (_add_labels_lookup config df out Hout) as [Hlen Hrows].
  assert (Hrow_of : forall row', row' ∈ out ->
            exists i row c,
              df !! i = Some row /\ row_values row !! "close" = Some c
              /\ row' = labelled_as config df i row c).
  { intros row' Hin. apply list_elem_of_lookup_1 in Hin as [i Hi].
    destruct (df !! i) as [row|] eqn:Hrow.
    2:{ apply lookup_lt_Some in Hi. apply lookup_ge_None in Hrow. lia. }
    destruct (Hrows i row Hrow) as (c & Hc & Hi'). pose proof (eq_trans (eq_sym Hi') Hi) as E. injection E as <-. eauto 6. }
  unfold VectorizedBacktester_run in Hrun.
  bind_step Hrun as cleaned Hcleaned. bind_step Hrun as ledger Hledger.
  unfold report_of in Hrun. bind_step Hrun as m Hm. injection Hrun as <-.
  cbn [report_trades]. apply dropna_inv in Hcleaned. subst cleaned.
  set (features := List.filter known_row out) in *.
  unfold vector_trades in Hledger.
  pose proof (vector_loop_inv (label_horizon config) features Hh features
                0%nat ledger eq_refl Hledger) as Hall.
  split.
  - eapply Forall2_right; [exact Hall|].
    apply Forall_forall. intros [idx row'] Hin t Ht. cbn [fst snd] in Ht.
    apply list_elem_of_In, filter_In in Hin as [Hin _].
    apply list_elem_of_In, iterrows_from_elem in Hin. cbn [snd] in Hin.
    apply list_elem_of_In, filter_In in Hin as [Hin Hknown].
    apply list_elem_of_In in Hin.
    destruct (Hrow_of row' Hin) as (i & row & c & Hrow & Hc & ->).
    destruct (labelled_as_cells config df i row c) as (_ & Hr & Hl & Hk).
    cbn zeta in Hr, Hl.
    set (r := forward_return (label_horizon config) df i c) in *.
    unfold known_row in Hknown. rewrite Hr, Hl in Hknown.
    apply negb_true_iff, orb_false_iff in Hknown as [Hnan _].
    destruct Ht as (label & close & fr & Hlabel & Hnz & Hclose' & Hfr
                    & Hside & Hentry & Hexit & _ & _ & Hheld & _).
    rewrite Hk, Hc in Hclose' by discriminate. injection Hclose' as <-.
    rewrite Hr in Hfr. injection Hfr as <-.
    unfold row_label in Hlabel. rewrite Hl in Hlabel.
    rewrite (proj1 (py_int_label config r)) in Hlabel.
    injection Hlabel as <-.
    exists i, row, c. split; [exact Hrow|]. split; [exact Hc|].
    split.
    { destruct (Z_lt_le_dec (Z.of_nat i + label_horizon config)
                  (Z.of_nat (length df))) as [Hlt|Hge]; [exact Hlt|].
      pose proof (forward_return_unknown (label_horizon config) df i c
                    (or_introl Hge)) as Hn.
      fold r in Hn. congruence. }
    cbn zeta. fold r. split; [exact Hnan|]. split; [exact Hentry|].
    split; [exact Hexit|]. split; [|exact Hheld].
    rewrite Hside. unfold label_of in *.
    destruct (PrimFloat.leb r (short_threshold config)); [right; auto|].
    destruct (PrimFloat.leb (long_threshold config) r); [left; auto|].
    congruence.
  - apply Forall2_length in Hall. rewrite <- Hall.
    pose proof (filter_length_le emits (iterrows features)) as H1.
    unfold iterrows in H1. rewrite iterrows_from_length in H1.
    assert (H2 : (length features
                  <= Z.to_nat (Z.max 0 (Z.of_nat (length df)
                                        - label_horizon config)))%nat).
    { apply filter_length_prefix. intros i row' Hi Hk.
      destruct (df !! i) as [row|] eqn:Hrow.
      2:{ apply lookup_lt_Some in Hi. apply lookup_ge_None in Hrow. lia. }
      destruct (Hrows i row Hrow) as (c & Hc & Hi'). pose proof (eq_trans (eq_sym Hi') Hi) as E. injection E as <-.
      destruct (labelled_as_cells config df i row c) as (_ & Hr & Hl & _).
      unfold known_row. rewrite Hr, Hl.
      rewrite (forward_return_unknown (label_horizon config) df i c)
        by (left; lia).
      reflexivity. }
    unfold iterrows. lia.
Qed.

(** X9. The two stages together: the vectorised evaluation of a frame
    labelled by the pipeline, for a horizon that is not negative.  In every
    report the run returns, every trade of the ledger was decided on the
    realised forward return [r] of its own row, which looks [horizon] rows
    ahead: the trade is long when [r >= long_threshold] and short when
    [r <= short_threshold], is entered at the close [c] of the row and left
    at [c * (1 + r)].  The rows that have no row [horizon] places further
    give no trade, so the ledger has [max(n - horizon, 0)] entries at most
    for a frame of [n] rows. *)
Theorem labelled_run_trades_on_realised_returns
    float_pow config (df : DataFrame) report :
  0 <= label_horizon config ->
  VectorizedBacktester_run_labelling float_pow config df = inr report ->
  Forall (looks_ahead config df) (report_trades report)
  /\ Z.of_nat (length (report_trades report))
     <= Z.max 0 (Z.of_nat (length df) - label_horizon config).
Proof. apply labelled_run_spec. Qed.

(** On the six closes, two bars ahead: four rows have a forward return,
    three of them a label, and the ledger holds their three trades. *)
Lemma labelled_run_trades_on_realised_returns_witness :
  exists report,
    VectorizedBacktester_run_labelling (fun x _ => x) two_bars_one_percent
      six_closes = inr report
    /\ map (fun t => (side t, entry_price t)) (report_trades report)
       = [(BUY, 101); (SELL, 100); (SELL, 103)]%float
    /\ Forall (looks_ahead two_bars_one_percent six_closes)
         (report_trades report)
    /\ Z.of_nat (length (report_trades report)) <= Z.max 0 (6 - 2).
Proof.
  eexists. split; [vm_compute; reflexivity|].
  split; [vm_compute; reflexivity|].
  apply (labelled_run_trades_on_realised_returns (fun x _ => x)
           two_bars_one_percent six_closes).
  - cbn. lia.
  - vm_compute. reflexivity.
Defined.

(* ===================================================================== *)
(** ** The prices of the vectorised ledger *)
(* ===================================================================== *)

(** A number that is not infinite is a zero or a finite double. *)
Lemma Prim2SF_finite x :
  PrimFloat.is_finite x = true ->
  match Prim2SF x with
  | S754_zero _ | S754_finite _ _ _ => True
  | _ => False
  end.
Proof.
  unfold PrimFloat.is_finite. intros H.
  apply negb_true_iff, orb_false_iff in H as [Hnan Hinf].
  unfold Prim2SF. rewrite Hnan, Hinf.
  destruct (PrimFloat.is_zero x); [exact I|].
  destruct (FloatOps.Z.frexp x) as [r e].
  destruct (shr_fexp _ _ _ _ _) as [shr e'].
  destruct (shr_m shr); exact I.
Qed.

(** The difference of a number with itself is zero. *)
Lemma sub_diag_finite x :
  PrimFloat.is_finite x = true -> (x - x)%float = 0%float.
Proof.
  intros H. apply Prim2SF_finite in H.
  rewrite <- (SF2Prim_Prim2SF (x - x)), FloatAxioms.sub_spec.
  destruct (Prim2SF x) as [s| | |s m e]; try contradiction.
  - destruct s; reflexivity.
  - unfold SF64sub, SFsub. cbv zeta. rewrite Z.sub_diag. reflexivity.
Qed.

Lemma vector_risk_without_sma20 row close :
  row_values row !! "sma20" = None -> PrimFloat.is_finite close = true ->
  vector_risk row close = 1e-6%float.
Proof.
  intros Hnone Hfin. unfold vector_risk, row_get. rewrite Hnone.
  rewrite (sub_diag_finite close Hfin). vm_compute. reflexivity.
Qed.

Lemma vector_trade_priced horizon timestamp n idx row t :
  vector_trade horizon timestamp n idx row = inr (Some t) ->
  vector_priced row t.
Proof.
  unfold vector_trade. intros H.
  bind_step H as label_cell Hcell. bind_step H as label Hlabel.
  destruct (label =? 0); [discriminate|].
  bind_step H as close Hclose. bind_step H as future_return Hfr.
  bind_step H as exit_t Hexit. bind_step H as entry_t Hentry.
  injection H as <-. unfold row_getitem in Hclose.
  destruct (row_values row !! "close") as [c|] eqn:Hc; [|discriminate].
  injection Hclose as ->. exists close.
  cbn [entry_price exit_price side pnl r_multiple stop_price target_price
       strategy].
  split; [exact Hc|]. split; [reflexivity|].
  split; [destruct (label =? 1); reflexivity|].
  split; [reflexivity|].
  assert (Hget : row_get row "close" close = close)
    by (unfold row_get; rewrite Hc; reflexivity).
  split; [rewrite Hget; destruct (label =? 1); reflexivity|].
  split; [reflexivity|]. split; [reflexivity|].
  apply vector_risk_without_sma20.
Qed.

Lemma vector_loop_emitted horizon timestamp n :
  forall rows idx ledger,
    vector_loop horizon timestamp n idx rows = inr ledger ->
    Forall (fun t => exists idx' row,
              row ∈ rows
              /\ vector_trade horizon timestamp n idx' row = inr (Some t))
      ledger.
Proof.
  induction rows as [|row rest IH]; intros idx ledger H.
  - injection H as <-. constructor.
  - cbn in H. bind_step H as emitted Hemitted. bind_step H as later Hlater.
    injection H as <-.
    assert (Hrest : Forall (fun t => exists idx' row0,
                      row0 ∈ row :: rest
                      /\ vector_trade horizon timestamp n idx' row0
                         = inr (Some t)) later).
    { eapply Forall_impl; [exact (IH _ _ Hlater)|]. cbn.
      intros t (idx' & row0 & Hin & Ht). exists idx', row0.
      split; [right; exact Hin|exact Ht]. }
    destruct emitted as [t|]; [|exact Hrest].
    constructor; [|exact Hrest]. exists idx, row. split; [left|exact Hemitted].
Qed.

Lemma dropna_elem (df : DataFrame) features row :
  dropna df = inr features -> row ∈ features -> row ∈ df.
Proof.
  revert features. induction df as [|r rest IH]; intros features H Hin.
  - injection H as <-. exact Hin.
  - cbn in H. bind_step H as fr Hfr. bind_step H as label Hlabel.
    bind_step H as rest' Hrest. injection H as <-.
    destruct (PrimFloat.is_nan fr || PrimFloat.is_nan label).
    + right. eauto.
    + apply elem_of_cons in Hin as [->|Hin]; [left|right; eauto].
Qed.

(** Every trade of a vectorised report is priced off a row of the frame. *)
Lemma VectorizedBacktester_run_priced
    float_pow horizon (market_data : DataFrame) report :
  VectorizedBacktester_run float_pow horizon market_data = inr report ->
  Forall (fun t => exists row, row ∈ market_data /\ vector_priced row t)
    (report_trades report).
Proof.
  unfold VectorizedBacktester_run. intros H.
  bind_step H as features Hfeatures. bind_step H as ledger Hledger.
  unfold report_of in H. bind_step H as m Hm. injection H as <-.
  cbn [report_trades]. unfold vector_trades in Hledger.
  eapply Forall_impl; [exact (vector_loop_emitted _ _ _ _ _ _ Hledger)|].
  cbn. intros t (idx & row & Hin & Ht). exists row.
  split; [eapply dropna_elem; eassumption|].
  eapply vector_trade_priced. exact Ht.
Qed.

(** X10. How the vectorised ledger is priced.  Every trade of a vectorised
    report is priced off one row of the input frame: it is entered at the
    close of the row, with no slippage and no commission in its pnl, which
    is the difference of exit and entry in the direction of the side; its
    target is the very price it is left at; its stop lies one risk from the
    close on the losing side and its R-multiple is the pnl divided by that
    risk, [max(|close - sma20|, 1e-6)].  On a frame without an ["sma20"]
    column the risk of every finite close is the floor [1e-6] itself. *)
Theorem vectorized_trades_are_priced_off_their_row
    float_pow horizon (market_data : DataFrame) report :
  VectorizedBacktester_run float_pow horizon market_data = inr report ->
  Forall (fun t => exists row, row ∈ market_data /\ vector_priced row t)
    (report_trades report).
Proof. apply VectorizedBacktester_run_priced. Qed.

(** The four labelled bars have no ["sma20"] column: the long trade of the
    first bar makes one point on a risk of a millionth of a point. *)
Lemma vectorized_trades_are_priced_off_their_row_witness :
  exists report,
    VectorizedBacktester_run (fun x _ => x) 2 four_labelled_bars = inr report
    /\ map (fun t => (side t, pnl t, PrimFloat.eqb (r_multiple t) (pnl t / 1e-6)))
         (report_trades report)
       = [(BUY, (100 * (1 + 0.01) - 100)%float, true);
          (SELL, (102 - 102 * (1 + -0.02))%float, true)]
    /\ Forall (fun t => exists row,
                 row ∈ four_labelled_bars /\ vector_priced row t)
         (report_trades report).
Proof.
  eexists. split; [vm_compute; reflexivity|]. split; [vm_compute; reflexivity|].
  apply (vectorized_trades_are_priced_off_their_row (fun x _ => x) 2
           four_labelled_bars).
  vm_compute. reflexivity.
Defined.

(* ===================================================================== *)
(** ** The volatility band strategy *)
(* ===================================================================== *)

Lemma SFcompare_None x y :
  SFcompare x y = None -> x = S754_nan \/ y = S754_nan.
Proof.
  destruct x as [sx|sx| |sx mx ex], y as [sy|sy| |sy my ey]; cbn; auto;
    discriminate.
Qed.

Lemma np_clip_range x :
  PrimFloat.is_nan (np_clip x 0 3) = true
  \/ (PrimFloat.leb 0 (np_clip x 0 3) = true
      /\ PrimFloat.leb (np_clip x 0 3) 3 = true).
Proof.
  unfold np_clip. cbv zeta.
  destruct (PrimFloat.ltb x 0) eqn:Hneg;
    [right; split; vm_compute; reflexivity|].
  destruct (PrimFloat.ltb 3 x) eqn:Hbig;
    [right; split; vm_compute; reflexivity|].
  destruct (PrimFloat.is_nan x) eqn:Hnan; [left; reflexivity|]. right.
  assert (Hx : Prim2SF x <> S754_nan).
  { intros E. apply is_nan_spec in E. congruence. }
  rewrite !FloatAxioms.leb_spec.
  rewrite FloatAxioms.ltb_spec in Hneg, Hbig. unfold SFleb, SFltb in *.
  rewrite (SFcompare_antisym (Prim2SF x) (Prim2SF 0)).
  rewrite (SFcompare_antisym (Prim2SF 3) (Prim2SF x)).
  split.
  - destruct (SFcompare (Prim2SF x) (Prim2SF 0)) as [[]|] eqn:E;
      try reflexivity; try discriminate.
    apply SFcompare_None in E as [E|E]; [contradiction|discriminate E].
  - destruct (SFcompare (Prim2SF 3) (Prim2SF x)) as [[]|] eqn:E;
      try reflexivity; try discriminate.
    apply SFcompare_None in E as [E|E]; [discriminate E|contradiction].
Qed.

(** Of two numbers, the first is at most the second or the second is below
    the first. *)
Lemma leb_false_ltb x y :
  PrimFloat.is_nan x = false -> PrimFloat.is_nan y = false ->
  PrimFloat.leb x y = false -> PrimFloat.ltb y x = true.
Proof.
  intros Hx Hy. rewrite FloatAxioms.leb_spec, FloatAxioms.ltb_spec.
  unfold SFleb, SFltb. rewrite (SFcompare_antisym (Prim2SF x) (Prim2SF y)).
  destruct (SFcompare (Prim2SF x) (Prim2SF y)) as [[]|] eqn:E; cbn;
    try discriminate; try reflexivity.
  intros _. apply SFcompare_None in E as [E|E]; apply is_nan_spec in E;
    congruence.
Qed.

(** A cell read with the default NaN that is not NaN is in the row. *)
Lemma row_get_number row key :
  PrimFloat.is_nan (row_get row key nan) = false ->
  row_values row !! key = Some (row_get row key nan).
Proof.
  unfold row_get. destruct (row_values row !! key); [reflexivity|].
  intros H. vm_compute in H. discriminate.
Qed.

Lemma vrb_signal_made self instrument prev row s :
  vrb_signal self instrument prev row = inr (Some s) ->
  vrb_made_of self instrument prev row s.
Proof.
  unfold vrb_signal.
  destruct (PrimFloat.is_nan (row_get row "sigma" nan)) eqn:Hsigma;
    [discriminate|].
  destruct (PrimFloat.leb (row_get row "sigma" nan) 0) eqn:Hpos;
    [discriminate|].
  destruct (PrimFloat.is_nan (row_get row "vwap" nan)) eqn:Hvwap;
    [discriminate|].
  destruct (PrimFloat.is_nan (row_get row "close" nan)) eqn:Hprice;
    [discriminate|].
  cbn [orb]. intros H. bind_step H as prev_close Hprev.
  unfold row_getitem in Hprev.
  destruct (row_values prev !! "close") as [pc|] eqn:Hpc; [|discriminate].
  injection Hprev as ->.
  apply row_get_number in Hsigma as Hs, Hvwap as Hv, Hprice as Hp.
  apply leb_false_ltb in Hpos; [|assumption|reflexivity].
  set (sigma := row_get row "sigma" nan) in *.
  set (vwap := row_get row "vwap" nan) in *.
  set (price := row_get row "close" nan) in *.
  assert (Hgoal : forall sd,
    match sd with
    | SELL =>
        PrimFloat.ltb (vwap + band_k self * sigma) prev_close = true
        /\ PrimFloat.leb price (vwap + band_k self * sigma) = true
    | BUY =>
        PrimFloat.ltb prev_close (vwap - band_k self * sigma) = true
        /\ PrimFloat.leb (vwap - band_k self * sigma) price = true
    end ->
    (let* signal :=
       _make_signal "VRB" (vrb_risk_fraction self) row instrument sd price
         match sd with
         | BUY => (price + stop_sigma_mult self * sigma)%float
         | SELL => (price - stop_sigma_mult self * sigma)%float
         end
         vwap
         (np_clip (PrimFloat.abs (price - vwap) / (sigma + 1e-6)) 0 3)
         (list_to_map [("sigma", sigma);
                       ("distance", PrimFloat.abs (price - vwap));
                       ("vwap", vwap)]) in
     ok (Some signal)) = inr (Some s) ->
    vrb_made_of self instrument prev row s).
  { intros sd Hcross Hmade. bind_step Hmade as signal Hsignal.
    unfold _make_signal in Hsignal. bind_step Hsignal as timestamp Htime.
    unfold row_time in Htime.
    destruct (row_timestamp row) as [t|] eqn:Ht; [|discriminate].
    injection Htime as ->. injection Hsignal as <-. injection Hmade as <-.
    constructor; cbn [sig_timestamp sig_entry sig_target sig_stop sig_side
                      sig_score sig_strategy sig_instrument
                      sig_risk_fraction]; auto.
    - exists sigma. split; [exact Hs|]. split; [exact Hpos|].
      split; [reflexivity|]. exists prev_close. split; [exact Hpc|].
      destruct sd; exact Hcross.
    - apply np_clip_range. }
  destruct (PrimFloat.ltb (vwap + band_k self * sigma) prev_close
            && PrimFloat.leb price (vwap + band_k self * sigma)) eqn:Hsell.
  - apply andb_true_iff in Hsell. exact (Hgoal SELL Hsell H).
  - destruct (PrimFloat.ltb prev_close (vwap - band_k self * sigma)
              && PrimFloat.leb (vwap - band_k self * sigma) price) eqn:Hbuy;
      [|discriminate].
    apply andb_true_iff in Hbuy. exact (Hgoal BUY Hbuy H).
Qed.

Lemma vrb_loop_spec self instrument (df : DataFrame) :
  forall rows prev i signals,
    df !! i = Some prev -> drop (S i) df = rows ->
    vrb_loop self instrument prev rows = inr signals ->
    sublist (map sig_timestamp signals) (bar_times rows)
    /\ Forall (fun s => exists prev row,
                 consecutive df prev row
                 /\ vrb_made_of self instrument prev row s) signals.
Proof.
  induction rows as [|row rest IH]; intros prev i signals Hprev Hrows H.
  - injection H as <-. split; constructor.
  - cbn in H. bind_step H as emitted Hemitted. bind_step H as later Hlater.
    injection H as <-.
    assert (Hrow : df !! S i = Some row).
    { pose proof (lookup_drop df (S i) 0) as E.
      rewrite Hrows, Nat.add_0_r in E. symmetry. exact E. }
    assert (Hrest : drop (S (S i)) df = rest).
    { rewrite (drop_S _ _ _ Hrow) in Hrows. injection Hrows as ->.
      reflexivity. }
    destruct (IH row (S i) later Hrow Hrest Hlater) as [Hsub Hall].
    unfold bar_times in *. cbn [omap list_omap].
    destruct emitted as [s|].
    + apply vrb_signal_made in Hemitted.
      rewrite (vrb_time _ _ _ _ _ Hemitted). cbn [map].
      split; [constructor; exact Hsub|].
      constructor; [|exact Hall]. exists prev, row.
      split; [exists i; auto|exact Hemitted].
    + split; [|exact Hall].
      destruct (row_timestamp row); [constructor|]; exact Hsub.
Qed.

Lemma omap_length_le {A B : Type} (f : A -> option B) l :
  (length (omap f l) <= length l)%nat.
Proof.
  induction l as [|x rest IH]; cbn; [lia|]. destruct (f x); cbn; lia.
Qed.

(** The call returns the empty list, or what the loop over the rows
    returns. *)
Lemma VRBStrategy_generate_signals_cases self (df : DataFrame) instrument
    signals :
  VRBStrategy_generate_signals self df instrument = inr signals ->
  signals = []
  \/ exists first rest,
       df = first :: rest
       /\ vrb_loop self instrument first rest = inr signals.
Proof.
  unfold VRBStrategy_generate_signals. intros H.
  destruct (df_empty df); [injection H as <-; left; reflexivity|].
  destruct df as [|first rest]; [injection H as <-; left; reflexivity|].
  right. eauto.
Qed.

(** X11. The signals of the volatility band strategy follow the rows.  The
    first row gives none.  The signals come in row order, one at most for a
    row, stamped with the timestamp of their row (their timestamps are a
    subsequence of the timestamps of the rows after the first), so a frame
    of [n] rows gives [n - 1] signals at most.  A signal is made of a row
    whose sigma is positive: it is entered at the close of the row, aims at
    its vwap, puts its stop [stop_sigma_mult * sigma] above the entry when
    it is long and below when it is short, and is long (short) when the
    previous close was strictly under the lower (above the upper) band and
    the close is back at or inside it.  Its score is clipped to [0, 3],
    unless it is NaN. *)
Theorem vrb_signals_follow_the_rows self (df : DataFrame) instrument signals :
  VRBStrategy_generate_signals self df instrument = inr signals ->
  sublist (map sig_timestamp signals) (bar_times (tail df))
  /\ (length signals <= length df - 1)%nat
  /\ Forall (fun s => exists prev row,
               consecutive df prev row
               /\ vrb_made_of self instrument prev row s) signals.
Proof.
  intros H.
  apply VRBStrategy_generate_signals_cases in H
    as [->|(first & rest & -> & H)].
  - split; [apply sublist_nil_l|]. split; [cbn; lia|constructor].
  - destruct (vrb_loop_spec self instrument (first :: rest) rest first 0%nat
                signals eq_refl eq_refl H) as [Hsub Hall].
    cbn [tail]. split; [exact Hsub|]. split; [|exact Hall].
    apply sublist_length in Hsub. rewrite length_map in Hsub.
    pose proof (omap_length_le row_timestamp rest) as Hle.
    unfold bar_times in Hsub. cbn [length]. lia.
Qed.

(** The close comes back into the band from below on the third bar and from
    above on the fifth: a long signal and a short one. *)
Lemma vrb_signals_follow_the_rows_witness :
  exists signals,
    VRBStrategy_generate_signals default_VRBStrategy band_bars "TEST"
    = inr signals
    /\ map (fun s => (sig_timestamp s, sig_side s, sig_entry s, sig_stop s))
         signals
       = [(2 * minute, BUY, 98.5%float, (98.5 + 1.2 * 1)%float);
          (4 * minute, SELL, 101%float, (101 - 1.2 * 1)%float)]
    /\ sublist (map sig_timestamp signals) (bar_times (tail band_bars))
    /\ (length signals <= length band_bars - 1)%nat
    /\ Forall (fun s => exists prev row,
                 consecutive band_bars prev row
                 /\ vrb_made_of default_VRBStrategy "TEST" prev row s)
         signals.
Proof.
  eexists. split; [vm_compute; reflexivity|]. split; [vm_compute; reflexivity|].
  apply (vrb_signals_follow_the_rows default_VRBStrategy band_bars "TEST").
  vm_compute. reflexivity.
Defined.

Lemma vrb_signal_skips self instrument prev row :
  row_values row !! "sigma" = None \/ row_values row !! "vwap" = None
  \/ row_values row !! "close" = None ->
  vrb_signal self instrument prev row = inr None.
Proof.
  intros H. unfold vrb_signal, row_get.
  destruct H as [-> | [-> | ->]].
  - reflexivity.
  - change (PrimFloat.is_nan nan) with true.
    rewrite orb_true_r. reflexivity.
  - change (PrimFloat.is_nan nan) with true.
    rewrite orb_true_r. reflexivity.
Qed.

(** X12. The strategy is silent on what it cannot read, and never raises
    on it.  A frame of one row or none gives no signal.  A frame whose rows
    after the first lack the ["sigma"], the ["vwap"] or the ["close"] cell
    (a frame without one of these columns) gives the empty list, not a
    [KeyError], whatever else the rows hold: each of the three is read with
    a default. *)
Theorem vrb_is_silent_without_its_columns self (df : DataFrame) instrument :
  ((length df <= 1)%nat ->
   VRBStrategy_generate_signals self df instrument = inr [])
  /\ (Forall (fun row => row_values row !! "sigma" = None
                         \/ row_values row !! "vwap" = None
                         \/ row_values row !! "close" = None) (tail df) ->
      VRBStrategy_generate_signals self df instrument = inr []).
Proof.
  assert (Hloop : forall rows prev,
            Forall (fun row => row_values row !! "sigma" = None
                               \/ row_values row !! "vwap" = None
                               \/ row_values row !! "close" = None) rows ->
            vrb_loop self instrument prev rows = inr []).
  { induction rows as [|row rest IH]; intros prev Hrows; [reflexivity|].
    apply Forall_cons in Hrows as [Hrow Hrest]. cbn [vrb_loop].
    rewrite (vrb_signal_skips _ _ _ _ Hrow), (IH row Hrest). reflexivity. }
  unfold VRBStrategy_generate_signals. split.
  - intros Hlen. destruct (df_empty df); [reflexivity|].
    destruct df as [|first [|second rest]]; try reflexivity.
    cbn in Hlen. lia.
  - intros Hrows. destruct (df_empty df); [reflexivity|].
    destruct df as [|first rest]; [reflexivity|].
    apply Hloop. exact Hrows.
Qed.

(** Without the ["sigma"] column the bars of the example give nothing. *)
Lemma vrb_is_silent_without_its_columns_witness :
  VRBStrategy_generate_signals default_VRBStrategy [band_bar 0 100 100 1]
    "TEST" = inr []
  /\ VRBStrategy_generate_signals default_VRBStrategy
       [close_bar 0 100; close_bar minute 97; close_bar (2 * minute) 98.5]
       "TEST" = inr [].
Proof.
  split.
  - apply (proj1 (vrb_is_silent_without_its_columns default_VRBStrategy
                    [band_bar 0 100 100 1] "TEST")).
    cbn. lia.
  - apply (proj2 (vrb_is_silent_without_its_columns default_VRBStrategy
                    [close_bar 0 100; close_bar minute 97;
                     close_bar (2 * minute) 98.5] "TEST")).
    cbn [tail]. repeat constructor.
Defined.

(* ===================================================================== *)
(** ** The signals of all strategies, and the run *)
(* ===================================================================== *)

Lemma insert_signal_perm s l : insert_signal s l ≡ₚ s :: l.
Proof.
  induction l as [|y rest IH]; cbn; [reflexivity|].
  destruct (sig_timestamp s <=? sig_timestamp y); [reflexivity|].
  rewrite IH. apply Permutation_swap.
Qed.

Lemma sorted_signals_perm signals : sorted_signals signals ≡ₚ signals.
Proof.
  induction signals as [|s rest IH]; [reflexivity|].
  change (sorted_signals (s :: rest))
    with (insert_signal s (sorted_signals rest)).
  rewrite insert_signal_perm, IH. reflexivity.
Qed.

(** The insertion puts a signal before the queued signals of its own
    timestamp. *)
Lemma insert_signal_stamped t s l :
  stamped t (insert_signal s l) = stamped t (s :: l).
Proof.
  unfold stamped. induction l as [|y rest IH]; [reflexivity|].
  cbn [insert_signal].
  destruct (sig_timestamp s <=? sig_timestamp y) eqn:E; [reflexivity|].
  apply Z.leb_gt in E. cbn [List.filter] in *. rewrite IH.
  destruct (sig_timestamp y =? t) eqn:Hy; [|reflexivity].
  destruct (sig_timestamp s =? t) eqn:Hs; [|reflexivity].
  apply Z.eqb_eq in Hy, Hs. lia.
Qed.

(** The sort is stable: the signals of one timestamp keep their order. *)
Lemma sorted_signals_stamped t signals :
  stamped t (sorted_signals signals) = stamped t signals.
Proof.
  induction signals as [|s rest IH]; [reflexivity|].
  change (sorted_signals (s :: rest))
    with (insert_signal s (sorted_signals rest)).
  rewrite insert_signal_stamped. unfold stamped in *. cbn [List.filter].
  rewrite IH. reflexivity.
Qed.

(** Sorting a sorted list changes nothing. *)
Lemma sorted_signals_fixed signals :
  StronglySorted not_later signals -> sorted_signals signals = signals.
Proof.
  induction 1 as [|s rest Hrest IH Hs]; [reflexivity|].
  change (sorted_signals (s :: rest))
    with (insert_signal s (sorted_signals rest)).
  rewrite IH. destruct rest as [|y rest']; [reflexivity|].
  cbn [insert_signal]. apply Forall_cons in Hs as [Hy _].
  unfold not_later in Hy.
  replace (sig_timestamp s <=? sig_timestamp y) with true
    by (symmetry; apply Z.leb_le; exact Hy).
  reflexivity.
Qed.

Lemma extend_signals_spec strategies df instrument :
  forall signals out,
    extend_signals strategies df instrument signals = inr out ->
    exists outputs,
      produced_by strategies df instrument outputs
      /\ out = signals ++ concat outputs.
Proof.
  induction strategies as [|strat rest IH]; intros signals out H.
  - injection H as <-. exists []. split; [constructor|].
    cbn. rewrite app_nil_r. reflexivity.
  - cbn in H. bind_step H as produced Hproduced.
    destruct (IH _ _ H) as (outputs & Hall & ->).
    exists (produced :: outputs). split; [constructor; assumption|].
    cbn. rewrite app_assoc. reflexivity.
Qed.

Lemma extend_signals_ok strategies df instrument outputs :
  produced_by strategies df instrument outputs ->
  forall signals,
    extend_signals strategies df instrument signals
    = inr (signals ++ concat outputs).
Proof.
  induction 1 as [|strat output rest outputs Hstrat _ IH]; intros signals.
  - cbn. rewrite app_nil_r. reflexivity.
  - cbn. rewrite Hstrat. cbn [bind]. rewrite IH, app_assoc. reflexivity.
Qed.

Lemma generate_all_signals_spec
    default_strategies (df : DataFrame) instrument strategies :
  let used := strategies_or_default default_strategies strategies in
  (forall outputs,
      produced_by used df instrument outputs ->
      let signals := sorted_signals (concat outputs) in
      generate_all_signals default_strategies df instrument strategies
      = inr signals
      /\ StronglySorted not_later signals
      /\ signals ≡ₚ concat outputs
      /\ (forall t, stamped t signals = stamped t (concat outputs))
      /\ sorted_signals signals = signals)
  /\ (forall signals,
        generate_all_signals default_strategies df instrument strategies
        = inr signals ->
        exists outputs,
          produced_by used df instrument outputs
          /\ signals = sorted_signals (concat outputs)).
Proof.
  intros used. split.
  - intros outputs Hall signals. unfold generate_all_signals. fold used.
    rewrite (extend_signals_ok _ _ _ _ Hall []). cbn [bind app].
    split; [reflexivity|].
    split; [apply sorted_signals_sorted|].
    split; [apply sorted_signals_perm|].
    split; [intros t; apply sorted_signals_stamped|].
    apply sorted_signals_fixed, sorted_signals_sorted.
  - intros signals H. unfold generate_all_signals in H. fold used in H.
    bind_step H as all Hall. injection H as <-.
    apply extend_signals_spec in Hall as (outputs & Hall & ->).
    exists outputs. split; [exact Hall|reflexivity].
Qed.

(** X13. All the signals, sorted stably.  When every strategy returns,
    [generate_all_signals] returns the signals of the strategies (of the
    defaults, when it is given none), each strategy's list after the one
    before it, sorted by timestamp: the result is in timestamp order and
    holds the same signals, those of one timestamp in the order strategies
    and rows gave them; sorting it again, as the simulator does, changes
    nothing.  When a strategy raises, so does the call. *)
Theorem generate_all_signals_sorts_stably
    default_strategies (df : DataFrame) instrument strategies :
  let used := strategies_or_default default_strategies strategies in
  (forall outputs,
      produced_by used df instrument outputs ->
      let signals := sorted_signals (concat outputs) in
      generate_all_signals default_strategies df instrument strategies
      = inr signals
      /\ StronglySorted not_later signals
      /\ signals ≡ₚ concat outputs
      /\ (forall t, stamped t signals = stamped t (concat outputs))
      /\ sorted_signals signals = signals)
  /\ (forall signals,
        generate_all_signals default_strategies df instrument strategies
        = inr signals ->
        exists outputs,
          produced_by used df instrument outputs
          /\ signals = sorted_signals (concat outputs)).
Proof. apply generate_all_signals_spec. Qed.

(** The momentum strategy and the band strategy on the five bars of the
    band example: both give a signal on the third bar, and the one of the
    momentum strategy, which is asked first, stays first. *)
Lemma generate_all_signals_sorts_stably_witness :
  exists signals,
    generate_all_signals [] band_bars "TEST" [momentum_strategy; vrb_strategy]
    = inr signals
    /\ map (fun s => (sig_timestamp s, sig_strategy s)) signals
       = [(2 * minute, "MOMENTUM"); (2 * minute, "VRB");
          (3 * minute, "MOMENTUM"); (4 * minute, "VRB")]
    /\ StronglySorted not_later signals
    /\ sorted_signals signals = signals.
Proof.
  destruct (generate_all_signals_sorts_stably [] band_bars "TEST"
              [momentum_strategy; vrb_strategy]) as [Hgen _].
  edestruct Hgen as (Hrun & Hsorted & _ & _ & Hfixed).
  - constructor; [vm_compute; reflexivity|].
    constructor; [vm_compute; reflexivity|constructor].
  - eexists. split; [exact Hrun|]. split; [vm_compute; reflexivity|].
    split; [exact Hsorted|exact Hfixed].
Defined.














(* ===================================================================== *)
(** ** Doubles: the order of a sum and of a difference *)
(* ===================================================================== *)

Lemma shr_1_half r : 0 <= shr_m r -> shr_m (shr_1 r) = shr_m r / 2.
Proof.
  destruct r as [m b s]; cbn [shr_m]; intros H.
  destruct m as [|p|p]; [reflexivity| |lia].
  destruct p as [p|p|]; cbn [shr_1 shr_m].
  - rewrite Pos2Z.inj_xI. apply Z.div_unique with 1; lia.
  - rewrite Pos2Z.inj_xO. apply Z.div_unique with 0; lia.
  - reflexivity.
Qed.

Lemma iter_shr_1_div p :
  forall r, 0 <= shr_m r ->
    shr_m (SpecFloat.iter_pos shr_1 p r) = shr_m r / 2 ^ Z.pos p.
Proof.
  assert (Hhalf : forall r, 0 <= shr_m r -> 0 <= shr_m (shr_1 r))
    by (intros r Hr; rewrite shr_1_half by exact Hr; apply Z.div_pos; lia).
  induction p as [p IH|p IH|]; intros r Hr; cbn [SpecFloat.iter_pos].
  - assert (H1 := Hhalf r Hr).
    assert (H2 : 0 <= shr_m (SpecFloat.iter_pos shr_1 p (shr_1 r)))
      by (rewrite IH by exact H1; apply Z.div_pos; lia).
    rewrite IH, IH, shr_1_half by assumption.
    rewrite !Z.div_div by lia. f_equal.
    replace (Z.pos p~1) with (1 + Z.pos p + Z.pos p) by lia.
    rewrite !Z.pow_add_r by lia. change (2 ^ 1) with 2. lia.
  - assert (H2 : 0 <= shr_m (SpecFloat.iter_pos shr_1 p r))
      by (rewrite IH by exact Hr; apply Z.div_pos; lia).
    rewrite IH, IH by assumption. rewrite Z.div_div by lia. f_equal.
    replace (Z.pos p~0) with (Z.pos p + Z.pos p) by lia.
    rewrite Z.pow_add_r by lia. reflexivity.
  - rewrite shr_1_half by exact Hr. reflexivity.
Qed.

(** The shift to the exponent of the format truncates the mantissa. *)
Lemma shr_fexp_exact m e l :
  0 <= m ->
  let k := Z.max 0 (fexp prec emax (Zdigits2 m + e) - e) in
  shr_m (fst (shr_fexp prec emax m e l)) = m / 2 ^ k
  /\ snd (shr_fexp prec emax m e l) = e + k.
Proof.
  intros Hm k. unfold shr_fexp, shr. subst k.
  assert (Hrec : shr_m (shr_record_of_loc m l) = m)
    by (destruct l as [|[]]; reflexivity).
  destruct (fexp prec emax (Zdigits2 m + e) - e) as [|p|p] eqn:Hn;
    cbn [fst snd].
  - rewrite Hrec. cbn. rewrite Z.div_1_r. lia.
  - rewrite iter_shr_1_div by (rewrite Hrec; exact Hm).
    rewrite Hrec. replace (Z.max 0 (Z.pos p)) with (Z.pos p) by lia.
    split; [reflexivity|lia].
  - rewrite Hrec. replace (Z.max 0 (Z.neg p)) with 0 by lia.
    cbn. rewrite Z.div_1_r. lia.
Qed.

Lemma Zdigits2_bounds m :
  0 < m -> 1 <= Zdigits2 m /\ 2 ^ (Zdigits2 m - 1) <= m < 2 ^ Zdigits2 m.
Proof.
  destruct m as [|p|p]; try lia. intros _. cbn [Zdigits2].
  pose proof (digits2_pos_lb p). pose proof (digits2_pos_ub p). lia.
Qed.

(** Between two powers of two: the number of digits. *)
Lemma Zdigits2_lower m k : 0 <= k -> 2 ^ k <= m -> k + 1 <= Zdigits2 m.
Proof.
  intros Hk Hm. assert (Hpos : 0 < m) by (pose proof (Z.pow_pos_nonneg 2 k); lia).
  destruct (Zdigits2_bounds m Hpos) as (Hd & _ & Hub).
  destruct (Z_lt_le_dec k (Zdigits2 m)) as [|Hle]; [lia|exfalso].
  assert (2 ^ Zdigits2 m <= 2 ^ k) by (apply Z.pow_le_mono_r; lia). lia.
Qed.

Lemma div_pow_pos m k : 0 < m -> 0 <= k <= Zdigits2 m - 1 -> 1 <= m / 2 ^ k.
Proof.
  intros Hm Hk. destruct (Zdigits2_bounds m Hm) as (Hd & Hlb & _).
  assert (Hp : 0 < 2 ^ k) by (apply Z.pow_pos_nonneg; lia).
  apply Z.div_le_lower_bound; [exact Hp|].
  assert (2 ^ k <= 2 ^ (Zdigits2 m - 1)) by (apply Z.pow_le_mono_r; lia).
  lia.
Qed.

(** The rounding of a positive mantissa, step by step: the mantissa is
    truncated at the exponent of the format, rounded up by one at most, and
    truncated once more if the rounding carried. *)
Lemma binary_round_aux_cases s m e :
  0 < m -> -1074 <= e ->
  exists m1 m2 e1 e2,
    e1 = Z.max e (fexp prec emax (Zdigits2 m + e))
    /\ m / 2 ^ (e1 - e) <= m1 <= m / 2 ^ (e1 - e) + 1
    /\ e2 = Z.max e1 (fexp prec emax (Zdigits2 m1 + e1))
    /\ m2 = m1 / 2 ^ (e2 - e1)
    /\ 1 <= m1 /\ 1 <= m2
    /\ binary_round_aux prec emax s m e loc_Exact
       = if e2 <=? 971 then S754_finite s (Z.to_pos m2) e2
         else S754_infinity s.
Proof.
  intros Hm He. unfold binary_round_aux.
  destruct (shr_fexp_exact m e loc_Exact ltac:(lia)) as [Hm1 He1].
  destruct (shr_fexp prec emax m e loc_Exact) as [r1 e1].
  cbn [fst snd] in Hm1, He1.
  pose proof (round_nearest_even_bounds (shr_m r1) (loc_of_shr_record r1))
    as Hr.
  set (m1 := round_nearest_even (shr_m r1) (loc_of_shr_record r1)) in *.
  destruct (Zdigits2_bounds m Hm) as (Hd & _).
  assert (Hfexp : forall x, fexp prec emax x = Z.max (x - 53) (-1074))
    by reflexivity.
  assert (Hk1 : 1 <= m / 2 ^ (e1 - e)).
  { apply div_pow_pos; [exact Hm|]. rewrite He1, Hfexp. lia. }
  assert (Hk1' : e1 - e = Z.max 0 (fexp prec emax (Zdigits2 m + e) - e))
    by lia.
  rewrite <- Hk1' in Hm1. rewrite Hm1 in Hr.
  assert (Hm1pos : 0 < m1) by lia.
  destruct (shr_fexp_exact m1 e1 loc_Exact ltac:(lia)) as [Hm2 He2].
  destruct (shr_fexp prec emax m1 e1 loc_Exact) as [r2 e2].
  cbn [fst snd] in Hm2, He2.
  destruct (Zdigits2_bounds m1 Hm1pos) as (Hd1 & _).
  assert (He1min : -1074 <= e1) by (rewrite He1, Hfexp; lia).
  assert (Hk2' : e2 - e1 = Z.max 0 (fexp prec emax (Zdigits2 m1 + e1) - e1))
    by lia.
  rewrite <- Hk2' in Hm2.
  assert (Hk2 : 1 <= m1 / 2 ^ (e2 - e1)).
  { apply div_pow_pos; [exact Hm1pos|]. rewrite He2, Hfexp. lia. }
  exists m1, (m1 / 2 ^ (e2 - e1)), e1, e2.
  split; [rewrite He1; lia|]. split; [exact Hr|].
  split; [rewrite He2; lia|]. split; [reflexivity|].
  split; [lia|]. split; [exact Hk2|].
  rewrite Hm2. destruct (m1 / 2 ^ (e2 - e1)) as [|p|p] eqn:E; try lia.
  reflexivity.
Qed.

Lemma SFleb_finite_pos m1 e1 m2 e2 :
  e1 < e2 \/ (e1 = e2 /\ Z.pos m1 <= Z.pos m2) ->
  SFleb (S754_finite false m1 e1) (S754_finite false m2 e2) = true.
Proof.
  intros H. unfold SFleb. cbn [SFcompare].
  destruct (Z.compare_spec e1 e2) as [E|E|E]; [|reflexivity|lia].
  destruct H as [H|[_ H]]; [lia|].
  rewrite Pos.compare_cont_spec. unfold Pos.switch_Eq.
  destruct (Pos.compare_spec m1 m2) as [E'|E'|E']; try reflexivity. lia.
Qed.

Lemma fexp_mono x y : x <= y -> fexp prec emax x <= fexp prec emax y.
Proof. unfold fexp, SpecFloat.emin, prec, emax. lia. Qed.

(** Rounding is monotone, from below: the double of a number that is not
    under a double [x] is not under [x]. *)
Lemma binary_round_aux_ge m e mx ex :
  0 < m -> -1074 <= e <= ex ->
  fexp prec emax (Z.pos (digits2_pos mx) + ex) = ex ->
  Z.pos mx * 2 ^ (ex - e) <= m ->
  SFleb (S754_finite false mx ex)
    (binary_round_aux prec emax false m e loc_Exact) = true.
Proof.
  intros Hm He Hcan Hge.
  destruct (binary_round_aux_cases false m e Hm ltac:(lia))
    as (m1 & m2 & e1 & e2 & He1 & Hm1 & He2 & Hm2 & H1 & H2 & ->).
  pose proof (digits2_pos_lb mx) as Hlb.
  assert (Hpow : 0 < 2 ^ (ex - e)) by (apply Z.pow_pos_nonneg; lia).
  assert (Hdig : Z.pos (digits2_pos mx) + ex <= Zdigits2 m + e).
  { assert (H : Z.pos (digits2_pos mx) - 1 + (ex - e) + 1 <= Zdigits2 m).
    { apply Zdigits2_lower; [lia|]. rewrite Z.pow_add_r by lia. nia. }
    lia. }
  apply fexp_mono in Hdig. rewrite Hcan in Hdig.
  destruct (e2 <=? 971); [|reflexivity].
  apply SFleb_finite_pos.
  destruct (Z_lt_le_dec ex e2) as [Hlt|Hle]; [left; exact Hlt|right].
  assert (E1 : e1 = ex) by lia. assert (E2 : e2 = ex) by lia.
  split; [lia|]. rewrite Z2Pos.id by lia.
  rewrite Hm2, E2, E1, Z.sub_diag, Z.pow_0_r, Z.div_1_r.
  rewrite E1 in Hm1.
  assert (Z.pos mx <= m / 2 ^ (ex - e))
    by (apply Z.div_le_lower_bound; [exact Hpow|lia]).
  lia.
Qed.

(** Rounding is monotone, from above: the double of a number under a double
    [x] is not over [x]. *)
Lemma binary_round_aux_le m e mx ex :
  0 < m -> -1074 <= e <= ex -> ex <= 971 ->
  fexp prec emax (Z.pos (digits2_pos mx) + ex) = ex ->
  m < Z.pos mx * 2 ^ (ex - e) ->
  SFleb (binary_round_aux prec emax false m e loc_Exact)
    (S754_finite false mx ex) = true.
Proof.
  intros Hm He Hex Hcan Hlt.
  destruct (binary_round_aux_cases false m e Hm ltac:(lia))
    as (m1 & m2 & e1 & e2 & He1 & Hm1 & He2 & Hm2 & H1 & H2 & ->).
  pose proof (digits2_pos_ub mx) as Hub.
  pose proof (digits2_pos_lb mx) as Hlb.
  set (D := Z.pos (digits2_pos mx)) in *.
  assert (Hfexp : forall x, fexp prec emax x = Z.max (x - 53) (-1074))
    by reflexivity.
  assert (Hpow : 0 < 2 ^ (ex - e)) by (apply Z.pow_pos_nonneg; lia).
  destruct (Zdigits2_bounds m Hm) as (Hd & Hmlb & Hmub).
  (* the sum of digits and exponent does not exceed that of [x] *)
  assert (Hdig : Zdigits2 m + e <= D + ex).
  { assert (H : Zdigits2 m <= D + (ex - e)).
    { apply Zdigits2_le; [lia|]. split; [lia|].
      rewrite Z.pow_add_r by lia. nia. }
    lia. }
  assert (He1x : e1 <= ex).
  { apply fexp_mono in Hdig. rewrite Hcan in Hdig. lia. }
  (* after the first truncation the mantissa has 53 digits at most *)
  assert (Hm1ub : m / 2 ^ (e1 - e) < 2 ^ 53).
  { assert (Hp1 : 0 < 2 ^ (e1 - e)) by (apply Z.pow_pos_nonneg; lia).
    apply Z.div_lt_upper_bound; [exact Hp1|].
    destruct (Z_le_gt_dec (Zdigits2 m) (e1 - e + 53)) as [Hle|Hgt].
    - rewrite <- Z.pow_add_r by lia.
      assert (2 ^ Zdigits2 m <= 2 ^ (e1 - e + 53))
        by (apply Z.pow_le_mono_r; lia).
      lia.
    - rewrite He1, Hfexp in Hgt. lia. }
  assert (Hm1le : m1 <= 2 ^ 53) by lia.
  assert (Hgoal : e2 < ex \/ (e2 = ex /\ m2 <= Z.pos mx)).
  { destruct (Z_lt_le_dec e1 ex) as [Hlt1|Hge1].
    - (* the exponent stays under the one of [x], unless the rounding
         carries to it *)
      assert (Hd1 : Zdigits2 m1 <= 54).
      { apply Zdigits2_le; [lia|]. split; [lia|].
        change (2 ^ 54) with (2 * 2 ^ 53). lia. }
      assert (He2' : e2 <= e1 + 1) by (rewrite He2, Hfexp; lia).
      destruct (Z_lt_le_dec e2 ex) as [|Hge2]; [left; assumption|right].
      assert (E2 : e2 = ex) by lia. split; [assumption|].
      assert (He21 : e2 - e1 = 1) by lia.
      assert (Hd1' : Zdigits2 m1 = 54).
      { rewrite He2, Hfexp in He21. lia. }
      assert (Hm1eq : 2 ^ 53 <= m1).
      { destruct (Zdigits2_bounds m1 ltac:(lia)) as (_ & Hl & _).
        rewrite Hd1' in Hl. exact Hl. }
      assert (E1 : m1 = 2 ^ 53) by lia.
      rewrite Hm2, He21, E1. change (2 ^ 53 / 2 ^ 1) with (2 ^ 52).
      (* [x] is a normal number *)
      assert (HD : D = 53).
      { rewrite Hfexp in Hcan. lia. }
      rewrite HD in Hlb. exact Hlb.
    - assert (E1 : e1 = ex) by lia. right.
      assert (Hm1x : m / 2 ^ (ex - e) < Z.pos mx)
        by (apply Z.div_lt_upper_bound; [exact Hpow|lia]).
      rewrite E1 in Hm1.
      assert (Hm1mx : m1 <= Z.pos mx) by lia.
      assert (Hd1 : Zdigits2 m1 <= D).
      { apply Zdigits2_le; [lia|]. lia. }
      assert (He2' : e2 = ex).
      { assert (H := fexp_mono (Zdigits2 m1 + ex) (D + ex) ltac:(lia)).
        rewrite Hcan in H. rewrite E1 in He2. lia. }
      split; [exact He2'|].
      rewrite Hm2, He2', E1, Z.sub_diag, Z.pow_0_r, Z.div_1_r.
      exact Hm1mx. }
  replace (e2 <=? 971) with true by (symmetry; apply Z.leb_le; lia).
  apply SFleb_finite_pos. rewrite Z2Pos.id by lia. exact Hgoal.
Qed.

Lemma shl_align_spec mx ex ex' :
  snd (shl_align mx ex ex') = Z.min ex ex'
  /\ Z.pos (fst (shl_align mx ex ex'))
     = Z.pos mx * 2 ^ (ex - Z.min ex ex').
Proof.
  unfold shl_align. destruct (ex' - ex) as [|d|d] eqn:E; cbn [fst snd].
  - replace (Z.min ex ex') with ex by lia. rewrite Z.sub_diag. cbn. lia.
  - replace (Z.min ex ex') with ex by lia. rewrite Z.sub_diag. cbn. lia.
  - replace (Z.min ex ex') with ex' by lia. rewrite pos_iter_xO.
    replace (ex - ex') with (Z.pos d) by lia. split; reflexivity.
Qed.

Lemma fexp_min x : -1074 <= fexp prec emax x.
Proof. unfold fexp, SpecFloat.emin, prec, emax. lia. Qed.

Lemma binary_round_ge p e mx ex :
  -1074 <= e <= ex ->
  fexp prec emax (Z.pos (digits2_pos mx) + ex) = ex ->
  Z.pos mx * 2 ^ (ex - e) <= Z.pos p ->
  SFleb (S754_finite false mx ex) (binary_round prec emax false p e) = true.
Proof.
  intros He Hcan Hge. unfold binary_round.
  destruct (shl_align_spec p e (fexp prec emax (Z.pos (digits2_pos p) + e)))
    as [Hez Hmz].
  pose proof (fexp_min (Z.pos (digits2_pos p) + e)) as Hmin.
  destruct (shl_align p e _) as [mz ez]. cbn [fst snd] in Hez, Hmz.
  apply binary_round_aux_ge; [lia|lia|exact Hcan|].
  rewrite Hmz, <- Hez.
  replace (ex - ez) with ((ex - e) + (e - ez)) by lia.
  rewrite Z.pow_add_r by lia.
  assert (0 < 2 ^ (e - ez)) by (apply Z.pow_pos_nonneg; lia). nia.
Qed.

Lemma binary_round_le p e mx ex :
  -1074 <= e <= ex -> ex <= 971 ->
  fexp prec emax (Z.pos (digits2_pos mx) + ex) = ex ->
  Z.pos p < Z.pos mx * 2 ^ (ex - e) ->
  SFleb (binary_round prec emax false p e) (S754_finite false mx ex) = true.
Proof.
  intros He Hex Hcan Hlt. unfold binary_round.
  destruct (shl_align_spec p e (fexp prec emax (Z.pos (digits2_pos p) + e)))
    as [Hez Hmz].
  pose proof (fexp_min (Z.pos (digits2_pos p) + e)) as Hmin.
  destruct (shl_align p e _) as [mz ez]. cbn [fst snd] in Hez, Hmz.
  apply binary_round_aux_le; [lia|lia|exact Hex|exact Hcan|].
  rewrite Hmz, <- Hez.
  replace (ex - ez) with ((ex - e) + (e - ez)) by lia.
  rewrite Z.pow_add_r by lia.
  assert (0 < 2 ^ (e - ez)) by (apply Z.pow_pos_nonneg; lia). nia.
Qed.

(** The rounding of a mantissa that is not negative keeps the sign it is
    given. *)
Lemma binary_round_aux_sign s m e l :
  0 <= m ->
  match binary_round_aux prec emax s m e l with
  | S754_zero s' | S754_infinity s' | S754_finite s' _ _ => s' = s
  | S754_nan => False
  end.
Proof.
  intros Hm. unfold binary_round_aux.
  destruct (shr_fexp_bounds m e l m ltac:(lia)) as [Hm1 _].
  destruct (shr_fexp prec emax m e l) as [r1 e1]. cbn [fst] in Hm1.
  pose proof (round_nearest_even_bounds (shr_m r1) (loc_of_shr_record r1))
    as Hr.
  set (m1 := round_nearest_even (shr_m r1) (loc_of_shr_record r1)) in *.
  destruct (shr_fexp_bounds m1 e1 loc_Exact m1 ltac:(lia)) as [Hm2 _].
  destruct (shr_fexp prec emax m1 e1 loc_Exact) as [r2 e2].
  cbn [fst] in Hm2.
  destruct (shr_m r2) as [|p|p]; [reflexivity| |lia].
  destruct (e2 <=? emax - prec); reflexivity.
Qed.

Lemma binary_round_sign s p e :
  match binary_round prec emax s p e with
  | S754_zero s' | S754_infinity s' | S754_finite s' _ _ => s' = s
  | S754_nan => False
  end.
Proof.
  unfold binary_round. destruct (shl_align p e _) as [mz ez].
  apply binary_round_aux_sign. lia.
Qed.

(** What a valid finite double is made of. *)
Lemma valid_finite s m e :
  valid_binary (S754_finite s m e) = true ->
  fexp prec emax (Z.pos (digits2_pos m) + e) = e /\ -1074 <= e <= 971.
Proof.
  cbn [SpecFloat.valid_binary]. unfold bounded, canonical_mantissa.
  intros H. apply andb_true_iff in H as [H1 H2].
  apply Z.eqb_eq in H1. apply Z.leb_le in H2.
  pose proof (fexp_min (Z.pos (digits2_pos m) + e)).
  unfold prec, emax in *. split; [exact H1|lia].
Qed.

(** Adding a positive double to a positive double does not give less. *)
Lemma SFadd_ge mx ex my ey :
  valid_binary (S754_finite false mx ex) = true ->
  valid_binary (S754_finite false my ey) = true ->
  SFleb (S754_finite false mx ex)
    (SFadd prec emax (S754_finite false mx ex) (S754_finite false my ey))
  = true.
Proof.
  intros Hx Hy. apply valid_finite in Hx as [Hcx Hex].
  apply valid_finite in Hy as [Hcy Hey]. cbn [SFadd]. cbv zeta.
  destruct (shl_align_spec mx ex (Z.min ex ey)) as [_ Hax].
  destruct (shl_align_spec my ey (Z.min ex ey)) as [_ Hay].
  replace (Z.min ex (Z.min ex ey)) with (Z.min ex ey) in Hax by lia.
  unfold cond_Zopp.
  set (a := fst (shl_align mx ex (Z.min ex ey))) in *.
  set (b := fst (shl_align my ey (Z.min ex ey))) in *.
  change (Z.pos a + Z.pos b) with (Z.pos (a + b)). cbn [binary_normalize].
  apply binary_round_ge; [lia|exact Hcx|]. rewrite Pos2Z.inj_add, Hax. lia.
Qed.

(** Taking a positive double off a positive double does not give more. *)
Lemma SFsub_le mx ex my ey :
  valid_binary (S754_finite false mx ex) = true ->
  valid_binary (S754_finite false my ey) = true ->
  SFleb
    (SFsub prec emax (S754_finite false mx ex) (S754_finite false my ey))
    (S754_finite false mx ex)
  = true.
Proof.
  intros Hx Hy. apply valid_finite in Hx as [Hcx Hex].
  apply valid_finite in Hy as [Hcy Hey]. cbn [SFsub]. cbv zeta.
  destruct (shl_align_spec mx ex (Z.min ex ey)) as [_ Hax].
  destruct (shl_align_spec my ey (Z.min ex ey)) as [_ Hay].
  replace (Z.min ex (Z.min ex ey)) with (Z.min ex ey) in Hax by lia.
  unfold cond_Zopp.
  set (a := fst (shl_align mx ex (Z.min ex ey))) in *.
  set (b := fst (shl_align my ey (Z.min ex ey))) in *.
  destruct (Z.pos a - Z.pos b) as [|p|p] eqn:E; cbn [binary_normalize].
  - reflexivity.
  - apply binary_round_le; [lia|lia|exact Hcx|]. lia.
  - pose proof (binary_round_sign true p (Z.min ex ey)) as Hs.
    destruct (binary_round prec emax true p (Z.min ex ey)) as [s|s| |s m e];
      try contradiction; subst s; reflexivity.
Qed.

Lemma SFleb_pos_iff m1 e1 m2 e2 :
  SFleb (S754_finite false m1 e1) (S754_finite false m2 e2) = true
  <-> e1 < e2 \/ (e1 = e2 /\ Z.pos m1 <= Z.pos m2).
Proof.
  split; [|apply SFleb_finite_pos].
  unfold SFleb. cbn [SFcompare].
  destruct (Z.compare_spec e1 e2) as [E|E|E]; [|auto|discriminate].
  rewrite Pos.compare_cont_spec. unfold Pos.switch_Eq.
  destruct (Pos.compare_spec m1 m2) as [E'|E'|E']; try discriminate;
    intros _; right; split; try assumption; lia.
Qed.

Lemma SFleb_neg_iff m1 e1 m2 e2 :
  SFleb (S754_finite true m1 e1) (S754_finite true m2 e2) = true
  <-> e2 < e1 \/ (e1 = e2 /\ Z.pos m2 <= Z.pos m1).
Proof.
  unfold SFleb. cbn [SFcompare].
  destruct (Z.compare_spec e1 e2) as [E|E|E].
  - rewrite Pos.compare_cont_spec. unfold Pos.switch_Eq.
    destruct (Pos.compare_spec m1 m2) as [E'|E'|E']; cbn [CompOpp];
      split; intros H;
      first [reflexivity | discriminate | lia
            | right; split; [assumption|lia]].
  - split; [discriminate|lia].
  - split; [intros _; left; lia|reflexivity].
Qed.

(** The order of the doubles is transitive. *)
Lemma SFleb_trans a b c :
  SFleb a b = true -> SFleb b c = true -> SFleb a c = true.
Proof.
  destruct a as [[]|[]| |[] ma ea], b as [[]|[]| |[] mb eb],
    c as [[]|[]| |[] mc ec];
    intros H1 H2; try reflexivity; try discriminate H1; try discriminate H2;
    rewrite ?SFleb_pos_iff, ?SFleb_neg_iff in *; lia.
Qed.

Lemma leb_trans a b c :
  PrimFloat.leb a b = true -> PrimFloat.leb b c = true ->
  PrimFloat.leb a c = true.
Proof. rewrite !FloatAxioms.leb_spec. apply SFleb_trans. Qed.

(** A double above zero is a positive number or the positive infinity. *)
Lemma ltb_0_shape x :
  PrimFloat.ltb 0 x = true ->
  match Prim2SF x with
  | S754_finite false _ _ | S754_infinity false => True
  | _ => False
  end.
Proof.
  rewrite FloatAxioms.ltb_spec.
  change (Prim2SF 0) with (S754_zero false).
  destruct (Prim2SF x) as [s|[]| |[] m e]; cbn; intros H;
    try discriminate; exact I.
Qed.

Lemma leb_0_shape x :
  match Prim2SF x with
  | S754_zero _ | S754_finite false _ _ | S754_infinity false => True
  | _ => False
  end ->
  PrimFloat.leb 0 x = true.
Proof.
  rewrite FloatAxioms.leb_spec.
  change (Prim2SF 0) with (S754_zero false).
  destruct (Prim2SF x) as [s|[]| |[] m e]; cbn; intros H;
    try contradiction; reflexivity.
Qed.

(** The product of two doubles above zero is not below zero. *)
Lemma mul_pos a b :
  PrimFloat.ltb 0 a = true -> PrimFloat.ltb 0 b = true ->
  match Prim2SF (a * b) with
  | S754_zero _ | S754_finite false _ _ | S754_infinity false => True
  | _ => False
  end.
Proof.
  intros Ha Hb. apply ltb_0_shape in Ha, Hb.
  rewrite FloatAxioms.mul_spec. unfold SF64mul.
  destruct (Prim2SF a) as [sa|[]| |[] ma ea]; try contradiction;
    destruct (Prim2SF b) as [sb|[]| |[] mb eb]; try contradiction;
    cbn [SFmul xorb]; try exact I.
  pose proof (binary_round_aux_sign false (Z.pos (ma * mb)) (ea + eb)
                loc_Exact ltac:(lia)) as H.
  destruct (binary_round_aux _ _ _ _ _ _) as [s|s| |s m e];
    try contradiction; subst; exact I.
Qed.

(** Adding a double that is not below zero to a positive finite double
    does not give less, and taking it off does not give more. *)
Lemma add_ge x y :
  PrimFloat.ltb 0 x = true -> PrimFloat.is_finite x = true ->
  match Prim2SF y with
  | S754_zero _ | S754_finite false _ _ | S754_infinity false => True
  | _ => False
  end ->
  PrimFloat.leb x (x + y) = true.
Proof.
  intros Hpos Hfin Hy. apply ltb_0_shape in Hpos. apply Prim2SF_finite in Hfin.
  rewrite FloatAxioms.leb_spec, FloatAxioms.add_spec. unfold SF64add.
  pose proof (Prim2SF_valid x) as Hvx. pose proof (Prim2SF_valid y) as Hvy.
  destruct (Prim2SF x) as [sx|sx| |[] mx ex]; try contradiction.
  destruct (Prim2SF y) as [sy|[]| |[] my ey]; try contradiction.
  - cbn [SFadd]. apply SFleb_finite_pos. right. split; [reflexivity|lia].
  - reflexivity.
  - apply SFadd_ge; assumption.
Qed.

Lemma sub_le x y :
  PrimFloat.ltb 0 x = true -> PrimFloat.is_finite x = true ->
  match Prim2SF y with
  | S754_zero _ | S754_finite false _ _ | S754_infinity false => True
  | _ => False
  end ->
  PrimFloat.leb (x - y) x = true.
Proof.
  intros Hpos Hfin Hy. apply ltb_0_shape in Hpos. apply Prim2SF_finite in Hfin.
  rewrite FloatAxioms.leb_spec, FloatAxioms.sub_spec. unfold SF64sub.
  pose proof (Prim2SF_valid x) as Hvx. pose proof (Prim2SF_valid y) as Hvy.
  destruct (Prim2SF x) as [sx|sx| |[] mx ex]; try contradiction.
  destruct (Prim2SF y) as [sy|[]| |[] my ey]; try contradiction.
  - cbn [SFsub]. apply SFleb_finite_pos. right. split; [reflexivity|lia].
  - reflexivity.
  - apply SFsub_le; assumption.
Qed.

(* ===================================================================== *)
(** ** The stop of the volatility band strategy, in the simulator *)
(* ===================================================================== *)

(** The stop of a band signal is on the side of the target: not under the
    entry of a long signal, not over the entry of a short one. *)
Lemma vrb_stop_side vrb instrument prev row s :
  vrb_made_of vrb instrument prev row s ->
  PrimFloat.ltb 0 (stop_sigma_mult vrb) = true ->
  PrimFloat.ltb 0 (sig_entry s) = true ->
  PrimFloat.is_finite (sig_entry s) = true ->
  match sig_side s with
  | BUY => PrimFloat.leb (sig_entry s) (sig_stop s) = true
  | SELL => PrimFloat.leb (sig_stop s) (sig_entry s) = true
  end.
Proof.
  intros [_ _ _ (sigma & _ & Hsigma & Hstop & _) _ _] Hmult Hpos Hfin.
  pose proof (mul_pos _ _ Hmult Hsigma) as Hy. rewrite Hstop.
  destruct (sig_side s); [apply add_ge|apply sub_le]; assumption.
Qed.

(** X15. A position of the volatility band strategy is stopped on the bar
    of its own signal, for a positive stop multiplier and a positive finite
    close.  The strategy puts the stop of a long signal above its entry and
    the stop of a short one below it, the entry being the close of the bar;
    the simulator, which enters the position on that bar and tests the stop
    first, finds [low <= stop] for the long position and [high >= stop] for
    the short one on any bar whose range holds its close (a bar without the
    ["low"] and ["high"] cells among them).  The position is closed at once,
    with reason ["stop"], at the stop moved by the slippage, and is held
    for one bar. *)
Theorem vrb_position_is_stopped_on_its_own_bar
    vrb instrument prev row s self n bar_idx timestamp queue ledger :
  vrb_made_of vrb instrument prev row s ->
  PrimFloat.ltb 0 (stop_sigma_mult vrb) = true ->
  PrimFloat.ltb 0 (sig_entry s) = true ->
  PrimFloat.is_finite (sig_entry s) = true ->
  PrimFloat.leb (row_get row "low" (sig_entry s)) (sig_entry s) = true ->
  PrimFloat.leb (sig_entry s) (row_get row "high" (sig_entry s)) = true ->
  let slippage := (slippage_bps self / 10000)%float in
  exists trade,
    evaluate_exit self n bar_idx row timestamp queue ledger
      (enter_position slippage timestamp s)
    = inr {| pending := queue; open_position := None;
             trades := ledger ++ [trade] |}
    /\ exit_reason trade = "stop"
    /\ exit_price trade
       = (sig_stop s * exit_factor (sig_side s) slippage)%float
    /\ entry_time trade = timestamp
    /\ exit_time trade = timestamp
    /\ bars_held trade = 1.
Proof.
  intros Hmade Hmult Hpos Hfin Hlow Hhigh slippage.
  pose proof (vrb_stop_side _ _ _ _ _ Hmade Hmult Hpos Hfin) as Hside.
  pose proof (vrb_entry _ _ _ _ _ Hmade) as Hclose.
  assert (Hnat : nat_row row = false).
  { eapply nat_row_cell; [exact Hclose|].
    apply (ltb_not_nan _ _ Hpos). }
  rewrite (evaluate_exit_close _ _ _ _ _ _ _ _ _ Hclose Hnat). cbn zeta.
  fold slippage. cbn [pos_signal enter_position].
  rewrite check_exit_spec.
  assert (Hbreach : stop_breached (sig_side s)
                      (row_get row "low" (sig_entry s))
                      (row_get row "high" (sig_entry s)) (sig_stop s) = true).
  { unfold stop_breached. destruct (sig_side s).
    - exact (leb_trans _ _ _ Hlow Hside).
    - exact (leb_trans _ _ _ Hside Hhigh). }
  rewrite Hbreach. cbn [check_expiry].
  match goal with
  | |- context [close_position self ?pos timestamp ?r ?p] =>
      destruct (close_position_ok self pos timestamp r p) as [trade Ht];
        [cbn [pos_entry_time enter_position]; lia|]
  end.
  rewrite Ht. cbn [bind]. exists trade. split; [reflexivity|].
  pose proof (close_position_same_bar _ _ _ _ _ _ Ht) as Hheld.
  apply close_position_fields in Ht.
  destruct Ht as (He & Hx & _ & Hprice & _ & _ & _ & Hreason & _).
  cbn [pos_entry_time enter_position] in He, Hheld.
  split; [exact Hreason|]. split; [exact Hprice|].
  split; [exact He|]. split; [exact Hx|]. apply Hheld. lia.
Qed.

(** The long signal of the third bar of the band example, entered at 98.5
    with its stop at 99.7: the position is stopped on that very bar, above
    its entry. *)
Lemma vrb_position_is_stopped_on_its_own_bar_witness :
  exists s,
    vrb_signal default_VRBStrategy "TEST" (band_bar minute 97 100 1)
      (band_bar (2 * minute) 98.5 100 1) = inr (Some s)
    /\ (sig_side s, sig_entry s, sig_stop s)
       = (BUY, 98.5, 98.5 + 1.2 * 1)%float
    /\ exists trade,
         evaluate_exit default_backtester 5 2
           (band_bar (2 * minute) 98.5 100 1) (2 * minute) [] []
           (enter_position (slippage_bps default_backtester / 10000)
              (2 * minute) s)
         = inr {| pending := []; open_position := None;
                  trades := [] ++ [trade] |}
         /\ exit_reason trade = "stop"
         /\ exit_price trade
            = (sig_stop s
               * exit_factor (sig_side s)
                   (slippage_bps default_backtester / 10000))%float
         /\ entry_time trade = 2 * minute
         /\ exit_time trade = 2 * minute
         /\ bars_held trade = 1.
Proof.
  eexists. split; [vm_compute; reflexivity|]. split; [vm_compute; reflexivity|].
  apply (vrb_position_is_stopped_on_its_own_bar default_VRBStrategy "TEST"
           (band_bar minute 97 100 1) (band_bar (2 * minute) 98.5 100 1)).
  - apply vrb_signal_made. vm_compute. reflexivity.
  - vm_compute. reflexivity.
  - vm_compute. reflexivity.
  - vm_compute. reflexivity.
  - vm_compute. reflexivity.
  - vm_compute. reflexivity.
Defined.

(* ===================================================================== *)
(** ** Signals whose stop is met on their own bar *)
(* ===================================================================== *)

Lemma process_bar_own_bar self n bar_idx row st st' timestamp :
  open_position st = None ->
  row_timestamp row = Some timestamp ->
  Forall (own_bar_stop row) (queue_signals timestamp (pending st)).1 ->
  process_bar self n bar_idx row st = inr st' ->
  open_position st' = None
  /\ pending st' = (queue_signals timestamp (pending st)).2
  /\ (trades st' = trades st
      \/ exists trade,
           trades st' = trades st ++ [trade] /\ stopped_at_once trade).
Proof.
  intros Hflat Hts Hown H. unfold process_bar, row_time in H.
  rewrite Hts in H. cbn [bind ok] in H.
  destruct (queue_signals timestamp (pending st)) as [triggered queue].
  cbn [fst snd] in *. rewrite Hflat in H.
  destruct triggered as [|s rest]; cbn [open_if_flat] in H.
  - injection H as <-. cbn. auto.
  - apply Forall_cons in Hown as [(close & Hclose & Hbreach) _].
    rewrite (evaluate_exit_close _ _ _ _ _ _ _ _ _ Hclose
               (evaluate_exit_not_nat _ _ _ _ _ _ _ _ _ H)) in H.
    cbn zeta in H. cbn [pos_signal enter_position] in H.
    rewrite check_exit_spec, Hbreach in H. cbn [check_expiry] in H.
    bind_step H as trade Ht. injection H as <-. cbn.
    split; [reflexivity|]. split; [reflexivity|]. right. exists trade.
    split; [reflexivity|].
    pose proof (close_position_same_bar _ _ _ _ _ _ Ht) as Hheld.
    apply close_position_fields in Ht.
    destruct Ht as (He & Hx & _ & _ & _ & _ & _ & Hreason & _).
    cbn [pos_entry_time enter_position] in He, Hheld.
    split; [exact Hreason|]. split; [congruence|]. apply Hheld. lia.
Qed.

Lemma simulate_loop_own_bar self n :
  forall rows bar_idx st st',
    StronglySorted Z.lt (bar_times rows) ->
    Forall (fun row => is_Some (row_timestamp row)) rows ->
    open_position st = None ->
    StronglySorted not_later (pending st) ->
    Forall (stopped_at_birth rows) (pending st) ->
    Forall stopped_at_once (trades st) ->
    simulate_loop self n bar_idx rows st = inr st' ->
    Forall stopped_at_once (trades st').
Proof.
  induction rows as [|row rest IH];
    intros bar_idx st st' Hsorted Htimes Hflat Hqueue Hown Htrades H.
  - injection H as <-. exact Htrades.
  - cbn in H. bind_step H as st1 Hst1.
    apply Forall_cons in Htimes as [[timestamp Hts] Htimes].
    unfold bar_times in Hsorted. cbn [omap list_omap] in Hsorted.
    rewrite Hts in Hsorted. apply StronglySorted_inv in Hsorted as [Hrest Hlater].
    fold (bar_times rest) in Hrest, Hlater.
    (* the timestamp of a later row is later *)
    assert (Hafter : forall r t, r ∈ rest -> row_timestamp r = Some t ->
                       timestamp < t).
    { intros r t Hr Ht. rewrite Forall_forall in Hlater. apply Hlater.
      apply list_elem_of_omap. eauto. }
    pose proof (queue_signals_app timestamp (pending st)) as Happ.
    pose proof (queue_signals_late timestamp (pending st) Hqueue) as Hlate.
    pose proof (queue_signals_due timestamp (pending st)) as Hdue.
    assert (Hstep := process_bar_own_bar self n bar_idx row st st1 timestamp
                       Hflat Hts).
    destruct (queue_signals timestamp (pending st)) as [triggered queue].
    cbn [fst snd] in *. rewrite <- Happ in Hown, Hqueue.
    apply Forall_app in Hown as [Htrig Hrest'].
    apply StronglySorted_app_r in Hqueue.
    destruct Hstep as (Hflat1 & Hpending1 & Htrades1); [|exact Hst1|].
    + apply Forall_forall. intros s Hs.
      rewrite Forall_forall in Htrig, Hdue.
      destruct (Htrig s Hs) as (r & Hr & Hrt & Hstop).
      specialize (Hdue s Hs). cbn in Hdue.
      apply elem_of_cons in Hr as [->|Hr]; [exact Hstop|].
      specialize (Hafter r _ Hr Hrt). lia.
    + apply (IH (S bar_idx) st1 st'); try assumption.
      * rewrite Hpending1. exact Hqueue.
      * rewrite Hpending1. apply Forall_forall. intros s Hs.
        rewrite Forall_forall in Hrest', Hlate.
        destruct (Hrest' s Hs) as (r & Hr & Hrt & Hstop).
        specialize (Hlate s Hs). cbn in Hlate.
        apply elem_of_cons in Hr as [->|Hr].
        -- rewrite Hts in Hrt. injection Hrt as Hrt. lia.
        -- exists r. auto.
      * destruct Htrades1 as [->|(trade & -> & Htrade)]; [exact Htrades|].
        apply Forall_app. split; [exact Htrades|].
        constructor; [exact Htrade|constructor].
Qed.

(** What the queue holds at a bar, when every signal is stamped with a bar
    on which its stop is breached: the signals pulled are those of the bar,
    and those left are stamped with later bars. *)
Lemma queue_signals_own_bar row rest timestamp queue :
  row_timestamp row = Some timestamp ->
  Forall (fun t => timestamp < t) (bar_times rest) ->
  StronglySorted not_later queue ->
  Forall (stopped_at_birth (row :: rest)) queue ->
  Forall (own_bar_stop row) (queue_signals timestamp queue).1
  /\ StronglySorted not_later (queue_signals timestamp queue).2
  /\ Forall (stopped_at_birth rest) (queue_signals timestamp queue).2.
Proof.
  intros Hts Hlater Hqueue Hown.
  assert (Hafter : forall r t, r ∈ rest -> row_timestamp r = Some t ->
                     timestamp < t).
  { intros r t Hr Ht. rewrite Forall_forall in Hlater. apply Hlater.
    apply list_elem_of_omap. eauto. }
  pose proof (queue_signals_app timestamp queue) as Happ.
  pose proof (queue_signals_late timestamp queue Hqueue) as Hlate.
  pose proof (queue_signals_due timestamp queue) as Hdue.
  destruct (queue_signals timestamp queue) as [triggered queue'].
  cbn [fst snd] in *. rewrite <- Happ in Hown, Hqueue.
  apply Forall_app in Hown as [Htrig Hrest'].
  apply StronglySorted_app_r in Hqueue.
  split; [|split; [exact Hqueue|]].
  - apply Forall_forall. intros s Hs.
    rewrite Forall_forall in Htrig, Hdue.
    destruct (Htrig s Hs) as (r & Hr & Hrt & Hstop).
    specialize (Hdue s Hs). cbn in Hdue.
    apply elem_of_cons in Hr as [->|Hr]; [exact Hstop|].
    specialize (Hafter r _ Hr Hrt). lia.
  - apply Forall_forall. intros s Hs.
    rewrite Forall_forall in Hrest', Hlate.
    destruct (Hrest' s Hs) as (r & Hr & Hrt & Hstop).
    specialize (Hlate s Hs). cbn in Hlate.
    apply elem_of_cons in Hr as [->|Hr].
    + rewrite Hts in Hrt. injection Hrt as Hrt. lia.
    + exists r. auto.
Qed.

(** A flat engine gets through a bar on which the stop of every signal it
    pulls is breached: the position it enters is closed at once, with no
    holding time to measure. *)
Lemma process_bar_own_bar_ok self n bar_idx row st timestamp :
  open_position st = None ->
  row_timestamp row = Some timestamp ->
  Forall (own_bar_stop row) (queue_signals timestamp (pending st)).1 ->
  exists st', process_bar self n bar_idx row st = inr st'.
Proof.
  intros Hflat Hts Hown. unfold process_bar, row_time.
  rewrite Hts. cbn [bind ok].
  destruct (queue_signals timestamp (pending st)) as [triggered queue].
  cbn [fst snd] in *. rewrite Hflat.
  destruct triggered as [|s rest]; cbn [open_if_flat]; [eauto|].
  apply Forall_cons in Hown as [(close & Hclose & Hbreach) _].
  assert (Hnat : nat_row row = false).
  { unfold stop_breached in Hbreach. destruct (sig_side s);
      apply leb_not_nan in Hbreach as [Hl Hh];
      eapply row_get_not_nat; eassumption. }
  rewrite (evaluate_exit_close _ _ _ _ _ _ _ _ _ Hclose Hnat).
  cbn zeta. cbn [pos_signal enter_position].
  rewrite check_exit_spec, Hbreach. cbn [check_expiry].
  match goal with
  | |- context [close_position self ?pos timestamp ?r ?p] =>
      destruct (close_position_ok self pos timestamp r p) as [trade ->];
        [cbn [pos_entry_time enter_position]; lia|]
  end.
  cbn [bind ok]. eauto.
Qed.

Lemma simulate_loop_own_bar_ok self n :
  forall rows bar_idx st,
    StronglySorted Z.lt (bar_times rows) ->
    Forall (fun row => is_Some (row_timestamp row)) rows ->
    open_position st = None ->
    StronglySorted not_later (pending st) ->
    Forall (stopped_at_birth rows) (pending st) ->
    exists st', simulate_loop self n bar_idx rows st = inr st'.
Proof.
  induction rows as [|row rest IH];
    intros bar_idx st Hsorted Htimes Hflat Hqueue Hown.
  - cbn. eauto.
  - apply Forall_cons in Htimes as [[timestamp Hts] Htimes].
    unfold bar_times in Hsorted. cbn [omap list_omap] in Hsorted.
    rewrite Hts in Hsorted.
    apply StronglySorted_inv in Hsorted as [Hrest Hlater].
    fold (bar_times rest) in Hrest, Hlater.
    destruct (queue_signals_own_bar row rest timestamp (pending st) Hts
                Hlater Hqueue Hown) as (Htrig & Hqueue1 & Hown1).
    destruct (process_bar_own_bar_ok self n bar_idx row st timestamp Hflat
                Hts Htrig) as [st1 Hst1].
    destruct (process_bar_own_bar self n bar_idx row st st1 timestamp Hflat
                Hts Htrig Hst1) as (Hflat1 & Hpending1 & _).
    cbn [simulate_loop]. rewrite Hst1. cbn [bind].
    apply IH; try assumption; rewrite Hpending1; assumption.
Qed.

(** The run returns on bars of strictly increasing timestamps when every
    signal is stamped with a bar on which its stop is breached. *)
Lemma _simulate_trades_own_bar_ok self (df : DataFrame) signals :
  Sorted Z.lt (bar_times df) ->
  Forall (fun row => is_Some (row_timestamp row)) df ->
  Forall (stopped_at_birth df) signals ->
  exists ledger, _simulate_trades self df signals = inr ledger.
Proof.
  intros Hsorted Htimes Hown. unfold _simulate_trades, simulate_final.
  destruct signals as [|s signals]; [cbn; eauto|].
  destruct (df_empty df); [cbn; eauto|].
  destruct df as [|row rest]; [cbn; eauto|].
  destruct (simulate_loop_own_bar_ok self (length (row :: rest)) (row :: rest)
              0%nat
              {| pending := sorted_signals (s :: signals);
                 open_position := None; trades := [] |}) as [st ->];
    cbn [open_position pending trades].
  - apply Sorted_StronglySorted; [|exact Hsorted]. intros x y z; lia.
  - exact Htimes.
  - reflexivity.
  - apply sorted_signals_sorted.
  - apply Forall_forall. intros x Hx. apply sorted_signals_elem in Hx.
    rewrite Forall_forall in Hown. auto.
  - cbn. eauto.
Qed.

Lemma _simulate_trades_own_bar self (df : DataFrame) signals ledger :
  Sorted Z.lt (bar_times df) ->
  Forall (fun row => is_Some (row_timestamp row)) df ->
  Forall (stopped_at_birth df) signals ->
  _simulate_trades self df signals = inr ledger ->
  Forall stopped_at_once ledger.
Proof.
  intros Hsorted Htimes Hown Hrun.
  unfold _simulate_trades in Hrun. bind_step Hrun as final Hfinal.
  destruct final as [st|]; injection Hrun as <-; [|constructor].
  unfold simulate_final in Hfinal.
  destruct signals as [|s signals]; [discriminate|].
  destruct (df_empty df) eqn:Hcolumns; [discriminate|].
  destruct df as [|row rest]; [discriminate Hcolumns|].
  bind_step Hfinal as st0 Hloop. injection Hfinal as ->.
  eapply simulate_loop_own_bar; [| | | | | |exact Hloop];
    cbn [open_position pending trades].
  - apply Sorted_StronglySorted; [|exact Hsorted]. intros x y z; lia.
  - exact Htimes.
  - reflexivity.
  - apply sorted_signals_sorted.
  - apply Forall_forall. intros x Hx. apply sorted_signals_elem in Hx.
    rewrite Forall_forall in Hown. auto.
  - constructor.
Qed.

(** X16. A signal whose stop is already met on its own bar never lives
    beyond that bar, and never blocks another.  On bars of strictly
    increasing timestamps, if every signal is stamped with the timestamp of
    a bar on which its stop is breached, then every trade of the ledger is
    closed by its stop on the bar it was entered on, with a holding count
    of one: the engine is flat again after every bar. *)
Theorem signals_stopped_at_birth_are_closed_at_once
    self (df : DataFrame) signals ledger :
  Sorted Z.lt (bar_times df) ->
  Forall (fun row => is_Some (row_timestamp row)) df ->
  Forall (stopped_at_birth df) signals ->
  _simulate_trades self df signals = inr ledger ->
  Forall stopped_at_once ledger.
Proof. apply _simulate_trades_own_bar. Qed.

(** Two long signals with their stops at 100.5 and 101, on bars whose lows
    are 99.5 and 100.5: both positions are stopped on their entry bars. *)
Lemma signals_stopped_at_birth_are_closed_at_once_witness :
  exists ledger,
    _simulate_trades default_backtester three_bars signals_with_high_stops
    = inr ledger
    /\ map (fun t => (entry_time t, exit_time t, exit_reason t)) ledger
       = [(0, 0, "stop"); (2 * minute, 2 * minute, "stop")]
    /\ Forall stopped_at_once ledger.
Proof.
  eexists. split; [vm_compute; reflexivity|]. split; [reflexivity|].
  apply (signals_stopped_at_birth_are_closed_at_once default_backtester
           three_bars signals_with_high_stops).
  - vm_compute. repeat constructor.
  - unfold three_bars. repeat constructor; vm_compute; eauto.
  - unfold signals_with_high_stops. constructor; [|constructor; [|constructor]].
    + exists (ohlc_bar 0 101 99.5 100). split; [left|].
      split; [reflexivity|]. exists 100%float.
      split; vm_compute; reflexivity.
    + exists (ohlc_bar (2 * minute) 103 100.5 102).
      split; [right; right; left|].
      split; [reflexivity|]. exists 102%float.
      split; vm_compute; reflexivity.
  - vm_compute. reflexivity.
Defined.

(** The stop of a band signal is met on its own bar, when the bar is
    sane. *)
Lemma vrb_stopped_at_birth vrb instrument (df : DataFrame) prev row s :
  PrimFloat.ltb 0 (stop_sigma_mult vrb) = true ->
  consecutive df prev row -> sane_bar row ->
  vrb_made_of vrb instrument prev row s ->
  stopped_at_birth df s.
Proof.
  intros Hmult (i & _ & Hrow) (close & Hclose & Hpos & Hfin & Hlow & Hhigh)
    Hmade.
  pose proof (vrb_entry _ _ _ _ _ Hmade) as Hentry.
  rewrite Hclose in Hentry. injection Hentry as ->.
  pose proof (vrb_stop_side _ _ _ _ _ Hmade Hmult Hpos Hfin) as Hside.
  exists row. split; [eapply list_elem_of_lookup_2; exact Hrow|].
  split; [exact (vrb_time _ _ _ _ _ Hmade)|].
  exists (sig_entry s). split; [exact Hclose|].
  unfold stop_breached. destruct (sig_side s).
  - exact (leb_trans _ _ _ Hlow Hside).
  - exact (leb_trans _ _ _ Hside Hhigh).
Qed.

(** X17. The volatility band strategy in the event-driven simulator: every
    trade is stopped on the bar it is entered on.  For a positive stop
    multiplier, on a frame of strictly increasing timestamps whose bars
    have a positive finite close inside their range, the simulation of the
    signals of the strategy returns a ledger in which every trade has the
    exit reason ["stop"], the exit time of its entry and a holding count of
    one. *)
Theorem vrb_trades_are_all_stopped_at_once
    vrb self (df : DataFrame) instrument signals :
  PrimFloat.ltb 0 (stop_sigma_mult vrb) = true ->
  Sorted Z.lt (bar_times df) ->
  Forall (fun row => is_Some (row_timestamp row) /\ sane_bar row) df ->
  VRBStrategy_generate_signals vrb df instrument = inr signals ->
  exists ledger,
    _simulate_trades self df signals = inr ledger
    /\ Forall stopped_at_once ledger.
Proof.
  intros Hmult Hsorted Hrows Hsignals.
  assert (Htimes : Forall (fun row => is_Some (row_timestamp row)) df)
    by (eapply Forall_impl; [exact Hrows|]; cbn; tauto).
  assert (Hborn : Forall (stopped_at_birth df) signals).
  { assert (Hall : Forall (fun s => exists prev row,
                            consecutive df prev row
                            /\ vrb_made_of vrb instrument prev row s)
                     signals).
    { apply VRBStrategy_generate_signals_cases in Hsignals
        as [->|(first & rest & -> & Hsignals)]; [constructor|].
      exact (proj2 (vrb_loop_spec vrb instrument (first :: rest) rest first
                      0%nat signals eq_refl eq_refl Hsignals)). }
    eapply Forall_impl; [exact Hall|]. cbn.
    intros s (prev & row & Hcons & Hmade).
    eapply vrb_stopped_at_birth; try eassumption.
    destruct Hcons as (i & _ & Hrow).
    rewrite Forall_forall in Hrows.
    apply (Hrows row (list_elem_of_lookup_2 _ _ _ Hrow)). }
  destruct (_simulate_trades_own_bar_ok self df signals Hsorted Htimes Hborn)
    as [ledger Hrun].
  exists ledger. split; [exact Hrun|].
  exact (_simulate_trades_own_bar self df signals ledger Hsorted Htimes Hborn
           Hrun).
Qed.

(** The five bars of the band example: the long signal of the third bar
    and the short signal of the fifth are both traded, and both stopped on
    their own bar, at a profit. *)
Lemma vrb_trades_are_all_stopped_at_once_witness :
  exists signals ledger,
    VRBStrategy_generate_signals default_VRBStrategy band_bars "TEST"
    = inr signals
    /\ _simulate_trades default_backtester band_bars signals = inr ledger
    /\ map (fun t => (side t, entry_time t, exit_time t, exit_reason t,
                      PrimFloat.ltb 0 (pnl t)))
         ledger
       = [(BUY, 2 * minute, 2 * minute, "stop", true);
          (SELL, 4 * minute, 4 * minute, "stop", true)]
    /\ Forall stopped_at_once ledger.
Proof.
  eexists.
  edestruct (vrb_trades_are_all_stopped_at_once default_VRBStrategy
               default_backtester band_bars "TEST")
    as (ledger & Hrun & Hall).
  - vm_compute. reflexivity.
  - vm_compute. repeat constructor.
  - unfold band_bars.
    repeat first
      [ apply List.Forall_nil
      | apply List.Forall_cons;
        [split; [vm_compute; eauto|];
         eexists; split; [vm_compute; reflexivity|];
         repeat split; vm_compute; reflexivity|] ].
  - vm_compute. reflexivity.
  - exists ledger. split; [reflexivity|]. split; [exact Hrun|].
    split; [|exact Hall].
    vm_compute in Hrun. injection Hrun as <-. vm_compute. reflexivity.
Defined.

(* ===================================================================== *)
(** ** Doubles: the order of a product *)
(* ===================================================================== *)

(** Halving an even mantissa loses nothing. *)
Lemma shr_1_even r q :
  shr_m r = 2 * q -> 0 <= q -> shr_r r = false -> shr_s r = false ->
  shr_m (shr_1 r) = q /\ shr_r (shr_1 r) = false /\ shr_s (shr_1 r) = false.
Proof.
  destruct r as [m b s]; cbn [shr_m shr_r shr_s]; intros Hm Hq -> ->.
  destruct m as [|p|p]; [|destruct p as [p|p|]|lia]; cbn [shr_1 shr_m shr_r shr_s orb];
    repeat split; lia.
Qed.

Lemma iter_shr_1_even p :
  forall r q,
    shr_m r = q * 2 ^ Z.pos p -> 0 <= q ->
    shr_r r = false -> shr_s r = false ->
    shr_m (SpecFloat.iter_pos shr_1 p r) = q
    /\ shr_r (SpecFloat.iter_pos shr_1 p r) = false
    /\ shr_s (SpecFloat.iter_pos shr_1 p r) = false.
Proof.
  induction p as [p IH|p IH|]; intros r q Hm Hq Hr Hs;
    cbn [SpecFloat.iter_pos].
  - assert (Hp : 0 < 2 ^ Z.pos p) by (apply Z.pow_pos_nonneg; lia).
    destruct (shr_1_even r (q * 2 ^ Z.pos p * 2 ^ Z.pos p)) as (H1 & H2 & H3);
      [|nia|assumption|assumption|].
    { rewrite Hm. replace (Z.pos p~1) with (1 + Z.pos p + Z.pos p) by lia.
      rewrite !Z.pow_add_r by lia. change (2 ^ 1) with 2. lia. }
    destruct (IH _ (q * 2 ^ Z.pos p) H1 ltac:(nia) H2 H3) as (H4 & H5 & H6).
    exact (IH _ q H4 Hq H5 H6).
  - assert (Hp : 0 < 2 ^ Z.pos p) by (apply Z.pow_pos_nonneg; lia).
    destruct (IH r (q * 2 ^ Z.pos p)) as (H4 & H5 & H6);
      [|nia|assumption|assumption|].
    { rewrite Hm. replace (Z.pos p~0) with (Z.pos p + Z.pos p) by lia.
      rewrite Z.pow_add_r by lia. lia. }
    exact (IH _ q H4 Hq H5 H6).
  - apply shr_1_even; try assumption. rewrite Hm. change (2 ^ 1) with 2. lia.
Qed.

(** The digits of a mantissa shifted to the left. *)
Lemma Zdigits2_shift p k :
  0 <= k -> Zdigits2 (Z.pos p * 2 ^ k) = Z.pos (digits2_pos p) + k.
Proof.
  intros Hk. pose proof (digits2_pos_lb p) as Hlb.
  pose proof (digits2_pos_ub p) as Hub.
  assert (Hp : 0 < 2 ^ k) by (apply Z.pow_pos_nonneg; lia).
  apply Z.le_antisymm.
  - apply Zdigits2_le; [lia|]. split; [nia|].
    rewrite Z.pow_add_r by lia. nia.
  - replace (Z.pos (digits2_pos p) + k)
      with (Z.pos (digits2_pos p) - 1 + k + 1) by lia.
    apply Zdigits2_lower; [lia|]. rewrite Z.pow_add_r by lia. nia.
Qed.

(** A number that is a double is rounded to itself. *)
Lemma binary_round_aux_exact m e mx ex :
  e <= ex <= 971 ->
  fexp prec emax (Z.pos (digits2_pos mx) + ex) = ex ->
  m = Z.pos mx * 2 ^ (ex - e) ->
  binary_round_aux prec emax false m e loc_Exact = S754_finite false mx ex.
Proof.
  intros He Hcan ->. unfold binary_round_aux.
  assert (Hfirst : exists r1,
            shr_fexp prec emax (Z.pos mx * 2 ^ (ex - e)) e loc_Exact
            = (r1, ex)
            /\ shr_m r1 = Z.pos mx /\ shr_r r1 = false /\ shr_s r1 = false).
  { unfold shr_fexp. rewrite Zdigits2_shift by lia.
    replace (Z.pos (digits2_pos mx) + (ex - e) + e)
      with (Z.pos (digits2_pos mx) + ex) by lia.
    rewrite Hcan. unfold shr.
    destruct (ex - e) as [|p|p] eqn:E; [| |lia].
    - eexists. split; [f_equal; lia|]. cbn. repeat split. lia.
    - destruct (iter_shr_1_even p
                  (shr_record_of_loc (Z.pos mx * 2 ^ Z.pos p) loc_Exact)
                  (Z.pos mx))
        as (H1 & H2 & H3); try reflexivity; [lia|].
      eexists. split; [f_equal; lia|]. repeat split; assumption. }
  destruct Hfirst as ([m1 b1 s1] & -> & H1 & H2 & H3).
  cbn [shr_m shr_r shr_s] in H1, H2, H3. subst m1 b1 s1.
  cbn [shr_m loc_of_shr_record round_nearest_even].
  unfold shr_fexp. cbn [Zdigits2]. rewrite Hcan, Z.sub_diag.
  cbn [shr shr_record_of_loc shr_m].
  replace (ex <=? emax - prec) with true; [reflexivity|].
  symmetry. apply Z.leb_le. unfold emax, prec. lia.
Qed.

(** One step of the rounding keeps a positive mantissa positive. *)
Lemma round_step_pos m e :
  1 <= m -> -1074 <= e ->
  1 <= m / 2 ^ (Z.max e (fexp prec emax (Zdigits2 m + e)) - e).
Proof.
  intros Hm He. destruct (Zdigits2_bounds m ltac:(lia)) as (Hd & _).
  apply div_pow_pos; [lia|].
  unfold fexp, SpecFloat.emin, prec, emax. lia.
Qed.

(** The rounding of a mantissa that is not negative, step by step, whatever
    its exponent. *)
Lemma binary_round_aux_steps s m e :
  0 <= m ->
  exists m1 m2 e1 e2,
    e1 = Z.max e (fexp prec emax (Zdigits2 m + e))
    /\ m / 2 ^ (e1 - e) <= m1 <= m / 2 ^ (e1 - e) + 1
    /\ e2 = Z.max e1 (fexp prec emax (Zdigits2 m1 + e1))
    /\ m2 = m1 / 2 ^ (e2 - e1)
    /\ 0 <= m1 /\ 0 <= m2
    /\ binary_round_aux prec emax s m e loc_Exact
       = match m2 with
         | 0 => S754_zero s
         | Z.pos p =>
             if e2 <=? 971 then S754_finite s p e2 else S754_infinity s
         | Z.neg _ => S754_nan
         end.
Proof.
  intros Hm. unfold binary_round_aux.
  destruct (shr_fexp_exact m e loc_Exact Hm) as [Hm1 He1].
  destruct (shr_fexp prec emax m e loc_Exact) as [r1 e1].
  cbn [fst snd] in Hm1, He1.
  pose proof (round_nearest_even_bounds (shr_m r1) (loc_of_shr_record r1))
    as Hr.
  set (m1 := round_nearest_even (shr_m r1) (loc_of_shr_record r1)) in *.
  assert (Hk1' : e1 - e = Z.max 0 (fexp prec emax (Zdigits2 m + e) - e))
    by lia.
  rewrite <- Hk1' in Hm1. rewrite Hm1 in Hr.
  assert (Hdiv : 0 <= m / 2 ^ (e1 - e))
    by (apply Z.div_pos; [lia|apply Z.pow_pos_nonneg; lia]).
  assert (Hm1pos : 0 <= m1) by lia.
  destruct (shr_fexp_exact m1 e1 loc_Exact Hm1pos) as [Hm2 He2].
  destruct (shr_fexp prec emax m1 e1 loc_Exact) as [r2 e2].
  cbn [fst snd] in Hm2, He2.
  assert (Hk2' : e2 - e1 = Z.max 0 (fexp prec emax (Zdigits2 m1 + e1) - e1))
    by lia.
  rewrite <- Hk2' in Hm2.
  assert (Hdiv2 : 0 <= m1 / 2 ^ (e2 - e1))
    by (apply Z.div_pos; [lia|apply Z.pow_pos_nonneg; lia]).
  exists m1, (m1 / 2 ^ (e2 - e1)), e1, e2.
  split; [rewrite He1; lia|]. split; [exact Hr|].
  split; [rewrite He2; lia|]. split; [reflexivity|].
  split; [lia|]. split; [exact Hdiv2|].
  rewrite Hm2. reflexivity.
Qed.

(** Rounding is monotone from below, whatever the exponent of the number
    that is rounded. *)
Lemma binary_round_aux_above m e mx ex :
  0 < m ->
  fexp prec emax (Z.pos (digits2_pos mx) + ex) = ex ->
  (e <= ex -> Z.pos mx * 2 ^ (ex - e) <= m) ->
  SFleb (S754_finite false mx ex)
    (binary_round_aux prec emax false m e loc_Exact) = true.
Proof.
  intros Hm Hcan Hge.
  pose proof (fexp_min (Z.pos (digits2_pos mx) + ex)) as Hexmin.
  rewrite Hcan in Hexmin.
  assert (Hfexp : forall x, fexp prec emax x = Z.max (x - 53) (-1074))
    by reflexivity.
  destruct (binary_round_aux_steps false m e ltac:(lia))
    as (m1 & m2 & e1 & e2 & He1 & Hm1 & He2 & Hm2 & H1 & H2 & ->).
  pose proof (digits2_pos_lb mx) as Hlb.
  destruct (Zdigits2_bounds m Hm) as (Hd & _).
  assert (He1min : -1074 <= e1) by (rewrite He1, Hfexp; lia).
  (* the first step: at the exponent of [x] the mantissa is not under the
     one of [x], above it the mantissa is positive *)
  assert (Hfirst : ex <= e1 /\ 1 <= m1 /\ (e1 = ex -> Z.pos mx <= m1)).
  { destruct (Z_le_gt_dec e ex) as [Hle|Hgt].
    - specialize (Hge Hle).
      assert (Hpow : 0 < 2 ^ (ex - e)) by (apply Z.pow_pos_nonneg; lia).
      assert (Hdig : Z.pos (digits2_pos mx) + ex <= Zdigits2 m + e).
      { assert (H : Z.pos (digits2_pos mx) - 1 + (ex - e) + 1 <= Zdigits2 m).
        { apply Zdigits2_lower; [lia|]. rewrite Z.pow_add_r by lia. nia. }
        lia. }
      apply fexp_mono in Hdig. rewrite Hcan in Hdig.
      split; [lia|].
      destruct (Z_lt_le_dec ex e1) as [Hlt|Hle1].
      + split; [|lia].
        assert (1 <= m / 2 ^ (e1 - e)); [|lia].
        apply div_pow_pos; [exact Hm|]. rewrite He1, Hfexp in *. lia.
      + assert (E1 : e1 = ex) by lia. rewrite E1 in Hm1.
        assert (Z.pos mx <= m / 2 ^ (ex - e))
          by (apply Z.div_le_lower_bound; [exact Hpow|lia]).
        split; lia.
    - split; [lia|]. split; [|lia].
      assert (1 <= m / 2 ^ (e1 - e)); [|lia].
      rewrite He1. apply round_step_pos; lia. }
  destruct Hfirst as (Hex1 & Hm1pos & Hm1x).
  assert (Hm2pos : 1 <= m2)
    by (rewrite Hm2, He2; apply round_step_pos; assumption).
  destruct m2 as [|p2|p2]; try lia.
  destruct (e2 <=? 971); [|reflexivity].
  apply SFleb_finite_pos.
  destruct (Z_lt_le_dec ex e2) as [Hlt|Hle]; [left; exact Hlt|right].
  assert (E1 : e1 = ex) by lia. assert (E2 : e2 = ex) by lia.
  split; [lia|].
  rewrite E2, E1, Z.sub_diag, Z.pow_0_r, Z.div_1_r in Hm2.
  specialize (Hm1x E1). lia.
Qed.

(** Rounding is monotone from above, whatever the exponent of the number
    that is rounded. *)
Lemma binary_round_aux_below m e mx ex :
  0 < m -> e <= ex <= 971 ->
  fexp prec emax (Z.pos (digits2_pos mx) + ex) = ex ->
  m <= Z.pos mx * 2 ^ (ex - e) ->
  SFleb (binary_round_aux prec emax false m e loc_Exact)
    (S754_finite false mx ex) = true.
Proof.
  intros Hm He Hcan Hle.
  destruct (Z_le_lt_eq_dec _ _ Hle) as [Hlt|Heq].
  2:{ rewrite (binary_round_aux_exact m e mx ex He Hcan Heq).
      apply SFleb_finite_pos. right. split; [reflexivity|lia]. }
  destruct (binary_round_aux_steps false m e ltac:(lia))
    as (m1 & m2 & e1 & e2 & He1 & Hm1 & He2 & Hm2 & H1 & H2 & ->).
  pose proof (digits2_pos_ub mx) as Hub.
  pose proof (digits2_pos_lb mx) as Hlb.
  pose proof (fexp_min (Z.pos (digits2_pos mx) + ex)) as Hexmin.
  rewrite Hcan in Hexmin.
  set (D := Z.pos (digits2_pos mx)) in *.
  assert (Hfexp : forall x, fexp prec emax x = Z.max (x - 53) (-1074))
    by reflexivity.
  assert (Hpow : 0 < 2 ^ (ex - e)) by (apply Z.pow_pos_nonneg; lia).
  destruct (Zdigits2_bounds m Hm) as (Hd & Hmlb & Hmub).
  assert (Hdig : Zdigits2 m + e <= D + ex).
  { assert (H : Zdigits2 m <= D + (ex - e)).
    { apply Zdigits2_le; [lia|]. split; [lia|].
      rewrite Z.pow_add_r by lia. nia. }
    lia. }
  assert (He1x : e1 <= ex).
  { apply fexp_mono in Hdig. rewrite Hcan in Hdig. lia. }
  assert (Hm1ub : m / 2 ^ (e1 - e) < 2 ^ 53).
  { assert (Hp1 : 0 < 2 ^ (e1 - e)) by (apply Z.pow_pos_nonneg; lia).
    apply Z.div_lt_upper_bound; [exact Hp1|].
    destruct (Z_le_gt_dec (Zdigits2 m) (e1 - e + 53)) as [Hle'|Hgt].
    - rewrite <- Z.pow_add_r by lia.
      assert (2 ^ Zdigits2 m <= 2 ^ (e1 - e + 53))
        by (apply Z.pow_le_mono_r; lia).
      lia.
    - rewrite He1, Hfexp in Hgt. lia. }
  assert (Hm1le : m1 <= 2 ^ 53) by lia.
  destruct m2 as [|p2|p2]; [reflexivity| |lia].
  assert (Hm1pos : 0 < m1).
  { destruct (Z.eq_dec m1 0) as [E|]; [|lia].
    rewrite E in Hm2. rewrite Z.div_0_l in Hm2; [lia|].
    apply Z.pow_nonzero; lia. }
  assert (Hgoal : e2 < ex \/ (e2 = ex /\ Z.pos p2 <= Z.pos mx)).
  { destruct (Z_lt_le_dec e1 ex) as [Hlt1|Hge1].
    - assert (Hd1 : Zdigits2 m1 <= 54).
      { apply Zdigits2_le; [lia|]. split; [lia|].
        change (2 ^ 54) with (2 * 2 ^ 53). lia. }
      assert (He1min : -1074 <= e1) by (rewrite He1, Hfexp; lia).
      assert (He2' : e2 <= e1 + 1) by (rewrite He2, Hfexp; lia).
      destruct (Z_lt_le_dec e2 ex) as [|Hge2]; [left; assumption|right].
      assert (E2 : e2 = ex) by lia. split; [assumption|].
      assert (He21 : e2 - e1 = 1) by lia.
      assert (Hd1' : Zdigits2 m1 = 54).
      { rewrite He2, Hfexp in He21. lia. }
      assert (Hm1eq : 2 ^ 53 <= m1).
      { destruct (Zdigits2_bounds m1 ltac:(lia)) as (_ & Hl & _).
        rewrite Hd1' in Hl. exact Hl. }
      assert (E1 : m1 = 2 ^ 53) by lia.
      rewrite Hm2, He21, E1. change (2 ^ 53 / 2 ^ 1) with (2 ^ 52).
      assert (HD : D = 53).
      { rewrite Hfexp in Hcan. lia. }
      rewrite HD in Hlb. exact Hlb.
    - assert (E1 : e1 = ex) by lia. right.
      assert (Hm1x : m / 2 ^ (ex - e) < Z.pos mx)
        by (apply Z.div_lt_upper_bound; [exact Hpow|lia]).
      rewrite E1 in Hm1.
      assert (Hm1mx : m1 <= Z.pos mx) by lia.
      assert (Hd1 : Zdigits2 m1 <= D).
      { apply Zdigits2_le; [lia|]. lia. }
      assert (He2' : e2 = ex).
      { assert (H := fexp_mono (Zdigits2 m1 + ex) (D + ex) ltac:(lia)).
        rewrite Hcan in H. rewrite E1 in He2. lia. }
      split; [exact He2'|].
      rewrite Hm2, He2', E1, Z.sub_diag, Z.pow_0_r, Z.div_1_r.
      exact Hm1mx. }
  replace (e2 <=? 971) with true by (symmetry; apply Z.leb_le; lia).
  apply SFleb_finite_pos. exact Hgoal.
Qed.

(** The mantissa of a valid double has 53 digits at most, and 53 when the
    double is normal. *)
Lemma valid_mantissa s m e :
  valid_binary (S754_finite s m e) = true ->
  Z.pos m < 2 ^ 53 /\ (-1074 < e -> 2 ^ 52 <= Z.pos m).
Proof.
  intros H. apply valid_finite in H as [Hcan He].
  pose proof (digits2_pos_lb m) as Hlb. pose proof (digits2_pos_ub m) as Hub.
  assert (Hfexp : forall x, fexp prec emax x = Z.max (x - 53) (-1074))
    by reflexivity.
  rewrite Hfexp in Hcan. split.
  - assert (2 ^ Z.pos (digits2_pos m) <= 2 ^ 53)
      by (apply Z.pow_le_mono_r; lia).
    lia.
  - intros Hn. assert (E : Z.pos (digits2_pos m) = 53) by lia.
    rewrite E in Hlb. exact Hlb.
Qed.

Lemma Prim2SF_one : Prim2SF 1 = S754_finite false 4503599627370496 (-52).
Proof. vm_compute. reflexivity. Qed.

(** A double that is not under zero, and one that is not over it. *)
Lemma leb_0_inv x :
  PrimFloat.leb 0 x = true ->
  match Prim2SF x with
  | S754_zero _ | S754_finite false _ _ | S754_infinity false => True
  | _ => False
  end.
Proof.
  rewrite FloatAxioms.leb_spec.
  change (Prim2SF 0) with (S754_zero false).
  destruct (Prim2SF x) as [s|[]| |[] m e]; cbn; intros H;
    try discriminate; exact I.
Qed.

Lemma leb_inv_0 x :
  PrimFloat.leb x 0 = true ->
  match Prim2SF x with
  | S754_zero _ | S754_finite true _ _ | S754_infinity true => True
  | _ => False
  end.
Proof.
  rewrite FloatAxioms.leb_spec.
  change (Prim2SF 0) with (S754_zero false).
  destruct (Prim2SF x) as [s|[]| |[] m e]; cbn; intros H;
    try discriminate; exact I.
Qed.

(** Adding a double that is not over zero to a positive finite double does
    not give more. *)
Lemma add_le x y :
  PrimFloat.ltb 0 x = true -> PrimFloat.is_finite x = true ->
  PrimFloat.leb y 0 = true ->
  PrimFloat.leb (x + y) x = true.
Proof.
  intros Hpos Hfin Hy. apply ltb_0_shape in Hpos. apply Prim2SF_finite in Hfin.
  apply leb_inv_0 in Hy.
  rewrite FloatAxioms.leb_spec, FloatAxioms.add_spec. unfold SF64add.
  pose proof (Prim2SF_valid x) as Hvx. pose proof (Prim2SF_valid y) as Hvy.
  destruct (Prim2SF x) as [sx|sx| |[] mx ex]; try contradiction.
  destruct (Prim2SF y) as [sy|[]| |[] my ey]; try contradiction.
  - cbn [SFadd]. apply SFleb_finite_pos. right. split; [reflexivity|lia].
  - reflexivity.
  - apply valid_finite in Hvx as [Hcx Hex].
    apply valid_finite in Hvy as [Hcy Hey]. cbn [SFadd]. cbv zeta.
    destruct (shl_align_spec mx ex (Z.min ex ey)) as [_ Hax].
    destruct (shl_align_spec my ey (Z.min ex ey)) as [_ Hay].
    replace (Z.min ex (Z.min ex ey)) with (Z.min ex ey) in Hax by lia.
    unfold cond_Zopp.
    set (a := fst (shl_align mx ex (Z.min ex ey))) in *.
    set (b := fst (shl_align my ey (Z.min ex ey))) in *.
    destruct (Z.pos a + - Z.pos b) as [|p|p] eqn:E; cbn [binary_normalize].
    + reflexivity.
    + apply binary_round_le; [lia|lia|exact Hcx|]. lia.
    + pose proof (binary_round_sign true p (Z.min ex ey)) as Hs.
      destruct (binary_round prec emax true p (Z.min ex ey)) as [s|s| |s m e];
        try contradiction; subst s; reflexivity.
Qed.

(** The product of a positive finite double and a double that is not under
    one is not under the first. *)
Lemma mul_ge_1 c w :
  PrimFloat.ltb 0 c = true -> PrimFloat.is_finite c = true ->
  PrimFloat.leb 1 w = true ->
  PrimFloat.leb c (c * w) = true.
Proof.
  intros Hpos Hfin Hw. apply ltb_0_shape in Hpos. apply Prim2SF_finite in Hfin.
  rewrite FloatAxioms.leb_spec, Prim2SF_one in Hw.
  rewrite FloatAxioms.leb_spec, FloatAxioms.mul_spec. unfold SF64mul.
  pose proof (Prim2SF_valid c) as Hvc. pose proof (Prim2SF_valid w) as Hvw.
  destruct (Prim2SF c) as [sc|sc| |[] mc ec]; try contradiction.
  destruct (Prim2SF w) as [sw|[]| |[] mw ew]; try discriminate Hw.
  - reflexivity.
  - apply SFleb_pos_iff in Hw.
    apply valid_mantissa in Hvw as [Hub Hlb].
    apply valid_finite in Hvc as [Hcc Hec].
    cbn [SFmul xorb]. apply binary_round_aux_above; [lia|exact Hcc|].
    intros Hle. replace (ec - (ec + ew)) with (- ew) by lia.
    assert (2 ^ (- ew) <= Z.pos mw); [|nia].
    destruct Hw as [Hw|[<- Hw]]; [|exact Hw].
    assert (2 ^ (- ew) <= 2 ^ 52) by (apply Z.pow_le_mono_r; lia).
    specialize (Hlb ltac:(lia)). lia.
Qed.

(** The product of a positive finite double and a double that is not over
    one is not over the first. *)
Lemma mul_le_1 c w :
  PrimFloat.ltb 0 c = true -> PrimFloat.is_finite c = true ->
  PrimFloat.leb w 1 = true ->
  PrimFloat.leb (c * w) c = true.
Proof.
  intros Hpos Hfin Hw. apply ltb_0_shape in Hpos. apply Prim2SF_finite in Hfin.
  rewrite FloatAxioms.leb_spec, Prim2SF_one in Hw.
  rewrite FloatAxioms.leb_spec, FloatAxioms.mul_spec. unfold SF64mul.
  pose proof (Prim2SF_valid c) as Hvc. pose proof (Prim2SF_valid w) as Hvw.
  destruct (Prim2SF c) as [sc|sc| |[] mc ec]; try contradiction.
  destruct (Prim2SF w) as [sw|[]| |[] mw ew]; try discriminate Hw.
  - destruct sw; reflexivity.
  - reflexivity.
  - cbn [SFmul xorb].
    pose proof (binary_round_aux_sign true (Z.pos (mc * mw)) (ec + ew)
                  loc_Exact ltac:(lia)) as Hs.
    destruct (binary_round_aux _ _ _ _ _ _) as [s|s| |s m e];
      try contradiction; subst s; reflexivity.
  - apply SFleb_pos_iff in Hw.
    apply valid_mantissa in Hvw as [Hub Hlb].
    apply valid_finite in Hvc as [Hcc Hec].
    cbn [SFmul xorb]. apply binary_round_aux_below; [lia|lia|exact Hcc|].
    replace (ec - (ec + ew)) with (- ew) by lia.
    assert (Z.pos mw <= 2 ^ (- ew)); [|nia].
    destruct Hw as [Hw|[-> Hw]]; [|exact Hw].
    assert (2 ^ 53 <= 2 ^ (- ew)) by (apply Z.pow_le_mono_r; lia). lia.
Qed.

(** The aligned mantissas of two positive doubles are in the order of the
    doubles. *)
Lemma shl_align_le mb eb ma ea :
  valid_binary (S754_finite false mb eb) = true ->
  valid_binary (S754_finite false ma ea) = true ->
  SFleb (S754_finite false mb eb) (S754_finite false ma ea) = true ->
  Z.pos (fst (shl_align mb eb (Z.min ea eb)))
  <= Z.pos (fst (shl_align ma ea (Z.min ea eb))).
Proof.
  intros Hvb Hva Hle. apply SFleb_pos_iff in Hle.
  destruct (shl_align_spec mb eb (Z.min ea eb)) as [_ ->].
  destruct (shl_align_spec ma ea (Z.min ea eb)) as [_ ->].
  replace (Z.min eb (Z.min ea eb)) with (Z.min ea eb) by lia.
  replace (Z.min ea (Z.min ea eb)) with (Z.min ea eb) by lia.
  destruct Hle as [Hlt|[-> Hle]].
  - replace (Z.min ea eb) with eb by lia. rewrite Z.sub_diag, Z.pow_0_r.
    pose proof (valid_finite _ _ _ Hvb) as [_ Heb].
    apply valid_mantissa in Hvb as [Hub _].
    apply valid_mantissa in Hva as [_ Hlb]. specialize (Hlb ltac:(lia)).
    assert (2 ^ 1 <= 2 ^ (ea - eb)) by (apply Z.pow_le_mono_r; lia).
    change (2 ^ 1) with 2 in *. nia.
  - replace (Z.min ea ea) with ea by lia. rewrite Z.sub_diag, Z.pow_0_r. lia.
Qed.

(** A difference of doubles in their order is not under zero, when one of
    the two is a positive finite double. *)
Lemma sub_nonneg_r c a :
  PrimFloat.ltb 0 c = true -> PrimFloat.is_finite c = true ->
  PrimFloat.leb c a = true ->
  PrimFloat.leb 0 (a - c) = true.
Proof.
  intros Hpos Hfin Ha. apply ltb_0_shape in Hpos. apply Prim2SF_finite in Hfin.
  rewrite FloatAxioms.leb_spec in Ha.
  apply leb_0_shape. rewrite FloatAxioms.sub_spec. unfold SF64sub.
  pose proof (Prim2SF_valid c) as Hvc. pose proof (Prim2SF_valid a) as Hva.
  destruct (Prim2SF c) as [sc|sc| |[] mc ec]; try contradiction.
  destruct (Prim2SF a) as [sa|[]| |[] ma ea]; try discriminate Ha.
  - exact I.
  - pose proof (shl_align_le mc ec ma ea Hvc Hva Ha) as Hle.
    cbn [SFsub]. cbv zeta. unfold cond_Zopp.
    set (a' := fst (shl_align ma ea (Z.min ea ec))) in *.
    set (c' := fst (shl_align mc ec (Z.min ea ec))) in *.
    destruct (Z.pos a' - Z.pos c') as [|p|p] eqn:E; cbn [binary_normalize];
      [exact I| |lia].
    pose proof (binary_round_sign false p (Z.min ea ec)) as Hs.
    destruct (binary_round prec emax false p (Z.min ea ec)) as [s|s| |s m e];
      try contradiction; subst s; exact I.
Qed.

Lemma sub_nonneg_l c b :
  PrimFloat.ltb 0 c = true -> PrimFloat.is_finite c = true ->
  PrimFloat.leb b c = true ->
  PrimFloat.leb 0 (c - b) = true.
Proof.
  intros Hpos Hfin Hb. apply ltb_0_shape in Hpos. apply Prim2SF_finite in Hfin.
  rewrite FloatAxioms.leb_spec in Hb.
  apply leb_0_shape. rewrite FloatAxioms.sub_spec. unfold SF64sub.
  pose proof (Prim2SF_valid c) as Hvc. pose proof (Prim2SF_valid b) as Hvb.
  destruct (Prim2SF c) as [sc|sc| |[] mc ec]; try contradiction.
  destruct (Prim2SF b) as [sb|[]| |[] mb eb]; try discriminate Hb.
  - exact I.
  - exact I.
  - cbn [SFsub]. cbv zeta. unfold cond_Zopp.
    set (c' := fst (shl_align mc ec (Z.min ec eb))) in *.
    set (b' := fst (shl_align mb eb (Z.min ec eb))) in *.
    destruct (Z.pos c' - - Z.pos b') as [|p|p] eqn:E; cbn [binary_normalize];
      [exact I| |lia].
    pose proof (binary_round_sign false p (Z.min ec eb)) as Hs.
    destruct (binary_round prec emax false p (Z.min ec eb)) as [s|s| |s m e];
      try contradiction; subst s; exact I.
  - pose proof (shl_align_le mb eb mc ec Hvb Hvc Hb) as Hle.
    cbn [SFsub]. cbv zeta. unfold cond_Zopp.
    set (c' := fst (shl_align mc ec (Z.min ec eb))) in *.
    set (b' := fst (shl_align mb eb (Z.min ec eb))) in *.
    destruct (Z.pos c' - Z.pos b') as [|p|p] eqn:E; cbn [binary_normalize];
      [exact I| |lia].
    pose proof (binary_round_sign false p (Z.min ec eb)) as Hs.
    destruct (binary_round prec emax false p (Z.min ec eb)) as [s|s| |s m e];
      try contradiction; subst s; exact I.
Qed.

(** Growing a positive finite price by a return that is not under zero and
    taking the price off leaves a gain; shrinking it by a return that is not
    over zero and taking the result off the price leaves a gain as well. *)
Lemma gain_of_rise c r :
  PrimFloat.ltb 0 c = true -> PrimFloat.is_finite c = true ->
  PrimFloat.leb 0 r = true ->
  PrimFloat.leb 0 (c * (1 + r) - c) = true.
Proof.
  intros Hpos Hfin Hr. apply sub_nonneg_r; [assumption..|].
  apply mul_ge_1; [assumption..|].
  apply add_ge; [reflexivity|reflexivity|]. apply leb_0_inv. exact Hr.
Qed.

Lemma gain_of_fall c r :
  PrimFloat.ltb 0 c = true -> PrimFloat.is_finite c = true ->
  PrimFloat.leb r 0 = true ->
  PrimFloat.leb 0 (c - c * (1 + r)) = true.
Proof.
  intros Hpos Hfin Hr. apply sub_nonneg_l; [assumption..|].
  apply mul_le_1; [assumption..|].
  apply add_le; [reflexivity|reflexivity|exact Hr].
Qed.
(* ===================================================================== *)
(** ** The ledger of a frame labelled on its own future *)
(* ===================================================================== *)

(** X18. What the labels of the pipeline do to the vectorised run.  For a
    horizon that is not negative, a long threshold that is not under zero
    and a short threshold that is not over it (the defaults are 12 bars,
    0.003 and -0.003), on a frame whose closes are all positive finite
    numbers, no trade of the ledger of a report that the vectorised
    evaluation of the frame labelled by the pipeline returns has a pnl under
    zero: the label of a row is read off the very forward return that
    prices the exit of its trade. *)
Theorem labelled_run_never_loses float_pow config (df : DataFrame) report :
  0 <= label_horizon config ->
  PrimFloat.leb 0 (long_threshold config) = true ->
  PrimFloat.leb (short_threshold config) 0 = true ->
  Forall (fun row => exists c,
            row_values row !! "close" = Some c
            /\ PrimFloat.ltb 0 c = true /\ PrimFloat.is_finite c = true) df ->
  VectorizedBacktester_run_labelling float_pow config df = inr report ->
  Forall (fun t => PrimFloat.leb 0 (pnl t) = true) (report_trades report).
Proof.
  intros Hh Hlong Hshort Hdf Hrun.
  destruct (labelled_run_spec float_pow config df report Hh Hrun)
    as (Hall & _).
  assert (Hpriced : Forall (fun t =>
            pnl t = match side t with
                    | BUY => (exit_price t - entry_price t)%float
                    | SELL => (entry_price t - exit_price t)%float
                    end) (report_trades report)).
  { unfold VectorizedBacktester_run_labelling in Hrun.
    bind_step Hrun as features Hfeatures.
    eapply Forall_impl;
      [exact (VectorizedBacktester_run_priced _ _ _ _ Hrun)|].
    cbn. intros t (row & _ & close & _ & _ & Hpnl & _). exact Hpnl. }
  rewrite Forall_forall in Hall, Hpriced. apply Forall_forall. intros t Hin.
  destruct (Hall t Hin)
    as (i & row & c & Hrow & Hc & _ & _ & Hentry & Hexit & Hside & _).
  rewrite (Hpriced t Hin), Hentry, Hexit.
  rewrite Forall_lookup in Hdf.
  destruct (Hdf i row Hrow) as (c' & Hc' & Hpos & Hfin).
  assert (c' = c) by congruence. subst c'.
  destruct Hside as [[-> Hr]|[-> Hr]].
  - apply gain_of_rise; [assumption..|]. eapply leb_trans; eassumption.
  - apply gain_of_fall; [assumption..|]. eapply leb_trans; eassumption.
Qed.

(** On the six closes, two bars ahead at one percent: the long trade makes
    two points and the two short trades one and three. *)
Lemma labelled_run_never_loses_witness :
  exists report,
    VectorizedBacktester_run_labelling (fun x _ => x) two_bars_one_percent
      six_closes = inr report
    /\ map (fun t => (side t, PrimFloat.ltb 0 (pnl t)))
         (report_trades report)
       = [(BUY, true); (SELL, true); (SELL, true)]
    /\ Forall (fun t => PrimFloat.leb 0 (pnl t) = true)
         (report_trades report).
Proof.
  eexists. split; [vm_compute; reflexivity|].
  split; [vm_compute; reflexivity|].
  apply (labelled_run_never_loses (fun x _ => x) two_bars_one_percent
           six_closes).
  - cbn. lia.
  - vm_compute. reflexivity.
  - vm_compute. reflexivity.
  - unfold six_closes.
    repeat first [apply List.Forall_nil
                 | apply List.Forall_cons;
                   [eexists; split; [vm_compute; reflexivity|];
                    split; vm_compute; reflexivity|]].
  - vm_compute. reflexivity.
Defined.
(* ===================================================================== *)
(** ** The equity curve of a ledger without losses *)
(* ===================================================================== *)

Lemma ltb_0_leb x z :
  PrimFloat.ltb 0 x = true -> PrimFloat.leb x z = true ->
  PrimFloat.ltb 0 z = true.
Proof.
  rewrite !FloatAxioms.ltb_spec, FloatAxioms.leb_spec.
  change (Prim2SF 0) with (S754_zero false).
  destruct (Prim2SF x) as [sx|[]| |[] mx ex], (Prim2SF z) as [sz|[]| |[] mz ez];
    intros H1 H2; try reflexivity; try discriminate H1; discriminate H2.
Qed.

(** Adding a double that is not under zero to a double above zero does not
    give less. *)
Lemma add_ge_pos x y :
  PrimFloat.ltb 0 x = true -> PrimFloat.leb 0 y = true ->
  PrimFloat.leb x (x + y) = true.
Proof.
  intros Hx Hy. destruct (PrimFloat.is_finite x) eqn:Hfin.
  - apply add_ge; [assumption..|]. apply leb_0_inv. exact Hy.
  - apply ltb_0_shape in Hx. apply leb_0_inv in Hy.
    assert (Hinf : Prim2SF x = S754_infinity false).
    { destruct (Prim2SF x) as [sx|[]| |[] mx ex] eqn:E; try contradiction;
        [reflexivity|].
      assert (Hf : PrimFloat.is_finite x = true); [|congruence].
      unfold PrimFloat.is_finite. unfold Prim2SF in E.
      destruct (PrimFloat.is_nan x); [discriminate|].
      destruct (PrimFloat.is_zero x);
        [destruct (get_sign x); discriminate|].
      destruct (PrimFloat.is_infinity x);
        [destruct (get_sign x); discriminate|].
      reflexivity. }
    rewrite FloatAxioms.leb_spec, FloatAxioms.add_spec, Hinf.
    unfold SF64add.
    destruct (Prim2SF y) as [sy|[]| |[] my ey]; try contradiction;
      reflexivity.
Qed.

Lemma equity_loop_rises ledger :
  forall equity,
    PrimFloat.ltb 0 equity = true ->
    Forall (fun t => PrimFloat.leb 0 (pnl t) = true) ledger ->
    StronglySorted (fun a b => PrimFloat.leb a b = true)
      (equity :: map point_equity (equity_loop equity ledger)).
Proof.
  induction ledger as [|t rest IH]; intros equity Hpos Hall.
  - repeat constructor.
  - apply Forall_cons in Hall as [Ht Hrest].
    cbn [equity_loop map point_equity].
    pose proof (add_ge_pos equity (pnl t) Hpos Ht) as Hstep.
    specialize (IH (equity + pnl t)%float (ltb_0_leb _ _ Hpos Hstep) Hrest).
    constructor; [exact IH|].
    constructor; [exact Hstep|].
    apply StronglySorted_inv in IH as [_ IH].
    eapply Forall_impl; [exact IH|]. cbn. intros e He.
    eapply leb_trans; eassumption.
Qed.

(** X19. The equity curve of a ledger without losses never falls.  For an
    initial equity above zero and a ledger in which no pnl is under zero,
    the equities of the curve [_build_equity_curve] returns, with the
    initial equity put in front, are in non-decreasing order: no point of
    the curve is under the initial equity or under an earlier point,
    whatever the roundings of the running sum. *)
Theorem equity_never_falls_without_losses self ledger :
  PrimFloat.ltb 0 (initial_equity self) = true ->
  Forall (fun t => PrimFloat.leb 0 (pnl t) = true) ledger ->
  StronglySorted (fun a b => PrimFloat.leb a b = true)
    (initial_equity self
       :: map point_equity (_build_equity_curve self ledger)).
Proof. intros Hpos Hall. apply equity_loop_rises; assumption. Qed.

(** Gains of 1, 0 and 3 on the default equity of 100000. *)
Lemma equity_never_falls_without_losses_witness :
  map point_equity
    (_build_equity_curve default_backtester (ledger_of_r [1; 0; 3]%float))
  = [100001; 100001; 100004]%float
  /\ StronglySorted (fun a b => PrimFloat.leb a b = true)
       (initial_equity default_backtester
          :: map point_equity
               (_build_equity_curve default_backtester
                  (ledger_of_r [1; 0; 3]%float))).
Proof.
  split; [vm_compute; reflexivity|].
  apply (equity_never_falls_without_losses default_backtester
           (ledger_of_r [1; 0; 3]%float)).
  - vm_compute. reflexivity.
  - unfold ledger_of_r. cbn [map].
    repeat first [apply List.Forall_nil
                 | apply List.Forall_cons; [vm_compute; reflexivity|]].
Defined.

(* ===================================================================== *)
(** ** The trend pullback strategy *)
(* ===================================================================== *)

Lemma iloc_last {A : Type} (l : list A) x :
  iloc l (-1) = inr x -> last l = Some x.
Proof.
  unfold iloc. cbn [Z.ltb Z.compare]. cbv zeta.
  destruct (Z.of_nat (length l) + -1 <? 0) eqn:E; [discriminate|].
  apply Z.ltb_ge in E. rewrite last_lookup.
  replace (Z.to_nat (Z.of_nat (length l) + -1)) with (pred (length l)) by lia.
  destruct (l !! pred (length l)); [|discriminate].
  intros H. injection H as ->. reflexivity.
Qed.

Lemma iloc_last_ok {A : Type} (l : list A) :
  l <> [] -> exists x, iloc l (-1) = inr x.
Proof.
  intros Hl. unfold iloc. cbn [Z.ltb Z.compare]. cbv zeta.
  assert (0 < length l)%nat by (destruct l; [congruence|cbn; lia]).
  replace (Z.of_nat (length l) + -1 <? 0) with false
    by (symmetry; apply Z.ltb_ge; lia).
  destruct (l !! Z.to_nat (Z.of_nat (length l) + -1)) as [x|] eqn:E;
    [eauto|].
  apply lookup_ge_None in E. lia.
Qed.

Lemma row_getitem_inr row key v :
  row_getitem row key = inr v -> row_values row !! key = Some v.
Proof.
  unfold row_getitem. destruct (row_values row !! key); [|discriminate].
  intros H. injection H as ->. reflexivity.
Qed.

Lemma tpb_signal_made float_div self instrument prev row s :
  tpb_signal float_div self instrument prev row = inr (Some s) ->
  tpb_made_of self instrument prev row s.
Proof.
  unfold tpb_signal.
  destruct (py_bool (row_get row "trend_ok" 1)) eqn:Htrend; cbn [negb];
    [|discriminate].
  destruct (py_bool (row_get row "volatility_ok" 1)) eqn:Hvol; cbn [negb orb];
    [|discriminate].
  destruct (py_bool (row_get row "spread_ok" 1)) eqn:Hspread; cbn [negb];
    [|discriminate].
  intros H.
  bind_step H as ema200 Hema. bind_step H as sma20 Hsma.
  bind_step H as vwap Hvwap. bind_step H as atr Hatr.
  bind_step H as price Hprice.
  apply row_getitem_inr in Hema, Hsma, Hvwap, Hatr, Hprice.
  destruct (PrimFloat.is_nan ema200 || PrimFloat.is_nan sma20
            || PrimFloat.is_nan vwap || PrimFloat.is_nan atr
            || PrimFloat.is_nan price); [discriminate|].
  bind_step H as dist_sma Hdist_sma. bind_step H as dist_vwap Hdist_vwap.
  destruct (PrimFloat.ltb (pullback_tolerance self)
              (py_min dist_sma dist_vwap)); [discriminate|].
  set (slope := row_get row "ema200_slope" 0) in *.
  set (rsi_fast := row_get row "rsi7" 50) in *.
  set (prev_rsi := row_get prev "rsi7" 50) in *.
  assert (Hgoal : forall sd,
    match sd with
    | BUY =>
        PrimFloat.leb ema200 price = true /\ PrimFloat.leb 0 slope = true
        /\ PrimFloat.leb prev_rsi 35 = true
        /\ PrimFloat.ltb 35 rsi_fast = true
    | SELL =>
        PrimFloat.leb price ema200 = true /\ PrimFloat.leb slope 0 = true
        /\ PrimFloat.leb 65 prev_rsi = true
        /\ PrimFloat.ltb rsi_fast 65 = true
    end ->
    (let stop_distance :=
       py_max 1e-4
         (py_min (atr * stop_atr_multiplier self)
            (PrimFloat.abs (price - sma20))) in
     let stop :=
       match sd with
       | BUY => (price - stop_distance)%float
       | SELL => (price + stop_distance)%float
       end in
     let* multiplier := iloc (take_profit self) (-1) in
     let target :=
       match sd with
       | BUY => (price + stop_distance * multiplier)%float
       | SELL => (price - stop_distance * multiplier)%float
       end in
     let* ratio :=
       float_div (py_min dist_sma dist_vwap) (pullback_tolerance self) in
     let score := (1 - ratio)%float in
     let metadata : gmap string float :=
       list_to_map [("dist_sma", dist_sma); ("dist_vwap", dist_vwap);
                    ("rsi_fast", rsi_fast); ("atr14", atr)] in
     let* signal :=
       _make_signal "TPB_VWAP" (tpb_risk_fraction self) row instrument
         sd price stop target score metadata in
     ok (Some signal)) = inr (Some s) ->
    tpb_made_of self instrument prev row s).
  { intros sd Hside Hmade. cbv zeta in Hmade.
    bind_step Hmade as multiplier Hmult. bind_step Hmade as ratio Hratio.
    bind_step Hmade as signal Hsignal.
    unfold _make_signal in Hsignal. bind_step Hsignal as timestamp Htime.
    unfold row_time in Htime.
    destruct (row_timestamp row) as [t|] eqn:Ht; [|discriminate].
    injection Htime as ->. injection Hsignal as <-. injection Hmade as <-.
    apply iloc_last in Hmult.
    constructor; cbn [sig_timestamp sig_entry sig_target sig_stop sig_side
                      sig_score sig_strategy sig_instrument
                      sig_risk_fraction]; auto.
    - exists multiplier. split; [exact Hmult|].
      unfold tpb_stop_distance, row_get. rewrite Hatr, Hsma.
      split; reflexivity.
    - exists ema200. split; [exact Hema|]. exact Hside.
    - apply np_clip_range. }
  destruct (PrimFloat.leb ema200 price && PrimFloat.leb 0 slope
            && PrimFloat.leb prev_rsi 35 && PrimFloat.ltb 35 rsi_fast)
    eqn:Hbuy.
  - apply andb_true_iff in Hbuy as [Hbuy H4].
    apply andb_true_iff in Hbuy as [Hbuy H3].
    apply andb_true_iff in Hbuy as [H1 H2].
    exact (Hgoal BUY (conj H1 (conj H2 (conj H3 H4))) H).
  - destruct (PrimFloat.leb price ema200 && PrimFloat.leb slope 0
              && PrimFloat.leb 65 prev_rsi && PrimFloat.ltb rsi_fast 65)
      eqn:Hsell; [|discriminate].
    apply andb_true_iff in Hsell as [Hsell H4].
    apply andb_true_iff in Hsell as [Hsell H3].
    apply andb_true_iff in Hsell as [H1 H2].
    exact (Hgoal SELL (conj H1 (conj H2 (conj H3 H4))) H).
Qed.

Lemma tpb_loop_spec float_div self instrument (df : DataFrame) :
  forall rows prev i signals,
    df !! i = Some prev -> drop (S i) df = rows ->
    tpb_loop float_div self instrument prev rows = inr signals ->
    sublist (map sig_timestamp signals) (bar_times rows)
    /\ Forall (fun s => exists prev row,
                 consecutive df prev row
                 /\ tpb_made_of self instrument prev row s) signals.
Proof.
  induction rows as [|row rest IH]; intros prev i signals Hprev Hrows H.
  - injection H as <-. split; constructor.
  - cbn in H. bind_step H as emitted Hemitted. bind_step H as later Hlater.
    injection H as <-.
    assert (Hrow : df !! S i = Some row).
    { pose proof (lookup_drop df (S i) 0) as E.
      rewrite Hrows, Nat.add_0_r in E. symmetry. exact E. }
    assert (Hrest : drop (S (S i)) df = rest).
    { rewrite (drop_S _ _ _ Hrow) in Hrows. injection Hrows as ->.
      reflexivity. }
    destruct (IH row (S i) later Hrow Hrest Hlater) as [Hsub Hall].
    unfold bar_times in *. cbn [omap list_omap].
    destruct emitted as [s|].
    + apply tpb_signal_made in Hemitted.
      rewrite (tpb_time _ _ _ _ _ Hemitted). cbn [map].
      split; [constructor; exact Hsub|].
      constructor; [|exact Hall]. exists prev, row.
      split; [exists i; auto|exact Hemitted].
    + split; [|exact Hall].
      destruct (row_timestamp row); [constructor|]; exact Hsub.
Qed.

(** The call returns the empty list, or what the loop over the rows
    returns. *)
Lemma TPBVWAPStrategy_generate_signals_cases float_div self (df : DataFrame)
    instrument signals :
  TPBVWAPStrategy_generate_signals float_div self df instrument
  = inr signals ->
  signals = []
  \/ exists first rest,
       df = first :: rest
       /\ tpb_loop float_div self instrument first rest = inr signals.
Proof.
  unfold TPBVWAPStrategy_generate_signals. intros H.
  destruct (df_empty df); [injection H as <-; left; reflexivity|].
  destruct df as [|first rest]; [injection H as <-; left; reflexivity|].
  right. eauto.
Qed.

(** X20. The signals of the trend pullback strategy follow the rows.  The
    first row gives none.  The signals come in row order, one at most for a
    row, stamped with the timestamp of their row, so a frame of [n] rows
    gives [n - 1] signals at most.  A signal is made of a row whose three
    filter flags are true or absent: it is entered at the close of the row;
    its stop lies one stop distance,
    [max(1e-4, min(atr14 * stop_atr_multiplier, |close - sma20|))], under
    the entry when it is long and over it when it is short, and its target
    the last take-profit multiple of that distance on the other side; it is
    long when the close is at or over the 200-bar average, the slope of the
    average is not negative and the fast RSI has crossed 35 upwards from
    the previous row, and short in the mirror case at 65.  Its score is
    clipped to [0, 3], unless it is NaN. *)
Theorem tpb_signals_follow_the_rows
    float_div self (df : DataFrame) instrument signals :
  TPBVWAPStrategy_generate_signals float_div self df instrument
  = inr signals ->
  sublist (map sig_timestamp signals) (bar_times (tail df))
  /\ (length signals <= length df - 1)%nat
  /\ Forall (fun s => exists prev row,
               consecutive df prev row
               /\ tpb_made_of self instrument prev row s) signals.
Proof.
  intros H.
  apply TPBVWAPStrategy_generate_signals_cases in H
    as [->|(first & rest & -> & H)].
  - split; [apply sublist_nil_l|]. split; [cbn; lia|constructor].
  - destruct (tpb_loop_spec float_div self instrument (first :: rest) rest
                first 0%nat signals eq_refl eq_refl H) as [Hsub Hall].
    cbn [tail]. split; [exact Hsub|]. split; [|exact Hall].
    apply sublist_length in Hsub. rewrite length_map in Hsub.
    pose proof (omap_length_le row_timestamp rest) as Hle.
    unfold bar_times in Hsub. cbn [length]. lia.
Qed.

(** The oversold pullback of the second bar gives a long signal and the
    overbought one of the fourth a short signal. *)
Lemma tpb_signals_follow_the_rows_witness :
  exists signals,
    TPBVWAPStrategy_generate_signals numpy_div default_TPBVWAPStrategy
      pullback_bars "TEST" = inr signals
    /\ map (fun s => (sig_timestamp s, sig_side s, sig_entry s)) signals
       = [(minute, BUY, 100.2%float); (3 * minute, SELL, 99.9%float)]
    /\ sublist (map sig_timestamp signals) (bar_times (tail pullback_bars))
    /\ (length signals <= length pullback_bars - 1)%nat
    /\ Forall (fun s => exists prev row,
                 consecutive pullback_bars prev row
                 /\ tpb_made_of default_TPBVWAPStrategy "TEST" prev row s)
         signals.
Proof.
  eexists. split; [vm_compute; reflexivity|]. split; [vm_compute; reflexivity|].
  apply (tpb_signals_follow_the_rows numpy_div default_TPBVWAPStrategy
           pullback_bars "TEST").
  vm_compute. reflexivity.
Defined.

(* ===================================================================== *)
(** ** The bracket of a pullback signal *)
(* ===================================================================== *)

Lemma ltb_leb x y : PrimFloat.ltb x y = true -> PrimFloat.leb x y = true.
Proof.
  rewrite FloatAxioms.ltb_spec, FloatAxioms.leb_spec. unfold SFltb, SFleb.
  destruct (SFcompare (Prim2SF x) (Prim2SF y)) as [[]|];
    try discriminate; reflexivity.
Qed.

Lemma ltb_0_nonneg x :
  PrimFloat.ltb 0 x = true ->
  match Prim2SF x with
  | S754_zero _ | S754_finite false _ _ | S754_infinity false => True
  | _ => False
  end.
Proof. intros H. apply leb_0_inv, ltb_leb, H. Qed.

(** The stop distance is above zero, whatever the row holds. *)
Lemma tpb_stop_distance_pos self row price :
  PrimFloat.ltb 0 (tpb_stop_distance self row price) = true.
Proof.
  unfold tpb_stop_distance, py_max.
  destruct (PrimFloat.ltb 1e-4 _) eqn:E; [|vm_compute; reflexivity].
  eapply ltb_0_leb; [|apply ltb_leb; exact E]. vm_compute. reflexivity.
Qed.

Lemma tpb_brackets self instrument prev row s :
  (forall m, last (take_profit self) = Some m -> PrimFloat.ltb 0 m = true) ->
  PrimFloat.ltb 0 (sig_entry s) = true ->
  PrimFloat.is_finite (sig_entry s) = true ->
  tpb_made_of self instrument prev row s ->
  brackets_entry s.
Proof.
  intros Hm Hpos Hfin Hmade.
  destruct (tpb_levels _ _ _ _ _ Hmade) as (m & Hlast & Hstop & Htarget).
  specialize (Hm m Hlast).
  pose proof (tpb_stop_distance_pos self row (sig_entry s)) as Hd.
  set (d := tpb_stop_distance self row (sig_entry s)) in *.
  pose proof (mul_pos d m Hd Hm) as Hdm.
  unfold brackets_entry. rewrite Hstop, Htarget.
  destruct (sig_side s); split.
  - apply sub_le; [assumption..|]. apply ltb_0_nonneg. exact Hd.
  - apply add_ge; assumption.
  - apply sub_le; assumption.
  - apply add_ge; [assumption..|]. apply ltb_0_nonneg. exact Hd.
Qed.

(** X21. The bracket of a pullback signal.  For a last take-profit
    multiplier above zero, every signal the strategy makes of a row whose
    close is a positive finite number has its stop on the losing side of
    its entry and its target on the winning side: stop <= entry <= target
    when it is long and target <= entry <= stop when it is short. *)
Theorem tpb_signals_bracket_their_entry
    float_div self (df : DataFrame) instrument signals :
  (forall m, last (take_profit self) = Some m -> PrimFloat.ltb 0 m = true) ->
  Forall (fun row => forall c,
            row_values row !! "close" = Some c ->
            PrimFloat.ltb 0 c = true /\ PrimFloat.is_finite c = true) df ->
  TPBVWAPStrategy_generate_signals float_div self df instrument
  = inr signals ->
  Forall brackets_entry signals.
Proof.
  intros Hm Hdf H.
  apply TPBVWAPStrategy_generate_signals_cases in H
    as [->|(first & rest & -> & H)].
  - constructor.
  - destruct (tpb_loop_spec float_div self instrument (first :: rest) rest
                first 0%nat signals eq_refl eq_refl H) as [_ Hall].
    eapply Forall_impl; [exact Hall|]. cbn.
    intros s (prev & row & (i & _ & Hrow) & Hmade).
    rewrite Forall_lookup in Hdf.
    destruct (Hdf (S i) row Hrow (sig_entry s) (tpb_entry _ _ _ _ _ Hmade))
      as [Hpos Hfin].
    eapply tpb_brackets; eassumption.
Qed.

Lemma tpb_signals_bracket_their_entry_witness :
  exists signals,
    TPBVWAPStrategy_generate_signals numpy_div default_TPBVWAPStrategy
      pullback_bars "TEST" = inr signals
    /\ map (fun s => (sig_side s, sig_stop s, sig_entry s,
                      PrimFloat.ltb (sig_entry s) (sig_target s)))
         signals
       = [(BUY, 100%float, 100.2%float, true);
          (SELL, 100%float, 99.9%float, false)]
    /\ Forall brackets_entry signals.
Proof.
  eexists. split; [vm_compute; reflexivity|]. split; [vm_compute; reflexivity|].
  apply (tpb_signals_bracket_their_entry numpy_div default_TPBVWAPStrategy
           pullback_bars "TEST").
  - intros m Hm. vm_compute in Hm. injection Hm as <-. vm_compute. reflexivity.
  - unfold pullback_bars.
    repeat first [apply List.Forall_nil
                 | apply List.Forall_cons;
                   [intros c Hc; vm_compute in Hc; injection Hc as <-;
                    split; vm_compute; reflexivity|]].
  - vm_compute. reflexivity.
Defined.

(* ===================================================================== *)
(** ** What the pullback strategy reads *)
(* ===================================================================== *)

Lemma tpb_signal_returns float_div self instrument prev row :
  divides float_div ->
  PrimFloat.eqb (pullback_tolerance self) 0 = false ->
  take_profit self <> [] ->
  tpb_readable row ->
  exists emitted, tpb_signal float_div self instrument prev row = inr emitted.
Proof.
  intros Hdiv Htol Htp (Ht & He & Hs & Hv & Ha & price & Hp & Hnz).
  destruct Ht as [t Ht], He as [ema200 He], Hs as [sma20 Hs],
    Hv as [vwap Hv], Ha as [atr Ha].
  destruct (iloc_last_ok (take_profit self) Htp) as [m Hm].
  unfold tpb_signal, row_getitem.
  destruct (negb (py_bool (row_get row "trend_ok" 1))); [eauto|].
  destruct (negb (py_bool (row_get row "volatility_ok" 1))
            || negb (py_bool (row_get row "spread_ok" 1))); [eauto|].
  rewrite He, Hs, Hv, Ha, Hp. cbn [bind ok].
  destruct (PrimFloat.is_nan ema200 || PrimFloat.is_nan sma20
            || PrimFloat.is_nan vwap || PrimFloat.is_nan atr
            || PrimFloat.is_nan price); [eauto|].
  rewrite !(Hdiv _ price Hnz). cbn [bind ok].
  destruct (PrimFloat.ltb (pullback_tolerance self) _); [eauto|].
  rewrite Hm, (Hdiv _ _ Htol). unfold _make_signal, row_time. rewrite Ht.
  cbn [bind ok].
  destruct (PrimFloat.leb ema200 price && _ && _ && _); [eauto|].
  destruct (PrimFloat.leb price ema200 && _ && _ && _); eauto.
Qed.

Lemma tpb_signal_filtered float_div self instrument prev row :
  filtered_out row ->
  tpb_signal float_div self instrument prev row = inr None.
Proof.
  unfold tpb_signal. intros [-> | [-> | ->]]; cbn [negb orb].
  - reflexivity.
  - destruct (negb _); reflexivity.
  - destruct (negb _); [reflexivity|]. rewrite orb_true_r. reflexivity.
Qed.

Lemma tpb_signal_raises float_div self instrument prev row key :
  passes_filters row -> first_missing row = Some key ->
  tpb_signal float_div self instrument prev row = inl (KeyError key).
Proof.
  intros (H1 & H2 & H3) Hkey. unfold tpb_signal, row_getitem.
  rewrite H1, H2, H3. cbn [negb orb].
  unfold first_missing in Hkey. cbn [List.find] in Hkey.
  repeat match type of Hkey with
         | context [bool_decide (row_values row !! ?k = None)] =>
             destruct (row_values row !! k) eqn:?;
             [rewrite bool_decide_eq_false_2 in Hkey by discriminate
             |rewrite bool_decide_eq_true_2 in Hkey by reflexivity;
              injection Hkey as <-; reflexivity]
         end.
  discriminate.
Qed.

(** X22. What the trend pullback strategy reads, and what it does when it
    cannot.  A frame of one row or none gives no signal.  Rows ruled out by
    one of their filter flags ([trend_ok], [volatility_ok], [spread_ok]) are
    skipped before any column is read: a frame whose rows after the first
    are all ruled out gives the empty list, whatever columns it lacks.  A
    row that passes the filters is read with [row[...]]: if the frame has
    a column at all, and its second row passes the filters and lacks one of
    the columns ["ema200"], ["sma20"], ["vwap"], ["atr14"], ["close"], the
    call raises [KeyError] on the first of them that is missing.  And when
    every row after the first has its timestamp, the five columns and a
    close that is not zero, the pullback tolerance is not zero and there is
    a take-profit multiplier, the call returns a list of signals. *)
Theorem tpb_reads_or_raises float_div self (df : DataFrame) instrument :
  ((length df <= 1)%nat ->
   TPBVWAPStrategy_generate_signals float_div self df instrument = inr [])
  /\ (Forall filtered_out (tail df) ->
      TPBVWAPStrategy_generate_signals float_div self df instrument = inr [])
  /\ (forall row key,
        df_empty df = false ->
        tail df !! 0%nat = Some row -> passes_filters row ->
        first_missing row = Some key ->
        TPBVWAPStrategy_generate_signals float_div self df instrument
        = inl (KeyError key))
  /\ (divides float_div ->
      PrimFloat.eqb (pullback_tolerance self) 0 = false ->
      take_profit self <> [] ->
      Forall tpb_readable (tail df) ->
      exists signals,
        TPBVWAPStrategy_generate_signals float_div self df instrument
        = inr signals).
Proof.
  unfold TPBVWAPStrategy_generate_signals. split; [|split; [|split]].
  - intros Hlen. destruct (df_empty df); [reflexivity|].
    destruct df as [|first [|second rest]]; try reflexivity.
    cbn in Hlen. lia.
  - intros Hrows. destruct (df_empty df); [reflexivity|].
    destruct df as [|first rest]; [reflexivity|].
    cbn [tail] in Hrows.
    revert first. induction rest as [|row rest IH]; intros prev;
      [reflexivity|].
    apply Forall_cons in Hrows as [Hrow Hrest]. cbn [tpb_loop].
    rewrite (tpb_signal_filtered _ _ _ _ _ Hrow), (IH Hrest). reflexivity.
  - intros row key -> Hrow Hpass Hkey.
    destruct df as [|first [|second rest]]; try discriminate.
    cbn in Hrow. injection Hrow as ->.
    cbn [tpb_loop].
    rewrite (tpb_signal_raises _ _ _ _ _ _ Hpass Hkey). reflexivity.
  - intros Hdiv Htol Htp Hrows. destruct (df_empty df); [eexists; reflexivity|].
    destruct df as [|first rest]; [eexists; reflexivity|].
    cbn [tail] in Hrows.
    revert first. induction rest as [|row rest IH]; intros prev;
      [eexists; reflexivity|].
    apply Forall_cons in Hrows as [Hrow Hrest]. cbn [tpb_loop].
    destruct (tpb_signal_returns float_div self instrument prev row Hdiv Htol
                Htp Hrow) as [emitted ->].
    destruct (IH Hrest row) as [later ->]. cbn [bind ok]. eauto.
Qed.

(** A frame of flat bars gives nothing; the bars of the volatility band
    example, which pass the filters and have no ["ema200"] column, raise;
    the pullback bars give their two signals. *)
Lemma tpb_reads_or_raises_witness :
  TPBVWAPStrategy_generate_signals numpy_div default_TPBVWAPStrategy
    [flat_bar 0] "TEST" = inr []
  /\ TPBVWAPStrategy_generate_signals numpy_div default_TPBVWAPStrategy
       [flat_bar 0; flat_bar minute; flat_bar (2 * minute)] "TEST" = inr []
  /\ TPBVWAPStrategy_generate_signals numpy_div default_TPBVWAPStrategy
       band_bars "TEST" = inl (KeyError "ema200")
  /\ exists signals,
       TPBVWAPStrategy_generate_signals numpy_div default_TPBVWAPStrategy
         pullback_bars "TEST" = inr signals.
Proof.
  split; [|split; [|split]].
  - apply (proj1 (tpb_reads_or_raises numpy_div default_TPBVWAPStrategy
                    [flat_bar 0] "TEST")).
    cbn. lia.
  - apply (proj1 (proj2 (tpb_reads_or_raises numpy_div
                           default_TPBVWAPStrategy
                           [flat_bar 0; flat_bar minute;
                            flat_bar (2 * minute)] "TEST"))).
    cbn [tail]. repeat constructor.
  - apply (proj1 (proj2 (proj2 (tpb_reads_or_raises numpy_div
                                  default_TPBVWAPStrategy band_bars "TEST")))
             (band_bar minute 97 100 1) "ema200").
    + reflexivity.
    + reflexivity.
    + repeat split.
    + vm_compute. reflexivity.
  - apply (proj2 (proj2 (proj2 (tpb_reads_or_raises numpy_div
                                  default_TPBVWAPStrategy pullback_bars
                                  "TEST")))).
    + intros x y _. reflexivity.
    + vm_compute. reflexivity.
    + discriminate.
    + unfold pullback_bars. cbn [tail].
      repeat first
        [apply List.Forall_nil
        | apply List.Forall_cons;
          [repeat split; try (vm_compute; eauto; fail);
           eexists; split; vm_compute; reflexivity|]].
Defined.

(* ===================================================================== *)
(** ** The lagged features *)
(* ===================================================================== *)

Lemma elem_of_lagged_sources sp :
  sp ∈ lagged_sources ->
  sp = ("returns", "return_lag_") \/ sp = ("z_residual", "z_residual_lag_")
  \/ sp = ("sigma", "sigma_lag_").
Proof.
  unfold lagged_sources. rewrite !elem_of_cons, elem_of_nil. tauto.
Qed.

(** No lagged column has the name of a column the stage reads. *)
Lemma lag_key_not_source sp sp' lag :
  sp ∈ lagged_sources -> sp' ∈ lagged_sources -> lag_key sp.2 lag <> sp'.1.
Proof.
  intros H H'. apply elem_of_lagged_sources in H, H'.
  destruct H as [-> | [-> | ->]], H' as [-> | [-> | ->]];
    unfold lag_key; cbn; intros E; discriminate E.
Qed.

(** Two lagged columns of the same name are copies of the same column at
    the same lag. *)
Lemma lag_key_inj sp sp' lag lag' :
  sp ∈ lagged_sources -> sp' ∈ lagged_sources ->
  lag_key sp.2 lag = lag_key sp'.2 lag' -> sp = sp' /\ lag = lag'.
Proof.
  intros H H'. apply elem_of_lagged_sources in H, H'.
  destruct H as [-> | [-> | ->]], H' as [-> | [-> | ->]];
    unfold lag_key; cbn; intros E; try discriminate E;
    injection E as E; apply pretty_Z_inj in E; auto.
Qed.

Lemma elem_of_lag_keys key lags :
  key ∈ lag_keys lags
  <-> exists lag sp,
        lag ∈ lags /\ sp ∈ lagged_sources /\ key = lag_key sp.2 lag.
Proof.
  unfold lag_keys. rewrite list_elem_of_bind. split.
  - intros (lag & Hkey & Hlag). apply list_elem_of_fmap in Hkey as (sp & -> & Hsp).
    eauto.
  - intros (lag & sp & Hlag & Hsp & ->). exists lag. split; [|exact Hlag].
    apply list_elem_of_fmap. eauto.
Qed.

(** A column read from a frame, [lag] rows back. *)
Lemma cell_before_column source lag (df : DataFrame) column i :
  Forall2 (fun row cell => row_values row !! source = Some cell) df column ->
  (let j := Z.of_nat i - lag in
   if (0 <=? j) && (j <? Z.of_nat (length column))
   then default nan (column !! Z.to_nat j)
   else nan)
  = cell_before source lag df i.
Proof.
  intros Hcol. unfold cell_before. cbn zeta.
  rewrite <- (Forall2_length _ _ _ Hcol).
  destruct ((0 <=? Z.of_nat i - lag)
            && (Z.of_nat i - lag <? Z.of_nat (length df))); [|reflexivity].
  destruct (df !! Z.to_nat (Z.of_nat i - lag)) as [row|] eqn:Hrow.
  - destruct (Forall2_lookup_l _ _ _ _ _ Hcol Hrow) as (cell & -> & Hcell).
    unfold row_get. rewrite Hcell. reflexivity.
  - apply lookup_ge_None in Hrow.
    rewrite (Forall2_length _ _ _ Hcol) in Hrow.
    apply lookup_ge_None in Hrow. rewrite Hrow. reflexivity.
Qed.

(** The cells [lag] rows back are the same in two frames whose rows agree
    on the column. *)
Lemma cell_before_ext source lag (df df' : DataFrame) i :
  length df' = length df ->
  (forall j row, df !! j = Some row ->
     exists row', df' !! j = Some row'
                  /\ row_values row' !! source = row_values row !! source) ->
  cell_before source lag df' i = cell_before source lag df i.
Proof.
  intros Hlen H. unfold cell_before, DataFrame in *. cbn zeta.
  rewrite Hlen.
  destruct ((0 <=? Z.of_nat i - lag)
            && (Z.of_nat i - lag <? Z.of_nat (length df))); [|reflexivity].
  destruct (df !! Z.to_nat (Z.of_nat i - lag)) as [row|] eqn:Hrow.
  - destruct (H _ _ Hrow) as (row' & -> & Hsame).
    unfold row_get. rewrite Hsame. reflexivity.
  - apply lookup_ge_None in Hrow. rewrite <- Hlen in Hrow.
    apply lookup_ge_None in Hrow. rewrite Hrow. reflexivity.
Qed.

(** One lagged column, row by row. *)
Lemma add_lag_spec source prefix lag (df : DataFrame) :
  Forall (fun row => is_Some (row_values row !! source)) df ->
  add_lag source prefix lag df
  = inr (imap (fun i row =>
                 set_cell (lag_key prefix lag) (cell_before source lag df i)
                   row) df).
Proof.
  intros Hdf. destruct (get_column_ok source df Hdf) as [column Hcolumn].
  unfold add_lag. rewrite Hcolumn. cbn [bind ok]. f_equal.
  apply get_column_spec in Hcolumn.
  pose proof (Forall2_length _ _ _ Hcolumn) as Hlen.
  apply list_eq. intros i. unfold set_column, DataFrame in *.
  rewrite lookup_zip_with, !list_lookup_imap.
  destruct (df !! i) as [row|] eqn:Hrow.
  - destruct (Forall2_lookup_l _ _ _ _ _ Hcolumn Hrow) as (cell & Hcell & _).
    rewrite (shift_lookup lag column i cell Hcell). cbn.
    rewrite <- (cell_before_column source lag df column i Hcolumn).
    reflexivity.
  - apply lookup_ge_None in Hrow.
    assert (Hnone : shift lag column !! i = None).
    { apply lookup_ge_None. unfold shift. rewrite length_imap. lia. }
    rewrite Hnone. reflexivity.
Qed.

Lemma set_cell_lookup key v row key' :
  row_values (set_cell key v row) !! key'
  = if decide (key = key') then Some v else row_values row !! key'.
Proof.
  cbn [set_cell row_values]. destruct (decide (key = key')) as [->|Hne].
  - apply lookup_insert_eq.
  - apply lookup_insert_ne. exact Hne.
Qed.

(** The three columns of one lag. *)
Lemma one_lag_spec lag (df : DataFrame) :
  Forall has_lag_sources df ->
  exists out,
    (forall (A : Type) (k : DataFrame -> result A),
       (let* df := add_lag "returns" "return_lag_" lag df in
        let* df := add_lag "z_residual" "z_residual_lag_" lag df in
        let* df := add_lag "sigma" "sigma_lag_" lag df in
        k df) = k out)
    /\ Forall has_lag_sources out
    /\ length out = length df
    /\ forall i row,
         df !! i = Some row ->
         exists row',
           out !! i = Some row'
           /\ row_timestamp row' = row_timestamp row
           /\ (forall sp, sp ∈ lagged_sources ->
                 row_values row' !! lag_key sp.2 lag
                 = Some (cell_before sp.1 lag df i))
           /\ (forall key,
                 (forall sp, sp ∈ lagged_sources -> key <> lag_key sp.2 lag) ->
                 row_values row' !! key = row_values row !! key).
Proof.
  intros Hdf.
  assert (Hin : forall sp, sp ∈ lagged_sources ->
            Forall (fun row => is_Some (row_values row !! sp.1)) df).
  { intros sp Hsp. eapply Forall_impl; [exact Hdf|]. cbn. auto. }
  assert (H1 : ("returns", "return_lag_") ∈ lagged_sources)
    by (unfold lagged_sources; rewrite !elem_of_cons; auto).
  assert (H2 : ("z_residual", "z_residual_lag_") ∈ lagged_sources)
    by (unfold lagged_sources; rewrite !elem_of_cons; auto).
  assert (H3 : ("sigma", "sigma_lag_") ∈ lagged_sources)
    by (unfold lagged_sources; rewrite !elem_of_cons; auto).
  (* a frame whose rows got lagged cells still carries the columns *)
  assert (Hkeep : forall (f : nat -> Row -> Row) (d : DataFrame),
            (forall i row key,
               (forall sp, sp ∈ lagged_sources -> key <> lag_key sp.2 lag) ->
               row_values (f i row) !! key = row_values row !! key) ->
            Forall has_lag_sources d -> Forall has_lag_sources (imap f d)).
  { intros f d Hf Hd. apply Forall_lookup. intros i row' Hi.
    rewrite list_lookup_imap in Hi. apply fmap_Some in Hi as (row & Hrow & ->).
    rewrite Forall_lookup in Hd. specialize (Hd i row Hrow).
    intros sp Hsp. rewrite Hf; [auto|].
    intros sp' Hsp' E. symmetry in E.
    exact (lag_key_not_source sp' sp lag Hsp' Hsp E). }
  assert (Hext : forall (f : nat -> Row -> Row) (d : DataFrame) source i,
            (forall i row, row_values (f i row) !! source
                           = row_values row !! source) ->
            cell_before source lag (imap f d) i = cell_before source lag d i).
  { intros f d source i Hf. apply cell_before_ext.
    - apply length_imap.
    - intros j row Hrow. unfold DataFrame in *. exists (f j row).
      rewrite list_lookup_imap, Hrow. split; [reflexivity|apply Hf]. }
  assert (Hother : forall key v row key',
            (forall sp, sp ∈ lagged_sources -> key' <> lag_key sp.2 lag) ->
            (exists sp, sp ∈ lagged_sources /\ key = lag_key sp.2 lag) ->
            row_values (set_cell key v row) !! key'
            = row_values row !! key').
  { intros key v row key' Hne (sp & Hsp & ->). rewrite set_cell_lookup.
    destruct (decide _) as [E|]; [|reflexivity].
    exfalso. exact (Hne sp Hsp (eq_sym E)). }
  set (f1 := fun i row => set_cell (lag_key "return_lag_" lag)
                            (cell_before "returns" lag df i) row).
  assert (Hd1 : Forall has_lag_sources (imap f1 df)).
  { apply Hkeep; [|exact Hdf]. intros i row key Hne. apply Hother; eauto. }
  set (f2 := fun i row => set_cell (lag_key "z_residual_lag_" lag)
                            (cell_before "z_residual" lag (imap f1 df) i)
                            row).
  assert (Hd2 : Forall has_lag_sources (imap f2 (imap f1 df))).
  { apply Hkeep; [|exact Hd1]. intros i row key Hne. apply Hother; eauto. }
  set (f3 := fun i row => set_cell (lag_key "sigma_lag_" lag)
                            (cell_before "sigma" lag
                               (imap f2 (imap f1 df)) i) row).
  exists (imap f3 (imap f2 (imap f1 df))). split.
  { intros A k.
    rewrite (add_lag_spec "returns" "return_lag_" lag df (Hin _ H1)).
    cbn [bind]. fold f1.
    rewrite (add_lag_spec "z_residual" "z_residual_lag_" lag (imap f1 df)).
    2:{ eapply Forall_impl; [exact Hd1|]. cbn. intros row Hrow.
        exact (Hrow _ H2). }
    cbn [bind]. fold f2.
    rewrite (add_lag_spec "sigma" "sigma_lag_" lag (imap f2 (imap f1 df))).
    2:{ eapply Forall_impl; [exact Hd2|]. cbn. intros row Hrow.
        exact (Hrow _ H3). }
    reflexivity. }
  split; [apply Hkeep; [|exact Hd2]; intros i row key Hne; apply Hother; eauto|].
  split; [rewrite !length_imap; reflexivity|].
  intros i row Hrow. exists (f3 i (f2 i (f1 i row))).
  split.
  { unfold DataFrame in *. rewrite !list_lookup_imap, Hrow. reflexivity. }
  split; [reflexivity|].
  assert (E2 : cell_before "z_residual" lag (imap f1 df) i
               = cell_before "z_residual" lag df i).
  { apply Hext. intros j r. apply (Hother _ _ _ "z_residual").
    - intros sp Hsp E. exact (lag_key_not_source sp _ lag Hsp H2 (eq_sym E)).
    - eauto. }
  assert (E3 : cell_before "sigma" lag (imap f2 (imap f1 df)) i
               = cell_before "sigma" lag df i).
  { rewrite Hext, Hext; [reflexivity| |];
      intros j r; apply (Hother _ _ _ "sigma"); eauto;
      intros sp Hsp E; exact (lag_key_not_source sp _ lag Hsp H3 (eq_sym E)). }
  split.
  - intros sp Hsp. apply elem_of_lagged_sources in Hsp.
    unfold f3. rewrite E3. unfold f2. rewrite E2. unfold f1.
    rewrite !set_cell_lookup.
    destruct Hsp as [-> | [-> | ->]]; cbn [fst snd];
      repeat (let E := fresh "E" in
              destruct (decide _) as [E|E];
              [try reflexivity;
               try (unfold lag_key in E; cbn in E; discriminate E)
              |try (exfalso; apply E; reflexivity)]).
  - intros key Hne. unfold f3, f2, f1.
    rewrite !Hother; eauto.
Qed.

Lemma _add_lagged_features_spec lags :
  forall df : DataFrame,
    Forall has_lag_sources df ->
    exists out,
      _add_lagged_features lags df = inr out
      /\ length out = length df
      /\ forall i row,
           df !! i = Some row ->
           exists row', out !! i = Some row' /\ lagged_row lags df i row row'.
Proof.
  induction lags as [|lag rest IH]; intros df Hdf.
  - exists df. split; [reflexivity|]. split; [reflexivity|].
    intros i row Hrow. exists row. split; [exact Hrow|].
    split; [reflexivity|]. split; [|reflexivity].
    intros lag sp Hlag. apply elem_of_nil in Hlag. contradiction.
  - destruct (one_lag_spec lag df Hdf) as (df3 & Hrun & Hd3 & Hlen3 & Hrows3).
    destruct (IH df3 Hd3) as (out & Hout & Hlen & Hrows).
    exists out. cbn [_add_lagged_features]. rewrite Hrun.
    split; [exact Hout|]. split; [congruence|].
    intros i row Hrow.
    destruct (Hrows3 i row Hrow) as (row3 & Hrow3 & Hts3 & Hnew3 & Hold3).
    destruct (Hrows i row3 Hrow3) as (row' & Hrow' & Hts & Hnew & Hold).
    exists row'. split; [exact Hrow'|].
    assert (Hext : forall source lag',
              (exists sp, sp ∈ lagged_sources /\ sp.1 = source) ->
              cell_before source lag' df3 i = cell_before source lag' df i).
    { intros source lag' (sp & Hsp & <-). apply cell_before_ext; [exact Hlen3|].
      intros j r Hr.
      destruct (Hrows3 j r Hr) as (r3 & Hr3 & _ & _ & Hsame).
      exists r3. split; [exact Hr3|]. apply Hsame.
      intros sp' Hsp' E. exact (lag_key_not_source sp' sp lag Hsp' Hsp (eq_sym E)). }
    split; [congruence|]. split.
    + intros lag' sp Hlag Hsp.
      destruct (decide (lag' ∈ rest)) as [Hin|Hnotin].
      * rewrite (Hnew lag' sp Hin Hsp). f_equal. apply Hext. eauto.
      * apply elem_of_cons in Hlag as [->|Hlag]; [|contradiction].
        rewrite Hold; [apply Hnew3; exact Hsp|].
        intros Hkey. apply elem_of_lag_keys in Hkey
          as (lag' & sp' & Hlag' & Hsp' & E).
        apply lag_key_inj in E as [_ ->]; [|assumption..].
        contradiction.
    + intros key Hkey.
      rewrite Hold, Hold3; [reflexivity| |].
      * intros sp Hsp ->. apply Hkey. apply elem_of_lag_keys.
        exists lag, sp. split; [left|auto].
      * intros Hin. apply Hkey. apply elem_of_lag_keys in Hin
          as (lag' & sp & Hlag' & Hsp & ->).
        apply elem_of_lag_keys. exists lag', sp. split; [right; exact Hlag'|auto].
Qed.

(** X23. The lagged features copy earlier rows.  On a frame that has rows,
    all with the columns ["returns"], ["z_residual"] and ["sigma"], and for
    lags that [shift] accepts ([int64] numbers of rows), the stage returns
    a frame of the same length with the same timestamps.  For every
    lag [k] of the configuration, row [i] holds under ["return_lag_k"],
    ["z_residual_lag_k"] and ["sigma_lag_k"] the cells that row [i - k] of
    the input holds under the three columns, and NaN when there is no such
    row: for a lag that is not negative a lagged cell is read from the row
    itself or an earlier one, never from a later one.  Every cell under
    another name is the one of the input, the three columns included,
    whatever the order of the lags and however often a lag is repeated.
    With a lag to add, a frame that lacks ["returns"] in one of its rows
    raises [KeyError]. *)
Theorem lagged_features_copy_earlier_rows lags (df : DataFrame) :
  (df <> [] -> Forall (fun lag => Z.abs lag < 2 ^ 63) lags ->
   Forall has_lag_sources df ->
   exists out,
     _add_lagged_features lags df = inr out
     /\ length out = length df
     /\ forall i row,
          df !! i = Some row ->
          exists row',
            out !! i = Some row' /\ lagged_row lags df i row row')
  /\ (forall row, lags <> [] -> row ∈ df ->
      row_values row !! "returns" = None ->
      _add_lagged_features lags df = inl (KeyError "returns")).
Proof.
  split; [intros _ _; apply _add_lagged_features_spec|].
  intros row Hlags Hin Hnone. destruct lags as [|lag rest]; [congruence|].
  cbn [_add_lagged_features]. unfold add_lag at 1.
  rewrite (get_column_missing "returns" df row Hin Hnone). reflexivity.
Qed.

(** Three bars and the lags 1 and 5: the second row holds the return of the
    first under ["return_lag_1"], the first row NaN, and no row has a row
    five places before it. *)
Lemma lagged_features_copy_earlier_rows_witness :
  (exists out,
     _add_lagged_features [1; 5] residual_bars = inr out
     /\ map (fun row => (row_values row !! "return_lag_1",
                         row_values row !! "sigma_lag_5",
                         row_values row !! "returns")) out
        = [(Some nan, Some nan, Some 0.01%float);
           (Some 0.01%float, Some nan, Some 0.02%float);
           (Some 0.02%float, Some nan, Some 0.03%float)]
     /\ length out = length residual_bars
     /\ forall i row,
          residual_bars !! i = Some row ->
          exists row',
            out !! i = Some row'
            /\ lagged_row [1; 5] residual_bars i row row')
  /\ _add_lagged_features default_lags six_closes
     = inl (KeyError "returns").
Proof.
  split.
  - destruct (proj1 (lagged_features_copy_earlier_rows [1; 5] residual_bars))
      as (out & Hout & Hlen & Hrows).
    { discriminate. }
    { repeat constructor. }
    { unfold residual_bars.
      repeat first [apply List.Forall_nil
                   | apply List.Forall_cons;
                     [intros sp Hsp; apply elem_of_lagged_sources in Hsp;
                      destruct Hsp as [-> | [-> | ->]]; vm_compute; eauto|]]. }
    exists out. split; [exact Hout|]. split; [|split; assumption].
    vm_compute in Hout. injection Hout as <-. vm_compute. reflexivity.
  - apply (proj2 (lagged_features_copy_earlier_rows default_lags six_closes)
             (close_bar 0 100)).
    + discriminate.
    + unfold six_closes. left.
    + vm_compute. reflexivity.
Defined.

(* ===================================================================== *)
(** ** The drawdown of a ledger without losses *)
(* ===================================================================== *)

Lemma Prim2SF_inj x y : Prim2SF x = Prim2SF y -> x = y.
Proof.
  intros H. rewrite <- (SF2Prim_Prim2SF x), <- (SF2Prim_Prim2SF y), H.
  reflexivity.
Qed.

(** Two doubles above zero that are each at most the other are the same
    double. *)
Lemma leb_antisym_pos x y :
  PrimFloat.ltb 0 x = true ->
  PrimFloat.leb x y = true -> PrimFloat.leb y x = true -> x = y.
Proof.
  intros Hpos Hxy Hyx. apply ltb_0_shape in Hpos.
  rewrite FloatAxioms.leb_spec in Hxy, Hyx. apply Prim2SF_inj.
  destruct (Prim2SF x) as [sx|[]| |[] mx ex]; try contradiction;
    destruct (Prim2SF y) as [sy|[]| |[] my ey];
    try discriminate Hxy; try discriminate Hyx; [reflexivity|].
  apply SFleb_pos_iff in Hxy, Hyx.
  assert (ex = ey) by lia. subst ey.
  assert (mx = my) by lia. subst my. reflexivity.
Qed.

Lemma ltb_0_not_nan x : PrimFloat.ltb 0 x = true -> PrimFloat.is_nan x = false.
Proof.
  intros H. apply ltb_0_shape in H.
  destruct (PrimFloat.is_nan x) eqn:E; [|reflexivity].
  apply is_nan_spec in E. rewrite E in H. contradiction.
Qed.

(** The running maximum of a rising sequence of doubles above zero is the
    sequence. *)
Lemma accumulate_rising l :
  forall acc,
    PrimFloat.ltb 0 acc = true ->
    StronglySorted (fun a b => PrimFloat.leb a b = true) (acc :: l) ->
    accumulate_from np_maximum acc l = l.
Proof.
  induction l as [|x rest IH]; intros acc Hpos Hsorted; [reflexivity|].
  apply StronglySorted_inv in Hsorted as [Hrest Hacc].
  apply Forall_cons in Hacc as [Hx _].
  cbn [accumulate_from]. cbv zeta.
  assert (E : np_maximum acc x = x).
  { unfold np_maximum. rewrite (ltb_0_not_nan acc Hpos), orb_false_r.
    destruct (PrimFloat.leb x acc) eqn:Hle; [|reflexivity].
    apply leb_antisym_pos; assumption. }
  rewrite E. f_equal. apply IH; [|exact Hrest].
  eapply ltb_0_leb; eassumption.
Qed.

(** Zero divided by a double above zero is zero. *)
Lemma zero_div_pos x : PrimFloat.ltb 0 x = true -> (0 / x)%float = 0%float.
Proof.
  intros H. apply ltb_0_shape in H. apply Prim2SF_inj.
  rewrite FloatAxioms.div_spec. change (Prim2SF 0) with (S754_zero false).
  destruct (Prim2SF x) as [sx|[]| |[] mx ex]; try contradiction; reflexivity.
Qed.

(** In a rising sequence every double is at most the last. *)
Lemma StronglySorted_last {A : Type} (R : A -> A -> Prop) (l : list A) z :
  StronglySorted R l -> last l = Some z ->
  Forall (fun x => x = z \/ R x z) l.
Proof.
  induction 1 as [|x l Hsorted IH Hx]; intros Hlast; [constructor|].
  destruct l as [|y rest].
  - injection Hlast as ->. repeat constructor.
  - change (last (x :: y :: rest)) with (last (y :: rest)) in Hlast.
    constructor; [|auto]. right.
    rewrite Forall_forall in Hx. apply Hx.
    rewrite last_lookup in Hlast. eapply list_elem_of_lookup_2. exact Hlast.
Qed.

Lemma Prim2SF_is_finite x s m e :
  Prim2SF x = S754_finite s m e -> PrimFloat.is_finite x = true.
Proof.
  unfold PrimFloat.is_finite, Prim2SF.
  destruct (PrimFloat.is_nan x); [discriminate|].
  destruct (PrimFloat.is_zero x); [discriminate|].
  destruct (PrimFloat.is_infinity x); [discriminate|]. reflexivity.
Qed.

(** A double above zero that is at most a finite double is finite. *)
Lemma finite_below x z :
  PrimFloat.ltb 0 x = true -> PrimFloat.leb x z = true ->
  PrimFloat.is_finite z = true -> PrimFloat.is_finite x = true.
Proof.
  intros Hpos Hle Hfin. apply ltb_0_shape in Hpos.
  apply Prim2SF_finite in Hfin. rewrite FloatAxioms.leb_spec in Hle.
  destruct (Prim2SF x) as [sx|[]| |[] mx ex] eqn:Ex; try contradiction.
  - destruct (Prim2SF z) as [sz|sz| |sz mz ez]; try contradiction;
      destruct sz; discriminate Hle.
  - eapply Prim2SF_is_finite. exact Ex.
Qed.

Lemma np_min_zeros l :
  Forall (fun x => x = 0%float) l -> l <> [] -> np_min l = inr 0%float.
Proof.
  intros Hl Hne. destruct l as [|x rest]; [congruence|].
  apply Forall_cons in Hl as [-> Hrest]. cbn [np_min]. f_equal. clear Hne.
  induction Hrest as [|y rest -> _ IH]; [reflexivity|].
  cbn [fold_left]. change (np_minimum 0 0) with 0%float. exact IH.
Qed.

(** X24. A ledger without losses has no drawdown.  For an initial equity
    above zero and a ledger that is not empty, in which no pnl is under
    zero and whose final equity is finite, whose first entry and last exit
    are less than 2^63 nanoseconds apart and whose holding counts add up to
    less than 2^63, the metrics are computed, the running peak of the
    equity curve is the curve itself, and the report states a
    [max_drawdown] of zero and, there being no drawdown to divide by, a
    [mar] of zero. *)
Theorem lossless_ledger_has_no_drawdown float_pow self ledger :
  ledger <> [] ->
  ledger_span_fits ledger ->
  holding_counts_fit ledger ->
  PrimFloat.ltb 0 (initial_equity self) = true ->
  Forall (fun t => PrimFloat.leb 0 (pnl t) = true) ledger ->
  (forall point, last (_build_equity_curve self ledger) = Some point ->
                 PrimFloat.is_finite (point_equity point) = true) ->
  exists m,
    _compute_metrics float_pow self ledger (_build_equity_curve self ledger)
    = inr m
    /\ np_maximum_accumulate
         (map point_equity (_build_equity_curve self ledger))
       = map point_equity (_build_equity_curve self ledger)
    /\ max_drawdown m = 0%float /\ mar m = 0%float.
Proof.
  intros Hne Hspan _ Hpos Hall Hfinal.
  destruct (_compute_metrics_ok float_pow self ledger Hspan) as [m Hm].
  exists m. split; [exact Hm|].
  pose proof (equity_loop_rises ledger (initial_equity self) Hpos Hall)
    as Hsorted.
  fold (_build_equity_curve self ledger) in Hsorted.
  set (equity := map point_equity (_build_equity_curve self ledger)) in *.
  apply StronglySorted_inv in Hsorted as [Hsorted Hinit].
  assert (Hpositive : Forall (fun e => PrimFloat.ltb 0 e = true) equity).
  { eapply Forall_impl; [exact Hinit|]. cbn. intros e He.
    eapply ltb_0_leb; eassumption. }
  assert (Hfinite : Forall (fun e => PrimFloat.is_finite e = true) equity).
  { destruct (last equity) as [z|] eqn:Hz.
    2:{ apply last_None in Hz. rewrite Hz. constructor. }
    assert (Hzfin : PrimFloat.is_finite z = true).
    { unfold equity in Hz. rewrite fmap_last in Hz.
      apply fmap_Some in Hz as (point & Hpoint & ->). auto. }
    pose proof (StronglySorted_last _ _ _ Hsorted Hz) as Hbelow.
    rewrite Forall_forall in Hbelow, Hpositive. apply Forall_forall.
    intros e He. destruct (Hbelow e He) as [->|Hle]; [exact Hzfin|].
    eapply finite_below; eauto. }
  assert (Hpeak : np_maximum_accumulate equity = equity).
  { destruct equity as [|e0 es]; [reflexivity|]. cbn [np_maximum_accumulate].
    f_equal. apply accumulate_rising; [|exact Hsorted].
    apply Forall_cons in Hpositive as [H0 _]. exact H0. }
  split; [exact Hpeak|].
  destruct ledger as [|first rest]; [congruence|].
  unfold _compute_metrics in Hm. fold equity in Hm.
  bind_step Hm as final_equity Hfinal_equity.
  bind_step Hm as span Hspan'.
  bind_step Hm as max_dd Hdd.
  bind_step Hm as cutoff Hcut.
  bind_step Hm as cvar Hcvar.
  injection Hm as <-. cbn [max_drawdown mar].
  rewrite Hpeak in Hdd.
  assert (Hzero : np_min (zip_with (fun e p => ((e - p) / p)%float)
                            equity equity) = inr 0%float).
  { apply np_min_zeros.
    - apply Forall_forall. intros d Hd.
      apply list_elem_of_lookup_1 in Hd as [i Hi].
      rewrite lookup_zip_with in Hi.
      destruct (equity !! i) as [e|] eqn:He; [|discriminate].
      cbn in Hi. injection Hi as <-.
      rewrite Forall_forall in Hpositive, Hfinite.
      apply list_elem_of_lookup_2 in He.
      rewrite (sub_diag_finite e (Hfinite e He)).
      apply zero_div_pos. auto.
    - unfold equity, _build_equity_curve. cbn. discriminate. }
  rewrite Hzero in Hdd. injection Hdd as <-.
  split; reflexivity.
Qed.

(** Gains of 1, 0 and 3 on the default equity of 100000. *)
Lemma lossless_ledger_has_no_drawdown_witness :
  exists m,
    _compute_metrics (fun x _ => x) default_backtester
      (ledger_of_r [1; 0; 3]%float)
      (_build_equity_curve default_backtester (ledger_of_r [1; 0; 3]%float))
    = inr m
    /\ np_maximum_accumulate
         (map point_equity
            (_build_equity_curve default_backtester
               (ledger_of_r [1; 0; 3]%float)))
       = [100001; 100001; 100004]%float
    /\ max_drawdown m = 0%float /\ mar m = 0%float.
Proof.
  destruct (lossless_ledger_has_no_drawdown (fun x _ => x) default_backtester
              (ledger_of_r [1; 0; 3]%float))
    as (m & Hm & Hpeak & Hdd & Hmar).
  - discriminate.
  - vm_compute. reflexivity.
  - vm_compute. reflexivity.
  - vm_compute. reflexivity.
  - unfold ledger_of_r. cbn [map].
    repeat first [apply List.Forall_nil
                 | apply List.Forall_cons; [vm_compute; reflexivity|]].
  - intros point Hpoint. vm_compute in Hpoint. injection Hpoint as <-.
    vm_compute. reflexivity.
  - exists m. split; [exact Hm|]. split; [|split; assumption].
    rewrite Hpeak. vm_compute. reflexivity.
Defined.

(* ===================================================================== *)
(** ** The pnl of a stopped trade *)
(* ===================================================================== *)

Lemma leb_inv_0_shape x :
  match Prim2SF x with
  | S754_zero _ | S754_finite true _ _ | S754_infinity true => True
  | _ => False
  end ->
  PrimFloat.leb x 0 = true.
Proof.
  rewrite FloatAxioms.leb_spec.
  change (Prim2SF 0) with (S754_zero false).
  destruct (Prim2SF x) as [s|[]| |[] m e]; cbn; intros H;
    try contradiction; reflexivity.
Qed.

(** The quotient of a double that is not under zero by a positive finite
    double is not under zero. *)
Lemma div_nonneg x y :
  PrimFloat.leb 0 x = true -> PrimFloat.ltb 0 y = true ->
  PrimFloat.is_finite y = true ->
  PrimFloat.leb 0 (x / y) = true.
Proof.
  intros Hx Hy Hfin. apply leb_0_inv in Hx. apply ltb_0_shape in Hy.
  apply Prim2SF_finite in Hfin.
  apply leb_0_shape. rewrite FloatAxioms.div_spec. unfold SF64div.
  destruct (Prim2SF y) as [sy|sy| |[] my ey]; try contradiction.
  destruct (Prim2SF x) as [sx|[]| |[] mx ex]; try contradiction;
    try exact I.
  cbn [SFdiv xorb]. unfold SFdiv_core_binary.
  set (s := ex - ey - _).
  set (m' := match s with
             | Z.pos _ => Z.shiftl (Z.pos mx) s
             | 0 => Z.pos mx
             | Z.neg _ => 0
             end).
  assert (Hm' : 0 <= m').
  { unfold m'. destruct s as [|p|p]; try lia.
    rewrite Z.shiftl_mul_pow2 by lia.
    assert (0 < 2 ^ Z.pos p) by (apply Z.pow_pos_nonneg; lia). nia. }
  pose proof (Z_div_mod m' (Z.pos my) ltac:(lia)) as Hdiv.
  destruct (Z.div_eucl m' (Z.pos my)) as [q r].
  assert (Hq : 0 <= q) by nia.
  match goal with
  | |- context [binary_round_aux ?p ?e false q ?e' ?l] =>
      pose proof (binary_round_aux_sign false q e' l Hq) as Hs;
      destruct (binary_round_aux p e false q e' l) as [s0|s0| |s0 m0 e0];
      try contradiction; subst s0; exact I
  end.
Qed.

(** Taking a double above a positive finite double off a double under it
    does not leave more than zero. *)
Lemma sub_nonpos a c b :
  PrimFloat.ltb 0 c = true -> PrimFloat.is_finite c = true ->
  PrimFloat.leb a c = true -> PrimFloat.leb c b = true ->
  PrimFloat.leb (a - b) 0 = true.
Proof.
  intros Hpos Hfin Hac Hcb.
  pose proof (leb_trans a c b Hac Hcb) as Hab.
  apply ltb_0_shape in Hpos. apply Prim2SF_finite in Hfin.
  rewrite FloatAxioms.leb_spec in Hac, Hcb, Hab.
  apply leb_inv_0_shape. rewrite FloatAxioms.sub_spec. unfold SF64sub.
  pose proof (Prim2SF_valid a) as Hva. pose proof (Prim2SF_valid b) as Hvb.
  destruct (Prim2SF c) as [sc|sc| |[] mc ec]; try contradiction.
  destruct (Prim2SF b) as [sb|[]| |[] mb eb]; try discriminate Hcb;
    destruct (Prim2SF a) as [sa|[]| |[] ma ea]; try discriminate Hac;
    try exact I.
  - (* a negative, b positive *)
    cbn [SFsub]. cbv zeta. unfold cond_Zopp.
    set (a' := fst (shl_align ma ea (Z.min ea eb))) in *.
    set (b' := fst (shl_align mb eb (Z.min ea eb))) in *.
    destruct (- Z.pos a' - Z.pos b') as [|p|p] eqn:E; cbn [binary_normalize];
      [exact I|lia|].
    pose proof (binary_round_sign true p (Z.min ea eb)) as Hs.
    destruct (binary_round prec emax true p (Z.min ea eb)) as [s|s| |s m e];
      try contradiction; subst s; exact I.
  - (* both positive *)
    pose proof (shl_align_le ma ea mb eb Hva Hvb Hab) as Hle.
    cbn [SFsub]. cbv zeta. unfold cond_Zopp.
    replace (Z.min eb ea) with (Z.min ea eb) in Hle by lia.
    set (a' := fst (shl_align ma ea (Z.min ea eb))) in *.
    set (b' := fst (shl_align mb eb (Z.min ea eb))) in *.
    destruct (Z.pos a' - Z.pos b') as [|p|p] eqn:E; cbn [binary_normalize];
      [exact I|lia|].
    pose proof (binary_round_sign true p (Z.min ea eb)) as Hs.
    destruct (binary_round prec emax true p (Z.min ea eb)) as [s|s| |s m e];
      try contradiction; subst s; exact I.
Qed.

(** Taking a double that is not under zero off a double that is not over
    zero does not leave more than zero. *)
Lemma sub_nonpos_nonneg x c :
  PrimFloat.leb x 0 = true -> PrimFloat.leb 0 c = true ->
  PrimFloat.leb (x - c) 0 = true.
Proof.
  intros Hx Hc. apply leb_inv_0 in Hx. apply leb_0_inv in Hc.
  apply leb_inv_0_shape. rewrite FloatAxioms.sub_spec. unfold SF64sub.
  destruct (Prim2SF x) as [sx|[]| |[] mx ex]; try contradiction;
    destruct (Prim2SF c) as [sc|[]| |[] mc ec]; try contradiction;
    try exact I.
  - destruct sx, sc; exact I.
  - cbn [SFsub]. cbv zeta. unfold cond_Zopp.
    set (x' := fst (shl_align mx ex (Z.min ex ec))) in *.
    set (c' := fst (shl_align mc ec (Z.min ex ec))) in *.
    destruct (- Z.pos x' - Z.pos c') as [|p|p] eqn:E; cbn [binary_normalize];
      [exact I|lia|].
    pose proof (binary_round_sign true p (Z.min ex ec)) as Hs.
    destruct (binary_round prec emax true p (Z.min ex ec)) as [s|s| |s m e];
      try contradiction; subst s; exact I.
Qed.

(** The two fills of a stopped position whose stop is behind its entry: the
    stop is filled at or behind itself, the entry at or ahead of itself. *)
Lemma stop_fill_loses slippage commission entry stop sd :
  PrimFloat.leb 0 slippage = true -> PrimFloat.leb 0 commission = true ->
  PrimFloat.ltb 0 entry = true -> PrimFloat.is_finite entry = true ->
  PrimFloat.ltb 0 stop = true -> PrimFloat.is_finite stop = true ->
  match sd with
  | BUY => PrimFloat.leb stop entry = true
  | SELL => PrimFloat.leb entry stop = true
  end ->
  PrimFloat.leb
    (match sd with
     | BUY => stop * exit_factor BUY slippage - entry * (1 + slippage)
     | SELL => entry * (1 - slippage) - stop * exit_factor SELL slippage
     end - commission) 0 = true.
Proof.
  intros Hs Hc Hepos Hefin Hspos Hsfin Hside.
  assert (Hup : PrimFloat.leb 1 (1 + slippage) = true).
  { apply add_ge; [reflexivity|reflexivity|]. apply leb_0_inv. exact Hs. }
  assert (Hdown : PrimFloat.leb (1 - slippage) 1 = true).
  { apply sub_le; [reflexivity|reflexivity|]. apply leb_0_inv. exact Hs. }
  apply sub_nonpos_nonneg; [|exact Hc]. destruct sd; cbn [exit_factor].
  - apply (sub_nonpos _ stop); [assumption..| |].
    + apply mul_le_1; assumption.
    + eapply leb_trans; [exact Hside|]. apply mul_ge_1; assumption.
  - apply (sub_nonpos _ entry); [assumption..| |].
    + apply mul_le_1; assumption.
    + eapply leb_trans; [exact Hside|]. apply mul_ge_1; assumption.
Qed.

(** X25. A stopped trade never shows a gain when its stop was behind its
    entry.  For a slippage and a commission that are not negative, if every
    signal has positive finite entry and stop prices and its stop behind its
    entry (at or under the entry of a long signal, at or over the entry of a
    short one), then every trade of the ledger that was closed by its stop
    has a pnl that is not above zero, in double arithmetic: the stop is
    filled at or behind the stop, the entry at or ahead of the entry. *)
Theorem stopped_trades_never_gain self (df : DataFrame) signals ledger :
  PrimFloat.leb 0 (slippage_bps self) = true ->
  PrimFloat.leb 0 (commission self) = true ->
  Forall stop_behind signals ->
  _simulate_trades self df signals = inr ledger ->
  Forall (fun t => exit_reason t = "stop" -> PrimFloat.leb (pnl t) 0 = true)
    ledger.
Proof.
  intros Hbps Hcommission Hsignals Hrun.
  destruct (_simulate_trades_audited self df signals ledger Hrun)
    as (Hbooked & _).
  assert (Hslip : PrimFloat.leb 0 (slippage_bps self / 10000) = true)
    by (apply div_nonneg; [exact Hbps|reflexivity|reflexivity]).
  eapply Forall_impl; [exact Hbooked|]. cbn. intros t Ht Hreason.
  destruct (booked_signal _ _ _ _ Ht) as (signal & Hin & Hentered).
  destruct (entered_filled _ _ _ Hentered) as (Hside & Hstop & Hentry & _).
  destruct (booked_exit _ _ _ _ Ht) as [Hexit Hpnl]. cbv zeta in Hexit.
  destruct Hexit as [[_ Hexit]|[[Hr _]|Hr]]; [|congruence..].
  rewrite Forall_forall in Hsignals.
  destruct (Hsignals signal Hin) as (Hepos & Hefin & Hspos & Hsfin & Hbehind).
  rewrite Hpnl, Hexit, Hentry, Hstop, Hside.
  pose proof (stop_fill_loses (slippage_bps self / 10000) (commission self)
                (sig_entry signal) (sig_stop signal) (sig_side signal)
                Hslip Hcommission Hepos Hefin Hspos Hsfin Hbehind) as H.
  destruct (sig_side signal); exact H.
Qed.

(** The long position is stopped on the second bar and the short one on the
    fourth: each loses the distance to its stop and the slippage of its two
    fills. *)
Lemma stopped_trades_never_gain_witness :
  exists ledger,
    _simulate_trades default_backtester stopped_out_bars stopped_out_signals
    = inr ledger
    /\ map (fun t => (side t, exit_reason t, PrimFloat.ltb (pnl t) (-1)))
         ledger
       = [(BUY, "stop", true); (SELL, "stop", true)]
    /\ Forall (fun t => exit_reason t = "stop" ->
                        PrimFloat.leb (pnl t) 0 = true) ledger.
Proof.
  eexists. split; [vm_compute; reflexivity|]. split; [vm_compute; reflexivity|].
  apply (stopped_trades_never_gain default_backtester stopped_out_bars
           stopped_out_signals).
  - vm_compute. reflexivity.
  - vm_compute. reflexivity.
  - unfold stopped_out_signals.
    repeat first [apply List.Forall_nil
                 | apply List.Forall_cons;
                   [repeat split; vm_compute; reflexivity|]].
  - vm_compute. reflexivity.
Defined.

(* ===================================================================== *)
(** ** Doubles: quotients that are fractions *)
(* ===================================================================== *)

Lemma Zdigits2_ub m : 0 <= m -> 0 <= Zdigits2 m /\ m < 2 ^ Zdigits2 m.
Proof.
  intros Hm. destruct (Z.eq_dec m 0) as [->|Hne]; [cbn; lia|].
  destruct (Zdigits2_bounds m ltac:(lia)) as (H1 & _ & H2). lia.
Qed.

(** The rounding of a mantissa with any location of the digits cut off
    before, step by step. *)
Lemma binary_round_aux_steps_loc s m e l :
  0 <= m ->
  exists m1 m2 e1 e2,
    e1 = Z.max e (fexp prec emax (Zdigits2 m + e))
    /\ m / 2 ^ (e1 - e) <= m1 <= m / 2 ^ (e1 - e) + 1
    /\ e2 = Z.max e1 (fexp prec emax (Zdigits2 m1 + e1))
    /\ m2 = m1 / 2 ^ (e2 - e1)
    /\ 0 <= m1 /\ 0 <= m2
    /\ binary_round_aux prec emax s m e l
       = match m2 with
         | 0 => S754_zero s
         | Z.pos p =>
             if e2 <=? 971 then S754_finite s p e2 else S754_infinity s
         | Z.neg _ => S754_nan
         end.
Proof.
  intros Hm. unfold binary_round_aux.
  destruct (shr_fexp_exact m e l Hm) as [Hm1 He1].
  destruct (shr_fexp prec emax m e l) as [r1 e1].
  cbn [fst snd] in Hm1, He1.
  pose proof (round_nearest_even_bounds (shr_m r1) (loc_of_shr_record r1))
    as Hr.
  set (m1 := round_nearest_even (shr_m r1) (loc_of_shr_record r1)) in *.
  assert (Hk1' : e1 - e = Z.max 0 (fexp prec emax (Zdigits2 m + e) - e))
    by lia.
  rewrite <- Hk1' in Hm1. rewrite Hm1 in Hr.
  assert (Hdiv : 0 <= m / 2 ^ (e1 - e))
    by (apply Z.div_pos; [lia|apply Z.pow_pos_nonneg; lia]).
  assert (Hm1pos : 0 <= m1) by lia.
  destruct (shr_fexp_exact m1 e1 loc_Exact Hm1pos) as [Hm2 He2].
  destruct (shr_fexp prec emax m1 e1 loc_Exact) as [r2 e2].
  cbn [fst snd] in Hm2, He2.
  assert (Hk2' : e2 - e1 = Z.max 0 (fexp prec emax (Zdigits2 m1 + e1) - e1))
    by lia.
  rewrite <- Hk2' in Hm2.
  assert (Hdiv2 : 0 <= m1 / 2 ^ (e2 - e1))
    by (apply Z.div_pos; [lia|apply Z.pow_pos_nonneg; lia]).
  exists m1, (m1 / 2 ^ (e2 - e1)), e1, e2.
  split; [rewrite He1; lia|]. split; [exact Hr|].
  split; [rewrite He2; lia|]. split; [reflexivity|].
  split; [lia|]. split; [exact Hdiv2|].
  rewrite Hm2. reflexivity.
Qed.

(** Rounding is monotone from above for a number cut off under a double:
    if the digits kept are strictly under the double [x], the rounding of
    the number, whatever was cut off, is not over [x]. *)
Lemma binary_round_aux_under m e l mx ex :
  0 <= m -> e <= ex <= 971 ->
  fexp prec emax (Z.pos (digits2_pos mx) + ex) = ex ->
  m < Z.pos mx * 2 ^ (ex - e) ->
  SFleb (binary_round_aux prec emax false m e l)
    (S754_finite false mx ex) = true.
Proof.
  intros Hm He Hcan Hlt.
  destruct (binary_round_aux_steps_loc false m e l Hm)
    as (m1 & m2 & e1 & e2 & He1 & Hm1 & He2 & Hm2 & H1 & H2 & ->).
  pose proof (digits2_pos_ub mx) as Hub.
  pose proof (digits2_pos_lb mx) as Hlb.
  pose proof (fexp_min (Z.pos (digits2_pos mx) + ex)) as Hexmin.
  rewrite Hcan in Hexmin.
  set (D := Z.pos (digits2_pos mx)) in *.
  assert (Hfexp : forall x, fexp prec emax x = Z.max (x - 53) (-1074))
    by reflexivity.
  assert (Hpow : 0 < 2 ^ (ex - e)) by (apply Z.pow_pos_nonneg; lia).
  destruct (Zdigits2_ub m Hm) as (Hd & Hmub).
  assert (Hdig : Zdigits2 m + e <= D + ex).
  { assert (H : Zdigits2 m <= D + (ex - e)).
    { apply Zdigits2_le; [lia|]. split; [lia|].
      rewrite Z.pow_add_r by lia. nia. }
    lia. }
  assert (He1x : e1 <= ex).
  { apply fexp_mono in Hdig. rewrite Hcan in Hdig. lia. }
  assert (Hm1ub : m / 2 ^ (e1 - e) < 2 ^ 53).
  { assert (Hp1 : 0 < 2 ^ (e1 - e)) by (apply Z.pow_pos_nonneg; lia).
    apply Z.div_lt_upper_bound; [exact Hp1|].
    destruct (Z_le_gt_dec (Zdigits2 m) (e1 - e + 53)) as [Hle'|Hgt].
    - rewrite <- Z.pow_add_r by lia.
      assert (2 ^ Zdigits2 m <= 2 ^ (e1 - e + 53))
        by (apply Z.pow_le_mono_r; lia).
      lia.
    - rewrite He1, Hfexp in Hgt. lia. }
  assert (Hm1le : m1 <= 2 ^ 53) by lia.
  destruct m2 as [|p2|p2]; [reflexivity| |lia].
  assert (Hm1pos : 0 < m1).
  { destruct (Z.eq_dec m1 0) as [E|]; [|lia].
    rewrite E in Hm2. rewrite Z.div_0_l in Hm2; [lia|].
    apply Z.pow_nonzero; lia. }
  assert (Hgoal : e2 < ex \/ (e2 = ex /\ Z.pos p2 <= Z.pos mx)).
  { destruct (Z_lt_le_dec e1 ex) as [Hlt1|Hge1].
    - assert (Hd1 : Zdigits2 m1 <= 54).
      { apply Zdigits2_le; [lia|]. split; [lia|].
        change (2 ^ 54) with (2 * 2 ^ 53). lia. }
      assert (He1min : -1074 <= e1) by (rewrite He1, Hfexp; lia).
      assert (He2' : e2 <= e1 + 1) by (rewrite He2, Hfexp; lia).
      destruct (Z_lt_le_dec e2 ex) as [|Hge2]; [left; assumption|right].
      assert (E2 : e2 = ex) by lia. split; [assumption|].
      assert (He21 : e2 - e1 = 1) by lia.
      assert (Hd1' : Zdigits2 m1 = 54).
      { rewrite He2, Hfexp in He21. lia. }
      assert (Hm1eq : 2 ^ 53 <= m1).
      { destruct (Zdigits2_bounds m1 ltac:(lia)) as (_ & Hl & _).
        rewrite Hd1' in Hl. exact Hl. }
      assert (E1 : m1 = 2 ^ 53) by lia.
      rewrite Hm2, He21, E1. change (2 ^ 53 / 2 ^ 1) with (2 ^ 52).
      assert (HD : D = 53).
      { rewrite Hfexp in Hcan. lia. }
      rewrite HD in Hlb. exact Hlb.
    - assert (E1 : e1 = ex) by lia. right.
      assert (Hm1x : m / 2 ^ (ex - e) < Z.pos mx)
        by (apply Z.div_lt_upper_bound; [exact Hpow|lia]).
      rewrite E1 in Hm1.
      assert (Hm1mx : m1 <= Z.pos mx) by lia.
      assert (Hd1 : Zdigits2 m1 <= D).
      { apply Zdigits2_le; [lia|]. lia. }
      assert (He2' : e2 = ex).
      { assert (H := fexp_mono (Zdigits2 m1 + ex) (D + ex) ltac:(lia)).
        rewrite Hcan in H. rewrite E1 in He2. lia. }
      split; [exact He2'|].
      rewrite Hm2, He2', E1, Z.sub_diag, Z.pow_0_r, Z.div_1_r.
      exact Hm1mx. }
  replace (e2 <=? 971) with true by (symmetry; apply Z.leb_le; lia).
  apply SFleb_finite_pos. exact Hgoal.
Qed.

(** The quotient of a positive double by itself is one. *)
Lemma SFdiv_diag m e :
  valid_binary (S754_finite false m e) = true ->
  SFdiv prec emax (S754_finite false m e) (S754_finite false m e)
  = S754_finite false 4503599627370496 (-52).
Proof.
  intros Hv. cbn [SFdiv xorb]. unfold SFdiv_core_binary.
  replace (Zdigits2 (Z.pos m) + e - (Zdigits2 (Z.pos m) + e)) with 0 by lia.
  rewrite Z.sub_diag.
  change (Z.min (fexp prec emax 0) 0) with (-53).
  change (0 - -53) with 53. cbv iota.
  rewrite Z.shiftl_mul_pow2 by lia.
  pose proof (Z_div_mod (Z.pos m * 2 ^ 53) (Z.pos m) ltac:(lia)) as Hdiv.
  destruct (Z.div_eucl (Z.pos m * 2 ^ 53) (Z.pos m)) as [q r].
  assert (Hq : q = 2 ^ 53) by nia. assert (Hr : r = 0) by nia. subst q r.
  assert (Hloc : new_location (Z.pos m) 0 = loc_Exact).
  { unfold new_location, new_location_even, new_location_odd.
    destruct (Z.even (Z.pos m)); reflexivity. }
  rewrite Hloc.
  apply binary_round_aux_exact; [lia|reflexivity|reflexivity].
Qed.

(** The quotient of a positive double by a greater one is not over one. *)
Lemma SFdiv_under mt et mx ex :
  valid_binary (S754_finite false mt et) = true ->
  valid_binary (S754_finite false mx ex) = true ->
  et < ex \/ (et = ex /\ Z.pos mt < Z.pos mx) ->
  SFleb (SFdiv prec emax (S754_finite false mt et) (S754_finite false mx ex))
    (S754_finite false 4503599627370496 (-52)) = true.
Proof.
  intros Hvt Hvx Hlt.
  pose proof (valid_finite _ _ _ Hvt) as [Hct Het].
  pose proof (valid_finite _ _ _ Hvx) as [Hcx Hex].
  pose proof (valid_mantissa _ _ _ Hvt) as [Htub Htlb].
  pose proof (valid_mantissa _ _ _ Hvx) as [Hxub Hxlb].
  pose proof (digits2_pos_lb mt) as Hdtl. pose proof (digits2_pos_ub mt) as Hdtu.
  pose proof (digits2_pos_lb mx) as Hdxl. pose proof (digits2_pos_ub mx) as Hdxu.
  assert (Hfexp : forall x, fexp prec emax x = Z.max (x - 53) (-1074))
    by reflexivity.
  cbn [SFdiv xorb]. unfold SFdiv_core_binary. cbn [Zdigits2].
  set (d1 := Z.pos (digits2_pos mt)) in *.
  set (d2 := Z.pos (digits2_pos mx)) in *.
  set (e' := Z.min (fexp prec emax (d1 + et - (d2 + ex))) (et - ex)).
  set (s := et - ex - e').
  set (m' := match s with
             | Z.pos _ => Z.shiftl (Z.pos mt) s
             | 0 => Z.pos mt
             | Z.neg _ => 0
             end).
  (* the value of the first is under the value of the second *)
  assert (Hval : Z.pos mt < Z.pos mx * 2 ^ (ex - et)).
  { destruct Hlt as [Hlt|[-> Hlt]].
    - specialize (Hxlb ltac:(lia)).
      assert (2 ^ 1 <= 2 ^ (ex - et)) by (apply Z.pow_le_mono_r; lia).
      change (2 ^ 1) with 2 in *. nia.
    - rewrite Z.sub_diag, Z.pow_0_r. lia. }
  assert (Hdigits : d1 + et <= d2 + ex).
  { rewrite Hfexp in Hct, Hcx. destruct Hlt as [Hlt|[-> Hlt]]; [lia|].
    assert (d1 <= d2); [|lia].
    destruct (Z_le_gt_dec d1 d2) as [|Hgt]; [assumption|exfalso].
    assert (2 ^ d2 <= 2 ^ (d1 - 1)) by (apply Z.pow_le_mono_r; lia).
    lia. }
  assert (He' : e' <= -53) by (unfold e'; rewrite Hfexp; lia).
  assert (Hs : 0 <= s) by (unfold s, e'; lia).
  assert (Hm' : m' = Z.pos mt * 2 ^ s).
  { unfold m'. destruct s as [|p|p] eqn:E; [lia| |lia].
    apply Z.shiftl_mul_pow2. lia. }
  pose proof (Z_div_mod m' (Z.pos mx) ltac:(lia)) as Hdiv.
  destruct (Z.div_eucl m' (Z.pos mx)) as [q r].
  assert (Hpow : 0 < 2 ^ s) by (apply Z.pow_pos_nonneg; lia).
  assert (Hq : 0 <= q) by nia.
  apply binary_round_aux_under; [exact Hq|lia|reflexivity|].
  change (Z.pos 4503599627370496) with (2 ^ 52).
  rewrite <- Z.pow_add_r by lia. replace (52 + (-52 - e')) with (- e') by lia.
  assert (Hsplit : 2 ^ (- e') = 2 ^ (ex - et) * 2 ^ s).
  { rewrite <- Z.pow_add_r by lia. f_equal. unfold s. lia. }
  rewrite Hsplit. nia.
Qed.

(** The quotient of two positive finite doubles in their order is not over
    one. *)
Lemma div_le_1 t x :
  PrimFloat.ltb 0 t = true -> PrimFloat.is_finite t = true ->
  PrimFloat.is_finite x = true -> PrimFloat.leb t x = true ->
  PrimFloat.leb (t / x) 1 = true.
Proof.
  intros Hpos Hft Hfx Hle. apply ltb_0_shape in Hpos.
  apply Prim2SF_finite in Hft, Hfx.
  rewrite FloatAxioms.leb_spec in Hle.
  rewrite FloatAxioms.leb_spec, FloatAxioms.div_spec, Prim2SF_one.
  unfold SF64div.
  pose proof (Prim2SF_valid t) as Hvt. pose proof (Prim2SF_valid x) as Hvx.
  destruct (Prim2SF t) as [st|st| |[] mt et]; try contradiction.
  destruct (Prim2SF x) as [sx|sx| |[] mx ex]; try contradiction;
    try discriminate Hle.
  apply SFleb_pos_iff in Hle.
  destruct (Z.eq_dec et ex) as [->|Hne].
  - destruct (Pos.eq_dec mt mx) as [->|Hm].
    + rewrite (SFdiv_diag mx ex Hvx). reflexivity.
    + apply SFdiv_under; [assumption..|]. right. split; [reflexivity|].
      destruct Hle as [Hle|[_ Hle]]; [lia|].
      assert (Z.pos mt <> Z.pos mx) by congruence. lia.
  - apply SFdiv_under; [assumption..|]. left. lia.
Qed.

(** The quotient of a positive finite double by itself. *)
Lemma div_diag t :
  PrimFloat.ltb 0 t = true -> PrimFloat.is_finite t = true ->
  (t / t)%float = 1%float.
Proof.
  intros Hpos Hfin. apply ltb_0_shape in Hpos. apply Prim2SF_finite in Hfin.
  apply Prim2SF_inj. rewrite FloatAxioms.div_spec, Prim2SF_one.
  pose proof (Prim2SF_valid t) as Hv. unfold SF64div.
  destruct (Prim2SF t) as [st|st| |[] mt et]; try contradiction.
  apply SFdiv_diag. exact Hv.
Qed.

(** Of two numbers, the first is under the second or the second is at most
    the first. *)
Lemma ltb_false_leb x y :
  PrimFloat.is_nan x = false -> PrimFloat.is_nan y = false ->
  PrimFloat.ltb x y = false -> PrimFloat.leb y x = true.
Proof.
  intros Hx Hy. rewrite FloatAxioms.leb_spec, FloatAxioms.ltb_spec.
  unfold SFleb, SFltb. rewrite (SFcompare_antisym (Prim2SF x) (Prim2SF y)).
  destruct (SFcompare (Prim2SF x) (Prim2SF y)) as [[]|] eqn:E; cbn;
    try discriminate; try reflexivity.
  intros _. apply SFcompare_None in E as [E|E]; apply is_nan_spec in E;
    congruence.
Qed.

(** The double of an integer that is not negative is a zero or a positive
    finite double. *)
Lemma float_of_Z_nonneg z :
  0 <= z ->
  match Prim2SF (float_of_Z z) with
  | S754_zero _ | S754_finite false _ _ => True
  | _ => False
  end.
Proof.
  intros Hz. unfold float_of_Z.
  replace (z <? 0) with false by (symmetry; apply Z.ltb_ge; lia).
  pose proof (of_uint63_bounded (Uint63.of_Z z)) as Hb.
  rewrite of_uint63_spec in *.
  pose proof (Uint63.to_Z_bounded (Uint63.of_Z z)) as Hn.
  destruct (Uint63.to_Z (Uint63.of_Z z)) as [|m|m]; cbn [binary_normalize] in *;
    [exact I| |lia].
  pose proof (binary_round_sign false m 0) as Hs.
  destruct (binary_round prec emax false m 0) as [s|s| |s m0 e0];
    try contradiction; subst s; exact I.
Qed.

(** The double of a positive integer of 53 bits at most is the integer
    itself, with a mantissa of 53 digits. *)
Lemma float_of_Z_exact k :
  0 < k < 2 ^ 53 ->
  exists m,
    Prim2SF (float_of_Z k) = S754_finite false m (Zdigits2 k - 53)
    /\ Z.pos m = k * 2 ^ (53 - Zdigits2 k).
Proof.
  intros Hk. unfold float_of_Z.
  replace (k <? 0) with false by (symmetry; apply Z.ltb_ge; lia).
  rewrite of_uint63_spec, Uint63.of_Z_spec.
  assert (H63 : 2 ^ 53 < wB) by reflexivity.
  rewrite Z.mod_small by lia.
  destruct k as [|p|p]; try lia. cbn [binary_normalize Zdigits2].
  pose proof (digits2_pos_ub p) as Hub. pose proof (digits2_pos_lb p) as Hlb.
  set (d := Z.pos (digits2_pos p)) in *.
  assert (Hd : 1 <= d <= 53).
  { split; [unfold d; lia|].
    destruct (Z_le_gt_dec d 53) as [|Hgt]; [assumption|exfalso].
    assert (2 ^ 53 <= 2 ^ (d - 1)) by (apply Z.pow_le_mono_r; lia). lia. }
  assert (Hfexp : forall x, fexp prec emax x = Z.max (x - 53) (-1074))
    by reflexivity.
  unfold binary_round.
  destruct (shl_align_spec p 0 (fexp prec emax (Z.pos (digits2_pos p) + 0)))
    as [Hez Hmz].
  fold d in Hez, Hmz. rewrite Hfexp in Hez, Hmz.
  replace (Z.min 0 (Z.max (d + 0 - 53) (-1074))) with (d - 53) in Hez, Hmz
    by lia.
  fold d. rewrite Hfexp.
  destruct (shl_align p 0 (Z.max (d + 0 - 53) (-1074))) as [mz ez].
  cbn [fst snd] in Hez, Hmz. subst ez.
  exists mz. split; [|rewrite Hmz; f_equal; f_equal; lia].
  apply binary_round_aux_exact; [lia| |rewrite Z.sub_diag; lia].
  assert (Hdz : Z.pos (digits2_pos mz) = 53).
  { change (Z.pos (digits2_pos mz)) with (Zdigits2 (Z.pos mz)).
    rewrite Hmz, Zdigits2_shift by lia. fold d. lia. }
  rewrite Hdz, Hfexp. lia.
Qed.

Lemma Zdigits2_mono a b : 0 < a <= b -> Zdigits2 a <= Zdigits2 b.
Proof.
  intros H. destruct (Zdigits2_bounds a ltac:(lia)) as (Ha & Hal & _).
  replace (Zdigits2 a) with (Zdigits2 a - 1 + 1) by lia.
  apply Zdigits2_lower; lia.
Qed.

(** The doubles of two counts are in the order of the counts. *)
Lemma float_of_Z_mono k n :
  0 <= k <= n -> n < 2 ^ 53 ->
  PrimFloat.leb (float_of_Z k) (float_of_Z n) = true.
Proof.
  intros Hk Hn. destruct (Z.eq_dec k 0) as [->|Hne].
  - apply leb_0_shape. pose proof (float_of_Z_nonneg n ltac:(lia)) as H.
    destruct (Prim2SF (float_of_Z n)) as [s|s| |[] m e]; try contradiction;
      exact I.
  - destruct (float_of_Z_exact k ltac:(lia)) as (mk & Ek & Hmk).
    destruct (float_of_Z_exact n ltac:(lia)) as (mn & En & Hmn).
    rewrite FloatAxioms.leb_spec, Ek, En. apply SFleb_finite_pos.
    pose proof (Zdigits2_mono k n ltac:(lia)) as Hd.
    destruct (Z.eq_dec (Zdigits2 k) (Zdigits2 n)) as [E|E]; [right|left; lia].
    split; [lia|]. rewrite Hmk, Hmn, E.
    destruct (Zdigits2_ub n ltac:(lia)) as [_ Hub].
    assert (Zdigits2 n <= 53).
    { destruct (Z_le_gt_dec (Zdigits2 n) 53) as [|Hgt]; [assumption|exfalso].
      destruct (Zdigits2_bounds n ltac:(lia)) as (_ & Hl & _).
      assert (2 ^ 53 <= 2 ^ (Zdigits2 n - 1)) by (apply Z.pow_le_mono_r; lia).
      lia. }
    assert (0 < 2 ^ (53 - Zdigits2 n)) by (apply Z.pow_pos_nonneg; lia).
    nia.
Qed.

(** The double of a positive count is a positive finite double. *)
Lemma float_of_Z_pos n :
  0 < n < 2 ^ 53 ->
  PrimFloat.ltb 0 (float_of_Z n) = true
  /\ PrimFloat.is_finite (float_of_Z n) = true.
Proof.
  intros Hn. destruct (float_of_Z_exact n Hn) as (m & E & _). split.
  - rewrite FloatAxioms.ltb_spec, E. reflexivity.
  - eapply Prim2SF_is_finite. exact E.
Qed.

(** A quotient of two doubles in their order, the first not under zero and
    the second finite and not zero, is a fraction. *)
Lemma fraction t x :
  match Prim2SF t with
  | S754_zero _ | S754_finite false _ _ => True
  | _ => False
  end ->
  PrimFloat.is_finite x = true -> PrimFloat.eqb x 0 = false ->
  PrimFloat.leb t x = true ->
  PrimFloat.leb 0 (t / x) = true /\ PrimFloat.leb (t / x) 1 = true.
Proof.
  intros Ht Hfx Hnz Hle.
  assert (Hxpos : PrimFloat.ltb 0 x = true).
  { rewrite FloatAxioms.eqb_spec in Hnz. rewrite FloatAxioms.leb_spec in Hle.
    rewrite FloatAxioms.ltb_spec. apply Prim2SF_finite in Hfx.
    change (Prim2SF 0) with (S754_zero false) in *.
    destruct (Prim2SF x) as [sx|sx| |[] mx ex]; try contradiction;
      try discriminate Hnz; [|reflexivity].
    destruct (Prim2SF t) as [st|st| |[] mt et]; try contradiction;
      discriminate Hle. }
  assert (Htnn : PrimFloat.leb 0 t = true).
  { apply leb_0_shape. destruct (Prim2SF t) as [st|st| |[] mt et];
      try contradiction; exact I. }
  split; [apply div_nonneg; assumption|].
  destruct (Prim2SF t) as [st|st| |[] mt et] eqn:Et; try contradiction.
  - (* zero over a positive double *)
    rewrite FloatAxioms.leb_spec, FloatAxioms.div_spec, Et, Prim2SF_one.
    apply ltb_0_shape in Hxpos. unfold SF64div.
    destruct (Prim2SF x) as [sx|[]| |[] mx ex]; try contradiction;
      destruct st; reflexivity.
  - apply div_le_1; try assumption.
    + rewrite FloatAxioms.ltb_spec, Et. reflexivity.
    + eapply Prim2SF_is_finite. exact Et.
Qed.

(* ===================================================================== *)
(** ** The fractions of the metrics *)
(* ===================================================================== *)

(** A zero or a finite double is finite. *)
Lemma finite_of_shape x :
  match Prim2SF x with
  | S754_zero _ | S754_finite _ _ _ => True
  | _ => False
  end ->
  PrimFloat.is_finite x = true.
Proof.
  intros H. destruct (Prim2SF x) as [s|s| |s m e] eqn:E; try contradiction.
  - unfold PrimFloat.is_finite.
    assert (Hnan : PrimFloat.is_nan x = false).
    { destruct (PrimFloat.is_nan x) eqn:Hn; [|reflexivity].
      apply is_nan_spec in Hn. congruence. }
    rewrite Hnan. unfold PrimFloat.is_infinity.
    rewrite FloatAxioms.eqb_spec, FloatAxioms.abs_spec, E. reflexivity.
  - eapply Prim2SF_is_finite. exact E.
Qed.

Lemma not_nan_of_shape x :
  match Prim2SF x with
  | S754_zero _ | S754_finite _ _ _ => True
  | _ => False
  end ->
  PrimFloat.is_nan x = false.
Proof.
  intros H. destruct (PrimFloat.is_nan x) eqn:Hn; [|reflexivity].
  apply is_nan_spec in Hn. rewrite Hn in H. contradiction.
Qed.

Lemma leb_refl_shape x :
  match Prim2SF x with
  | S754_zero _ | S754_finite _ _ _ => True
  | _ => False
  end ->
  PrimFloat.leb x x = true.
Proof.
  intros H. rewrite FloatAxioms.leb_spec. unfold SFleb.
  destruct (Prim2SF x) as [s|s| |s m e]; try contradiction.
  - reflexivity.
  - cbn [SFcompare]. rewrite Z.compare_refl.
    rewrite Pos.compare_cont_refl. destruct s; reflexivity.
Qed.

Lemma ltb_0_neq x : PrimFloat.ltb 0 x = true -> PrimFloat.eqb x 0 = false.
Proof.
  rewrite FloatAxioms.eqb_spec, FloatAxioms.ltb_spec.
  change (Prim2SF 0) with (S754_zero false).
  destruct (Prim2SF x) as [s|[]| |[] m e]; intros H; try discriminate H;
    reflexivity.
Qed.

(** The minutes of an interval are a zero or a finite double. *)
Lemma timedelta_minutes_shape dt :
  match Prim2SF (timedelta_minutes dt) with
  | S754_zero _ | S754_finite _ _ _ => True
  | _ => False
  end.
Proof.
  pose proof (div_minute_bounded (float_of_Z dt) (float_of_Z_bounded dt)) as H.
  unfold timedelta_minutes.
  destruct (Prim2SF (float_of_Z dt / 60000000000)) as [s|s| |s m e];
    try contradiction; exact I.
Qed.

Lemma bars_held_sum ledger :
  Forall (fun t => 0 <= bars_held t) ledger ->
  0 <= foldr Z.add 0 (map bars_held ledger).
Proof.
  induction 1 as [|t rest Ht _ IH]; cbn [map foldr]; lia.
Qed.

(** The share of the time in the market. *)
Lemma exposure_fraction x S :
  0 <= S ->
  match Prim2SF x with
  | S754_zero _ | S754_finite _ _ _ => True
  | _ => False
  end ->
  let time_in_market := float_of_Z S in
  let total_minutes := py_max x time_in_market in
  let exposure_ :=
    if negb (PrimFloat.eqb total_minutes 0)
    then (time_in_market / total_minutes)%float
    else 0%float in
  PrimFloat.leb 0 exposure_ = true /\ PrimFloat.leb exposure_ 1 = true.
Proof.
  intros HS Hx. cbv zeta.
  pose proof (float_of_Z_nonneg S HS) as HT.
  set (T := float_of_Z S) in *.
  assert (HTshape : match Prim2SF T with
                    | S754_zero _ | S754_finite _ _ _ => True
                    | _ => False
                    end).
  { destruct (Prim2SF T) as [s|s| |[] m e]; try contradiction; exact I. }
  unfold py_max. destruct (PrimFloat.ltb x T) eqn:Hlt.
  - destruct (PrimFloat.eqb T 0) eqn:Hz; cbn [negb];
      [split; reflexivity|].
    apply fraction; try assumption.
    + apply finite_of_shape. exact HTshape.
    + apply leb_refl_shape. exact HTshape.
  - destruct (PrimFloat.eqb x 0) eqn:Hz; cbn [negb];
      [split; reflexivity|].
    apply fraction; try assumption.
    + apply finite_of_shape. exact Hx.
    + apply ltb_false_leb; [| |exact Hlt]; apply not_nan_of_shape; assumption.
Qed.

(** X26. The win rate and the exposure of a report are fractions.  For a
    ledger of fewer than 2^53 trades in which no holding count is negative
    (the event-driven simulator books one bar at least for every trade),
    whatever the equity curve, the metrics that are computed have a
    [win_rate] and an [exposure] between 0 and 1, both included, in double
    arithmetic: the wins are counted among the trades, and the minutes in
    the market are divided by the larger of the span of the ledger and the
    minutes in the market themselves. *)
Theorem win_rate_and_exposure_are_fractions
    float_pow self ledger equity_curve m :
  Forall (fun t => 0 <= bars_held t) ledger ->
  Z.of_nat (length ledger) < 2 ^ 53 ->
  _compute_metrics float_pow self ledger equity_curve = inr m ->
  (PrimFloat.leb 0 (win_rate m) = true /\ PrimFloat.leb (win_rate m) 1 = true)
  /\ (PrimFloat.leb 0 (exposure m) = true
      /\ PrimFloat.leb (exposure m) 1 = true).
Proof.
  intros Hheld Hlen H. destruct ledger as [|first rest].
  - injection H as <-. repeat split.
  - unfold _compute_metrics in H.
    bind_step H as final_equity Hfinal.
    bind_step H as span Hspan.
    bind_step H as max_dd Hdd.
    bind_step H as cutoff Hcut.
    bind_step H as cvar Hcvar.
    injection H as <-. cbn [win_rate exposure]. split.
    + set (wins := List.filter (fun p => PrimFloat.ltb 0 p)
                     (map pnl (first :: rest))).
      assert (Hwins : (length wins <= length (first :: rest))%nat).
      { unfold wins. rewrite <- (length_map pnl (first :: rest)).
        apply filter_length_le. }
      assert (Hn : 0 < Z.of_nat (length (first :: rest)) < 2 ^ 53)
        by (split; [cbn [length]; lia|exact Hlen]).
      destruct (float_of_Z_pos _ Hn) as [Hpos Hfin].
      apply fraction.
      * pose proof (float_of_Z_nonneg (Z.of_nat (length wins)) ltac:(lia))
          as Hs.
        exact Hs.
      * exact Hfin.
      * apply ltb_0_neq. exact Hpos.
      * apply float_of_Z_mono; [|exact Hlen]. split; [lia|].
        apply Nat2Z.inj_le. exact Hwins.
    + apply exposure_fraction.
      * exact (bars_held_sum (first :: rest) Hheld).
      * apply timedelta_minutes_shape.
Qed.

(** The ten-trade ledger: six wins in ten trades, and a holding time that is
    the whole span. *)
Lemma win_rate_and_exposure_are_fractions_witness :
  exists m,
    _compute_metrics (fun x _ => x) default_backtester (ledger_of_r ten_r)
      (_build_equity_curve default_backtester (ledger_of_r ten_r)) = inr m
    /\ win_rate m = 0.6%float
    /\ (PrimFloat.leb 0 (win_rate m) = true
        /\ PrimFloat.leb (win_rate m) 1 = true)
    /\ (PrimFloat.leb 0 (exposure m) = true
        /\ PrimFloat.leb (exposure m) 1 = true).
Proof.
  eexists. split; [vm_compute; reflexivity|]. split; [vm_compute; reflexivity|].
  apply (win_rate_and_exposure_are_fractions (fun x _ => x) default_backtester
           (ledger_of_r ten_r)
           (_build_equity_curve default_backtester (ledger_of_r ten_r))).
  - unfold ledger_of_r, ten_r. cbn [map].
    repeat first [apply List.Forall_nil
                 | apply List.Forall_cons; [vm_compute; discriminate|]].
  - cbn. lia.
  - vm_compute. reflexivity.
Defined.

(* ===================================================================== *)
(** ** The two fields that pass through the finiteness test *)
(* ===================================================================== *)

(** X27. The two guarded fields.  In every metrics object that
    [_compute_metrics] returns, whatever the ledger and the equity curve,
    [mar] and [payoff] are finite numbers: each passes through
    [np.isfinite] (lines 256 and 259) and is reported as [0.0] when the
    test fails. *)
Theorem mar_and_payoff_are_coerced float_pow self ledger equity_curve m :
  _compute_metrics float_pow self ledger equity_curve = inr m ->
  np_isfinite (mar m) = true /\ np_isfinite (payoff m) = true.
Proof. apply _compute_metrics_coerced. Qed.

(** A single trade that loses the whole initial equity: the drawdown is
    0/0 and is reported as it is, while [mar], which has no negative
    drawdown to divide by, is reported as 0. *)
Lemma mar_and_payoff_are_coerced_witness :
  exists m,
    _compute_metrics (fun x _ => x) frictionless [trade_with (-100000) (-1)]
      (_build_equity_curve frictionless [trade_with (-100000) (-1)]) = inr m
    /\ PrimFloat.is_nan (max_drawdown m) = true
    /\ mar m = 0%float
    /\ np_isfinite (mar m) = true /\ np_isfinite (payoff m) = true.
Proof.
  eexists. split; [vm_compute; reflexivity|].
  split; [vm_compute; reflexivity|]. split; [vm_compute; reflexivity|].
  apply (mar_and_payoff_are_coerced (fun x _ => x) frictionless
           [trade_with (-100000) (-1)]
           (_build_equity_curve frictionless [trade_with (-100000) (-1)])).
  vm_compute. reflexivity.
Defined.
